(* ===== verification/_CoqProject ===== *)
-Q . S2P
Prelude.v
Hex.v
Name.v
HexEndec.v
Namespace.v
StdMap.v
MessageBuffer.v
Common.v
Encode.v
Transport.v
Types.v
Threads.v
Client.v
ClientThreads.v
Fragments.v
Process.v
Server.v
ServerThreads.v
Subscriptions.v
Really.v
Broker.v
RelayBroker.v
RelayThreads.v
ConcurrentRelay.v
System.v
Integrity.v
ReallyMain.v
Text.v
TestLogger.v
ReallyTest.v
Chatty.v
Forty.v
UnitTests.v
