(* ===== verification/Prelude.v ===== *)
(** * new-libquicr: a verification library

    QuicR is a publish/subscribe protocol: publishers announce namespaces and
    send named objects, subscribers ask a relay for namespaces and get the
    objects in them.  This library models the C++ implementation of the
    protocol in the repository (src/, include/quicr/) and the programs that use
    it (cmd/), and proves what they do.

    ** Parts of the program and files

    - [Prelude] (this file): outcomes of C++ computations ([result]: a value, an
      exception, undefined behaviour), computations on a state that survives an
      exception ([M]) with their rules ([preserves]), machine integers and the
      lemmas on their bits, bytes as little-endian integers, and the compilation
      target ([Target]): host byte order, and what becomes of a 64-bit shift by
      64 or more.
    - [Hex]: the hexadecimal text of integers (quicr_name.h, the free functions).
    - [Name]: the 128-bit name, two 64-bit words (quicr_name.h, quicr_name.cpp).
    - [HexEndec]: bit fields packed in hexadecimal text (hex_endec.h).
    - [Namespace]: prefixes of names (quicr_namespace.h, quicr_namespace.cpp).
    - [StdMap]: [std::map] of the C++ library as a list sorted by [operator<];
      keys are equivalent when neither is less, which is coarser than equality
      for namespaces.
    - [MessageBuffer]: the buffer messages are written to and read from, with
      integers in network order, variable-length integers and vectors
      (message_buffer.h, message_buffer.cpp).
    - [Common], [Encode]: the messages with their writers and readers
      (quicr_common.h, encode.h, encode.cpp).
    - [Transport]: the transport (qtransport, a git submodule that is not part of
      the sources) as the interface [ITransport]; the fake transport of the unit
      tests is an instance, and shows that the interface can be met.
    - [Types]: what the readers yield on any bytes.
    - [Client]: Module [QuicRClient], the client (quicr_client.h,
      quicr_client.cpp): its state as a record with the observable calls of the
      delegates and the packets handed to the transport, one definition for each
      operation, for the message handler and for the transport's callbacks.
    - [Threads]: threads that share memory and one mutex: programs as trees of
      accesses, their interleavings, data races, and a discipline that excludes
      them.
    - [ClientThreads]: the client's operations access by access, with the mutex,
      the threads of application and transport, and delegates that call the
      client back ([Reactions]).
    - [Fragments]: large objects end to end: the publisher's fragments and the
      receiver's reassembly.
    - [Process]: several clients of one process, which share the static variables
      [fragments] and [cindex].
    - [Server]: Module [QuicRServer], the server (quicr_server.h,
      quicr_server.cpp); the application is an interface, [ServerDelegate], whose
      methods run on the states of server and application together, because they
      call the server back while a handler runs; [LawfulDelegate] says that they
      do no more than that.
    - [ServerThreads]: the server's handlers access by access, with the mutex and
      a delegate that is called under it and outside ([DelegateCode], [Runs]).
    - [Subscriptions], [Really]: the relay of cmd/really: its table, and its
      delegate as an instance of the server's interface.
    - [Broker]: what a relay promises, with no bytes in it: an abstract broker
      whose state is which ids exist and which namespaces each asks for.
      [RelayBroker]: server and delegate together implement it.
    - [RelayThreads]: that delegate as programs on a table several threads share.
      [ConcurrentRelay]: the threads of the relay implement the broker.
    - [System], [Integrity]: clients, relay and a network between them that
      loses, repeats and reorders packets, run together under any schedule.
    - [ReallyMain]: the relay's process (really.cpp, [main], [signalHandler]):
      the main thread and the signal handlers as threads that share a mutex and
      a condition variable.
    - [Text]: decimal text, [std::setw], C strings, [atoi] and [stoi], as the
      programs use them.  [TestLogger]: the lines of the log (testLogger.cpp).
    - [ReallyTest]: the command-line client (reallyTest.cpp) over [Client].
    - [Chatty]: the chat program (cmd/chatty): Modules [Message],
      [ChannelMsgDelegate], [ChatClient] and [ChatMain].
    - [Forty]: the program that sends forty bytes (cmd/forty/forty-bytes.cpp).
    - [UnitTests]: the unit tests (test/), run on the model.

    ** How the parts interact

    A client writes a message with [Encode] into a [MessageBuffer] and hands the
    bytes to the transport ([enqueue]); the server's [on_recv_notify] dequeues
    them, dispatches on the first byte, reads the message with [Encode], updates
    its maps and calls the delegate, which answers through the server's public
    operations; these write messages that the client's [on_recv_notify] hands to
    [handle].  Names and namespaces are compared and masked on the way.
    [System.perform] is one step of the whole: a call of a client's operation, a
    notification of a client or of the relay with some of the packets sent to it,
    or a change of a connection.  The threads of the four programs are events:
    [perform] of [ReallyMain], [ChatMain] and [Forty] is one step of one thread,
    [exec] a schedule.

    Client, server and the relay's delegate are modelled twice: in [Client],
    [Server] and [Really] an operation is one step, which is what the other files
    build on; in [ClientThreads], [ServerThreads] and [RelayThreads] it is a
    program of single accesses.  [refines] relates the two: each operation, run
    alone, does what its step does, and the operations under the mutex do so
    among any others.

    ** What the theorems show

    - Names are 128-bit integers: shifts, addition, subtraction, order, bit
      operations and hexadecimal text refine those of the integer ([Name]), and a
      namespace contains exactly the names that agree on its prefix
      ([Namespace]).  Lengths of 128 and more leave the defined behaviour.
    - What is written is read back, on a little-endian host, for every integer
      width, variable-length integer below 2^60, vector below 2^16 bytes, and for
      every message; beyond these bounds the theorems state what goes wrong
      ([MessageBuffer], [Encode], [HexEndec]).
    - Malformed bytes: the readers throw or, in one case, have undefined
      behaviour; the server drops such a message without effect.
    - Client: the invariant of all reachable states and the bounds of the
      reassembly store, what each message does to the delegates, what a lost
      connection does.
    - [Fragments.published_object_is_reassembled]: the packets of a large object,
      in any order and with repetitions, make exactly one delivery, at a client
      that holds none of them and need not turn to the next buffer ([receiver]).
      The buffers turn when 5000 names are pending, and what was pending then can
      be completed no more: [Fragments.completion_in_old_buffer_undefined].
    - Threads of a client: each operation run alone is the step of [Client]; calls
      under the mutex are linearizable; the ways of sharing a client among threads
      that are free of races and deadlocks; and the two that are not, delivery
      while another thread subscribes, and a delegate that calls back while its
      subscription ends ([ClientThreads]).
    - Threads of a server: each handler run alone is the step of [Server]; subscribe
      messages and lost connections are linearizable; no interleaving of callbacks
      deadlocks; and where the code leaves the mutex out: two unsubscribe messages
      that take another's id, and the races of unsubscribing and of forwarding
      with subscribing ([ServerThreads], [RelayThreads]).
    - Clients of one process reassemble an object jointly, so that one that got
      every message may deliver nothing ([Process]).
    - Server: the invariant of all reachable states, the life of subscriber ids,
      each handler on each branch; the relay delivers an object byte for byte to
      the connections that asked for it.
    - The relay's contract: whatever bytes arrive and whichever connections are
      lost, as long as reading the bytes is defined and the namespaces in them are
      shorter than 128 bits, server and delegate answer as the abstract broker does
      for the events the bytes are, up to the order of the answers to one message;
      bytes whose reading is undefined make the relay undefined.  While no
      subscription ends early a published object goes exactly once to each
      namespace that was asked for and holds it; after one connection unsubscribes
      from a namespace, another that was subscribed to it and subscribes again is
      sent its objects at least twice; a connection that was lost gets nothing more
      for the names it had asked for, until somebody unsubscribes from them
      ([RelayBroker]).  When several threads of the transport run the handlers
      that keep the mutex, the relay does what the broker does for the same
      events in some order ([ConcurrentRelay]); unsubscribing is not among them,
      as its test is made before the mutex is taken.
    - Together: a large object published at one client reaches a subscriber of
      another through the relay, in whatever order its packets travel ([System]);
      and under any schedule every object a delegate gets is one that a client
      published, in a namespace the delegate asked for ([Integrity]).
    - Whatever bytes arrive, what is read has the types of its members, and is
      written and read again unchanged ([Types]).
    - The relay's process: mutual exclusion, no lost wakeup, termination after a
      signal under every schedule, if no signal interrupts the thread that holds the
      mutex; and the signals that do, which make it undefined ([ReallyMain]).
    - The other programs: what they send and print for which arguments, the order
      and numbering of what their threads exchange, and where they read out of
      bounds ([ReallyTest], [Chatty], [Forty]).

    ** Choices

    - Undefined behaviour is a result of its own that nothing catches.  Reading
      outside a vector, signed overflow, over-long shifts (on the [strict]
      targets) and invalid iterators give it.
    - [int] is 32 bits; unsigned types reduce modulo 2^w ([wrap], [wrap_int]).
    - Fuel: the polling loops of the transport's status have some;
      [wait_terminates] gives the fuel that is enough, one unit for each
      question the transport answers with [Connecting], and one.  The loops of
      [on_recv_notify] count to 150 as in the code.  The walk over the delegates
      ([ClientThreads.visit]) has fuel because a delegate may add entries: the
      number of delegates is enough when the map does not change meanwhile, and
      the safety theorems hold for any, that is, up to any point of the walk.
      The server's walk over the subscriptions has as much as there are entries,
      and [fuel] more, for what is added meanwhile.
    - The theorems on the relay's contract ([RelayBroker], [ConcurrentRelay]) are
      for the target [x86_64], because a search of the relay's table shifts by
      more than 64, and for fewer than 2^64 events, as ids wrap around there.
    - [create_transaction_id] takes the random draw as an argument.
    - Callbacks of a client's delegates are events, except in [ClientThreads],
      where they run code of the application as well; whether a delegate is alive
      and whether it takes the data it is given is an interface
      ([SubscriberApp]).
    - The mutexes of client and server are modelled in [ClientThreads] and
      [ServerThreads], where memory is sequentially consistent: a race is a configuration in which two threads
      are about to make conflicting accesses, and nothing is said of what comes
      after it.  Ways of sharing that are safe are proved with a discipline
      ([follows]) that may rely on a condition all threads keep: for a client, that
      [publish_state] is empty, so that no thread reaches the [operator[]] on it.  [operator[]] of a map counts as a write.  A reference to an
      element of a map is the key it was made with, and is undefined once the
      element is gone.  The transport is taken to synchronise its own calls.  The
      mutexes of the examples are left out: the operations under them are atomic
      steps.  The relay's [main_mutex] is modelled, because the signal handler takes it.  In [ReallyMain.reachable]
      no signal interrupts the thread that holds it; the theorem
      [signal_under_lock_undefined] is about those that do.
    - Pacing and sleeping, the library's log output and memory reservation have
      no effect here.
    - chatty and forty use an older interface of the library, of which the
      repository has no code: its calls are recorded in order, and what it
      delivers are events.
    - In [Types] a namespace of 128 bits or more is only known to have a byte for
      its length: its name depends on the target.
    - The properties' witnesses apply each of them at a concrete input.

    ** Not modelled

    Console output of the library and of the relay's delegate, the benchmarks,
    the checks of type traits in the unit tests, certificates and build files; the
    default delegates and transport callbacks whose bodies are empty or only log.
    Of the transport only what [ITransport] says is known: the theorems about
    threads hold for any number of threads that run callbacks, and how many the
    transport has is not known.  Clients of one process on several threads are
    not modelled: [Process] takes their operations one at a time.  [System] and
    [Integrity] take the relay's handlers one at a time as well; what becomes of
    them access by access is in [ConcurrentRelay]. *)

From stdpp Require Export base tactics option list list_numbers numbers.
From Stdlib Require Export ZArith Lia.

#[export] Ltac Zify.zify_post_hook ::= Z.to_euclidean_division_equations.

#[global] Open Scope Z_scope.

(** * Outcomes of C++ computations

    A C++ expression either yields a value, throws, or has undefined
    behaviour.  [Undefined] is never caught by a [catch] clause. *)

(** The exception types the library throws or lets escape.
    [MessageBuffer::OutOfRangeException], [MessageTypeException] and
    [LengthException] derive from [ReadException]. *)
Inductive exn :=
  | NameException
  | ReadException
  | OutOfRangeException
  | MessageTypeException
  | LengthException
  | runtime_error
  | out_of_range
  | overflow_error
  (* of the programs under cmd/ *)
  | invalid_argument
  | ChatClientException
  | DelegateException.

#[export] Instance exn_eq_dec : EqDecision exn.
Proof. solve_decision. Defined.

(** [catch (const MessageBuffer::ReadException&)] matches these. *)
Definition is_ReadException (e : exn) : bool :=
  match e with
  | ReadException | OutOfRangeException | MessageTypeException
  | LengthException => true
  | _ => false
  end.

Inductive result (A : Type) : Type :=
  | Ret (a : A)
  | Throw (e : exn)
  | Undefined.
Arguments Ret {A} a.
Arguments Throw {A} e.
Arguments Undefined {A}.

#[export] Instance result_ret : MRet result := fun A a => Ret a.
#[export] Instance result_bind : MBind result := fun A B f m =>
  match m with
  | Ret a => f a
  | Throw e => Throw e
  | Undefined => Undefined
  end.

(** A computation is [safe] when it has no undefined behaviour. *)
Definition safe {A} (r : result A) : Prop := r <> Undefined.

(** * Stateful computations: the state survives an exception *)

Definition M (S A : Type) : Type := S -> result A * S.

#[export] Instance M_ret {S} : MRet (M S) := fun A a s => (Ret a, s).
#[export] Instance M_bind {S} : MBind (M S) := fun A B f m s =>
  match m s with
  | (Ret a, s') => f a s'
  | (Throw e, s') => (Throw e, s')
  | (Undefined, s') => (Undefined, s')
  end.

Definition lift {S A} (r : result A) : M S A := fun s => (r, s).
Definition throw {S A} (e : exn) : M S A := fun s => (Throw e, s).
Definition undefined {S A} : M S A := fun s => (Undefined, s).
Definition gets {S A} (f : S -> A) : M S A := fun s => (Ret (f s), s).
Definition modify {S} (f : S -> S) : M S unit := fun s => (Ret tt, f s).

(** Run a computation on a local object that dies at the end of it. *)
Definition on_local {S T A} (t : T) (m : M T A) : M S A :=
  fun s => (fst (m t), s).

(** [try { m } catch (...) { h }] for exceptions accepted by [h]. *)
Definition try_catch {S A} (m : M S A) (h : exn -> option (M S A)) : M S A :=
  fun s =>
    match m s with
    | (Throw e, s') =>
        match h e with Some k => k s' | None => (Throw e, s') end
    | r => r
    end.

(** [for (x : l) f(x)] *)
Fixpoint mfor {S A} (l : list A) (f : A -> M S unit) : M S unit :=
  match l with
  | [] => mret tt
  | x :: l' => f x ≫= fun _ => mfor l' f
  end.

Lemma mfor_app {S A} (l1 l2 : list A) (f : A -> M S unit) s :
  mfor (l1 ++ l2) f s = (mfor l1 f ≫= fun _ => mfor l2 f) s.
Proof.
  revert s. induction l1 as [|x l1 IH]; intros s; [done|]. cbn [app mfor].
  unfold mbind, M_bind. destruct (f x s) as [[a|e|] s1]; [|done..]. apply IH.
Qed.

Section monad_laws.
Context {S A B : Type}.
Implicit Types (m : M S A) (f : A -> M S B) (s : S).

Lemma run_bind_ret m f s s' a :
  m s = (Ret a, s') -> (m ≫= f) s = f a s'.
Proof. unfold mbind, M_bind. by intros ->. Qed.

Lemma run_bind_throw m f s s' e :
  m s = (Throw e, s') -> (m ≫= f) s = (Throw e, s').
Proof. unfold mbind, M_bind. by intros ->. Qed.

Lemma run_bind_undefined m f s s' :
  m s = (Undefined, s') -> (m ≫= f) s = (Undefined, s').
Proof. unfold mbind, M_bind. by intros ->. Qed.

Lemma run_bind_lift (r : A) f s : (lift (Ret r) ≫= f) s = f r s.
Proof. done. Qed.
End monad_laws.

(** ** Invariants of stateful computations

    [preserves I m Q]: from a state in [I], unless its behaviour is undefined,
    [m] ends in a state in [I], also when it throws, and a value it returns
    satisfies [Q]. *)

Definition preserves {S A} (I : S -> Prop) (m : M S A) (Q : A -> Prop) : Prop :=
  forall s, I s -> safe (fst (m s)) ->
    I (snd (m s)) /\ forall a, fst (m s) = Ret a -> Q a.

Definition anything {A} (a : A) : Prop := True.

Section preserves.
Context {S A B : Type} (I : S -> Prop).
Implicit Types (m : M S A) (f : A -> M S B).

Lemma preserves_ret (a : A) (Q : A -> Prop) : Q a -> preserves I (mret a) Q.
Proof. intros Ha s Hs _. split; [done|]. simpl. intros b Hb. by simplify_eq. Qed.

Lemma preserves_bind m f (Q : A -> Prop) (R : B -> Prop) :
  preserves I m Q -> (forall a, Q a -> preserves I (f a) R) -> preserves I (m ≫= f) R.
Proof.
  intros Hm Hf s Hs. specialize (Hm s Hs). unfold mbind, M_bind.
  destruct (m s) as [[a|e|] s'] eqn:E; simpl in *.
  - destruct Hm as [Hs' HQ]; [done|]. intros Hsafe. by apply Hf; [apply HQ| |].
  - intros _. destruct Hm as [Hs' HQ]; [done|]. by split.
  - intros Hsafe. by destruct Hsafe.
Qed.

Lemma preserves_weaken m (Q R : A -> Prop) :
  preserves I m Q -> (forall a, Q a -> R a) -> preserves I m R.
Proof. intros Hm HQ s Hs Hsafe. destruct (Hm s Hs Hsafe). split; auto. Qed.

Lemma preserves_any m (Q : A -> Prop) : preserves I m Q -> preserves I m anything.
Proof. intros Hm. by apply (preserves_weaken m Q). Qed.

Lemma preserves_lift (r : result A) (Q : A -> Prop) :
  (forall a, r = Ret a -> Q a) -> preserves I (lift r) Q.
Proof. intros Hr s Hs _. by split. Qed.

Lemma preserves_throw e (Q : A -> Prop) : preserves I (throw e) Q.
Proof. intros s Hs _. by split. Qed.
Lemma preserves_undefined (Q : A -> Prop) : preserves I undefined Q.
Proof. intros s Hs Hsafe. by destruct Hsafe. Qed.

Lemma preserves_gets (f : S -> A) (Q : A -> Prop) :
  (forall s, I s -> Q (f s)) -> preserves I (gets f) Q.
Proof. intros Hf s Hs _. split; [done|]. simpl. intros a Ha. simplify_eq. by apply Hf. Qed.

Lemma preserves_modify (f : S -> S) (Q : unit -> Prop) :
  (forall s, I s -> I (f s)) -> Q tt -> preserves I (modify f) Q.
Proof. intros Hf HQ s Hs _. split; [by apply Hf|]. by intros []. Qed.

Lemma preserves_on_local {T} (t : T) (m : M T A) (Q : A -> Prop) :
  (forall a, fst (m t) = Ret a -> Q a) -> preserves I (on_local t m) Q.
Proof. intros Hm s Hs _. by split. Qed.

Lemma preserves_try_catch m h (Q : A -> Prop) :
  preserves I m Q -> (forall e k, h e = Some k -> preserves I k Q) ->
  preserves I (try_catch m h) Q.
Proof.
  intros Hm Hh s Hs. specialize (Hm s Hs). unfold try_catch.
  destruct (m s) as [[a|e|] s']; simpl in *; [done| |done].
  destruct Hm as [Hs' _]; [done|]. destruct (h e) as [k|] eqn:E; [by apply (Hh e)|].
  by split.
Qed.

Lemma preserves_mfor {C} (l : list C) (g : C -> M S unit) :
  (forall x, x ∈ l -> preserves I (g x) anything) -> preserves I (mfor l g) anything.
Proof.
  induction l as [|x l IH]; intros Hg; [by intros s Hs _|].
  intros s Hs. cbn [mfor]. unfold mbind, M_bind.
  pose proof (Hg x ltac:(by left) s Hs) as Hx.
  destruct (g x s) as [[a|e|] s'] eqn:E; simpl in *.
  2: { intros _. by destruct Hx. }
  2: { intros Hsafe. by destruct Hsafe. }
  apply IH; [|by apply Hx]. intros y Hy. apply Hg. by right.
Qed.
End preserves.

(** * Machine integers *)

(** Reduction of a value to an unsigned type of [w] bits. *)
Definition wrap (w x : Z) : Z := x mod 2 ^ w.
(** Reduction of a value to [int] (two's complement, 32 bits). *)
Definition wrap_int (x : Z) : Z := (x + 2 ^ 31) mod 2 ^ 32 - 2 ^ 31.

(** Signed arithmetic whose result does not fit an [int] is undefined. *)
Definition int_op (x : Z) : result Z :=
  if ((- 2 ^ 31 <=? x) && (x <? 2 ^ 31))%bool then Ret x else Undefined.

Definition in_u (w x : Z) : Prop := 0 <= x < 2 ^ w.
Abbreviation is_u8 := (in_u 8).
Abbreviation is_u16 := (in_u 16).
Abbreviation is_u32 := (in_u 32).
Abbreviation is_u64 := (in_u 64).
Abbreviation bytes := (list Z).
Definition wf_bytes (b : bytes) : Prop := Forall is_u8 b.

#[export] Instance in_u_dec w x : Decision (in_u w x).
Proof. unfold in_u. apply _. Defined.
#[export] Instance wf_bytes_dec b : Decision (wf_bytes b).
Proof. unfold wf_bytes. apply _. Defined.

(** * The compilation target

    Two things the sources use are not fixed by the language: the byte order
    of the host ([std::endian::native], [memcpy] into an integer) and the
    outcome of a 64-bit shift whose amount is at least 64, which is undefined
    behaviour.  [shr_over]/[shl_over] are what the target makes of such a
    shift; they may be [Undefined].  Every theorem quantifies over them. *)
Inductive endianness := little | big.

Class Target := {
  native : endianness;
  shr_over : Z -> Z -> result Z;
  shl_over : Z -> Z -> result Z;
}.

(** The language's own view, on a little-endian host. *)
Definition strict_little : Target :=
  {| native := little;
     shr_over := fun _ _ => Undefined;
     shl_over := fun _ _ => Undefined |}.

(** The shift instructions of x86-64, which use the amount modulo 64. *)
Definition x86_64 : Target :=
  {| native := little;
     shr_over := fun x n => Ret (Z.shiftr x (n mod 64));
     shl_over := fun x n => Ret (wrap 64 (Z.shiftl x (n mod 64))) |}.

(** A big-endian host with the language's own view of shifts. *)
Definition strict_big : Target :=
  {| native := big;
     shr_over := fun _ _ => Undefined;
     shl_over := fun _ _ => Undefined |}.

(** [x >> n] and [x << n] on [uint64_t]. *)
Definition shr64 {T : Target} (x n : Z) : result Z :=
  if n <? 64 then Ret (Z.shiftr x n) else shr_over x n.
Definition shl64 {T : Target} (x n : Z) : result Z :=
  if n <? 64 then Ret (wrap 64 (Z.shiftl x n)) else shl_over x n.
(** [~x] on [uint64_t]. *)
Definition not64 (x : Z) : Z := wrap 64 (Z.lnot x).

(** * Arithmetic lemmas shared by the components *)

Lemma in_u_wrap w x : 0 <= w -> in_u w (wrap w x).
Proof. intros. unfold in_u, wrap. apply Z.mod_pos_bound. lia. Qed.

Lemma wrap_small w x : in_u w x -> wrap w x = x.
Proof. unfold in_u, wrap. intros. by apply Z.mod_small. Qed.

Lemma testbit_wrap w x i :
  0 <= w -> Z.testbit (wrap w x) i = (Z.testbit x i && (i <? w))%bool.
Proof.
  intros Hw. unfold wrap. destruct (Z.ltb_spec i w).
  - rewrite Z.mod_pow2_bits_low by lia. by rewrite andb_true_r.
  - rewrite Z.mod_pow2_bits_high by lia. by rewrite andb_false_r.
Qed.

Lemma testbit_above w x i : in_u w x -> w <= i -> Z.testbit x i = false.
Proof.
  intros [H0 H1] Hi. destruct (decide (x = 0)) as [->|].
  { apply Z.bits_0. }
  apply Z.bits_above_log2; [done|].
  apply Z.lt_le_trans with w; [|done]. apply Z.log2_lt_pow2; lia.
Qed.

Lemma in_u_bits w x :
  0 <= w -> (forall i, w <= i -> Z.testbit x i = false) -> in_u w x.
Proof.
  intros Hw H. assert (x = wrap w x) as ->; [|by apply in_u_wrap].
  apply Z.bits_inj'. intros i Hi. rewrite testbit_wrap by done.
  destruct (Z.ltb_spec i w); [by rewrite andb_true_r|].
  rewrite andb_false_r. by apply H.
Qed.

Lemma in_u_le w w' x : 0 <= w <= w' -> in_u w x -> in_u w' x.
Proof.
  unfold in_u. intros ? [? ?]. split; [done|].
  apply Z.lt_le_trans with (2 ^ w); [done|]. apply Z.pow_le_mono_r; lia.
Qed.

(** Rewrite rules that push [Z.testbit] through the word operations. *)
Create Rewrite HintDb bits.
Create HintDb words.
(** Parts of the client that keep a framed condition. *)
Create HintDb kept.
#[export] Hint Rewrite Z.lor_spec Z.land_spec Z.lxor_spec Z.bits_0 : bits.
#[export] Hint Rewrite Z.shiftr_spec Z.shiftl_spec Z.lnot_spec testbit_wrap
  using lia : bits.

(** [bits_oob] erases the bits that lie outside a machine word. *)
Ltac bits_oob :=
  repeat match goal with
  | |- context [Z.testbit ?x ?j] => rewrite (Z.testbit_neg_r x j) by lia
  | H : in_u ?w ?x |- context [Z.testbit ?x ?j] =>
      rewrite (testbit_above w x j H) by lia
  end.

(** [bits_cases] decides the comparisons left in a bit-level goal. *)
Ltac bits_cases :=
  repeat match goal with
  | |- context [?a <? ?b] => destruct (Z.ltb_spec a b)
  end.

(** [bitwise] proves an equality of integers bit by bit. *)
Ltac bits_finish :=
  try lia; bits_oob; simpl;
  rewrite ?andb_true_r, ?andb_false_r, ?orb_false_r, ?orb_true_r,
    ?xorb_false_r, ?xorb_false_l;
  try done; try (f_equal; lia); try (f_equal; f_equal; lia).
Ltac bitwise :=
  apply Z.bits_inj'; intros ?i ?Hi; autorewrite with bits; bits_cases;
  bits_finish.

Lemma in_u_lor w x y : 0 <= w -> in_u w x -> in_u w y -> in_u w (Z.lor x y).
Proof.
  intros. apply in_u_bits; [done|]. intros i Hi. autorewrite with bits. bits_oob. done.
Qed.
Lemma in_u_land w x y : 0 <= w -> in_u w x -> in_u w (Z.land x y).
Proof.
  intros. apply in_u_bits; [done|]. intros i Hi. autorewrite with bits. bits_oob. done.
Qed.
Lemma in_u_lxor w x y : 0 <= w -> in_u w x -> in_u w y -> in_u w (Z.lxor x y).
Proof.
  intros. apply in_u_bits; [done|]. intros i Hi. autorewrite with bits. bits_oob. done.
Qed.
Lemma in_u_shiftr w x n : 0 <= w -> 0 <= n -> in_u w x -> in_u w (Z.shiftr x n).
Proof.
  intros. apply in_u_bits; [done|]. intros i Hi. rewrite Z.shiftr_spec by lia.
  bits_oob. done.
Qed.
Lemma in_u_not64 x : is_u64 (not64 x).
Proof. by apply in_u_wrap. Qed.

#[export] Hint Resolve in_u_wrap in_u_lor in_u_land in_u_lxor in_u_shiftr
  in_u_not64 : words.
#[export] Hint Extern 2 (_ <= _) => lia : words.
#[export] Hint Extern 2 (_ <= _ < _) => lia : words.

(** A mask of the low [n] bits, as the sources write it: [x & ~(~0 << n)]. *)
Lemma land_low_mask x n : 0 <= n -> Z.land x (Z.ones n) = wrap n x.
Proof. intros. unfold wrap. by apply Z.land_ones. Qed.

Lemma land_255 x : Z.land x 255 = wrap 8 x.
Proof. by apply (land_low_mask x 8). Qed.

(** Disjoint bit fields: [lor] is addition and [land] selects a field. *)
Lemma lor_high a c n : 0 <= n -> in_u n a -> Z.lor a (c * 2 ^ n) = a + c * 2 ^ n.
Proof.
  intros Hn Ha. rewrite <- Z.shiftl_mul_pow2 by done.
  assert (Z.land a (Z.shiftl c n) = 0) as H0.
  { apply Z.bits_inj'. intros i Hi. rewrite Z.land_spec, Z.shiftl_spec, Z.bits_0 by done.
    destruct (Z.ltb_spec i n); bits_finish. }
  pose proof (Z.add_lor_land a (Z.shiftl c n)). lia.
Qed.

Lemma land_high x m n : 0 <= n ->
  Z.land x (m * 2 ^ n) = Z.land (x / 2 ^ n) m * 2 ^ n.
Proof.
  intros Hn. rewrite <- !Z.shiftl_mul_pow2, <- Z.shiftr_div_pow2 by done.
  apply Z.bits_inj'. intros i Hi. rewrite Z.land_spec, !Z.shiftl_spec by done.
  destruct (Z.ltb_spec i n).
  - by rewrite !(Z.testbit_neg_r _ (i - n)), andb_false_r by lia.
  - rewrite Z.land_spec, Z.shiftr_spec by lia. do 2 f_equal. lia.
Qed.

Lemma land_ones_mod x m n : 0 <= n -> m = 2 ^ n - 1 -> Z.land x m = x mod 2 ^ n.
Proof.
  intros Hn ->. rewrite <- Z.land_ones by done. f_equal.
  rewrite Z.ones_equiv. lia.
Qed.

(** ** Byte strings as little-endian integers *)

Fixpoint le_val (b : bytes) : Z :=
  match b with
  | [] => 0
  | x :: b' => x + 2 ^ 8 * le_val b'
  end.

Fixpoint le_bytes (n : nat) (x : Z) : bytes :=
  match n with
  | O => []
  | S n' => wrap 8 x :: le_bytes n' (Z.shiftr x 8)
  end.

Lemma length_le_bytes n x : length (le_bytes n x) = n.
Proof. revert x. induction n; simpl; auto. Qed.

Lemma wf_le_bytes n x : wf_bytes (le_bytes n x).
Proof.
  revert x. induction n; intros; simpl; constructor; [|apply IHn].
  by apply in_u_wrap.
Qed.

Lemma le_val_bytes n x : le_val (le_bytes n x) = wrap (8 * Z.of_nat n) x.
Proof.
  revert x. induction n as [|n IH]; intros x.
  { simpl. unfold wrap. simpl. by rewrite Z.mod_1_r. }
  cbn [le_bytes le_val]. rewrite IH, Z.shiftr_div_pow2 by lia. unfold wrap.
  replace (8 * Z.of_nat (S n)) with (8 + 8 * Z.of_nat n) by lia.
  rewrite Z.pow_add_r by lia. rewrite (Z.rem_mul_r x (2 ^ 8)); lia.
Qed.

Lemma le_bytes_val b : wf_bytes b -> le_bytes (length b) (le_val b) = b.
Proof.
  induction 1 as [|x b Hx Hb IH]; [done|]. cbn [length le_bytes le_val].
  assert (wrap 8 (x + 2 ^ 8 * le_val b) = x) as ->.
  { unfold wrap. rewrite Z.mul_comm, Z.mod_add by lia. by apply Z.mod_small. }
  f_equal. rewrite Z.shiftr_div_pow2 by lia.
  rewrite (Z.mul_comm (2 ^ 8)), Z.div_add by lia.
  rewrite Z.div_small by exact Hx. exact IH.
Qed.

Lemma le_val_bound b : wf_bytes b -> in_u (8 * Z.of_nat (length b)) (le_val b).
Proof.
  intros Hb. rewrite <- (le_bytes_val b Hb), le_val_bytes, length_le_bytes.
  apply in_u_wrap. lia.
Qed.

Lemma le_val_app a b :
  le_val (a ++ b) = le_val a + 2 ^ (8 * Z.of_nat (length a)) * le_val b.
Proof.
  induction a as [|x a IH]; [simpl; lia|]. cbn [le_val length app]. rewrite IH.
  replace (8 * Z.of_nat (S (length a))) with (8 + 8 * Z.of_nat (length a)) by lia.
  rewrite Z.pow_add_r by lia. ring.
Qed.

Lemma lookup_le_bytes n x i :
  (i < n)%nat -> le_bytes n x !! i = Some (wrap 8 (Z.shiftr x (8 * Z.of_nat i))).
Proof.
  revert x i. induction n as [|n IH]; intros x i Hi; [lia|].
  destruct i as [|i]; cbn [le_bytes lookup list_lookup].
  - by rewrite Z.shiftr_0_r.
  - rewrite IH, Z.shiftr_shiftr by lia. do 3 f_equal. lia.
Qed.
