(* ===== verification/Hex.v ===== *)
(** * Hexadecimal text (include/quicr/quicr_name.h, lines 12-72)

    The digit conversions and the templates [hex_to_uint<T>] and
    [uint_to_hex<T>], for an unsigned [T] of [sz] bytes.  A [std::string] or
    [std::string_view] is a list of characters. *)

From Stdlib Require Export Ascii String.
From stdpp Require Export list list_numbers.
From S2P Require Export Prelude.

Abbreviation chars := (list ascii).

(** The code of a character; the tests of the source give the same answers
    for a signed [char]. *)
Definition char_code (x : ascii) : Z := Z.of_N (N_of_ascii x).
Definition char_of_code (c : Z) : ascii := ascii_of_N (Z.to_N (wrap 8 c)).

(** A character string literal. *)
Definition lit (s : string) : chars := list_ascii_of_string s.

Definition hexchar_to_uint (x : ascii) : Z :=
  let c := char_code x in
  if ((char_code "0" <=? c) && (c <=? char_code "9"))%bool
  then c - char_code "0"
  else if ((char_code "A" <=? c) && (c <=? char_code "F"))%bool
  then c - char_code "A" + 10
  else if ((char_code "a" <=? c) && (c <=? char_code "f"))%bool
  then c - char_code "a" + 10
  else 0.

Definition uint_to_hexchar (b : Z) : ascii :=
  if 9 <? b then char_of_code (b + char_code "A" - 10)
  else char_of_code (b + char_code "0").

(** [if (x.starts_with("0x")) x.remove_prefix(2);] *)
Definition remove_0x (x : chars) : chars :=
  match x with
  | c0 :: c1 :: x' =>
      if (Ascii.eqb c0 "0" && Ascii.eqb c1 "x")%bool then x' else x
  | _ => x
  end.

Fixpoint hex_loop (w y : Z) (x : chars) : Z :=
  match x with
  | [] => y
  | c :: x' => hex_loop w (wrap w (wrap w (y * 16) + hexchar_to_uint c)) x'
  end.

Definition hex_to_uint (sz : Z) (x : chars) : Z :=
  hex_loop (8 * sz) 0 (remove_0x x).

(** The digits are written from the last position to the first. *)
Fixpoint hex_digits_loop (i : nat) (y : Z) (x : chars) : chars :=
  match i with
  | O => x
  | S i' =>
      let b := Z.land y 15 in
      hex_digits_loop i' ((y - b) / 16) (uint_to_hexchar b :: x)
  end.

Definition uint_to_hex (sz y : Z) : chars :=
  hex_digits_loop (Z.to_nat (sz * 2)) y [].

(** ** Specification: the value of a digit string *)

Definition hex_value (x : chars) : Z :=
  fold_left (fun y c => y * 16 + hexchar_to_uint c) x 0.

Definition no_x (x : chars) : Prop := Forall (fun c => c <> "x"%char) x.

(** The digits the library prints. *)
Definition is_upper_hex (c : ascii) : Prop :=
  exists b, 0 <= b < 16 /\ c = uint_to_hexchar b.

Lemma fold_hex_value x y :
  fold_left (fun y c => y * 16 + hexchar_to_uint c) x y
  = y * 16 ^ Z.of_nat (length x) + hex_value x.
Proof.
  unfold hex_value. revert y. induction x as [|c x IH]; intros y; simpl fold_left.
  { change (16 ^ Z.of_nat (length [])) with 1. lia. }
  rewrite IH, (IH (0 * 16 + _)). cbn [length].
  rewrite Nat2Z.inj_succ, Z.pow_succ_r by lia. nia.
Qed.

Lemma hex_value_app x z :
  hex_value (x ++ z) = hex_value x * 16 ^ Z.of_nat (length z) + hex_value z.
Proof. unfold hex_value at 1. by rewrite fold_left_app, fold_hex_value. Qed.

Lemma hex_value_cons c x :
  hex_value (c :: x)
  = hexchar_to_uint c * 16 ^ Z.of_nat (length x) + hex_value x.
Proof. apply (fold_hex_value x (hexchar_to_uint c)). Qed.

Lemma hex_value_singleton c : hex_value [c] = hexchar_to_uint c.
Proof. done. Qed.

Lemma hexchar_to_uint_bound c : 0 <= hexchar_to_uint c < 16.
Proof.
  unfold hexchar_to_uint.
  change (char_code "0") with 48. change (char_code "9") with 57.
  change (char_code "A") with 65. change (char_code "F") with 70.
  change (char_code "a") with 97. change (char_code "f") with 102.
  generalize (char_code c). intros d.
  destruct (Z.leb_spec 48 d), (Z.leb_spec d 57), (Z.leb_spec 65 d),
    (Z.leb_spec d 70), (Z.leb_spec 97 d), (Z.leb_spec d 102); simpl; lia.
Qed.

Lemma hex_value_bound x : 0 <= hex_value x < 16 ^ Z.of_nat (length x).
Proof.
  induction x as [|c x IH]; [done|]. rewrite hex_value_cons. cbn [length].
  rewrite Nat2Z.inj_succ, Z.pow_succ_r by lia.
  pose proof (hexchar_to_uint_bound c). nia.
Qed.

(** ** The digit conversions are inverse to each other *)

Lemma hexchar_roundtrip b :
  0 <= b < 16 -> hexchar_to_uint (uint_to_hexchar b) = b.
Proof.
  intros Hb.
  assert (b ∈ seqZ 0 16) as Hin by (apply elem_of_seqZ; lia).
  revert Hin. clear Hb. cbv [seqZ seq fmap list_fmap Z.to_nat Pos.to_nat Pos.iter_op Nat.add].
  rewrite !elem_of_cons. intros Hin. 
  repeat (destruct Hin as [->|Hin]; [reflexivity|]).
  by apply not_elem_of_nil in Hin.
Qed.

Lemma uint_to_hexchar_not_x b : 0 <= b < 16 -> uint_to_hexchar b <> "x"%char.
Proof.
  intros Hb E. pose proof (hexchar_roundtrip b Hb) as H. rewrite E in H.
  change (0 = b) in H. subst b. discriminate E.
Qed.

(** ** Parsing *)

Lemma hex_loop_value w y x :
  0 <= w -> in_u w y ->
  hex_loop w y x = wrap w (fold_left (fun y c => y * 16 + hexchar_to_uint c) x y).
Proof.
  intros Hw. revert y. induction x as [|c x IH]; intros y Hy; simpl.
  { by rewrite wrap_small. }
  rewrite IH by auto with words. rewrite !fold_hex_value. unfold wrap.
  assert (2 ^ w <> 0) by (pose proof (Z.pow_pos_nonneg 2 w); lia).
  rewrite (Z.add_mod_idemp_l (y * 16)) by done.
  by rewrite <- Z.add_mod_idemp_l, Z.mul_mod_idemp_l, Z.add_mod_idemp_l.
Qed.

Lemma hex_to_uint_value sz x :
  0 <= sz -> hex_to_uint sz x = wrap (8 * sz) (hex_value (remove_0x x)).
Proof.
  intros. unfold hex_to_uint. rewrite hex_loop_value; [done|lia|].
  unfold in_u. pose proof (Z.pow_pos_nonneg 2 (8 * sz)). lia.
Qed.

Lemma remove_0x_no_x x : no_x x -> remove_0x x = x.
Proof.
  unfold no_x. destruct x as [|c0 [|c1 x]]; simpl; intros H; [done..|].
  inversion_clear H as [|? ? _ H1]. inversion_clear H1 as [|? ? H2 _].
  destruct (Ascii.eqb_spec c1 "x"); [done|]. by rewrite andb_false_r.
Qed.

(** A text of at most [sz * 2] digits is parsed exactly. *)
Lemma hex_to_uint_exact sz x :
  0 <= sz -> no_x x -> Z.of_nat (length x) <= sz * 2 ->
  hex_to_uint sz x = hex_value x.
Proof.
  intros Hsz Hx Hlen. rewrite hex_to_uint_value, remove_0x_no_x by done.
  apply wrap_small. pose proof (hex_value_bound x) as [? ?]. split; [done|].
  apply Z.lt_le_trans with (16 ^ Z.of_nat (length x)); [done|].
  change 16 with (2 ^ 4). rewrite <- Z.pow_mul_r by lia.
  apply Z.pow_le_mono_r; lia.
Qed.

(** ** Printing *)

Lemma hex_digits_loop_app i y x :
  hex_digits_loop i y x = hex_digits_loop i y [] ++ x.
Proof.
  revert y x. induction i as [|i IH]; intros y x; simpl; [done|].
  rewrite (IH _ (_ :: x)), (IH _ [_]). by rewrite <- app_assoc.
Qed.

Lemma low_digit y : Z.land y 15 = y mod 16.
Proof. exact (land_low_mask y 4 ltac:(lia)). Qed.

Lemma length_hex_digits_loop i y : length (hex_digits_loop i y []) = i.
Proof.
  revert y. induction i as [|i IH]; intros y; simpl; [done|].
  rewrite hex_digits_loop_app, length_app, IH. simpl. lia.
Qed.

Lemma hex_digits_loop_upper i y :
  Forall is_upper_hex (hex_digits_loop i y []).
Proof.
  revert y. induction i as [|i IH]; intros y; simpl; [constructor|].
  rewrite hex_digits_loop_app. apply Forall_app. split; [apply IH|].
  constructor; [|constructor]. exists (Z.land y 15). split; [|done].
  rewrite low_digit. apply Z.mod_pos_bound. lia.
Qed.

Lemma upper_no_x x : Forall is_upper_hex x -> no_x x.
Proof.
  unfold no_x. induction 1 as [|c x (b & Hb & ->) _ IH]; constructor;
    auto using uint_to_hexchar_not_x.
Qed.

Lemma hex_value_digits i y :
  hex_value (hex_digits_loop i y []) = y mod 16 ^ Z.of_nat i.
Proof.
  revert y. induction i as [|i IH]; intros y.
  { simpl. by rewrite Z.mod_1_r. }
  cbn [hex_digits_loop]. rewrite hex_digits_loop_app, hex_value_app, IH.
  change (16 ^ Z.of_nat (length [_])) with 16. rewrite low_digit.
  assert (0 <= y mod 16 < 16) by (apply Z.mod_pos_bound; lia).
  rewrite hex_value_singleton, hexchar_roundtrip by done.
  rewrite Nat2Z.inj_succ, Z.pow_succ_r by lia.
  rewrite (Z.rem_mul_r y 16) by (pose proof (Z.pow_pos_nonneg 16 (Z.of_nat i)); lia).
  replace (y - y mod 16) with (y / 16 * 16) by (pose proof (Z.div_mod y 16); lia).
  rewrite Z.div_mul by lia. lia.
Qed.

Section uint_to_hex.
Context (sz : Z) (Hsz : 0 <= sz).

Lemma length_uint_to_hex y :
  length (uint_to_hex sz y) = Z.to_nat (sz * 2).
Proof. apply length_hex_digits_loop. Qed.

Lemma uint_to_hex_upper y : Forall is_upper_hex (uint_to_hex sz y).
Proof. apply hex_digits_loop_upper. Qed.

Lemma hex_value_uint_to_hex y :
  hex_value (uint_to_hex sz y) = wrap (8 * sz) y.
Proof.
  unfold uint_to_hex. rewrite hex_value_digits. unfold wrap. f_equal.
  change 16 with (2 ^ 4). rewrite <- Z.pow_mul_r by lia. f_equal. lia.
Qed.

Lemma hex_to_uint_to_hex y :
  in_u (8 * sz) y -> hex_to_uint sz (uint_to_hex sz y) = y.
Proof.
  intros Hy. rewrite hex_to_uint_exact; [| done | |].
  - rewrite hex_value_uint_to_hex. by apply wrap_small.
  - apply upper_no_x, uint_to_hex_upper.
  - rewrite length_uint_to_hex. lia.
Qed.
End uint_to_hex.

#[export] Hint Resolve uint_to_hex_upper upper_no_x : words.
