(* ===== verification/Name.v ===== *)
(** * quicr::Name (include/quicr/quicr_name.h, src/quicr_name.cpp)

    A 128-bit name kept as two 64-bit halves.  Every operator of the class is
    a function here; a compound assignment returns the assigned object.  The
    specification is the integer [name_val]. *)

From S2P Require Export Prelude Hex.

Record Name := mkName { _hi : Z; _low : Z }.

#[export] Instance Name_eq_dec : EqDecision Name.
Proof. solve_decision. Defined.

Definition sizeof_Name : Z := 16.
Definition sizeof_uint64_t : Z := 8.
Definition uint64_t_bit_size : Z := sizeof_Name * 4.

(** ** Construction *)

(** [std::memcpy(&u64, p, 8)]: the eight bytes at [p], in host order; reading
    past the end of the array is undefined. *)
Definition memcpy64 {T : Target} (p : bytes) : result Z :=
  if Z.of_nat (length p) <? 8 then Undefined
  else Ret (match native with
            | little => le_val (take 8 p)
            | big => le_val (reverse (take 8 p))
            end).

(** [Name(const uint8_t* data, size_t length)]; [data] is the array the
    pointer designates.  The constructor from [uint8_t*] has the same body. *)
Definition Name_of_data {T : Target} (data : bytes) (length : Z) : result Name :=
  if sizeof_Name * 2 <? length then Throw NameException
  else
    low ← memcpy64 data;
    hi ← memcpy64 (drop 8 data);
    mret (mkName hi low).

(** [Name(const std::vector<uint8_t>& data)] *)
Definition Name_of_vector {T : Target} (data : bytes) : result Name :=
  if sizeof_Name <? Z.of_nat (length data) then Throw NameException
  else
    low ← memcpy64 data;
    hi ← memcpy64 (drop 8 data);
    mret (mkName hi low).

(** [Name(std::string_view hex_value)], also the literal suffix [_name]. *)
Definition Name_of_hex (s : chars) : result Name :=
  let hex_value := remove_0x s in
  let len := Z.of_nat (length hex_value) in
  if sizeof_Name * 2 <? len then Throw NameException
  else if sizeof_Name <? len then
    let k := Z.to_nat (len - sizeof_Name) in
    Ret (mkName (hex_to_uint sizeof_uint64_t (take k hex_value))
                (hex_to_uint sizeof_uint64_t
                   (take (Z.to_nat sizeof_Name) (drop k hex_value))))
  else Ret (mkName 0 (hex_to_uint sizeof_uint64_t hex_value)).

(** ** Observers *)

Definition to_hex (n : Name) : chars :=
  lit "0x" ++ uint_to_hex sizeof_uint64_t (_hi n)
    ++ uint_to_hex sizeof_uint64_t (_low n).

(** [operator[]] *)
Definition name_index (n : Name) (index : Z) : result Z :=
  if sizeof_Name <=? index then Throw out_of_range
  else if index <? sizeof_uint64_t
  then Ret (Z.land (Z.shiftr (_low n) (index * 8)) 255)
  else Ret (Z.land (Z.shiftr (_hi n) ((index - sizeof_uint64_t) * 8)) 255).

(** ** Shifts *)

Definition shr_assign {T : Target} (n : Name) (value : Z) : result Name :=
  if value =? 0 then Ret n
  else if value <? uint64_t_bit_size then
    low ← shr64 (_low n) value;
    carry ← shl64 (_hi n) (uint64_t_bit_size - value);
    hi ← shr64 (_hi n) value;
    mret (mkName hi (Z.lor low carry))
  else
    low ← shr64 (_hi n) (value - uint64_t_bit_size);
    mret (mkName 0 low).
Definition shr {T : Target} (n : Name) (value : Z) : result Name :=
  shr_assign n value.

Definition shl_assign {T : Target} (n : Name) (value : Z) : result Name :=
  if value =? 0 then Ret n
  else if value <? uint64_t_bit_size then
    hi ← shl64 (_hi n) value;
    carry ← shr64 (_low n) (uint64_t_bit_size - value);
    low ← shl64 (_low n) value;
    mret (mkName (Z.lor hi carry) low)
  else
    hi ← shl64 (_low n) (value - uint64_t_bit_size);
    mret (mkName hi 0).
Definition shl {T : Target} (n : Name) (value : Z) : result Name :=
  shl_assign n value.

(** ** Arithmetic *)

Definition add_assign (n : Name) (value : Z) : Name :=
  let hi := if wrap 64 (_low n + value) <? _low n
            then wrap 64 (_hi n + 1) else _hi n in
  mkName hi (wrap 64 (_low n + value)).
Definition add (n : Name) (value : Z) : Name := add_assign n value.

Definition sub_assign (n : Name) (value : Z) : Name :=
  let hi := if _low n <? wrap 64 (_low n - value)
            then wrap 64 (_hi n - 1) else _hi n in
  mkName hi (wrap 64 (_low n - value)).
Definition sub (n : Name) (value : Z) : Name := sub_assign n value.

(** The increments return the value of the expression and the object. *)
Definition pre_incr (n : Name) : Name * Name :=
  let n' := add_assign n 1 in (n', n').
Definition post_incr (n : Name) : Name * Name :=
  let name := n in let '(_, n') := pre_incr n in (name, n').
Definition pre_decr (n : Name) : Name * Name :=
  let n' := sub_assign n 1 in (n', n').
Definition post_decr (n : Name) : Name * Name :=
  let name := n in let '(_, n') := pre_decr n in (name, n').

(** ** Bitwise operators *)

Definition and_assign64 (n : Name) (value : Z) : Name :=
  mkName (_hi n) (Z.land (_low n) value).
Definition and64 (n : Name) (value : Z) : Name := and_assign64 n value.
Definition or_assign64 (n : Name) (value : Z) : Name :=
  mkName (_hi n) (Z.lor (_low n) value).
Definition or64 (n : Name) (value : Z) : Name := or_assign64 n value.
Definition and_assign (n other : Name) : Name :=
  mkName (Z.land (_hi n) (_hi other)) (Z.land (_low n) (_low other)).
Definition name_and (n other : Name) : Name := and_assign n other.
Definition or_assign (n other : Name) : Name :=
  mkName (Z.lor (_hi n) (_hi other)) (Z.lor (_low n) (_low other)).
Definition name_or (n other : Name) : Name := or_assign n other.
Definition xor_assign (n other : Name) : Name :=
  mkName (Z.lxor (_hi n) (_hi other)) (Z.lxor (_low n) (_low other)).
Definition name_xor (n other : Name) : Name := xor_assign n other.
Definition name_not (n : Name) : Name :=
  mkName (not64 (_hi n)) (not64 (_low n)).

(** ** Comparison *)

Definition name_eqb (a b : Name) : bool :=
  ((_hi a =? _hi b) && (_low a =? _low b))%bool.
Definition name_neqb (a b : Name) : bool := negb (name_eqb a b).
Definition name_gtb (a b : Name) : bool :=
  if _hi b <? _hi a then true
  else if _hi a <? _hi b then false
  else _low b <? _low a.
Definition name_ltb (a b : Name) : bool :=
  if _hi a <? _hi b then true
  else if _hi b <? _hi a then false
  else _low a <? _low b.

(** [os << name] writes [to_hex()]. *)
Definition print_Name (os : chars) (name : Name) : chars := os ++ to_hex name.

(** * Specification: the 128-bit integer of a name *)

Definition wf_name (n : Name) : Prop := is_u64 (_hi n) /\ is_u64 (_low n).
Definition name_val (n : Name) : Z := _hi n * 2 ^ 64 + _low n.
Definition name_of_val (v : Z) : Name :=
  mkName (wrap 64 (Z.shiftr v 64)) (wrap 64 v).

#[export] Instance wf_name_dec n : Decision (wf_name n).
Proof. unfold wf_name. apply _. Defined.

Lemma wf_name_mk h l : is_u64 h -> is_u64 l -> wf_name (mkName h l).
Proof. by split. Qed.
#[export] Hint Resolve wf_name_mk : words.

Lemma name_val_bound n : wf_name n -> in_u 128 (name_val n).
Proof. intros [[? ?] [? ?]]. unfold in_u, name_val in *. lia. Qed.

Lemma testbit_name_val n i :
  wf_name n ->
  Z.testbit (name_val n) i
  = if i <? 64 then Z.testbit (_low n) i else Z.testbit (_hi n) (i - 64).
Proof.
  intros [Hh Hl]. destruct (Z.ltb_spec i 0).
  { rewrite (proj2 (Z.ltb_lt i 64)), !(Z.testbit_neg_r _ i) by lia. done. }
  unfold name_val. rewrite <- Z.shiftl_mul_pow2 by lia.
  assert (Z.shiftl (_hi n) 64 + _low n = Z.lor (Z.shiftl (_hi n) 64) (_low n)) as ->.
  { assert (Z.land (Z.shiftl (_hi n) 64) (_low n) = 0) as H0.
    { apply Z.bits_inj'. intros j Hj. autorewrite with bits.
      destruct (Z.ltb_spec j 64); bits_finish. }
    pose proof (Z.add_lor_land (Z.shiftl (_hi n) 64) (_low n)). lia. }
  autorewrite with bits. destruct (Z.ltb_spec i 64); bits_finish.
Qed.

Lemma name_val_inj n m :
  wf_name n -> wf_name m -> name_val n = name_val m -> n = m.
Proof.
  destruct n as [h l], m as [h' l'].
  intros [[? ?] [? ?]] [[? ?] [? ?]]. unfold name_val. simpl in *. intros.
  f_equal; lia.
Qed.

Lemma wf_name_of_val v : wf_name (name_of_val v).
Proof. split; by apply in_u_wrap. Qed.

Lemma name_val_of_val v : name_val (name_of_val v) = wrap 128 v.
Proof.
  unfold name_val, name_of_val, wrap. simpl _hi. simpl _low.
  rewrite Z.shiftr_div_pow2 by lia.
  change (2 ^ 128) with (2 ^ 64 * 2 ^ 64). rewrite Z.rem_mul_r by lia. lia.
Qed.

(** A bitwise reading of a name; [name_bits] proves equalities of values. *)
Lemma name_val_eq_bits n v :
  wf_name n ->
  (forall i, 0 <= i ->
    (if i <? 64 then Z.testbit (_low n) i else Z.testbit (_hi n) (i - 64))
    = Z.testbit v i) ->
  name_val n = v.
Proof.
  intros Hn H. apply Z.bits_inj'. intros i Hi. rewrite testbit_name_val by done.
  by apply H.
Qed.
Ltac name_bits :=
  apply name_val_eq_bits; [auto with words|]; intros ?i ?Hi; simpl _hi; simpl _low;
  match goal with |- context [?i <? 64] => destruct (Z.ltb_spec i 64) end;
  autorewrite with bits;
  rewrite ?testbit_name_val by (auto with words || lia);
  bits_cases; bits_finish.

(** ** Shifts by less than the width of a name *)

Section shifts.
Context {T : Target}.

Lemma shr64_small x n : n < 64 -> shr64 x n = Ret (Z.shiftr x n).
Proof. intros. unfold shr64. by rewrite (proj2 (Z.ltb_lt _ _)). Qed.
Lemma shl64_small x n : n < 64 -> shl64 x n = Ret (wrap 64 (Z.shiftl x n)).
Proof. intros. unfold shl64. by rewrite (proj2 (Z.ltb_lt _ _)). Qed.

Lemma shr_ret n v :
  wf_name n -> 0 <= v < 128 ->
  exists m, shr n v = Ret m /\ wf_name m /\ name_val m = Z.shiftr (name_val n) v.
Proof.
  intros Hn Hv. pose proof Hn as [Hh Hl]. unfold shr, shr_assign.
  change uint64_t_bit_size with 64.
  destruct (Z.eqb_spec v 0) as [->|]; [by exists n; rewrite Z.shiftr_0_r|].
  destruct (Z.ltb_spec v 64).
  - rewrite !shr64_small, shl64_small by lia. eexists. split; [reflexivity|].
    assert (wf_name (mkName (Z.shiftr (_hi n) v)
      (Z.lor (Z.shiftr (_low n) v) (wrap 64 (Z.shiftl (_hi n) (64 - v)))))).
    { auto with words. }
    split; [done|]. name_bits.
  - rewrite shr64_small by lia. eexists. split; [reflexivity|].
    assert (wf_name (mkName 0 (Z.shiftr (_hi n) (v - 64)))).
    { split; simpl; [done|auto with words]. }
    split; [done|]. name_bits.
Qed.

Lemma shl_ret n v :
  wf_name n -> 0 <= v < 128 ->
  exists m, shl n v = Ret m /\ wf_name m /\
    name_val m = wrap 128 (Z.shiftl (name_val n) v).
Proof.
  intros Hn Hv. pose proof Hn as [Hh Hl]. unfold shl, shl_assign.
  change uint64_t_bit_size with 64.
  destruct (Z.eqb_spec v 0) as [->|].
  { exists n. rewrite Z.shiftl_0_r, wrap_small by by apply name_val_bound. done. }
  destruct (Z.ltb_spec v 64).
  - rewrite !shl64_small, shr64_small by lia. eexists. split; [reflexivity|].
    assert (wf_name (mkName
      (Z.lor (wrap 64 (Z.shiftl (_hi n) v)) (Z.shiftr (_low n) (64 - v)))
      (wrap 64 (Z.shiftl (_low n) v)))) by auto with words.
    split; [done|]. name_bits.
  - rewrite shl64_small by lia. eexists. split; [reflexivity|].
    assert (wf_name (mkName (wrap 64 (Z.shiftl (_low n) (v - 64))) 0)).
    { split; simpl; [auto with words|done]. }
    split; [done|]. name_bits.
Qed.

(** A shift by 128 or more is a 64-bit shift by 64 or more. *)
Lemma shr_over_128 n v :
  128 <= v -> shr n v = (low ← shr_over (_hi n) (v - 64); Ret (mkName 0 low)).
Proof.
  intros. unfold shr, shr_assign. change uint64_t_bit_size with 64.
  rewrite (proj2 (Z.eqb_neq _ _)), (proj2 (Z.ltb_ge _ _)) by lia.
  unfold shr64. by rewrite (proj2 (Z.ltb_ge _ _)) by lia.
Qed.
End shifts.

(** ** Arithmetic, bitwise operators and comparison *)

Lemma add_val n v :
  wf_name n -> is_u64 v ->
  wf_name (add n v) /\ name_val (add n v) = wrap 128 (name_val n + v).
Proof.
  destruct n as [h l]. intros [Hh Hl] Hv. unfold add, add_assign, name_val.
  simpl in *. split; [apply wf_name_mk; [case_match|]; auto with words|].
  simpl. unfold in_u, wrap in *.
  destruct (Z.ltb_spec ((l + v) mod 2 ^ 64) l); lia.
Qed.

Lemma sub_val n v :
  wf_name n -> is_u64 v ->
  wf_name (sub n v) /\ name_val (sub n v) = wrap 128 (name_val n - v).
Proof.
  destruct n as [h l]. intros [Hh Hl] Hv. unfold sub, sub_assign, name_val.
  simpl in *. split; [apply wf_name_mk; [case_match|]; auto with words|].
  simpl. unfold in_u, wrap in *.
  destruct (Z.ltb_spec l ((l - v) mod 2 ^ 64)); lia.
Qed.

Section bitwise_ops.
Context (n m : Name) (v : Z) (Hn : wf_name n) (Hm : wf_name m) (Hv : is_u64 v).

Lemma wf_name_and : wf_name (name_and n m).
Proof. destruct Hn, Hm. apply wf_name_mk; auto with words. Qed.
Lemma wf_name_or : wf_name (name_or n m).
Proof. destruct Hn, Hm. apply wf_name_mk; auto with words. Qed.
Lemma wf_name_xor : wf_name (name_xor n m).
Proof. destruct Hn, Hm. apply wf_name_mk; auto with words. Qed.
Lemma wf_name_not : wf_name (name_not n).
Proof. apply wf_name_mk; auto with words. Qed.

Lemma name_and_val : name_val (name_and n m) = Z.land (name_val n) (name_val m).
Proof. pose proof wf_name_and as H. revert H. cbv [name_and and_assign]. intros. name_bits. Qed.
Lemma name_or_val : name_val (name_or n m) = Z.lor (name_val n) (name_val m).
Proof. pose proof wf_name_or as H. revert H. cbv [name_or or_assign]. intros. name_bits. Qed.
Lemma name_xor_val : name_val (name_xor n m) = Z.lxor (name_val n) (name_val m).
Proof. pose proof wf_name_xor as H. revert H. cbv [name_xor xor_assign]. intros. name_bits. Qed.
Lemma name_not_val : name_val (name_not n) = wrap 128 (Z.lnot (name_val n)).
Proof.
  pose proof wf_name_not as H. revert H. cbv [name_not not64]. intros. name_bits.
Qed.
End bitwise_ops.

#[export] Hint Resolve wf_name_and wf_name_or wf_name_xor wf_name_not
  wf_name_of_val : words.

Section comparison.
Context (n m : Name) (Hn : wf_name n) (Hm : wf_name m).

Lemma name_ltb_val : name_ltb n m = (name_val n <? name_val m).
Proof.
  destruct n as [h l], m as [h' l'], Hn, Hm. unfold name_ltb, name_val, in_u in *.
  simpl in *. destruct (Z.ltb_spec h h'), (Z.ltb_spec h' h); lia.
Qed.
Lemma name_gtb_val : name_gtb n m = (name_val m <? name_val n).
Proof.
  destruct n as [h l], m as [h' l'], Hn, Hm. unfold name_gtb, name_val, in_u in *.
  simpl in *. destruct (Z.ltb_spec h h'), (Z.ltb_spec h' h); lia.
Qed.
End comparison.

Lemma name_eqb_spec n m : reflect (n = m) (name_eqb n m).
Proof.
  destruct n as [h l], m as [h' l']. unfold name_eqb. simpl.
  destruct (Z.eqb_spec h h'), (Z.eqb_spec l l'); constructor; congruence.
Qed.

(** The order on names is strict and total whatever the halves hold. *)
Lemma name_ltb_irrefl n : name_ltb n n = false.
Proof. unfold name_ltb. by rewrite !Z.ltb_irrefl. Qed.
Lemma name_ltb_trans n m p :
  name_ltb n m = true -> name_ltb m p = true -> name_ltb n p = true.
Proof. unfold name_ltb. repeat case_match; try done; lia. Qed.
Lemma name_ltb_total n m :
  name_ltb n m = false -> name_ltb m n = false -> n = m.
Proof.
  destruct n as [h l], m as [h' l']. unfold name_ltb. simpl.
  destruct (Z.ltb_spec h h'), (Z.ltb_spec h' h); intros; try done.
  f_equal; lia.
Qed.

(** ** Bytes *)

Definition name_bytes (n : Name) : bytes := le_bytes 8 (_low n) ++ le_bytes 8 (_hi n).

Lemma name_index_ret n i :
  0 <= i < 16 ->
  name_index n i = Ret (if i <? 8 then wrap 8 (Z.shiftr (_low n) (i * 8))
                        else wrap 8 (Z.shiftr (_hi n) ((i - 8) * 8))).
Proof.
  intros. unfold name_index. change sizeof_Name with 16.
  change sizeof_uint64_t with 8. rewrite !land_255.
  rewrite (proj2 (Z.leb_gt _ _)) by lia. by case_match.
Qed.

Lemma name_index_val n i :
  wf_name n -> 0 <= i < 16 ->
  name_index n i = Ret (wrap 8 (Z.shiftr (name_val n) (i * 8))).
Proof.
  intros Hn Hi. rewrite name_index_ret by done. f_equal. destruct Hn as [Hh Hl].
  assert (wf_name n) as Hn by done.
  destruct (Z.ltb_spec i 8); apply Z.bits_inj'; intros j Hj;
    autorewrite with bits; destruct (Z.ltb_spec j 8); rewrite ?andb_false_r; try done;
    autorewrite with bits; rewrite testbit_name_val by done; bits_cases; bits_finish.
Qed.

Lemma name_index_lookup n (i : nat) :
  (i < 16)%nat ->
  exists b, name_index n (Z.of_nat i) = Ret b /\ name_bytes n !! i = Some b.
Proof.
  intros Hi. rewrite name_index_ret by lia. eexists. split; [reflexivity|].
  unfold name_bytes. destruct (Z.ltb_spec (Z.of_nat i) 8).
  - rewrite lookup_app_l, lookup_le_bytes by (rewrite ?length_le_bytes; lia).
    do 3 f_equal. lia.
  - rewrite lookup_app_r, length_le_bytes, lookup_le_bytes by (rewrite ?length_le_bytes; lia).
    do 3 f_equal. lia.
Qed.

Lemma Name_of_vector_length {T : Target} d :
  Z.of_nat (length d) <> 16 ->
  Name_of_vector d = if 16 <? Z.of_nat (length d) then Throw NameException else Undefined.
Proof.
  intros. unfold Name_of_vector. change sizeof_Name with 16.
  destruct (Z.ltb_spec 16 (Z.of_nat (length d))); [done|].
  unfold memcpy64. destruct (Z.ltb_spec (Z.of_nat (length d)) 8); [done|].
  simpl. by rewrite (proj2 (Z.ltb_lt (Z.of_nat (length (drop 8 d))) 8))
    by (rewrite length_drop; lia).
Qed.

(** What the 16 bytes of a name become on the target. *)
Definition name_of_bytes {T : Target} (d : bytes) : Name :=
  match native with
  | little => mkName (le_val (drop 8 d)) (le_val (take 8 d))
  | big => mkName (le_val (reverse (drop 8 d))) (le_val (reverse (take 8 d)))
  end.

Lemma Name_of_data_ret {T : Target} d :
  length d = 16%nat -> Name_of_data d 16 = Ret (name_of_bytes d).
Proof.
  intros Hd. unfold Name_of_data. change (sizeof_Name * 2 <? 16) with false.
  cbv iota. unfold memcpy64. rewrite length_drop, Hd. simpl.
  rewrite (take_ge (drop 8 d)) by (rewrite length_drop; lia).
  unfold name_of_bytes. by destruct native.
Qed.

Lemma Name_of_vector_ret {T : Target} d :
  length d = 16%nat -> Name_of_vector d = Ret (name_of_bytes d).
Proof.
  intros Hd. rewrite <- Name_of_data_ret by done. unfold Name_of_vector, Name_of_data.
  by rewrite Hd.
Qed.

Lemma name_of_bytes_little n :
  wf_name n -> name_of_bytes (T := strict_little) (name_bytes n) = n.
Proof.
  destruct n as [h l]. intros [Hh Hl]. unfold name_of_bytes, name_bytes. simpl native. cbv iota.
  rewrite take_app_length', drop_app_length' by (by rewrite length_le_bytes).
  rewrite !le_val_bytes. simpl _hi in *. simpl _low in *. by rewrite !wrap_small.
Qed.

(** ** Hexadecimal text *)

Lemma length_to_hex n : length (to_hex n) = 34%nat.
Proof. unfold to_hex. rewrite !length_app, !length_uint_to_hex. done. Qed.

Lemma Name_of_hex_value s :
  no_x (remove_0x s) ->
  let x := remove_0x s in
  if 32 <? Z.of_nat (length x) then Name_of_hex s = Throw NameException
  else exists n, Name_of_hex s = Ret n /\ wf_name n /\ name_val n = hex_value x.
Proof.
  intros Hx x. unfold Name_of_hex. fold x. fold x in Hx. generalize dependent x.
  clear s. intros x Hx. change sizeof_Name with 16. change (16 * 2) with 32.
  destruct (Z.ltb_spec 32 (Z.of_nat (length x))); [done|].
  assert (forall y, no_x y -> Z.of_nat (length y) <= 16 ->
    hex_to_uint sizeof_uint64_t y = hex_value y /\ is_u64 (hex_value y)) as Hhalf.
  { intros y Hy Hl. assert (hex_to_uint sizeof_uint64_t y = hex_value y) as E.
    { by apply hex_to_uint_exact. }
    split; [done|]. rewrite <- E. rewrite hex_to_uint_value by done.
    by apply in_u_wrap. }
  destruct (Z.ltb_spec 16 (Z.of_nat (length x))).
  - set (k := Z.to_nat _). assert (length (drop k x) = 16%nat) as Hd.
    { rewrite length_drop. lia. }
    assert (length (take k x) = k) as Ht by (rewrite length_take; lia).
    rewrite (take_ge (drop k x)) by lia.
    assert (no_x (take k x) /\ no_x (drop k x)) as [Hnt Hnd].
    { unfold no_x in *. by apply Forall_app; rewrite take_drop. }
    destruct (Hhalf _ Hnt ltac:(lia)) as [-> ?].
    destruct (Hhalf _ Hnd ltac:(lia)) as [-> ?].
    eexists. split; [reflexivity|]. split; [by apply wf_name_mk|].
    unfold name_val. simpl. rewrite <- (take_drop k x) at 3.
    rewrite hex_value_app, Hd. done.
  - destruct (Hhalf _ Hx ltac:(lia)) as [-> ?].
    eexists. split; [reflexivity|]. by split; [apply wf_name_mk|].
Qed.

Lemma to_hex_digits n :
  exists x, to_hex n = lit "0x" ++ x /\ length x = 32%nat /\
    Forall is_upper_hex x /\ (wf_name n -> hex_value x = name_val n).
Proof.
  eexists. split; [reflexivity|]. rewrite length_app, !length_uint_to_hex.
  split; [done|]. split.
  { apply Forall_app; split; apply uint_to_hex_upper. }
  intros [Hh Hl]. rewrite hex_value_app, length_uint_to_hex, !hex_value_uint_to_hex by done.
  by rewrite !wrap_small.
Qed.

Lemma Name_of_hex_to_hex n : wf_name n -> Name_of_hex (to_hex n) = Ret n.
Proof.
  intros Hn. destruct (to_hex_digits n) as (x & E & Hlen & Hup & Hval).
  assert (remove_0x (to_hex n) = x) as Er by (by rewrite E).
  pose proof (Name_of_hex_value (to_hex n)) as H. cbv zeta in H.
  rewrite Er, Hlen in H. destruct (H (upper_no_x x Hup)) as (m & -> & Hm & Hv).
  f_equal. apply name_val_inj; [done..|]. rewrite Hv. auto.
Qed.

(** * Properties *)

(** C38: shifting a name by less than 128 bits is the shift of its 128-bit
    integer, truncated to 128 bits on the left, on every target. *)
Theorem name_shifts_refine {T : Target} n v :
  wf_name n -> 0 <= v < 128 ->
  (exists m, shr n v = Ret m /\ wf_name m /\
     name_val m = Z.shiftr (name_val n) v) /\
  (exists m, shl n v = Ret m /\ wf_name m /\
     name_val m = wrap 128 (Z.shiftl (name_val n) v)).
Proof. intros. split; [by apply shr_ret | by apply shl_ret]. Qed.

Lemma name_shifts_refine_witness :
  let n := mkName 0x123456789abcdeff 0x123456789abcdeff in
  (exists m, shr (T := strict_little) n 72 = Ret m /\ wf_name m /\
     name_val m = Z.shiftr (name_val n) 72) /\
  (exists m, shl (T := strict_little) n 72 = Ret m /\ wf_name m /\
     name_val m = wrap 128 (Z.shiftl (name_val n) 72)).
Proof.
  apply (name_shifts_refine (T := strict_little)
    (mkName 0x123456789abcdeff 0x123456789abcdeff) 72).
  - split; vm_compute; split; congruence.
  - lia.
Defined.

(** A shift by 128 bits or more (up to the [uint16_t] range) is decided by
    the target: the sources shift a 64-bit word by 64 or more.  It is undefined
    behaviour in the language, and on x86-64 [~0 >> 128] is [~0 >> 64]. *)
Theorem name_shift_by_128_is_undefined n v :
  128 <= v ->
  shr (T := strict_little) n v = Undefined /\
  shr (T := x86_64) (mkName (2 ^ 64 - 1) (2 ^ 64 - 1)) 128
    = Ret (mkName 0 (2 ^ 64 - 1)).
Proof. intros. split; [by rewrite shr_over_128 | done]. Qed.

Lemma name_shift_by_128_is_undefined_witness :
  shr (T := strict_little) (mkName 1 0) 255 = Undefined /\
  shr (T := x86_64) (mkName (2 ^ 64 - 1) (2 ^ 64 - 1)) 128
    = Ret (mkName 0 (2 ^ 64 - 1)).
Proof. apply (name_shift_by_128_is_undefined (mkName 1 0) 255). lia. Defined.

(** C37: addition, subtraction, increments and decrements carry across the two
    halves: they are arithmetic modulo 2^128 on the integer of the name, and
    the pre/post forms return the new/old name. *)
Theorem name_arithmetic_refines n v :
  wf_name n -> is_u64 v ->
  name_val (add n v) = wrap 128 (name_val n + v) /\
  name_val (sub n v) = wrap 128 (name_val n - v) /\
  sub (add n v) v = n /\ add (sub n v) v = n /\
  pre_incr n = (add n 1, add n 1) /\ post_incr n = (n, add n 1) /\
  pre_decr n = (sub n 1, sub n 1) /\ post_decr n = (n, sub n 1).
Proof.
  intros Hn Hv. destruct (add_val n v Hn Hv) as [Ha Ea].
  destruct (sub_val n v Hn Hv) as [Hs Es].
  destruct (sub_val (add n v) v Ha Hv) as [Hsa Esa].
  destruct (add_val (sub n v) v Hs Hv) as [Has Eas].
  pose proof (name_val_bound n Hn) as Hb. unfold in_u, wrap in *.
  repeat split; try done; apply name_val_inj; try done; lia.
Qed.

Lemma name_arithmetic_refines_witness :
  let n := mkName 0 (2 ^ 64 - 1) in
  name_val (add n 1) = wrap 128 (name_val n + 1) /\
  name_val (sub n 1) = wrap 128 (name_val n - 1) /\
  sub (add n 1) 1 = n /\ add (sub n 1) 1 = n /\
  pre_incr n = (add n 1, add n 1) /\ post_incr n = (n, add n 1) /\
  pre_decr n = (sub n 1, sub n 1) /\ post_decr n = (n, sub n 1).
Proof.
  apply (name_arithmetic_refines (mkName 0 (2 ^ 64 - 1)) 1).
  - split; vm_compute; split; congruence.
  - vm_compute. split; congruence.
Defined.

(** The comparison operators order names as unsigned 128-bit integers,
    equality is equality of names, and the bitwise operators act on that
    integer. *)
Theorem name_order_and_bits_refine n m :
  wf_name n -> wf_name m ->
  name_ltb n m = (name_val n <? name_val m) /\
  name_gtb n m = (name_val m <? name_val n) /\
  (name_eqb n m = true <-> name_val n = name_val m) /\
  name_val (name_and n m) = Z.land (name_val n) (name_val m) /\
  name_val (name_or n m) = Z.lor (name_val n) (name_val m) /\
  name_val (name_xor n m) = Z.lxor (name_val n) (name_val m) /\
  name_val (name_not n) = 2 ^ 128 - 1 - name_val n.
Proof.
  intros Hn Hm. rewrite name_ltb_val, name_gtb_val, name_and_val, name_or_val,
    name_xor_val, name_not_val by done.
  repeat split; try done.
  - intros. by destruct (name_eqb_spec n m) as [->|].
  - intros E. destruct (name_eqb_spec n m) as [|Hne]; [done|].
    by apply name_val_inj in E.
  - pose proof (name_val_bound n Hn). unfold in_u, wrap, Z.lnot in *. lia.
Qed.

Lemma name_order_and_bits_refine_witness :
  let n := mkName 1 2 in let m := mkName 2 1 in
  name_ltb n m = (name_val n <? name_val m) /\
  name_gtb n m = (name_val m <? name_val n) /\
  (name_eqb n m = true <-> name_val n = name_val m) /\
  name_val (name_and n m) = Z.land (name_val n) (name_val m) /\
  name_val (name_or n m) = Z.lor (name_val n) (name_val m) /\
  name_val (name_xor n m) = Z.lxor (name_val n) (name_val m) /\
  name_val (name_not n) = 2 ^ 128 - 1 - name_val n.
Proof.
  apply (name_order_and_bits_refine (mkName 1 2) (mkName 2 1));
    split; vm_compute; split; congruence.
Defined.

(** Printing a name and parsing the text gives the name back; the text is
    ["0x"] and 32 upper-case digits whose value is the name's integer. *)
Theorem name_hex_roundtrip n :
  wf_name n ->
  Name_of_hex (to_hex n) = Ret n /\
  exists x, to_hex n = lit "0x" ++ x /\ length x = 32%nat /\
    Forall is_upper_hex x /\ hex_value x = name_val n.
Proof.
  intros Hn. split; [by apply Name_of_hex_to_hex|].
  destruct (to_hex_digits n) as (x & ? & ? & ? & ?). eauto 10.
Qed.

Lemma name_hex_roundtrip_witness :
  let n := mkName 0xA11CEE00F0000100 0xff in
  Name_of_hex (to_hex n) = Ret n /\
  exists x, to_hex n = lit "0x" ++ x /\ length x = 32%nat /\
    Forall is_upper_hex x /\ hex_value x = name_val n.
Proof.
  apply (name_hex_roundtrip (mkName 0xA11CEE00F0000100 0xff)).
  split; vm_compute; split; congruence.
Defined.

(** Parsing a text that holds no further ['x']: after an optional ["0x"],
    more than 32 characters throw [NameException]; otherwise the result is the
    name whose integer is the value of the digits, whatever their number. *)
Theorem name_parse_spec s :
  no_x (remove_0x s) ->
  if 32 <? Z.of_nat (length (remove_0x s))
  then Name_of_hex s = Throw NameException
  else exists n, Name_of_hex s = Ret n /\ wf_name n /\
         name_val n = hex_value (remove_0x s).
Proof. apply Name_of_hex_value. Qed.

Lemma name_parse_spec_witness :
  let s := lit "0x10000000000000002000" in
  if 32 <? Z.of_nat (length (remove_0x s))
  then Name_of_hex s = Throw NameException
  else exists n, Name_of_hex s = Ret n /\ wf_name n /\
         name_val n = hex_value (remove_0x s).
Proof.
  apply (name_parse_spec (lit "0x10000000000000002000")).
  repeat constructor; discriminate.
Defined.

(** [name[i]] is byte [i] of the name's integer, least significant first,
    and throws [out_of_range] from 16 on; on a little-endian host the vector
    constructor rebuilds the name from those bytes, and a vector of another
    size is refused when longer and read out of bounds when shorter. *)
Theorem name_bytes_spec n i d :
  wf_name n -> 0 <= i -> Z.of_nat (length d) <> 16 ->
  name_index n i = (if i <? 16 then Ret (wrap 8 (Z.shiftr (name_val n) (i * 8)))
                    else Throw out_of_range) /\
  Name_of_vector (T := strict_little) (name_bytes n) = Ret n /\
  (forall T : Target, Name_of_vector d =
     if 16 <? Z.of_nat (length d) then Throw NameException else Undefined).
Proof.
  intros Hn Hi Hd. repeat split.
  - destruct (Z.ltb_spec i 16); [by rewrite name_index_val|].
    unfold name_index. by rewrite (proj2 (Z.leb_le sizeof_Name i)).
  - rewrite Name_of_vector_ret by done. by rewrite name_of_bytes_little.
  - intros T. by apply Name_of_vector_length.
Qed.

Lemma name_bytes_spec_witness :
  let n := mkName 0x0102030405060708 0x090a0b0c0d0e0f10 in
  name_index n 15 = (if 15 <? 16 then Ret (wrap 8 (Z.shiftr (name_val n) (15 * 8)))
                    else Throw out_of_range) /\
  Name_of_vector (T := strict_little) (name_bytes n) = Ret n /\
  (forall T : Target, Name_of_vector [1; 2; 3] =
     if 16 <? Z.of_nat (length [1; 2; 3]) then Throw NameException else Undefined).
Proof.
  apply (name_bytes_spec (mkName 0x0102030405060708 0x090a0b0c0d0e0f10) 15 [1; 2; 3]).
  - split; vm_compute; split; congruence.
  - lia.
  - simpl. lia.
Defined.
