(* ===== verification/HexEndec.v ===== *)
(** * quicr::HexEndec (include/quicr/hex_endec.h)

    [HexEndec<Size, Dist...>]: values packed into the bits of a hexadecimal
    text.  The template parameters are arguments here; the overloads that only
    convert their containers (spans, arrays, vectors, parameter packs) are the
    same function on lists.  [Size] selects between the overloads on a 64-bit
    integer and those on [std::bitset<Size>]. *)

From S2P Require Export Name.

(** ** std::bitset<Size> *)

Definition bitset_of (Size x : Z) : Z := wrap Size x.
(** [bits << n] and [bits >> n] for [n : size_t]. *)
Definition bitset_shl (Size bits n : Z) : Z :=
  if n <? Size then wrap Size (Z.shiftl bits n) else 0.
Definition bitset_shr (Size bits n : Z) : Z :=
  if n <? Size then Z.shiftr bits n else 0.
Definition bitset_flip (Size bits : Z) : Z := wrap Size (Z.lnot bits).
Definition to_ullong (bits : Z) : result Z :=
  if bits <? 2 ^ 64 then Ret bits else Throw overflow_error.

Definition sizeof_uint64_bits : Z := 64.

Section hexendec.
Context {T : Target}.

(** [~(~0x0ull << dist)] *)
Definition dist_mask (dist : Z) : result Z :=
  m ← shl64 (not64 0) dist;
  mret (not64 m).

(** ** Encode *)

(** The loop of the integer overload.  A distribution shorter than the values
    violates the [assert] above it and is read out of bounds. *)
Fixpoint encode_loop64 (distribution values : list Z) (bits : Z) : result Z :=
  match values, distribution with
  | [], _ => Ret bits
  | _ :: _, [] => Undefined
  | value :: values', dist :: distribution' =>
      bits1 ← shl64 bits dist;
      mask ← dist_mask dist;
      encode_loop64 distribution' values' (Z.lor bits1 (Z.land value mask))
  end.
Definition Encode64 (distribution values : list Z) : result chars :=
  bits ← encode_loop64 distribution values 0;
  mret (lit "0x" ++ uint_to_hex 8 bits).

Fixpoint encode_loop_bitset (Size : Z) (distribution values : list Z) (bits : Z)
    : result Z :=
  match values, distribution with
  | [], _ => Ret bits
  | _ :: _, [] => Undefined
  | value :: values', dist :: distribution' =>
      let bits1 := bitset_shl Size bits dist in
      v ← (if 64 <=? dist then Ret value
           else (mask ← dist_mask dist; mret (Z.land value mask)));
      encode_loop_bitset Size distribution' values'
        (Z.lor bits1 (bitset_of Size v))
  end.
(** [(std::bitset<Size>().set() >> 64).flip()] *)
Definition bits_mask (Size : Z) : Z :=
  bitset_flip Size (bitset_shr Size (Z.ones Size) 64).
Fixpoint print_sections (Size : Z) (n : nat) (bits : Z) (out_hex : chars)
    : result chars :=
  match n with
  | O => Ret out_hex
  | S n' =>
      section ← to_ullong (bitset_shr Size (Z.land bits (bits_mask Size))
                             (Size - sizeof_uint64_bits));
      print_sections Size n' (bitset_shl Size bits sizeof_uint64_bits)
        (out_hex ++ uint_to_hex 8 section)
  end.
Definition Encode_bitset (Size : Z) (distribution values : list Z) : result chars :=
  bits ← encode_loop_bitset Size distribution values 0;
  print_sections Size (Z.to_nat (Size / sizeof_uint64_bits)) bits (lit "0x").

Definition Encode (Size : Z) (distribution values : list Z) : result chars :=
  if Size <=? 64 then Encode64 distribution values
  else Encode_bitset Size distribution values.

(** ** Decode *)

(** [for (int i = dist_size - 1; i >= 0; --i)]: the distribution is taken from
    the last element; [res] holds the results above the index. *)
Fixpoint decode_loop64 (rev_distribution : list Z) (bits : Z) (res : list Z)
    : result (list Z) :=
  match rev_distribution with
  | [] => Ret res
  | dist :: ds =>
      mask ← dist_mask dist;
      bits' ← shr64 bits dist;
      decode_loop64 ds bits' (Z.land bits mask :: res)
  end.
Definition Decode64 (distribution : list Z) (hex : chars) : result (list Z) :=
  decode_loop64 (reverse distribution) (hex_to_uint 8 hex) [].

(** [hex.substr(i, 16)] *)
Definition substr (hex : chars) (pos n : nat) : result chars :=
  if (length hex <? pos)%nat then Throw out_of_range
  else Ret (take n (drop pos hex)).

Fixpoint parse_sections (Size : Z) (hex : chars) (num_sections : nat)
    (n i : nat) (bits : Z) : result Z :=
  match n with
  | O => Ret bits
  | S n' =>
      sec ← substr hex i 16;
      let j := Z.of_nat num_sections - Z.of_nat n' in
      parse_sections Size hex num_sections n' (i + 16)
        (Z.lor bits (bitset_shl Size (bitset_of Size (hex_to_uint 8 sec))
           (sizeof_uint64_bits * (Z.of_nat num_sections - j))))
  end.

Fixpoint decode_loop_bitset (Size : Z) (distribution : list Z) (bits : Z)
    : result (list Z) :=
  match distribution with
  | [] => Ret []
  | dist :: ds =>
      (* [Size - dist] is an [int] converted to [size_t] *)
      r ← to_ullong (bitset_shr Size bits (wrap 64 (Size - dist)));
      rs ← decode_loop_bitset Size ds (bitset_shl Size bits dist);
      mret (r :: rs)
  end.

(** [constexpr uint8_t hex_length = Size / 4;] *)
Definition hex_length (Size : Z) : Z := wrap 8 (Size / 4).
Definition Decode_bitset (Size : Z) (distribution : list Z) (hex : chars)
    : result (list Z) :=
  let hex := remove_0x hex in
  if Z.of_nat (length hex) =? hex_length Size then
    let num_sections := Z.to_nat (Size / sizeof_uint64_bits) in
    bits ← parse_sections Size hex num_sections num_sections 0 0;
    decode_loop_bitset Size distribution bits
  else Throw runtime_error.

Definition Decode (Size : Z) (distribution : list Z) (hex : chars)
    : result (list Z) :=
  if Size <=? 64 then Decode64 distribution hex
  else Decode_bitset Size distribution hex.
Definition Decode_Name (Size : Z) (distribution : list Z) (name : Name)
    : result (list Z) :=
  Decode Size distribution (to_hex name).
(** [Decode<Uint_t>] into an array of a narrower type of [w] bits. *)
Definition Decode_array (w Size : Z) (distribution : list Z) (hex : chars)
    : result (list Z) :=
  rs ← Decode Size distribution hex;
  mret (map (wrap w) rs).
End hexendec.

(** * Specification: fields packed from the most significant end *)

Definition total (l : list Z) : Z := foldr Z.add 0 l.

Fixpoint pack (distribution values : list Z) : Z :=
  match distribution, values with
  | d :: ds, v :: vs => v * 2 ^ total ds + pack ds vs
  | _, _ => 0
  end.

(** Field widths that fit in a word, with a value below each. *)
Definition field (d v : Z) : Prop := 0 <= d <= 64 /\ in_u d v.
Definition fields (distribution values : list Z) : Prop :=
  Forall2 field distribution values.

Lemma fields_total ds vs : fields ds vs -> 0 <= total ds.
Proof.
  induction 1 as [|d v ds vs [[? ?] _] _ IH]; [done|].
  change (total (d :: ds)) with (d + total ds). lia.
Qed.

Lemma pack_bound ds vs : fields ds vs -> in_u (total ds) (pack ds vs).
Proof.
  induction 1 as [|d v ds vs [[? ?] [? ?]] Hf [IH1 IH2]]; [done|].
  pose proof (fields_total _ _ Hf). cbn [pack].
  change (total (d :: ds)) with (d + total ds). unfold in_u.
  rewrite Z.pow_add_r by lia. nia.
Qed.

(** ** The packing loops *)

Section packing.
Context {T : Target}.

Lemma dist_mask_ret d : 0 <= d < 64 -> dist_mask d = Ret (Z.ones d).
Proof.
  intros Hd. unfold dist_mask, shl64. rewrite (proj2 (Z.ltb_lt d 64)) by lia.
  unfold mbind, result_bind, mret, result_ret. f_equal.
  apply Z.bits_inj'. intros i Hi. unfold not64. autorewrite with bits.
  rewrite Z.testbit_ones_nonneg by lia.
  destruct (Z.ltb_spec i d).
  - rewrite (Z.testbit_neg_r _ (i - d)), (proj2 (Z.ltb_lt i 64)) by lia. done.
  - autorewrite with bits. bits_cases; bits_finish.
Qed.

(** A field appended below the bits packed so far. *)
Lemma append_field w bits d v :
  0 <= d -> in_u d v -> 0 <= bits -> bits * 2 ^ d < 2 ^ w ->
  Z.lor (wrap w (Z.shiftl bits d)) v = bits * 2 ^ d + v.
Proof.
  intros Hd Hv Hb Hw. rewrite Z.shiftl_mul_pow2 by done.
  rewrite wrap_small by (unfold in_u; nia).
  by rewrite Z.lor_comm, lor_high, Z.add_comm.
Qed.

Lemma land_field d v : 0 <= d -> in_u d v -> Z.land v (Z.ones d) = v.
Proof. intros. rewrite land_low_mask by done. by apply wrap_small. Qed.

Lemma prefix_fits w bits d ds :
  0 <= bits -> 0 <= d -> 0 <= total ds ->
  bits * 2 ^ (total (d :: ds)) < 2 ^ w -> bits * 2 ^ d < 2 ^ w.
Proof.
  intros. change (total (d :: ds)) with (d + total ds) in *.
  rewrite Z.pow_add_r in * by lia.
  assert (1 <= 2 ^ total ds) by (pose proof (Z.pow_pos_nonneg 2 (total ds)); lia). nia.
Qed.

Lemma encode_loop64_pack ds vs bits :
  fields ds vs -> Forall (fun d => d < 64) ds -> 0 <= bits ->
  (bits + 1) * 2 ^ total ds <= 2 ^ 64 ->
  encode_loop64 ds vs bits = Ret (bits * 2 ^ total ds + pack ds vs).
Proof.
  intros Hf. revert bits. induction Hf as [|d v ds vs [[? ?] Hv] Hf IH];
    intros bits Hds Hb Hw; cbn [encode_loop64].
  { cbn [pack total foldr]. f_equal. lia. }
  apply list.Forall_cons in Hds as [Hd Hds]. pose proof (fields_total _ _ Hf).
  unfold shl64 at 1. rewrite (proj2 (Z.ltb_lt d 64)), dist_mask_ret by lia.
  unfold mbind, result_bind. rewrite land_field by (done || lia).
  assert (bits * 2 ^ d < 2 ^ 64) by (apply (prefix_fits _ _ _ ds); nia).
  rewrite append_field by (done || lia).
  change (total (d :: ds)) with (d + total ds) in *. rewrite Z.pow_add_r in * by lia.
  destruct Hv. rewrite IH; [|done|nia|nia]. cbn [pack]. f_equal. ring.
Qed.

Lemma encode_loop_bitset_pack Size ds vs bits :
  64 <= Size -> fields ds vs -> 0 <= bits ->
  (bits + 1) * 2 ^ total ds <= 2 ^ Size ->
  encode_loop_bitset Size ds vs bits = Ret (bits * 2 ^ total ds + pack ds vs).
Proof.
  intros HS Hf. revert bits. induction Hf as [|d v ds vs [[? ?] Hv] Hf IH];
    intros bits Hb Hw; cbn [encode_loop_bitset].
  { cbn [pack total foldr]. f_equal. lia. }
  pose proof (fields_total _ _ Hf).
  assert ((if 64 <=? d then Ret v
           else mask ← dist_mask d; mret (Z.land v mask)) = Ret v) as ->.
  { destruct (Z.leb_spec 64 d); [done|]. rewrite dist_mask_ret by lia.
    unfold mbind, result_bind. by rewrite land_field by (done || lia). }
  cbv [mbind result_bind].
  assert (bits * 2 ^ d < 2 ^ Size) by (apply (prefix_fits _ _ _ ds); nia).
  assert (bitset_of Size v = v) as ->.
  { apply wrap_small, (in_u_le d); [lia|done]. }
  assert (Z.lor (bitset_shl Size bits d) v = bits * 2 ^ d + v) as ->.
  { unfold bitset_shl. destruct (Z.ltb_spec d Size); [by apply append_field|].
    assert (d = Size) as -> by lia. assert (bits = 0) as -> by nia. done. }
  change (total (d :: ds)) with (d + total ds) in *. rewrite Z.pow_add_r in * by lia.
  destruct Hv. rewrite IH; [|nia|nia]. cbn [pack]. f_equal. ring.
Qed.
End packing.

(** ** The sections of the text *)

(** The prefix is worth nothing: both of its characters have value 0. *)
Lemma hex_value_remove_0x x : hex_value (remove_0x x) = hex_value x.
Proof.
  destruct x as [|c0 [|c1 x]]; [done..|]. simpl remove_0x.
  destruct (Ascii.eqb_spec c0 "0") as [->|], (Ascii.eqb_spec c1 "x") as [->|]; try done.
Qed.

Lemma hex_to_uint_section x :
  length x = 16%nat -> hex_to_uint 8 x = hex_value x.
Proof.
  intros Hl. rewrite hex_to_uint_value, hex_value_remove_0x by done.
  apply wrap_small. pose proof (hex_value_bound x) as Hb. rewrite Hl in Hb. exact Hb.
Qed.

Lemma bits_mask_bits Size i :
  64 < Size -> 0 <= i ->
  Z.testbit (bits_mask Size) i = ((Size - 64 <=? i) && (i <? Size))%bool.
Proof.
  intros HS Hi. unfold bits_mask, bitset_flip, bitset_shr.
  rewrite (proj2 (Z.ltb_lt 64 Size)) by lia. autorewrite with bits.
  rewrite Z.testbit_ones_nonneg by lia.
  destruct (Z.ltb_spec (i + 64) Size), (Z.leb_spec (Size - 64) i), (Z.ltb_spec i Size);
    try done; lia.
Qed.

(** One step of the printer: the top word, and the bits below it. *)
Lemma top_word Size bits :
  64 < Size -> in_u Size bits ->
  bitset_shr Size (Z.land bits (bits_mask Size)) (Size - sizeof_uint64_bits)
  = Z.shiftr bits (Size - 64).
Proof.
  intros HS Hb. unfold bitset_shr, sizeof_uint64_bits.
  rewrite (proj2 (Z.ltb_lt _ Size)) by lia.
  apply Z.bits_inj'. intros i Hi. rewrite !Z.shiftr_spec, Z.land_spec by lia.
  rewrite bits_mask_bits, (proj2 (Z.leb_le _ (i + (Size - 64)))) by lia.
  destruct (Z.ltb_spec (i + (Size - 64)) Size); bits_finish.
Qed.

Lemma shiftr_bound Size bits k :
  0 <= k <= Size -> in_u Size bits -> in_u k (Z.shiftr bits (Size - k)).
Proof.
  intros Hk Hb. apply in_u_bits; [lia|]. intros i Hi. rewrite Z.shiftr_spec by lia.
  by bits_oob.
Qed.

Lemma split_word Size bits n :
  64 < Size -> in_u Size bits -> 0 <= n -> n + 64 <= Size ->
  Z.shiftr bits (Size - (64 + n))
  = Z.shiftr bits (Size - 64) * 2 ^ n
    + Z.shiftr (bitset_shl Size bits sizeof_uint64_bits) (Size - n).
Proof.
  intros HS Hb Hn Hle. unfold bitset_shl, sizeof_uint64_bits.
  rewrite (proj2 (Z.ltb_lt 64 Size)) by lia.
  rewrite (Z.add_comm (_ * 2 ^ n)), <- lor_high; [|done|].
  2: { apply shiftr_bound; [lia|]. apply in_u_wrap. lia. }
  rewrite <- Z.shiftl_mul_pow2 by done. apply Z.bits_inj'. intros i Hi.
  rewrite Z.lor_spec, !Z.shiftr_spec, Z.shiftl_spec by lia.
  rewrite testbit_wrap, Z.shiftl_spec by lia.
  destruct (Z.ltb_spec i n).
  - rewrite (Z.testbit_neg_r _ (i - n)), orb_false_r by lia.
    rewrite (proj2 (Z.ltb_lt _ _)), andb_true_r by lia. f_equal. lia.
  - rewrite (proj2 (Z.ltb_ge (i + (Size - n)) Size)), andb_false_r by lia. simpl.
    rewrite Z.shiftr_spec by lia. f_equal. lia.
Qed.

Lemma print_sections_spec Size n bits out :
  64 < Size -> in_u Size bits -> 64 * Z.of_nat n <= Size ->
  exists x, print_sections Size n bits out = Ret (out ++ x) /\
    length x = (16 * n)%nat /\ no_x x /\
    hex_value x = Z.shiftr bits (Size - 64 * Z.of_nat n).
Proof.
  intros HS. revert bits out. induction n as [|n IH]; intros bits out Hb Hn.
  { exists []. rewrite app_nil_r. split_and!; [done|done|constructor|].
    symmetry. rewrite Z.shiftr_div_pow2 by lia. apply Z.div_small.
    by rewrite Z.mul_0_r, Z.sub_0_r. }
  cbn [print_sections]. rewrite top_word by done.
  pose proof (shiftr_bound Size bits 64 ltac:(lia) Hb) as Hw.
  unfold to_ullong. rewrite (proj2 (Z.ltb_lt _ _)) by apply Hw.
  cbv [mbind result_bind].
  destruct (IH (bitset_shl Size bits sizeof_uint64_bits)
              (out ++ uint_to_hex 8 (Z.shiftr bits (Size - 64)))) as (x & E & Hl & Hx & Hv).
  { unfold bitset_shl. case_match; [apply in_u_wrap; lia|]. unfold in_u. lia. }
  { lia. }
  eexists. rewrite E, <- app_assoc. split; [done|].
  rewrite length_app, length_uint_to_hex, Hl. split; [lia|]. split.
  - apply Forall_app; split; auto with words. apply upper_no_x, uint_to_hex_upper. 
  - rewrite hex_value_app, Hv, hex_value_uint_to_hex, wrap_small, Hl by done.
    replace (64 * Z.of_nat (S n)) with (64 + 64 * Z.of_nat n) by lia.
    rewrite (split_word Size bits (64 * Z.of_nat n)) by (done || lia).
    do 2 f_equal. change 16 with (2 ^ 4). rewrite <- Z.pow_mul_r by lia. f_equal. lia.
Qed.

Lemma parse_sections_spec Size hex num n bits :
  64 * Z.of_nat num = Size -> length hex = (16 * num)%nat -> (n <= num)%nat -> 0 <= bits ->
  (bits + 1) * 2 ^ (64 * Z.of_nat n) <= 2 ^ Size ->
  parse_sections Size hex num n (16 * (num - n)) (bits * 2 ^ (64 * Z.of_nat n))
  = Ret (bits * 2 ^ (64 * Z.of_nat n) + hex_value (drop (16 * (num - n)) hex)).
Proof.
  intros HS Hl. revert bits. induction n as [|n IH]; intros bits Hn Hb Hw.
  { cbn [parse_sections]. rewrite drop_ge by lia. simpl. do 2 f_equal. change (hex_value []) with 0. lia. }
  cbn [parse_sections]. unfold substr. rewrite (proj2 (Nat.ltb_ge _ _)) by lia.
  cbv [mbind result_bind]. set (rest := drop (16 * (num - S n)) hex) in *.
  assert (length rest = (16 * S n)%nat) as Hr by (unfold rest; rewrite length_drop; lia).
  assert (length (take 16 rest) = 16%nat) as Ht by (rewrite length_take; lia).
  rewrite hex_to_uint_section by done.
  pose proof (hex_value_bound (take 16 rest)) as Hsec. rewrite Ht in Hsec.
  change (16 ^ Z.of_nat 16) with (2 ^ 64) in Hsec. set (sec := hex_value (take 16 rest)) in *.
  replace (Z.of_nat num - (Z.of_nat num - Z.of_nat n)) with (Z.of_nat n) by lia.
  change sizeof_uint64_bits with 64. set (e := 64 * Z.of_nat n) in *.
  replace (64 * Z.of_nat (S n)) with (64 + e) in * by lia.
  rewrite Z.pow_add_r in * by lia.
  assert (bitset_shl Size (bitset_of Size sec) e = sec * 2 ^ e) as ->.
  { unfold bitset_shl, bitset_of. rewrite (proj2 (Z.ltb_lt _ _)) by lia.
    rewrite (wrap_small Size sec), Z.shiftl_mul_pow2 by (lia || (apply (in_u_le 64); [lia|done])).
    apply wrap_small. unfold in_u. nia. }
  assert (Z.lor (bits * (2 ^ 64 * 2 ^ e)) (sec * 2 ^ e) = (bits * 2 ^ 64 + sec) * 2 ^ e) as ->.
  { rewrite Z.mul_assoc, <- !(Z.shiftl_mul_pow2 _ e), <- Z.shiftl_lor by lia. f_equal.
    by rewrite Z.lor_comm, lor_high, Z.add_comm. }
  replace (16 * (num - S n) + 16)%nat with (16 * (num - n))%nat by lia.
  rewrite IH; [|lia|nia|nia]. f_equal.
  rewrite <- (take_drop 16 rest) at 1. unfold rest at 2. rewrite drop_drop, hex_value_app.
  replace (16 * (num - S n) + 16)%nat with (16 * (num - n))%nat by lia.
  rewrite length_drop, Hl.
  replace (16 ^ Z.of_nat (16 * num - 16 * (num - n))) with (2 ^ e).
  { fold sec. ring. }
  change 16 with (2 ^ 4). rewrite <- Z.pow_mul_r by lia. f_equal. lia.
Qed.

(** ** Unpacking *)

Section unpacking.
Context {T : Target}.

Lemma decode_loop_bitset_pack Size ds vs :
  64 < Size < 2 ^ 16 -> fields ds vs -> total ds <= Size ->
  decode_loop_bitset Size ds (pack ds vs * 2 ^ (Size - total ds)) = Ret vs.
Proof.
  intros HS. induction 1 as [|d v ds vs [[? ?] Hv] Hf IH]; intros Ht; [done|].
  pose proof (fields_total _ _ Hf). pose proof (pack_bound _ _ Hf) as Hp.
  change (total (d :: ds)) with (d + total ds) in *. cbn [decode_loop_bitset pack].
  rewrite wrap_small by (unfold in_u; lia). set (r := Size - (d + total ds)).
  assert (0 <= r) by lia.
  assert (pack ds vs * 2 ^ r < 2 ^ (Size - d)) as Hlow.
  { replace (Size - d) with (total ds + r) by lia. rewrite Z.pow_add_r by lia.
    destruct Hp. apply Z.mul_lt_mono_pos_r; [apply Z.pow_pos_nonneg|]; lia. }
  assert ((v * 2 ^ total ds + pack ds vs) * 2 ^ r
          = v * 2 ^ (Size - d) + pack ds vs * 2 ^ r) as ->.
  { replace (Size - d) with (total ds + r) by lia. rewrite Z.pow_add_r by lia. ring. }
  assert (0 <= pack ds vs * 2 ^ r) by (destruct Hp; pose proof (Z.pow_pos_nonneg 2 r); nia).
  assert (bitset_shr Size (v * 2 ^ (Size - d) + pack ds vs * 2 ^ r) (Size - d) = v) as ->.
  { unfold bitset_shr. destruct (Z.ltb_spec (Size - d) Size).
    - rewrite Z.shiftr_div_pow2, Z.add_comm, Z.div_add by lia. rewrite Z.div_small; lia.
    - assert (d = 0) as -> by lia. destruct Hv as [? Hv]. change (2 ^ 0) with 1 in Hv. lia. }
  unfold to_ullong. rewrite (proj2 (Z.ltb_lt v _)) by apply (in_u_le d 64 v ltac:(lia) Hv).
  cbv [mbind result_bind].
  assert (bitset_shl Size (v * 2 ^ (Size - d) + pack ds vs * 2 ^ r) d
          = pack ds vs * 2 ^ (Size - total ds)) as ->.
  { unfold bitset_shl. rewrite (proj2 (Z.ltb_lt _ _)), Z.shiftl_mul_pow2 by lia.
    replace ((v * 2 ^ (Size - d) + pack ds vs * 2 ^ r) * 2 ^ d)
      with (pack ds vs * 2 ^ r * 2 ^ d + v * 2 ^ Size)
      by (rewrite Z.mul_add_distr_r, <- (Z.mul_assoc v), <- Z.pow_add_r by lia;
          replace (Size - d + d) with Size by lia; ring).
    unfold wrap. rewrite Z.mod_add by (pose proof (Z.pow_pos_nonneg 2 Size); lia).
    rewrite <- Z.mul_assoc, <- Z.pow_add_r by lia.
    replace (r + d) with (Size - total ds) by lia. apply Z.mod_small.
    split; [pose proof (Z.pow_pos_nonneg 2 (Size - total ds)); destruct Hp; nia|].
    replace Size with (total ds + (Size - total ds)) at 2 by lia.
    rewrite Z.pow_add_r by lia. destruct Hp.
    apply Z.mul_lt_mono_pos_r; [apply Z.pow_pos_nonneg|]; lia. }
  rewrite IH by lia. done.
Qed.

(** The integer overload takes the fields from the least significant end. *)
Lemma decode_loop64_pack ds vs rest hi res :
  fields ds vs -> Forall (fun d => d < 64) ds -> 0 <= hi ->
  decode_loop64 (reverse ds ++ rest) (hi * 2 ^ total ds + pack ds vs) res
  = decode_loop64 rest hi (vs ++ res).
Proof.
  intros Hf. revert rest hi res. induction Hf as [|d v ds vs [[? ?] [Hv0 Hv]] Hf IH];
    intros rest hi res Hds Hhi.
  { cbn [pack total foldr]. replace (hi * 2 ^ 0 + 0) with hi by lia. done. }
  apply list.Forall_cons in Hds as [Hd Hds]. pose proof (fields_total _ _ Hf).
  rewrite reverse_cons, <- app_assoc. cbn [pack].
  change (total (d :: ds)) with (d + total ds). rewrite Z.pow_add_r by lia.
  replace (hi * (2 ^ d * 2 ^ total ds) + (v * 2 ^ total ds + pack ds vs))
    with ((hi * 2 ^ d + v) * 2 ^ total ds + pack ds vs) by ring.
  rewrite IH by (done || nia). cbn [app decode_loop64].
  rewrite dist_mask_ret by lia. unfold shr64. rewrite (proj2 (Z.ltb_lt d 64)) by lia.
  cbv [mbind result_bind]. rewrite land_low_mask, Z.shiftr_div_pow2 by lia. unfold wrap.
  rewrite Z.add_comm, Z.mod_add, Z.div_add by lia.
  by rewrite Z.mod_small, Z.div_small.
Qed.

Lemma Decode_bitset_value Size ds vs hex :
  64 < Size < 1024 -> (64 | Size) -> fields ds vs -> total ds = Size ->
  Z.of_nat (length (remove_0x hex)) = Size / 4 -> hex_value hex = pack ds vs ->
  Decode_bitset Size ds hex = Ret vs.
Proof.
  intros HS [k Hk] Hf Ht Hl Hv. unfold Decode_bitset, hex_length.
  rewrite wrap_small by (unfold in_u; lia). rewrite Hl, Z.eqb_refl.
  change sizeof_uint64_bits with 64.
  pose proof (parse_sections_spec Size (remove_0x hex) (Z.to_nat (Size / 64))
    (Z.to_nat (Size / 64)) 0 ltac:(lia) ltac:(lia) ltac:(lia) ltac:(lia)) as E.
  rewrite Nat.sub_diag, Nat.mul_0_r, drop_0, hex_value_remove_0x, Hv in E.
  rewrite Z.mul_0_l, Z.add_0_l in E.
  rewrite E by (rewrite Z.mul_1_l; apply Z.pow_le_mono_r; lia).
  cbv [mbind result_bind]. pose proof (decode_loop_bitset_pack Size ds vs) as Hd.
  replace (Size - total ds) with 0 in Hd by lia.
  rewrite Z.mul_1_r in Hd. apply Hd; [lia|done|lia].
Qed.
End unpacking.

Lemma length_remove_0x_prefix x :
  no_x x -> remove_0x (lit "0x" ++ x) = x.
Proof. done. Qed.

Lemma hex_value_lit x : hex_value (lit "0x" ++ x) = hex_value x.
Proof. rewrite hex_value_app. by change (hex_value (lit "0x")) with 0. Qed.

Example encode_example :
  Encode (T := strict_little) 128 [64; 56; 8] [0x1111111111111111; 0x22222222222222; 0]
  = Ret (lit "0x11111111111111112222222222222200").
Proof. reflexivity. Qed.
Example decode_example :
  Decode (T := strict_little) 64 [32; 24; 8] (lit "0x1111111122222200")
  = Ret [0x11111111; 0x222222; 0].
Proof. reflexivity. Qed.

(** * Properties *)

(** C39: with a size of several 64-bit words below 1024 bits, and values that
    fit in fields which fill the size, [Encode] prints the packed integer with
    [Size / 4] digits, and [Decode] gives back the values, from that text and
    from any name that holds that integer. *)
Theorem hexendec_wide_roundtrip {T : Target} Size ds vs :
  64 < Size < 1024 -> (64 | Size) -> fields ds vs -> total ds = Size ->
  (exists text, Encode Size ds vs = Ret (lit "0x" ++ text) /\
     Z.of_nat (length text) = Size / 4 /\ hex_value text = pack ds vs /\
     Decode Size ds (lit "0x" ++ text) = Ret vs) /\
  (forall n, wf_name n -> Size = 128 -> name_val n = pack ds vs ->
     Decode_Name Size ds n = Ret vs).
Proof.
  intros HS Hk Hf Ht. unfold Decode_Name, Decode, Encode.
  rewrite !(proj2 (Z.leb_gt Size 64)) by lia. split.
  - pose proof (encode_loop_bitset_pack Size ds vs 0 ltac:(lia) Hf ltac:(lia)) as E.
    rewrite Z.mul_1_l, Z.mul_0_l, Z.add_0_l, Ht in E. specialize (E ltac:(lia)).
    unfold Encode_bitset. rewrite E. cbv [mbind result_bind].
    pose proof (pack_bound _ _ Hf) as Hp. rewrite Ht in Hp. destruct Hk as [k Hk].
    destruct (print_sections_spec Size (Z.to_nat (Size / sizeof_uint64_bits)) (pack ds vs)
      (lit "0x") ltac:(lia) Hp) as (x & Ex & Hl & Hx & Hv).
    { change sizeof_uint64_bits with 64. lia. }
    exists x. change sizeof_uint64_bits with 64 in *.
    replace (Size - 64 * Z.of_nat (Z.to_nat (Size / 64))) with 0 in Hv by lia.
    rewrite Z.shiftr_0_r in Hv. split_and!; [done|lia|done|].
    apply Decode_bitset_value; [done|by exists k|done|done| |by rewrite hex_value_lit].
    rewrite length_remove_0x_prefix by done. lia.
  - intros n Hn -> Hv. apply Decode_bitset_value; [done..| |].
    + unfold to_hex. rewrite length_remove_0x_prefix.
      * by rewrite length_app, !length_uint_to_hex.
      * apply Forall_app; split; apply upper_no_x, uint_to_hex_upper.
    + rewrite <- Hv. unfold to_hex. rewrite hex_value_lit, hex_value_app.
      rewrite !hex_value_uint_to_hex, length_uint_to_hex by done. destruct Hn.
      by rewrite !wrap_small.
Qed.

Lemma hexendec_wide_roundtrip_witness :
  (exists text,
     Encode (T := strict_little) 128 [64; 56; 8] [0x1111111111111111; 0x22222222222222; 7]
     = Ret (lit "0x" ++ text) /\
     Z.of_nat (length text) = 128 / 4 /\
     hex_value text = pack [64; 56; 8] [0x1111111111111111; 0x22222222222222; 7] /\
     Decode (T := strict_little) 128 [64; 56; 8] (lit "0x" ++ text)
     = Ret [0x1111111111111111; 0x22222222222222; 7]) /\
  (forall n, wf_name n -> 128 = 128 ->
     name_val n = pack [64; 56; 8] [0x1111111111111111; 0x22222222222222; 7] ->
     Decode_Name (T := strict_little) 128 [64; 56; 8] n
     = Ret [0x1111111111111111; 0x22222222222222; 7]).
Proof.
  apply (hexendec_wide_roundtrip (T := strict_little) 128 [64; 56; 8]
           [0x1111111111111111; 0x22222222222222; 7]).
  - lia.
  - by exists 2.
  - repeat constructor; vm_compute; congruence.
  - reflexivity.
Defined.

(** Up to 64 bits, values that fit in fields shorter than 64 bits with at
    most 64 bits in all are printed as one 64-bit word, whatever the size, and
    come back; a 64-bit field hits a shift by 64, which is undefined, and which
    the shift instructions of x86-64 turn into the loss of the value. *)
Theorem hexendec_narrow_roundtrip {T : Target} Size ds vs :
  Size <= 64 -> fields ds vs -> Forall (fun d => d < 64) ds -> total ds <= 64 ->
  Encode Size ds vs = Ret (lit "0x" ++ uint_to_hex 8 (pack ds vs)) /\
  Decode Size ds (lit "0x" ++ uint_to_hex 8 (pack ds vs)) = Ret vs /\
  (forall v, Encode (T := strict_little) Size [64] [v] = Undefined) /\
  (forall v, Encode (T := x86_64) Size [64] [v] = Ret (lit "0x0000000000000000")).
Proof.
  intros HS Hf Hds Ht. unfold Decode, Encode. rewrite !(proj2 (Z.leb_le Size 64)) by lia.
  pose proof (fields_total _ _ Hf). split_and!.
  - unfold Encode64. rewrite encode_loop64_pack by (done || lia ||
      (rewrite Z.mul_1_l; apply Z.pow_le_mono_r; lia)). done.
  - unfold Decode64. pose proof (decode_loop64_pack ds vs [] 0 [] Hf Hds ltac:(lia)) as E.
    rewrite !app_nil_r, Z.mul_0_l, Z.add_0_l in E.
    pose proof (in_u_le _ 64 _ (conj H Ht) (pack_bound _ _ Hf)).
    rewrite hex_to_uint_value, hex_value_remove_0x, hex_value_lit by done.
    rewrite hex_value_uint_to_hex, !wrap_small by (done || by rewrite wrap_small). exact E.
  - done.
  - intros v. unfold Encode64. cbn [encode_loop64].
    change (shl64 (T := x86_64) 0 64) with (Ret 0).
    change (dist_mask (T := x86_64) 64) with (Ret 0).
    cbv [mbind result_bind]. by rewrite Z.land_0_r.
Qed.

Lemma hexendec_narrow_roundtrip_witness :
  Encode (T := strict_little) 64 [32; 24; 8] [1; 2; 3]
    = Ret (lit "0x" ++ uint_to_hex 8 (pack [32; 24; 8] [1; 2; 3])) /\
  Decode (T := strict_little) 64 [32; 24; 8]
    (lit "0x" ++ uint_to_hex 8 (pack [32; 24; 8] [1; 2; 3])) = Ret [1; 2; 3] /\
  (forall v, Encode (T := strict_little) 64 [64] [v] = Undefined) /\
  (forall v, Encode (T := x86_64) 64 [64] [v] = Ret (lit "0x0000000000000000")).
Proof.
  apply (hexendec_narrow_roundtrip (T := strict_little) 64 [32; 24; 8] [1; 2; 3]).
  - lia.
  - repeat constructor; vm_compute; congruence.
  - repeat constructor; lia.
  - vm_compute. congruence.
Defined.

(** [Decode] on several words refuses a text of the wrong length with
    [runtime_error]; for sizes from 1024 bits on the expected length, kept in
    an [uint8_t], is 0, so that no text at all is decoded. *)
Theorem hexendec_wide_errors {T : Target} Size ds hex :
  64 < Size ->
  (Z.of_nat (length (remove_0x hex)) <> hex_length Size ->
     Decode Size ds hex = Throw runtime_error) /\
  ((1024 | Size) ->
     Decode Size ds hex
     = Throw (if (length (remove_0x hex) =? 0)%nat then out_of_range else runtime_error)).
Proof.
  intros HS. unfold Decode, Decode_bitset. rewrite !(proj2 (Z.leb_gt Size 64)) by lia.
  split; [intros Hl; by rewrite (proj2 (Z.eqb_neq _ _))|].
  intros [k Hk]. assert (hex_length Size = 0) as ->.
  { unfold hex_length, wrap. subst Size. replace (k * 1024 / 4) with (k * 2 ^ 8) by lia.
    by rewrite Z.mod_mul. }
  destruct (remove_0x hex) as [|c x]; [|done]. simpl.
  change sizeof_uint64_bits with 64.
  destruct (Z.to_nat (Size / 64)) as [|[|n]] eqn:E; [lia|lia|done].
Qed.

Lemma hexendec_wide_errors_witness :
  (Z.of_nat (length (remove_0x (lit "0x12"))) <> hex_length 1024 ->
     Decode (T := strict_little) 1024 [64] (lit "0x12") = Throw runtime_error) /\
  ((1024 | 1024) ->
     Decode (T := strict_little) 1024 [64] (lit "0x12")
     = Throw (if (length (remove_0x (lit "0x12")) =? 0)%nat then out_of_range
              else runtime_error)).
Proof.
  apply (hexendec_wide_errors (T := strict_little) 1024 [64] (lit "0x12")).
  lia.
Defined.
