(* ===== verification/Namespace.v ===== *)
(** * quicr::Namespace (include/quicr/quicr_namespace.h, src/quicr_namespace.cpp)

    A prefix of a name: the name with the bits below the prefix cleared, and
    the number of significant bits.  The prefix mask is computed by a shift of
    [sig_bits], an [uint8_t], so from 128 on the outcome is the target's. *)

From S2P Require Export Name.

Record Namespace := mkNamespace { _name : Name; _sig_bits : Z }.

#[export] Instance Namespace_eq_dec : EqDecision Namespace.
Proof. solve_decision. Defined.

(** [~(~0x0_name >> sig_bits)] *)
Definition prefix_mask {T : Target} (sig_bits : Z) : result Name :=
  zero ← Name_of_hex (lit "0x0");
  low ← shr (name_not zero) sig_bits;
  mret (name_not low).

(** [Namespace(const Name&, uint8_t)]; the constructor from [Name&&] has the
    same body. *)
Definition make_Namespace {T : Target} (name : Name) (sig_bits : Z)
    : result Namespace :=
  mask ← prefix_mask sig_bits;
  mret (mkNamespace (name_and name mask) sig_bits).

(** [contains(const Name&)] *)
Definition contains {T : Target} (ns : Namespace) (name : Name) : result bool :=
  mask ← prefix_mask (_sig_bits ns);
  mret (name_eqb (name_and name mask) (_name ns)).
(** [contains(const Namespace&)] *)
Definition contains_ns {T : Target} (ns prefix : Namespace) : result bool :=
  contains ns (_name prefix).

Definition ns_to_hex (ns : Namespace) : chars := to_hex (_name ns).
Definition ns_eqb (a b : Namespace) : bool :=
  (name_eqb (_name a) (_name b) && (_sig_bits a =? _sig_bits b))%bool.
Definition ns_neqb (a b : Namespace) : bool := negb (ns_eqb a b).
Definition ns_gtb (a b : Namespace) : bool := name_gtb (_name a) (_name b).
Definition ns_gtb_name (a : Namespace) (b : Name) : bool := name_gtb (_name a) b.
Definition name_gtb_ns (a : Name) (b : Namespace) : bool := name_gtb a (_name b).
Definition ns_ltb (a b : Namespace) : bool := name_ltb (_name a) (_name b).
Definition ns_ltb_name (a : Namespace) (b : Name) : bool := name_ltb (_name a) b.
Definition name_ltb_ns (a : Name) (b : Namespace) : bool := name_ltb a (_name b).
Definition print_Namespace (os : chars) (ns : Namespace) : chars :=
  os ++ ns_to_hex ns.

(** * Specification *)

(** The first [k] bits of a 128-bit integer. *)
Definition prefix_bits (k v : Z) : Z := Z.shiftr v (128 - k).

(** A namespace as the constructor builds it: the bits below are clear. *)
Definition wf_namespace (ns : Namespace) : Prop :=
  wf_name (_name ns) /\ 0 <= _sig_bits ns < 128 /\
  wrap (128 - _sig_bits ns) (name_val (_name ns)) = 0.

(** The integer of the mask: [k] ones followed by [128 - k] zeros. *)
Definition mask_val (k : Z) : Z := Z.shiftl (Z.ones k) (128 - k).

(** The mask as a name: a pure function of the prefix length. *)
Definition mask_name (k : Z) : Name := name_of_val (mask_val k).

Lemma testbit_mask_val k i :
  0 <= k <= 128 -> 0 <= i ->
  Z.testbit (mask_val k) i = ((128 - k <=? i) && (i <? 128))%bool.
Proof.
  intros Hk Hi. unfold mask_val. rewrite Z.shiftl_spec by lia.
  rewrite Z.testbit_ones by lia.
  destruct (Z.leb_spec (128 - k) i), (Z.ltb_spec i 128), (Z.leb_spec 0 (i - (128 - k))),
    (Z.ltb_spec (i - (128 - k)) k); try done; lia.
Qed.

Lemma mask_val_bound k : 0 <= k <= 128 -> in_u 128 (mask_val k).
Proof.
  intros Hk. apply in_u_bits; [done|]. intros i Hi.
  rewrite testbit_mask_val by lia. rewrite (proj2 (Z.ltb_ge _ _)) by lia.
  apply andb_false_r.
Qed.

Lemma name_val_mask k : 0 <= k <= 128 -> name_val (mask_name k) = mask_val k.
Proof.
  intros. unfold mask_name. rewrite name_val_of_val. by apply wrap_small, mask_val_bound.
Qed.

Lemma wf_mask_name k : wf_name (mask_name k).
Proof. apply wf_name_of_val. Qed.
#[export] Hint Resolve wf_mask_name : words.

Section prefix.
Context {T : Target}.

Lemma prefix_mask_ret k :
  0 <= k < 128 -> prefix_mask k = Ret (mask_name k).
Proof.
  intros Hk. unfold prefix_mask.
  change (Name_of_hex (lit "0x0")) with (Ret (mkName 0 0)).
  unfold mbind, result_bind at 1.
  assert (wf_name (name_not (mkName 0 0))) as Hw by auto with words.
  destruct (shr_ret (name_not (mkName 0 0)) k Hw Hk) as (m & Em & Hm & Vm).
  unfold mbind, result_bind. rewrite Em. unfold mret, result_ret. f_equal.
  apply name_val_inj; auto with words. rewrite name_val_mask by lia.
  rewrite name_not_val, Vm by done.
  change (name_val (name_not (mkName 0 0))) with (Z.ones 128).
  apply Z.bits_inj'. intros i Hi. rewrite testbit_mask_val by lia.
  autorewrite with bits. rewrite Z.testbit_ones by lia.
  destruct (Z.leb_spec (128 - k) i), (Z.ltb_spec i 128), (Z.leb_spec 0 (i + k)),
    (Z.ltb_spec (i + k) 128); try done; lia.
Qed.

Lemma make_Namespace_ret n k :
  0 <= k < 128 ->
  make_Namespace n k = Ret (mkNamespace (name_and n (mask_name k)) k).
Proof. intros. unfold make_Namespace. by rewrite prefix_mask_ret. Qed.

Lemma contains_ret ns n :
  0 <= _sig_bits ns < 128 ->
  contains ns n
  = Ret (name_eqb (name_and n (mask_name (_sig_bits ns))) (_name ns)).
Proof. intros. unfold contains. by rewrite prefix_mask_ret. Qed.
End prefix.

(** Masking keeps the first [k] bits. *)
Lemma land_mask_prefix k v :
  0 <= k <= 128 -> in_u 128 v ->
  Z.land v (mask_val k) = Z.shiftl (prefix_bits k v) (128 - k).
Proof.
  intros Hk Hv. unfold prefix_bits. apply Z.bits_inj'. intros i Hi.
  rewrite Z.land_spec, testbit_mask_val, Z.shiftl_spec by lia.
  destruct (Z.leb_spec (128 - k) i).
  - rewrite Z.shiftr_spec by lia. replace (i - (128 - k) + (128 - k)) with i by lia.
    destruct (Z.ltb_spec i 128); bits_finish.
  - rewrite (Z.testbit_neg_r _ (i - _)) by lia. by rewrite andb_false_r.
Qed.

Lemma prefix_bits_mask k v :
  0 <= k <= 128 -> in_u 128 v ->
  prefix_bits k (Z.land v (mask_val k)) = prefix_bits k v.
Proof.
  intros. rewrite land_mask_prefix by done. unfold prefix_bits at 1.
  rewrite Z.shiftr_shiftl_l by lia. by rewrite Z.sub_diag, Z.shiftl_0_r.
Qed.

Lemma name_and_mask_val n k :
  wf_name n -> 0 <= k <= 128 ->
  name_val (name_and n (mask_name k)) = Z.shiftl (prefix_bits k (name_val n)) (128 - k).
Proof.
  intros. rewrite name_and_val, name_val_mask by (auto with words || lia).
  apply land_mask_prefix; [done|]. by apply name_val_bound.
Qed.

Lemma wf_make_Namespace n k :
  wf_name n -> 0 <= k < 128 ->
  wf_namespace (mkNamespace (name_and n (mask_name k)) k).
Proof.
  intros Hn Hk. split; [simpl; auto with words|]. split; [done|]. simpl.
  rewrite name_and_mask_val by (done || lia). unfold wrap.
  rewrite Z.shiftl_mul_pow2 by lia. apply Z.mod_mul.
  pose proof (Z.pow_pos_nonneg 2 (128 - k)). lia.
Qed.

(** A well-formed namespace is determined by its prefix. *)
Lemma wf_namespace_val ns :
  wf_namespace ns ->
  name_val (_name ns)
  = Z.shiftl (prefix_bits (_sig_bits ns) (name_val (_name ns))) (128 - _sig_bits ns).
Proof.
  intros (Hn & Hk & H0). unfold prefix_bits.
  rewrite Z.shiftr_div_pow2, Z.shiftl_mul_pow2 by lia. unfold wrap in H0.
  pose proof (Z.div_mod (name_val (_name ns)) (2 ^ (128 - _sig_bits ns))).
  pose proof (Z.pow_pos_nonneg 2 (128 - _sig_bits ns)). lia.
Qed.

Lemma shiftl_inj a b k : 0 <= k -> Z.shiftl a k = Z.shiftl b k -> a = b.
Proof.
  intros Hk E. apply (f_equal (fun x => Z.shiftr x k)) in E.
  by rewrite !Z.shiftr_shiftl_l, Z.sub_diag, !Z.shiftl_0_r in E by done.
Qed.

Lemma contains_spec {T : Target} ns n :
  wf_namespace ns -> wf_name n ->
  contains ns n
  = Ret (prefix_bits (_sig_bits ns) (name_val n)
         =? prefix_bits (_sig_bits ns) (name_val (_name ns))).
Proof.
  intros Hns Hn. pose proof Hns as (Hw & Hk & _). rewrite contains_ret by done. f_equal.
  pose proof (wf_namespace_val ns Hns) as Ev.
  pose proof (name_and_mask_val n (_sig_bits ns) Hn ltac:(lia)) as Em.
  destruct (name_eqb_spec (name_and n (mask_name (_sig_bits ns))) (_name ns)) as [E|E];
    symmetry; [apply Z.eqb_eq | apply Z.eqb_neq].
  - rewrite E, Ev in Em. by apply shiftl_inj in Em; [|lia].
  - intros E'. apply E, name_val_inj; auto with words. rewrite Em, E'. done.
Qed.

(** A prefix of a prefix. *)
Lemma prefix_bits_le j k v :
  j <= k <= 128 -> prefix_bits j v = Z.shiftr (prefix_bits k v) (k - j).
Proof.
  intros. unfold prefix_bits. rewrite Z.shiftr_shiftr by lia. f_equal. lia.
Qed.

Lemma contains_true_iff {T : Target} ns n :
  wf_namespace ns -> wf_name n ->
  contains ns n = Ret true <->
  prefix_bits (_sig_bits ns) (name_val n)
  = prefix_bits (_sig_bits ns) (name_val (_name ns)).
Proof.
  intros. rewrite contains_spec by done. rewrite <- Z.eqb_eq. split; congruence.
Qed.

(** Is a name inside a (well-formed) namespace? *)
Definition within (ns : Namespace) (n : Name) : bool :=
  prefix_bits (_sig_bits ns) (name_val n) =? prefix_bits (_sig_bits ns) (name_val (_name ns)).

Lemma contains_within {T : Target} ns n :
  wf_namespace ns -> wf_name n -> contains ns n = Ret (within ns n).
Proof. apply contains_spec. Qed.

(** * Properties *)

(** C36: for a length below 128, building a namespace succeeds on every target,
    gives a well-formed namespace of that length, and that namespace contains
    exactly the names which agree with the given one on the first bits. *)
Theorem namespace_contains_spec {T : Target} n k m :
  wf_name n -> wf_name m -> 0 <= k < 128 ->
  exists ns, make_Namespace n k = Ret ns /\ wf_namespace ns /\
    _sig_bits ns = k /\ contains ns n = Ret true /\
    contains ns m = Ret (prefix_bits k (name_val m) =? prefix_bits k (name_val n)).
Proof.
  intros Hn Hm Hk. rewrite make_Namespace_ret by done. eexists. split; [reflexivity|].
  pose proof (wf_make_Namespace n k Hn Hk) as Hw. split; [done|]. split; [done|].
  assert (forall p, wf_name p ->
    contains (mkNamespace (name_and n (mask_name k)) k) p
    = Ret (prefix_bits k (name_val p) =? prefix_bits k (name_val n))) as H.
  { intros p Hp. rewrite contains_spec by done. simpl.
    rewrite name_and_val, name_val_mask by auto with words.
    by rewrite prefix_bits_mask by (lia || by apply name_val_bound). }
  split; [|by apply H]. rewrite H by done. by rewrite Z.eqb_refl.
Qed.

Lemma namespace_contains_spec_witness :
  let n := mkName 0x1111111111111111 0x2222222222222200 in
  let m := mkName 0x1111111111111111 0x2222222222222300 in
  exists ns, make_Namespace (T := strict_little) n 120 = Ret ns /\ wf_namespace ns /\
    _sig_bits ns = 120 /\ contains (T := strict_little) ns n = Ret true /\
    contains (T := strict_little) ns m
    = Ret (prefix_bits 120 (name_val m) =? prefix_bits 120 (name_val n)).
Proof.
  apply (namespace_contains_spec (T := strict_little)
    (mkName 0x1111111111111111 0x2222222222222200) 120
    (mkName 0x1111111111111111 0x2222222222222300)).
  - split; vm_compute; split; congruence.
  - split; vm_compute; split; congruence.
  - lia.
Defined.

(** Containment is hierarchical: a namespace that contains a longer one
    contains every name the longer one contains. *)
Theorem namespace_contains_trans {T : Target} a b n :
  wf_namespace a -> wf_namespace b -> wf_name n -> _sig_bits a <= _sig_bits b ->
  contains_ns a b = Ret true -> contains b n = Ret true ->
  contains a n = Ret true.
Proof.
  intros Ha Hb Hn Hle. pose proof Ha as (_ & Hka & _). pose proof Hb as (Hwb & Hkb & _).
  unfold contains_ns. rewrite !contains_true_iff by done. intros Hab Hbn.
  rewrite <- Hab, !(prefix_bits_le (_sig_bits a) (_sig_bits b)) by lia. by rewrite Hbn.
Qed.

Lemma namespace_contains_trans_witness :
  contains (T := strict_little)
    (mkNamespace (mkName 0x1111111111111111 0x2222222222220000) 112)
    (mkName 0x1111111111111111 0x22222222222222ff) = Ret true.
Proof.
  apply (namespace_contains_trans (T := strict_little)
    (mkNamespace (mkName 0x1111111111111111 0x2222222222220000) 112)
    (mkNamespace (mkName 0x1111111111111111 0x2222222222222200) 120)
    (mkName 0x1111111111111111 0x22222222222222ff)).
  - repeat split; vm_compute; congruence.
  - repeat split; vm_compute; congruence.
  - repeat split; vm_compute; congruence.
  - simpl. lia.
  - reflexivity.
  - reflexivity.
Defined.

(** [operator<] on namespaces looks at the name only, [operator==] also at
    the length: namespaces of one name and different lengths are unequal and
    yet neither is less than the other, so that a [std::map] keyed by
    namespaces holds at most one of them. *)
Theorem namespace_order_ignores_length n j k :
  j <> k ->
  let a := mkNamespace n j in let b := mkNamespace n k in
  ns_eqb a b = false /\ ns_ltb a b = false /\ ns_ltb b a = false /\
  ns_gtb a b = false.
Proof.
  intros Hne a b. unfold ns_eqb, ns_ltb, ns_gtb. simpl.
  rewrite name_ltb_irrefl, (proj2 (Z.eqb_neq j k)) by done.
  split; [apply andb_false_r|]. unfold name_gtb. by rewrite !Z.ltb_irrefl.
Qed.

Lemma namespace_order_ignores_length_witness :
  let a := mkNamespace (mkName 1 0) 64 in let b := mkNamespace (mkName 1 0) 120 in
  ns_eqb a b = false /\ ns_ltb a b = false /\ ns_ltb b a = false /\
  ns_gtb a b = false.
Proof. apply (namespace_order_ignores_length (mkName 1 0) 64 120). lia. Defined.

(** A namespace of all 128 bits is outside the defined behaviour: the mask
    needs a 64-bit shift by 64.  On x86-64 the mask keeps the high half only,
    so that the namespace contains every name with the same high half. *)
Theorem namespace_full_length n m :
  wf_name n -> wf_name m -> _hi n = _hi m ->
  make_Namespace (T := strict_little) n 128 = Undefined /\
  exists ns, make_Namespace (T := x86_64) n 128 = Ret ns /\
    _sig_bits ns = 128 /\ contains (T := x86_64) ns m = Ret true.
Proof.
  destruct n as [h l], m as [h' l']. simpl. intros [Hh Hl] [_ Hl'] <-. split; [done|].
  eexists. split; [reflexivity|]. split; [done|].
  unfold contains, name_eqb. simpl. unfold mret, result_ret. f_equal.
  by rewrite !Z.land_0_r, !Z.eqb_refl.
Qed.

Lemma namespace_full_length_witness :
  make_Namespace (T := strict_little) (mkName 7 1) 128 = Undefined /\
  exists ns, make_Namespace (T := x86_64) (mkName 7 1) 128 = Ret ns /\
    _sig_bits ns = 128 /\ contains (T := x86_64) ns (mkName 7 2) = Ret true.
Proof.
  apply (namespace_full_length (mkName 7 1) (mkName 7 2));
    [split; vm_compute; split; congruence .. | reflexivity].
Defined.
