(* ===== verification/StdMap.v ===== *)
(** * std::map

    The containers of the client, the server and the relay are [std::map]s:
    nodes in increasing key order, keys identified by [!(a < b) && !(b < a)].
    The order of iteration is observable in the sources (callbacks, [find_if],
    [rbegin]), and the comparison of [Namespace] is coarser than its equality,
    so a map is a list of nodes sorted by the key comparison. *)

From Stdlib Require Import Sorting.Sorted.
From S2P Require Export Namespace.

(** [std::less<K>] *)
Class Less (K : Type) := less : K -> K -> bool.

Class StrictWeakOrder (K : Type) `{Less K} : Prop := {
  less_irrefl k : less k k = false;
  less_trans a b c : less a b = true -> less b c = true -> less a c = true;
  less_incomp a b c : less a b = true -> less a c = true \/ less c b = true;
}.

#[export] Instance Z_less : Less Z := Z.ltb.
#[export] Instance Name_less : Less Name := name_ltb.
#[export] Instance Namespace_less : Less Namespace := ns_ltb.

#[export] Instance Z_swo : StrictWeakOrder Z.
Proof. split; unfold less, Z_less; intros; lia. Qed.
#[export] Instance Name_swo : StrictWeakOrder Name.
Proof.
  split; unfold less, Name_less; [apply name_ltb_irrefl | apply name_ltb_trans |].
  intros a b c Hab. destruct (name_ltb a c) eqn:E; [by left|right].
  destruct (name_ltb c b) eqn:E'; [done|]. exfalso.
  destruct (name_ltb c a) eqn:E''.
  - by rewrite (name_ltb_trans c a b) in E'.
  - by rewrite (name_ltb_total a c E E''), E' in Hab.
Qed.
#[export] Instance Namespace_swo : StrictWeakOrder Namespace.
Proof.
  split; unfold less, Namespace_less, ns_ltb; intros *;
    [apply (less_irrefl (K := Name)) | apply (less_trans (K := Name))
    | apply (less_incomp (K := Name))].
Qed.

(** Key equivalence. *)
Definition equiv_key {K} `{Less K} (a b : K) : bool :=
  (negb (less a b) && negb (less b a))%bool.

Section std_map.
Context {K V : Type} `{Less K}.
Implicit Types (m : list (K * V)) (k : K).

(** [m.find(k)]: the node, or the end. *)
Fixpoint find m k : option (K * V) :=
  match m with
  | [] => None
  | (k', v) :: m' => if equiv_key k k' then Some (k', v) else find m' k
  end.

(** [m.count(k) != 0] *)
Definition contains_key m k : bool :=
  match find m k with Some _ => true | None => false end.

(** The mapped value, when there is one. *)
Definition at_key m k : option V := snd <$> find m k.

(** Insertion of a node: an equivalent node is kept when [overwrite] is
    false ([emplace], [insert]); otherwise its value is assigned and its key
    stays ([m[k] = v]). *)
Fixpoint insert_node (overwrite : bool) m k v : list (K * V) :=
  match m with
  | [] => [(k, v)]
  | (k', v') :: m' =>
      if less k k' then (k, v) :: m
      else if less k' k then (k', v') :: insert_node overwrite m' k v
      else (k', if overwrite then v else v') :: m'
  end.

Definition emplace m k v := insert_node false m k v.
Definition assign m k v := insert_node true m k v.

(** [m[k]] used as a reference: a missing key is inserted with the
    value-initialised [d]. *)
Definition subscript m k (d : V) : V * list (K * V) :=
  match find m k with
  | Some (_, v) => (v, m)
  | None => (d, emplace m k d)
  end.

Fixpoint erase m k : list (K * V) :=
  match m with
  | [] => []
  | (k', v) :: m' => if equiv_key k k' then m' else (k', v) :: erase m' k
  end.

(** [++it] of an iterator at [k], and the element a reference made at [k] stands
    for: undefined once the node is erased. *)
Definition next_entry m k : result (option (K * V)) :=
  match find m k with
  | None => Undefined
  | Some _ => Ret (head (List.filter (fun p => less k p.1) m))
  end.
Definition element m k : result V :=
  match find m k with Some (_, v) => Ret v | None => Undefined end.

(** [m.rbegin()] *)
Definition rbegin m : option (K * V) := list.last m.

Definition sorted m : Prop :=
  StronglySorted (fun a b => less a.1 b.1 = true) m.
End std_map.

Section std_map_laws.
Context {K V : Type} `{StrictWeakOrder K}.
Implicit Types (m : list (K * V)) (k a b c : K).

Lemma equiv_key_refl a : equiv_key a a = true.
Proof. unfold equiv_key. by rewrite less_irrefl. Qed.

Lemma equiv_key_sym a b : equiv_key a b = equiv_key b a.
Proof. unfold equiv_key. apply andb_comm. Qed.

Lemma equiv_key_spec a b :
  equiv_key a b = true <-> less a b = false /\ less b a = false.
Proof. unfold equiv_key. destruct (less a b), (less b a); simpl; intuition done. Qed.

Lemma less_asym a b : less a b = true -> less b a = false.
Proof.
  intros Hab. destruct (less b a) eqn:E; [|done].
  by rewrite <- (less_irrefl a), (less_trans a b a).
Qed.

Lemma less_equiv_l a b c : equiv_key a b = true -> less a c = less b c.
Proof.
  rewrite equiv_key_spec. intros [H1 H2].
  destruct (less a c) eqn:E1, (less b c) eqn:E2; try done.
  - destruct (less_incomp _ _ b E1); congruence.
  - destruct (less_incomp _ _ a E2); congruence.
Qed.
Lemma less_equiv_r a b c : equiv_key a b = true -> less c a = less c b.
Proof.
  rewrite equiv_key_spec. intros [H1 H2].
  destruct (less c a) eqn:E1, (less c b) eqn:E2; try done.
  - destruct (less_incomp _ _ b E1); congruence.
  - destruct (less_incomp _ _ a E2); congruence.
Qed.

Lemma equiv_key_l a b c : equiv_key a b = true -> equiv_key a c = equiv_key b c.
Proof.
  intros E. unfold equiv_key. by rewrite (less_equiv_l a b c), (less_equiv_r a b c).
Qed.
Lemma equiv_key_r a b c : equiv_key a b = true -> equiv_key c a = equiv_key c b.
Proof. intros. rewrite !(equiv_key_sym c). by apply equiv_key_l. Qed.

#[export] Instance equiv_key_equivalence :
  Equivalence (fun a b => equiv_key a b = true).
Proof.
  split; [intros a; apply equiv_key_refl | intros a b; by rewrite equiv_key_sym |].
  intros a b c E1 E2. by rewrite (equiv_key_l a b c).
Qed.

(** Lookups do not tell equivalent keys apart. *)
#[export] Instance find_proper m :
  Proper ((fun a b => equiv_key a b = true) ==> eq) (find m).
Proof.
  intros a b E. induction m as [|[k' v] m IH]; simpl; [done|].
  by rewrite (equiv_key_l a b k' E), IH.
Qed.

Lemma find_key_equiv m k k' v : find m k = Some (k', v) -> equiv_key k k' = true.
Proof.
  induction m as [|[k0 v0] m IH]; simpl; [done|].
  case_match; [naive_solver | auto].
Qed.

Lemma find_elem m k p : find m k = Some p -> p ∈ m.
Proof.
  induction m as [|[k0 v0] m IH]; simpl; [done|].
  case_match; intros; simplify_eq; [by left | right; auto].
Qed.

Lemma sorted_cons_inv k v m :
  sorted ((k, v) :: m) -> sorted m /\ forall p, p ∈ m -> less k p.1 = true.
Proof.
  intros Hs. apply StronglySorted_inv in Hs as [Hs Hall]. split; [done|].
  intros p Hp. rewrite List.Forall_forall in Hall. apply (Hall p).
  by apply list_elem_of_In.
Qed.

Lemma sorted_cons k v m :
  sorted m -> (forall p, p ∈ m -> less k p.1 = true) -> sorted ((k, v) :: m).
Proof.
  intros Hs Hall. constructor; [done|]. apply List.Forall_forall. intros p Hp.
  apply Hall. by apply list_elem_of_In.
Qed.

Lemma sorted_singleton k (v : V) : sorted [(k, v)].
Proof. apply sorted_cons; [constructor|]. intros p Hp. by apply not_elem_of_nil in Hp. Qed.

Lemma sorted_NoDup m : sorted m -> NoDup (map fst m).
Proof.
  induction m as [|[k v] m IH]; intros Hs; [constructor|].
  apply sorted_cons_inv in Hs as [Hs Hall]. constructor; [|by apply IH].
  intros ([k' v'] & E & Hin)%list_elem_of_fmap. simpl in E. subst k'.
  specialize (Hall _ Hin). simpl in Hall. by rewrite (less_asym _ _ Hall) in Hall.
Qed.

(** A node smaller than every other one is found nowhere else. *)
Lemma find_below m k k0 :
  (forall p, p ∈ m -> less k0 p.1 = true) ->
  (equiv_key k k0 = true \/ less k k0 = true) -> find m k = None.
Proof.
  intros Hall Hk. induction m as [|[k' v] m IH]; simpl; [done|].
  assert (less k0 k' = true) as Hlt by (apply (Hall (k', v)); by left).
  assert (less k k' = true) as Hlt'.
  { destruct Hk as [E|Hl]; [by rewrite (less_equiv_l k k0 k')|].
    by apply less_trans with k0. }
  unfold equiv_key. rewrite Hlt'. simpl. apply IH.
  intros p Hp. apply Hall. by right.
Qed.

Lemma find_in m k v : sorted m -> (k, v) ∈ m -> find m k = Some (k, v).
Proof.
  intros Hs Hin. induction m as [|[k0 v0] m IH]; [by apply not_elem_of_nil in Hin|].
  apply sorted_cons_inv in Hs as [Hs Hall]. simpl.
  apply elem_of_cons in Hin as [E|Hin].
  - simplify_eq. by rewrite equiv_key_refl.
  - specialize (Hall _ Hin). simpl in Hall. unfold equiv_key.
    rewrite Hall, (less_asym k0 k Hall). simpl. by apply IH.
Qed.

(** ** Insertion *)

Lemma elem_of_insert_node o m k v p :
  p ∈ insert_node o m k v -> p ∈ m \/ p.1 = k \/ (exists v', (p.1, v') ∈ m).
Proof.
  induction m as [|[k0 v0] m IH]; simpl.
  { rewrite elem_of_cons. intros [->|Hn]; [by right; left|]. by apply not_elem_of_nil in Hn. }
  repeat case_match; rewrite !elem_of_cons.
  - intros [->|]; auto.
  - intros [->|Hp]; [auto|]. apply IH in Hp as [?|[?|[v' ?]]]; auto.
    right; right. exists v'. by right.
  - intros [->|?]; auto. right; right. exists v0. by left.
  - intros [->|?]; auto.
Qed.

Lemma sorted_insert_node o m k v : sorted m -> sorted (insert_node o m k v).
Proof.
  induction m as [|[k0 v0] m IH]; simpl; intros Hs.
  { apply sorted_cons; [constructor|]. intros p Hp. by apply not_elem_of_nil in Hp. }
  pose proof (sorted_cons_inv _ _ _ Hs) as [Hs' Hall].
  destruct (less k k0) eqn:E1; [|destruct (less k0 k) eqn:E2].
  - apply sorted_cons; [done|]. intros p [->|Hp]%elem_of_cons; [done|].
    apply less_trans with k0; auto.
  - apply sorted_cons; [auto|]. intros p Hp.
    apply elem_of_insert_node in Hp as [?|[->|[v' Hv]]]; auto. by apply (Hall (p.1, v')).
  - by apply sorted_cons.
Qed.

Lemma find_insert_node o m k v k' :
  sorted m ->
  find (insert_node o m k v) k'
  = if equiv_key k' k then
      match find m k with
      | Some (k0, v0) => Some (k0, if o then v else v0)
      | None => Some (k, v)
      end
    else find m k'.
Proof.
  induction m as [|[k0 v0] m IH]; intros Hs; simpl.
  { by destruct (equiv_key k' k). }
  pose proof (sorted_cons_inv _ _ _ Hs) as [Hs' Hall]. specialize (IH Hs').
  unfold equiv_key at 2. destruct (less k k0) eqn:E1; simpl.
  - destruct (equiv_key k' k) eqn:E; [|done].
    by rewrite (find_below m k k0) by auto.
  - destruct (less k0 k) eqn:E2; simpl.
    + destruct (equiv_key k' k0) eqn:E; [|apply IH].
      assert (equiv_key k' k = false) as ->; [|done].
      rewrite (equiv_key_l k' k0 k E). unfold equiv_key. by rewrite E2.
    + assert (equiv_key k0 k = true) as Ek by (by apply equiv_key_spec).
      rewrite (equiv_key_r k0 k k' Ek). by destruct (equiv_key k' k).
Qed.

Lemma find_erase m k k' :
  sorted m -> find (erase m k) k' = if equiv_key k' k then None else find m k'.
Proof.
  induction m as [|[k0 v0] m IH]; intros Hs; simpl; [by case_match|].
  pose proof (sorted_cons_inv _ _ _ Hs) as [Hs' Hall]. specialize (IH Hs').
  destruct (equiv_key k k0) eqn:E.
  - destruct (equiv_key k' k) eqn:E'.
    + apply (find_below m k' k0); [done|]. left. by rewrite (equiv_key_l k' k k0).
    + by rewrite <- (equiv_key_r k k0 k' E), E'.
  - simpl. rewrite IH. destruct (equiv_key k' k0) eqn:E1; [|done].
    destruct (equiv_key k' k) eqn:E2; [|done].
    by rewrite <- (equiv_key_l k' k k0 E2), E1 in E.
Qed.

Lemma erase_sub m k p : p ∈ erase m k -> p ∈ m.
Proof.
  induction m as [|[k0 v0] m IH]; simpl; [done|].
  case_match; rewrite !elem_of_cons; intuition auto.
Qed.

Lemma sorted_erase m k : sorted m -> sorted (erase m k).
Proof.
  induction m as [|[k0 v0] m IH]; simpl; intros Hs; [done|].
  pose proof (sorted_cons_inv _ _ _ Hs) as [Hs' Hall]. case_match; [done|].
  apply sorted_cons; [auto|]. intros p Hp. by apply Hall, (erase_sub m k).
Qed.

Lemma sorted_filter (P : K * V -> Prop) `{forall p, Decision (P p)} m :
  sorted m -> sorted (filter P m).
Proof.
  induction m as [|[k0 v0] m IH]; intros Hs; [done|].
  pose proof (sorted_cons_inv _ _ _ Hs) as [Hs' Hall].
  rewrite filter_cons. case_decide; [|auto].
  apply sorted_cons; [auto|]. intros p Hp. apply Hall.
  by apply list_elem_of_filter in Hp as [_ Hp].
Qed.

Lemma sorted_subscript m k d : sorted m -> sorted (subscript m k d).2.
Proof.
  intros Hs. unfold subscript. destruct (find m k) as [[? ?]|]; [done|].
  by apply sorted_insert_node.
Qed.

Lemma find_subscript m k d k' :
  sorted m ->
  find (subscript m k d).2 k'
  = if (equiv_key k' k && negb (contains_key m k))%bool then Some (k, d) else find m k'.
Proof.
  intros Hs. unfold subscript, contains_key.
  destruct (find m k) as [[k0 v0]|] eqn:E; simpl.
  { by rewrite andb_false_r. }
  unfold emplace. rewrite find_insert_node, E by done. by rewrite andb_true_r.
Qed.

(** ** Equations between updates *)

Lemma insert_node_twice o m k v w :
  insert_node true (insert_node o m k v) k w = insert_node true m k w.
Proof.
  induction m as [|[k0 v0] m IH]; simpl.
  { by rewrite less_irrefl. }
  destruct (less k k0) eqn:E1; simpl; [by rewrite less_irrefl|].
  destruct (less k0 k) eqn:E2; simpl; rewrite E1, E2; [by rewrite IH|done].
Qed.

Lemma find_insert_node_same o m k v :
  sorted m ->
  find (insert_node o m k v) k
  = match find m k with
    | Some (k0, v0) => Some (k0, if o then v else v0)
    | None => Some (k, v)
    end.
Proof. intros. by rewrite find_insert_node, equiv_key_refl. Qed.

(** Storing back what is there changes nothing. *)
Lemma insert_node_id o m k k0 v :
  sorted m -> find m k = Some (k0, v) -> insert_node o m k v = m.
Proof.
  induction m as [|[k1 v1] m IH]; intros Hs; simpl; [done|].
  pose proof (sorted_cons_inv _ _ _ Hs) as [Hs' Hall].
  unfold equiv_key. destruct (less k k1) eqn:E1; simpl.
  - intros Hf. apply find_elem in Hf as Hin. apply find_key_equiv in Hf.
    specialize (Hall _ Hin). simpl in Hall.
    rewrite <- (less_equiv_r k k0 k1 Hf) in Hall. by rewrite (less_asym _ _ Hall) in E1.
  - destruct (less k1 k) eqn:E2; simpl; intros Hf.
    + by rewrite IH.
    + simplify_eq. by destruct o.
Qed.

Lemma erase_insert_fresh o m k v :
  sorted m -> find m k = None -> erase (insert_node o m k v) k = m.
Proof.
  induction m as [|[k0 v0] m IH]; intros Hs; simpl.
  { by rewrite equiv_key_refl. }
  pose proof (sorted_cons_inv _ _ _ Hs) as [Hs' Hall].
  destruct (equiv_key k k0) eqn:E; [done|]. intros Hf.
  destruct (less k k0) eqn:E1; simpl; [by rewrite equiv_key_refl|].
  destruct (less k0 k) eqn:E2; simpl; [by rewrite E, IH|].
  unfold equiv_key in E. by rewrite E1, E2 in E.
Qed.

Lemma erase_insert_same o m k k0 v w :
  sorted m -> find m k = Some (k0, w) -> erase (insert_node o m k v) k = erase m k.
Proof.
  induction m as [|[k1 v1] m IH]; intros Hs; simpl; [done|].
  pose proof (sorted_cons_inv _ _ _ Hs) as [Hs' Hall].
  unfold equiv_key at 1. destruct (less k k1) eqn:E1; simpl.
  - intros Hf. apply find_elem in Hf as Hin. apply find_key_equiv in Hf.
    specialize (Hall _ Hin). simpl in Hall.
    rewrite <- (less_equiv_r k k0 k1 Hf) in Hall. by rewrite (less_asym _ _ Hall) in E1.
  - destruct (less k1 k) eqn:E2; simpl; unfold equiv_key; rewrite E1, E2; simpl.
    + intros Hf. by rewrite (IH Hs' Hf).
    + done.
Qed.

Lemma subscript_found m k d k0 v :
  find m k = Some (k0, v) -> subscript m k d = (v, m).
Proof. intros E. unfold subscript. by rewrite E. Qed.

Lemma subscript_elem m k v d :
  sorted m -> (k, v) ∈ m -> subscript m k d = (v, m).
Proof. intros Hs Hin. by apply (subscript_found _ _ _ k), find_in. Qed.

(** [m[k]] creates the node it does not find. *)
Lemma next_entry_spec m (e : K * V) m' :
  sorted (m ++ e :: m') -> next_entry (m ++ e :: m') e.1 = Ret (head m').
Proof.
  intros Hs. unfold next_entry. destruct e as [k v].
  rewrite (find_in _ k v) by (done || (apply elem_of_app; right; by left)). do 2 f_equal.
  cbn [fst]. rewrite List.filter_app. cbn [List.filter fst].
  induction m as [|[k' v'] m IH].
  - cbn in Hs |- *. apply sorted_cons_inv in Hs as [_ Hs]. rewrite less_irrefl.
    clear -Hs. induction m' as [|p m' IH]; [done|]. cbn [List.filter].
    rewrite Hs by (by left). by rewrite IH by (intros q Hq; apply Hs; by right).
  - cbn in Hs |- *. apply sorted_cons_inv in Hs as [Hs Hk]. rewrite less_asym; [by apply IH|].
    apply (Hk (k, v)). apply elem_of_app. right. by left.
Qed.

Lemma find_subscript_same m k d :
  sorted m -> find (subscript m k d).2 k
  = match find m k with Some p => Some p | None => Some (k, d) end.
Proof.
  intros Hs. unfold subscript. destruct (find m k) as [[k0 v0]|] eqn:E; [done|].
  simpl. unfold emplace. by rewrite find_insert_node_same, E.
Qed.

Lemma subscript_idem m k d :
  sorted m -> subscript (subscript m k d).2 k d = ((subscript m k d).1, (subscript m k d).2).
Proof.
  intros Hs. unfold subscript at 1. rewrite find_subscript_same by done.
  unfold subscript. by destruct (find m k) as [[k0 v0]|].
Qed.

(** ** Sizes *)

Lemma length_insert_node o m k v :
  sorted m ->
  length (insert_node o m k v) = if contains_key m k then length m else S (length m).
Proof.
  unfold contains_key. induction m as [|[k0 v0] m IH]; intros Hs; simpl; [done|].
  pose proof (sorted_cons_inv _ _ _ Hs) as [Hs' Hall].
  destruct (less k k0) eqn:E1; [|destruct (less k0 k) eqn:E2]; simpl; unfold equiv_key;
    rewrite E1, ?E2; simpl; [|rewrite IH by done; by destruct (find m k)|done].
  by rewrite (find_below m k k0) by auto.
Qed.

Lemma length_erase m k :
  length (erase m k) = if contains_key m k then pred (length m) else length m.
Proof.
  unfold contains_key. induction m as [|[k0 v0] m IH]; simpl; [done|].
  destruct (equiv_key k k0); [done|]. simpl. rewrite IH.
  destruct (find m k) as [p|] eqn:E; [|done]. by destruct m.
Qed.

(** A sorted list is determined by its elements. *)
Lemma sorted_ext m1 m2 :
  sorted m1 -> sorted m2 -> (forall p, p ∈ m1 <-> p ∈ m2) -> m1 = m2.
Proof.
  revert m2. induction m1 as [|[k1 v1] m1 IH]; intros m2 H1 H2 Heq.
  { destruct m2 as [|p m2]; [done|]. exfalso.
    apply (not_elem_of_nil p), Heq. by left. }
  destruct m2 as [|[k2 v2] m2].
  { exfalso. apply (not_elem_of_nil (k1, v1)), Heq. by left. }
  apply sorted_cons_inv in H1 as [H1 A1]. apply sorted_cons_inv in H2 as [H2 A2].
  assert ((k1, v1) = (k2, v2)) as E.
  { assert ((k1, v1) ∈ (k2, v2) :: m2) as B1 by (apply Heq; by left).
    assert ((k2, v2) ∈ (k1, v1) :: m1) as B2 by (apply Heq; by left).
    apply elem_of_cons in B1 as [?|B1]; [done|].
    apply elem_of_cons in B2 as [?|B2]; [done|].
    specialize (A1 _ B2). specialize (A2 _ B1). simpl in *.
    by rewrite (less_asym _ _ A1) in A2. }
  simplify_eq. f_equal. apply IH; [done..|]. intros p. specialize (Heq p).
  rewrite !elem_of_cons in Heq. split; intros Hp.
  - destruct (proj1 Heq (or_intror Hp)) as [->|?]; [|done].
    specialize (A1 _ Hp). simpl in A1. by rewrite less_irrefl in A1.
  - destruct (proj2 Heq (or_intror Hp)) as [->|?]; [|done].
    specialize (A2 _ Hp). simpl in A2. by rewrite less_irrefl in A2.
Qed.

(** ** The nodes after an update *)

Lemma elem_assign m k v p :
  sorted m -> p ∈ assign m k v ->
  (p.2 = v /\ equiv_key p.1 k = true) \/ (p ∈ m /\ equiv_key p.1 k = false).
Proof.
  intros Hs Hp. destruct p as [k' v']. apply find_in in Hp; [|by apply sorted_insert_node].
  unfold assign in Hp. rewrite find_insert_node in Hp by done. simpl.
  destruct (equiv_key k' k) eqn:E.
  - left. destruct (find m k) as [[k0 v0]|]; by simplify_eq.
  - right. split; [|done]. by apply (find_elem m k').
Qed.

Lemma elem_erase m k p :
  sorted m -> p ∈ erase m k -> p ∈ m /\ equiv_key p.1 k = false.
Proof.
  intros Hs Hp. split; [by apply (erase_sub m k)|]. destruct p as [k' v'].
  apply find_in in Hp; [|by apply sorted_erase]. rewrite find_erase in Hp by done.
  simpl. by destruct (equiv_key k' k).
Qed.

Lemma elem_subscript m k d p :
  sorted m -> p ∈ (subscript m k d).2 -> p ∈ m \/ (p = (k, d) /\ find m k = None).
Proof.
  intros Hs. unfold subscript. destruct (find m k) as [[k0 v0]|] eqn:E; [by left|].
  simpl. intros Hp. destruct p as [k' v'].
  apply find_in in Hp; [|by apply sorted_insert_node]. unfold emplace in Hp.
  rewrite find_insert_node, E in Hp by done.
  destruct (equiv_key k' k); [right; by simplify_eq|left; by apply (find_elem m k')].
Qed.

Lemma contains_key_equiv m a b : equiv_key a b = true -> contains_key m a = contains_key m b.
Proof. intros E. unfold contains_key. by rewrite (find_proper m a b E). Qed.

Lemma equiv_elem m k p v :
  sorted m -> find m k = Some p -> (p.1, v) ∈ m -> p = (p.1, v).
Proof.
  intros Hs Hf Hin. apply find_elem in Hf as Hp. apply find_in in Hin; [|done].
  destruct p as [k0 v0]. simpl in *. apply find_in in Hp; [|done]. congruence.
Qed.
End std_map_laws.

(** ** Keys whose equivalence is equality *)

Class LessTotal (K : Type) `{Less K} : Prop :=
  equiv_key_eq (a b : K) : equiv_key a b = true -> a = b.

#[export] Instance Z_total : LessTotal Z.
Proof. intros a b. rewrite equiv_key_spec. unfold less, Z_less. lia. Qed.
#[export] Instance Name_total : LessTotal Name.
Proof. intros a b. rewrite equiv_key_spec. intros []. by apply name_ltb_total. Qed.

Section total_keys.
Context {K V : Type} `{StrictWeakOrder K} `{!LessTotal K} `{EqDecision K}.
Implicit Types (m : list (K * V)) (k : K).

Lemma equiv_key_decide a b : equiv_key a b = bool_decide (a = b).
Proof.
  destruct (bool_decide_reflect (a = b)) as [->|Hn]; [apply equiv_key_refl|].
  destruct (equiv_key a b) eqn:E; [|done]. by apply equiv_key_eq in E.
Qed.

Lemma find_at_key m k : find m k = (fun v => (k, v)) <$> at_key m k.
Proof.
  unfold at_key. destruct (find m k) as [[k0 v]|] eqn:E; [|done].
  by apply find_key_equiv, equiv_key_eq in E as ->.
Qed.

Lemma at_key_insert o m k v k' :
  sorted m ->
  at_key (insert_node o m k v) k'
  = if decide (k' = k)
    then Some (if o then v else default v (at_key m k)) else at_key m k'.
Proof.
  intros Hs. unfold at_key. rewrite find_insert_node, equiv_key_decide by done.
  destruct (decide (k' = k)) as [->|Hn]; [|by rewrite bool_decide_false].
  rewrite bool_decide_true by done. destruct (find m k) as [[k0 v0]|]; by destruct o.
Qed.

Lemma at_key_erase m k k' :
  sorted m -> at_key (erase m k) k' = if decide (k' = k) then None else at_key m k'.
Proof.
  intros Hs. unfold at_key. rewrite find_erase, equiv_key_decide by done.
  by case_decide; [rewrite bool_decide_true|rewrite bool_decide_false].
Qed.

Lemma at_key_subscript m k d k' :
  sorted m ->
  at_key (subscript m k d).2 k'
  = if decide (k' = k) then Some (default d (at_key m k)) else at_key m k'.
Proof.
  intros Hs. unfold subscript. pose proof (find_at_key m k) as E.
  destruct (find m k) as [[k0 v0]|]; simpl.
  - destruct (at_key m k) as [v|] eqn:E'; simplify_eq/=. case_decide; [by subst|done].
  - destruct (at_key m k) eqn:E'; [done|]. unfold emplace.
    rewrite at_key_insert by done. by rewrite E'.
Qed.

Lemma at_key_filter (f : K -> bool) m k :
  sorted m ->
  at_key (List.filter (fun p => f p.1) m) k = if f k then at_key m k else None.
Proof.
  induction m as [|[k0 v0] m IH]; intros Hs; [by destruct (f k)|].
  apply sorted_cons_inv in Hs as [Hs _]. specialize (IH Hs).
  cbn [List.filter fst]. destruct (f k0) eqn:E0; unfold at_key in *; cbn [find];
    destruct (equiv_key k k0) eqn:E; try done.
  - apply equiv_key_eq in E as ->. by rewrite E0.
  - rewrite IH. apply equiv_key_eq in E as ->. by rewrite E0.
Qed.

Lemma subscript_value m k d : (subscript m k d).1 = default d (at_key m k).
Proof. unfold subscript, at_key. by destruct (find m k) as [[? ?]|]. Qed.

Lemma at_key_elem m k v : at_key m k = Some v -> (k, v) ∈ m.
Proof. intros E. apply (find_elem m k). by rewrite find_at_key, E. Qed.

Lemma elem_at_key m k v : sorted m -> (k, v) ∈ m -> at_key m k = Some v.
Proof. intros. unfold at_key. by rewrite (find_in m k v). Qed.

Lemma at_key_found m k v d : at_key m k = Some v -> subscript m k d = (v, m).
Proof. intros E. apply (subscript_found _ _ _ k). by rewrite find_at_key, E. Qed.

Lemma contains_at_key m k : contains_key m k = bool_decide (is_Some (at_key m k)).
Proof. unfold contains_key, at_key. by destruct (find m k). Qed.
End total_keys.

Create HintDb maps.
#[export] Hint Resolve sorted_singleton sorted_insert_node sorted_erase sorted_filter
  sorted_subscript : maps.
