(* ===== verification/MessageBuffer.v ===== *)
(** * quicr::messages::MessageBuffer and uintVar_t
    (include/quicr/message_buffer.h, src/message_buffer.cpp)

    A buffer is its vector of bytes.  An operation is a stateful computation
    on it; an exception leaves the buffer as it was at the throw. *)

From S2P Require Export Hex Name.

(** ** uintVar_t *)

(** [uintVar_t(uint64_t)] and [operator=(uint64_t)]; the conversion back to
    [uint64_t] is the identity. *)
Definition uintVar (value : Z) : result Z :=
  if 2 ^ 61 <=? value then Throw runtime_error else Ret value.

Definition uintVar_eqb (a b : Z) : bool := a =? b.
Definition uintVar_neqb (a b : Z) : bool := negb (uintVar_eqb a b).

(** ** The buffer *)

Abbreviation Buf := (M bytes).

Definition buf_empty (b : bytes) : bool :=
  match b with [] => true | _ => false end.

Definition push (t : Z) : Buf unit := modify (fun b => b ++ [t]).

Definition pop : Buf unit := fun b =>
  match b with
  | [] => (Throw ReadException, b)
  | _ :: b' => (Ret tt, b')
  end.

(** [front()] of an empty vector is undefined. *)
Definition front : Buf Z := fun b =>
  match b with
  | [] => (Undefined, b)
  | x :: _ => (Ret x, b)
  end.

(** [push(const std::vector<uint8_t>&)] and its rvalue overload. *)
Definition push_vector (data : bytes) : Buf unit := modify (fun b => b ++ data).

Definition pop_len (len : Z) : Buf unit := fun b =>
  if len =? 0 then (Ret tt, b)
  else if Z.of_nat (length b) <? len then (Throw OutOfRangeException, b)
  else (Ret tt, drop (Z.to_nat len) b).

Definition front_len (len : Z) : Buf bytes := fun b =>
  if len =? 0 then (Ret [], b)
  else if Z.of_nat (length b) <? len then (Throw OutOfRangeException, b)
  else (Ret (take (Z.to_nat len) b), b).

Definition pop_front (len : Z) : Buf bytes := fun b =>
  if len =? 0 then (Ret [], b)
  else if Z.of_nat (length b) <? len then (Throw OutOfRangeException, b)
  else (Ret (take (Z.to_nat len) b), drop (Z.to_nat len) b).

(** [get()] moves the vector out. *)
Definition get_buffer : Buf bytes := fun b => (Ret b, []).

(** One byte in hexadecimal on [setw(2)], filled with ['0'], lower case. *)
Definition hex_lower (d : Z) : ascii :=
  if 9 <? d then char_of_code (d - 10 + char_code "a")
  else char_of_code (d + char_code "0").
Definition buffer_to_hex (b : bytes) : chars :=
  concat (map (fun x => [hex_lower (x / 16); hex_lower (x mod 16)]) b).

(** ** Byte order *)

Definition swap_bytes16 (value : Z) : Z :=
  Z.lor (Z.land (Z.shiftr value 8) 0x00ff) (Z.land (Z.shiftl value 8) 0xff00).

Definition swap_bytes32 (value : Z) : Z :=
  Z.lor (Z.lor (Z.lor
    (Z.land (Z.shiftr value 24) 0x000000ff)
    (Z.land (Z.shiftr value 8) 0x0000ff00))
    (Z.land (Z.shiftl value 8) 0x00ff0000))
    (Z.land (Z.shiftl value 24) 0xff000000).

(** Only the 64-bit version asks for the byte order of the host. *)
Definition swap_bytes64 {T : Target} (value : Z) : Z :=
  match native with
  | big => value
  | little =>
    Z.lor (Z.lor (Z.lor (Z.lor (Z.lor (Z.lor (Z.lor
      (Z.land (Z.shiftr value 56) 0x00000000000000ff)
      (Z.land (Z.shiftr value 40) 0x000000000000ff00))
      (Z.land (Z.shiftr value 24) 0x0000000000ff0000))
      (Z.land (Z.shiftr value 8) 0x00000000ff000000))
      (Z.land (Z.shiftl value 8) 0x000000ff00000000))
      (Z.land (Z.shiftl value 24) 0x0000ff0000000000))
      (Z.land (Z.shiftl value 40) 0x00ff000000000000))
      (Z.land (Z.shiftl value 56) 0xff00000000000000)
  end.

(** The object representation of an unsigned integer of [sz] bytes. *)
Definition object_bytes {T : Target} (sz : nat) (x : Z) : bytes :=
  match native with
  | little => le_bytes sz x
  | big => reverse (le_bytes sz x)
  end.
Definition object_value {T : Target} (b : bytes) : Z :=
  match native with
  | little => le_val b
  | big => le_val (reverse b)
  end.

(** The overload of [swap_bytes] the templates select. *)
Definition swap_bytes {T : Target} (sz : nat) (x : Z) : Z :=
  match sz with
  | 2%nat => swap_bytes16 x
  | 4%nat => swap_bytes32 x
  | _ => swap_bytes64 x
  end.

(** [operator<<(MessageBuffer&, Uint_t)] for 2, 4 and 8 bytes. *)
Definition put_uint {T : Target} (sz : nat) (val : Z) : Buf unit :=
  modify (fun b => b ++ object_bytes sz (swap_bytes sz val)).

(** [operator<<(MessageBuffer&, uint8_t)] *)
Definition put_u8 (val : Z) : Buf unit := push val.

(** [operator>>(MessageBuffer&, Uint_t&)] *)
Definition get_uint {T : Target} (sz : nat) : Buf Z := fun b =>
  if buf_empty b then (Throw ReadException, b)
  else if Z.of_nat (length b) <? Z.of_nat sz then (Throw ReadException, b)
  else (Ret (swap_bytes sz (object_value (take sz b))), drop sz b).

(** [operator>>(MessageBuffer&, uint8_t&)] *)
Definition get_u8 : Buf Z := fun b =>
  if buf_empty b then (Throw ReadException, b)
  else (val ← front; pop;; mret val) b.

(** ** Variable-length integers *)

Definition put_uintVar (val : Z) : Buf unit :=
  if val <? Z.shiftl 1 7 then
    push (Z.lor (wrap 8 (Z.land (Z.shiftr val 0) 0x7F)) 0x00)
  else if val <? Z.shiftl 1 14 then
    push (wrap 8 (Z.lor (Z.land (Z.shiftr val 8) 0x3F) 0x80));;
    push (wrap 8 (Z.land (Z.shiftr val 0) 0xFF))
  else if val <? Z.shiftl 1 29 then
    push (wrap 8 (Z.lor (Z.lor (Z.land (Z.shiftr val 24) 0x1F) 0x80) 0x40));;
    push (wrap 8 (Z.land (Z.shiftr val 16) 0xFF));;
    push (wrap 8 (Z.land (Z.shiftr val 8) 0xFF));;
    push (wrap 8 (Z.land (Z.shiftr val 0) 0xFF))
  else
    push (wrap 8 (Z.lor (Z.lor (Z.lor (Z.land (Z.shiftr val 56) 0x0F) 0x80) 0x40) 0x20));;
    push (wrap 8 (Z.land (Z.shiftr val 48) 0xFF));;
    push (wrap 8 (Z.land (Z.shiftr val 40) 0xFF));;
    push (wrap 8 (Z.land (Z.shiftr val 32) 0xFF));;
    push (wrap 8 (Z.land (Z.shiftr val 24) 0xFF));;
    push (wrap 8 (Z.land (Z.shiftr val 16) 0xFF));;
    push (wrap 8 (Z.land (Z.shiftr val 8) 0xFF));;
    push (wrap 8 (Z.land (Z.shiftr val 0) 0xFF)).

Definition get_uintVar : Buf Z :=
  first ← front;
  if Z.land first 0x80 =? 0 then
    b0 ← get_u8;
    lift (uintVar (wrap 8 (Z.shiftl (Z.land b0 0x7F) 0)))
  else if Z.land first (Z.lor 0x80 0x40) =? 0x80 then
    b1 ← get_u8; b0 ← get_u8;
    lift (uintVar (wrap 16 (Z.shiftl (Z.land b1 0x3F) 8 + Z.shiftl b0 0)))
  else if Z.land first (Z.lor (Z.lor 0x80 0x40) 0x20) =? Z.lor 0x80 0x40 then
    b3 ← get_u8; b2 ← get_u8; b1 ← get_u8; b0 ← get_u8;
    lift (uintVar (wrap 32 (wrap 32 (Z.shiftl (Z.land b3 0x1F) 24)
      + wrap 32 (Z.shiftl b2 16) + wrap 32 (Z.shiftl b1 8) + Z.shiftl b0 0)))
  else
    b7 ← get_u8; b6 ← get_u8; b5 ← get_u8; b4 ← get_u8;
    b3 ← get_u8; b2 ← get_u8; b1 ← get_u8; b0 ← get_u8;
    lift (uintVar (wrap 64 (wrap 64 (Z.shiftl (Z.land b7 0x0F) 56)
      + wrap 64 (Z.shiftl b6 48) + wrap 64 (Z.shiftl b5 40)
      + wrap 64 (Z.shiftl b4 32) + wrap 64 (Z.shiftl b3 24)
      + wrap 64 (Z.shiftl b2 16) + wrap 64 (Z.shiftl b1 8) + Z.shiftl b0 0))).

(** ** Byte vectors *)

(** [operator<<(MessageBuffer&, const std::vector<uint8_t>&)] and the rvalue
    overload. *)
Definition put_vector (val : bytes) : Buf unit :=
  n ← lift (uintVar (Z.of_nat (length val)));
  put_uintVar n;;
  push_vector val.

(** [pop_front] takes a [uint16_t]: the size is truncated to 16 bits. *)
Definition get_vector : Buf bytes :=
  vec_size ← get_uintVar;
  pop_front (wrap 16 vec_size).

(** * Writers and readers

    [appends m b]: the computation only appends [b], whatever the buffer
    holds.  [parses m b a]: on a buffer that starts with [b], it consumes [b]
    exactly and returns [a].  Both compose along [≫=]. *)

Definition appends (m : Buf unit) (b : bytes) : Prop :=
  forall b0, m b0 = (Ret tt, b0 ++ b).
Definition parses {A} (m : Buf A) (b : bytes) (a : A) : Prop :=
  forall rest, m (b ++ rest) = (Ret a, rest).

Lemma appends_ret : appends (mret tt) [].
Proof. intros b0. by rewrite app_nil_r. Qed.
Lemma appends_push t : appends (push t) [t].
Proof. done. Qed.
Lemma appends_push_vector d : appends (push_vector d) d.
Proof. done. Qed.
Lemma appends_bind m (f : unit -> Buf unit) b1 b2 :
  appends m b1 -> appends (f tt) b2 -> appends (m ≫= f) (b1 ++ b2).
Proof.
  intros H1 H2 b0. rewrite (run_bind_ret _ _ _ _ _ (H1 b0)), H2.
  by rewrite app_assoc.
Qed.

Lemma parses_ret {A} (a : A) : parses (mret a) [] a.
Proof. done. Qed.
Lemma parses_lift {A} (a : A) : parses (lift (Ret a)) [] a.
Proof. done. Qed.
Lemma parses_bind {A B} (m : Buf A) (f : A -> Buf B) b1 b2 a c :
  parses m b1 a -> parses (f a) b2 c -> parses (m ≫= f) (b1 ++ b2) c.
Proof.
  intros H1 H2 rest. rewrite <- app_assoc.
  by rewrite (run_bind_ret _ _ _ _ _ (H1 _)).
Qed.
Lemma parses_bind_last {A B} (m : Buf A) (f : A -> Buf B) b a c :
  parses m b a -> parses (f a) [] c -> parses (m ≫= f) b c.
Proof. intros H1 H2. rewrite <- (app_nil_r b). by eapply parses_bind. Qed.

Create HintDb codec.
#[export] Hint Resolve appends_ret appends_push appends_push_vector : codec.
#[export] Hint Resolve parses_ret parses_lift : codec.

(** [codec] builds a writer or reader derivation along the sequence. *)
Ltac codec_step :=
  first
    [ eapply appends_bind | eapply parses_bind
    | solve [eauto with codec] ].

Lemma get_u8_cons x b : get_u8 (x :: b) = (Ret x, b).
Proof. done. Qed.
Lemma get_u8_nil : get_u8 [] = (Throw ReadException, []).
Proof. done. Qed.
Lemma parses_get_u8 x : parses get_u8 [x] x.
Proof. done. Qed.
Lemma appends_put_u8 x : appends (put_u8 x) [x].
Proof. done. Qed.
#[export] Hint Resolve parses_get_u8 appends_put_u8 : codec.

(** ** Fixed-width integers *)

Definition be_bytes (n : nat) (x : Z) : bytes := reverse (le_bytes n x).
Definition be_val (b : bytes) : Z := le_val (reverse b).

Lemma length_be_bytes n x : length (be_bytes n x) = n.
Proof. unfold be_bytes. by rewrite length_reverse, length_le_bytes. Qed.
Lemma wf_be_bytes n x : wf_bytes (be_bytes n x).
Proof. apply Forall_reverse, wf_le_bytes. Qed.
Lemma be_val_bytes n x : be_val (be_bytes n x) = wrap (8 * Z.of_nat n) x.
Proof. unfold be_val, be_bytes. by rewrite reverse_involutive, le_val_bytes. Qed.
Lemma be_bytes_val b : wf_bytes b -> be_bytes (length b) (be_val b) = b.
Proof.
  intros. unfold be_val, be_bytes. rewrite <- (length_reverse b), le_bytes_val.
  - apply reverse_involutive.
  - by apply Forall_reverse.
Qed.

(** The case analysis of a bit index below 8. *)
Lemma lt8_cases (P : Z -> Prop) i :
  0 <= i < 8 -> P 0 -> P 1 -> P 2 -> P 3 -> P 4 -> P 5 -> P 6 -> P 7 -> P i.
Proof.
  intros Hi. intros.
  assert (i = 0 \/ i = 1 \/ i = 2 \/ i = 3 \/ i = 4 \/ i = 5 \/ i = 6 \/ i = 7)
    as Hc by lia.
  repeat destruct Hc as [->|Hc]; subst; done.
Qed.

Lemma byte_ext a b :
  (forall i, 0 <= i < 8 -> Z.testbit a i = Z.testbit b i) -> wrap 8 a = wrap 8 b.
Proof.
  intros H. apply Z.bits_inj'. intros i Hi. rewrite !testbit_wrap by lia.
  destruct (Z.ltb_spec i 8); [by rewrite H|]. by rewrite !andb_false_r.
Qed.

Ltac swap_bits :=
  unfold be_bytes; cbn [le_bytes reverse rev_append];
  repeat match goal with |- _ :: _ = _ :: _ => f_equal end;
  apply byte_ext; intros ?i ?Hi; rewrite !Z.shiftr_spec by lia;
  match goal with
  | H : 0 <= ?i < 8 |- _ => pattern i; apply (lt8_cases _ i H); clear i H
  end;
  cbn [Z.add Pos.add Pos.succ Pos.add_carry]; rewrite ?Z.lor_spec, ?Z.land_spec;
  rewrite ?Z.shiftr_spec, ?Z.shiftl_spec by lia;
  simpl Z.testbit; rewrite ?andb_false_r, ?andb_true_r, ?orb_false_r;
  try reflexivity.

Lemma le_bytes_swap16 x : le_bytes 2 (swap_bytes16 x) = be_bytes 2 x.
Proof. unfold swap_bytes16. swap_bits. Qed.
Lemma le_bytes_swap32 x : le_bytes 4 (swap_bytes32 x) = be_bytes 4 x.
Proof. unfold swap_bytes32. swap_bits. Qed.
Lemma le_bytes_swap64 {T : Target} x :
  native = little -> le_bytes 8 (swap_bytes64 x) = be_bytes 8 x.
Proof. intros E. unfold swap_bytes64. rewrite E. swap_bits. Qed.

(** The widths of the template instances. *)
Definition is_width (sz : nat) : Prop := sz = 2%nat \/ sz = 4%nat \/ sz = 8%nat.

Section uint.
Context {T : Target}.

(** The byte order of the wire: network order, except for 16 and 32 bits on
    a big-endian host, where the unconditional swap reverses it. *)
Definition wire_bytes (sz : nat) (x : Z) : bytes :=
  match native, sz with
  | big, 2%nat | big, 4%nat => le_bytes sz x
  | _, _ => be_bytes sz x
  end.
Definition wire_val (b : bytes) : Z :=
  match native, length b with
  | big, 2%nat | big, 4%nat => le_val b
  | _, _ => be_val b
  end.

Lemma swap_bytes_in sz x : is_width sz -> in_u (8 * Z.of_nat sz) x ->
  in_u (8 * Z.of_nat sz) (swap_bytes sz x).
Proof.
  intros [->|[->| ->]] Hx; unfold swap_bytes, swap_bytes16, swap_bytes32, swap_bytes64;
    [| |destruct native; [|exact Hx]];
    repeat apply in_u_lor; try done; rewrite Z.land_comm; apply in_u_land; done.
Qed.

Lemma le_bytes_swap sz x : is_width sz ->
  (native = big -> sz <> 8%nat) -> le_bytes sz (swap_bytes sz x) = be_bytes sz x.
Proof.
  intros [->|[->| ->]] Hb; simpl swap_bytes;
    [apply le_bytes_swap16 | apply le_bytes_swap32 |].
  destruct native eqn:E; [by apply le_bytes_swap64 | by destruct (Hb eq_refl)].
Qed.

Lemma swap_bytes_val sz x : is_width sz -> in_u (8 * Z.of_nat sz) x ->
  (native = big -> sz <> 8%nat) -> swap_bytes sz x = le_val (be_bytes sz x).
Proof.
  intros Hsz Hx Hb. rewrite <- le_bytes_swap, le_val_bytes by done.
  symmetry. by apply wrap_small, swap_bytes_in.
Qed.

Lemma object_bytes_swap sz x : is_width sz ->
  object_bytes sz (swap_bytes sz x) = wire_bytes sz x.
Proof.
  intros Hsz. unfold object_bytes, wire_bytes. destruct native eqn:E.
  - rewrite le_bytes_swap by (done || congruence). by destruct sz as [|[|[|[|[]]]]].
  - destruct Hsz as [->|[->| ->]].
    + rewrite le_bytes_swap by (by left || congruence). apply reverse_involutive.
    + rewrite le_bytes_swap by ((by right; left) || congruence). apply reverse_involutive.
    + simpl swap_bytes. unfold swap_bytes64. by rewrite E.
Qed.

Lemma appends_put_uint sz x : is_width sz -> appends (put_uint sz x) (wire_bytes sz x).
Proof. intros Hsz b. unfold put_uint, modify. by rewrite object_bytes_swap. Qed.

Lemma swap_object_value b : is_width (length b) -> wf_bytes b ->
  swap_bytes (length b) (object_value b) = wire_val b.
Proof.
  intros Hsz Hb. unfold object_value, wire_val.
  assert (forall d, wf_bytes d -> length d = length b ->
    be_bytes (length b) (le_val d) = reverse d) as Hrev.
  { intros d Hd Hl. unfold be_bytes. by rewrite <- Hl, le_bytes_val. }
  assert (wf_bytes (reverse b)) as Hb' by (by apply Forall_reverse).
  pose proof (le_val_bound b Hb) as B1. pose proof (le_val_bound _ Hb') as B2.
  rewrite length_reverse in B2. destruct native eqn:E.
  - rewrite swap_bytes_val, Hrev by (done || congruence).
    by destruct (length b) as [|[|[|[|[]]]]].
  - destruct Hsz as [Hl|[Hl|Hl]]; rewrite Hl in *.
    + rewrite swap_bytes_val, Hrev, reverse_involutive
        by (done || (by left) || by rewrite length_reverse). done.
    + rewrite swap_bytes_val, Hrev, reverse_involutive
        by (done || (by right; left) || by rewrite length_reverse). done.
    + simpl swap_bytes. unfold swap_bytes64. by rewrite E.
Qed.

Lemma length_wire_bytes sz x : is_width sz -> length (wire_bytes sz x) = sz.
Proof.
  intros [->|[->| ->]]; unfold wire_bytes; destruct native;
    (apply length_le_bytes || apply length_be_bytes).
Qed.
Lemma wf_wire_bytes sz x : is_width sz -> wf_bytes (wire_bytes sz x).
Proof.
  intros [->|[->| ->]]; unfold wire_bytes; destruct native;
    (apply wf_le_bytes || apply wf_be_bytes).
Qed.
Lemma wire_val_bytes sz x : is_width sz -> in_u (8 * Z.of_nat sz) x ->
  wire_val (wire_bytes sz x) = x.
Proof.
  intros Hsz Hx. unfold wire_val. rewrite length_wire_bytes by done. unfold wire_bytes.
  destruct Hsz as [->|[->| ->]], native; rewrite ?be_val_bytes, ?le_val_bytes;
    by apply wrap_small.
Qed.

(** Every outcome of a fixed-width read. *)
Lemma get_uint_spec sz b : is_width sz -> wf_bytes b ->
  get_uint sz b
  = if Z.of_nat (length b) <? Z.of_nat sz then (Throw ReadException, b)
    else (Ret (wire_val (take sz b)), drop sz b).
Proof.
  intros Hsz Hb. unfold get_uint. destruct b as [|x b'].
  { destruct Hsz as [->|[->| ->]]; done. }
  cbn [buf_empty]. destruct (Z.ltb_spec (Z.of_nat (length (x :: b'))) (Z.of_nat sz)); [done|].
  do 2 f_equal. set (d := take sz (x :: b')).
  assert (length d = sz) as Hl by (unfold d; rewrite length_take; lia).
  rewrite <- Hl at 1. apply swap_object_value; [by rewrite Hl|]. by apply Forall_take.
Qed.

Lemma parses_get_uint sz x : is_width sz -> in_u (8 * Z.of_nat sz) x ->
  parses (get_uint sz) (wire_bytes sz x) x.
Proof.
  intros Hsz Hx rest. pose proof (length_wire_bytes sz x Hsz) as Hl.
  unfold get_uint. destruct (wire_bytes sz x) as [|y d] eqn:E.
  { destruct Hsz as [->|[->| ->]]; done. }
  rewrite <- E in *. replace (buf_empty _) with false by (by rewrite E).
  rewrite length_app, Hl, (proj2 (Z.ltb_ge _ _)) by lia.
  rewrite take_app_length', drop_app_length' by done.
  do 2 f_equal. rewrite <- Hl at 1. rewrite swap_object_value, wire_val_bytes by
    (rewrite ?Hl; done || by apply wf_wire_bytes). done.
Qed.
End uint.

(** ** Variable-length integers on the wire

    The length is 1, 2, 4 or 8 bytes; the first bits of the big-endian value
    are the tag [0], [10], [110] or [111], the others hold the integer: 7, 14,
    29 or 60 bits. *)

Definition uintVar_size (v : Z) : nat :=
  if v <? 2 ^ 7 then 1%nat else if v <? 2 ^ 14 then 2%nat
  else if v <? 2 ^ 29 then 4%nat else 8%nat.
Definition uintVar_tag (sz : nat) : Z :=
  match sz with
  | 1%nat => 0 | 2%nat => 0x80 * 2 ^ 8 | 4%nat => 0xC0 * 2 ^ 24
  | _ => 0xE0 * 2 ^ 56
  end.
Definition uintVar_bits (sz : nat) : Z :=
  match sz with 1%nat => 7 | 2%nat => 14 | 4%nat => 29 | _ => 60 end.
(** The length announced by the first byte. *)
Definition uintVar_length (first : Z) : nat :=
  if first <? 0x80 then 1%nat else if first <? 0xC0 then 2%nat
  else if first <? 0xE0 then 4%nat else 8%nat.

Definition uintVar_wire (v : Z) : bytes :=
  let sz := uintVar_size v in
  be_bytes sz (wrap (uintVar_bits sz) v + uintVar_tag sz).

(** The bytes the writer pushes, as arithmetic. *)
Ltac uintVar_bytes :=
  unfold be_bytes; cbn [le_bytes reverse rev_append app];
  repeat match goal with |- _ :: _ = _ :: _ => f_equal end;
  rewrite ?Z.shiftr_shiftr by lia; cbn [Z.add Pos.add Pos.succ Pos.add_carry];
  rewrite ?(land_ones_mod _ 0xFF 8), ?(land_ones_mod _ 0x7F 7),
    ?(land_ones_mod _ 0x3F 6), ?(land_ones_mod _ 0x1F 5), ?(land_ones_mod _ 0x0F 4)
    by done.

Lemma lor_80 a : in_u 6 a -> Z.lor a 0x80 = a + 0x80.
Proof. intros. apply (lor_high a 2 6 ltac:(lia) H). Qed.
Lemma lor_80_40 a : in_u 5 a -> Z.lor (Z.lor a 0x80) 0x40 = a + 0xC0.
Proof.
  intros. rewrite <- Z.lor_assoc. apply (lor_high a 6 5 ltac:(lia) H).
Qed.
Lemma lor_80_40_20 a :
  in_u 4 a -> Z.lor (Z.lor (Z.lor a 0x80) 0x40) 0x20 = a + 0xE0.
Proof.
  intros. rewrite <- !Z.lor_assoc. apply (lor_high a 14 4 ltac:(lia) H).
Qed.

Lemma appends_pushes2 a b : appends (push a;; push b) [a; b].
Proof. intros b0. unfold push, modify, mbind, M_bind. by rewrite <- app_assoc. Qed.

Lemma appends_put_uintVar v :
  0 <= v < 2 ^ 61 -> appends (put_uintVar v) (uintVar_wire v).
Proof.
  intros Hv b0. unfold put_uintVar, uintVar_wire, uintVar_size.
  change (Z.shiftl 1 7) with (2 ^ 7). change (Z.shiftl 1 14) with (2 ^ 14).
  change (Z.shiftl 1 29) with (2 ^ 29).
  destruct (Z.ltb_spec v (2 ^ 7)); [|destruct (Z.ltb_spec v (2 ^ 14));
    [|destruct (Z.ltb_spec v (2 ^ 29))]];
    unfold push, modify, mbind, M_bind; rewrite <- ?app_assoc; do 2 f_equal;
    uintVar_bytes; rewrite ?Z.shiftr_0_r, ?Z.shiftr_div_pow2, ?Z.lor_0_r by lia;
    rewrite ?lor_80, ?lor_80_40, ?lor_80_40_20 by (apply Z.mod_pos_bound; lia);
    unfold wrap, uintVar_bits, uintVar_tag; simpl Z.pow; simpl Z.mul; lia.
Qed.

(** *** The reader *)

(** The tests of the reader select a length from the first byte. *)
Lemma uintVar_tests first :
  is_u8 first ->
  (Z.land first 0x80 =? 0) = (first <? 0x80) /\
  (Z.land first (Z.lor 0x80 0x40) =? 0x80) = ((0x80 <=? first) && (first <? 0xC0))%bool /\
  (Z.land first (Z.lor (Z.lor 0x80 0x40) 0x20) =? Z.lor 0x80 0x40)
  = ((0xC0 <=? first) && (first <? 0xE0))%bool.
Proof.
  intros Hf. change (Z.lor 0x80 0x40) with (3 * 2 ^ 6).
  change (Z.lor (3 * 2 ^ 6) 0x20) with (7 * 2 ^ 5). change 0x80 with (1 * 2 ^ 7) at 1.
  rewrite !land_high by lia.
  rewrite (land_ones_mod _ 1 1), (land_ones_mod _ 3 2), (land_ones_mod _ 7 3) by done.
  unfold in_u in Hf. simpl Z.pow in *. lia.
Qed.

(** Every outcome of the reader: undefined on an empty buffer; a truncated
    integer throws after the bytes that were there are consumed; otherwise the
    announced bytes are consumed and the bits below the tag returned. *)
Definition uintVar_read (b : bytes) : result Z * bytes :=
  match b with
  | [] => (Undefined, [])
  | first :: _ =>
      let sz := uintVar_length first in
      if Z.of_nat (length b) <? Z.of_nat sz then (Throw ReadException, [])
      else (Ret (wrap (uintVar_bits sz) (be_val (take sz b))), drop sz b)
  end.

Ltac split_bytes b :=
  match goal with H : wf_bytes b |- _ =>
    let x := fresh "x" in let b' := fresh "b" in
    destruct b as [|x b'];
    [ reflexivity
    | let Hx := fresh "Hx" in let Hb := fresh "Hb" in
      apply list.Forall_cons in H as [Hx Hb]; unfold in_u in Hx;
      change (Forall is_u8 b') with (wf_bytes b') in Hb;
      try (split_bytes b') ]
  end.

Lemma wrap_sum w x : 0 <= x < 2 ^ w -> wrap w x = x.
Proof. by apply wrap_small. Qed.

(** The value a full group of bytes gives. *)
Ltac uintVar_value :=
  rewrite ?Z.shiftl_mul_pow2 by lia;
  unfold be_val, wrap; cbn [take reverse rev_append app le_val uintVar_bits];
  simpl Z.pow in *; lia.

Lemma uintVar_ret v : 0 <= v < 2 ^ 61 -> uintVar v = Ret v.
Proof. intros. unfold uintVar. by rewrite (proj2 (Z.leb_gt _ _)) by lia. Qed.

Lemma uintVar_read_full first b :
  (uintVar_length first <= length (first :: b))%nat ->
  uintVar_read (first :: b)
  = (Ret (wrap (uintVar_bits (uintVar_length first))
            (be_val (take (uintVar_length first) (first :: b)))),
     drop (uintVar_length first) (first :: b)).
Proof. intros. unfold uintVar_read. by rewrite (proj2 (Z.ltb_ge _ _)) by lia. Qed.
Lemma uintVar_read_short first b :
  (length (first :: b) < uintVar_length first)%nat ->
  uintVar_read (first :: b) = (Throw ReadException, []).
Proof. intros. unfold uintVar_read. by rewrite (proj2 (Z.ltb_lt _ _)) by lia. Qed.

(** One step of a byte-wise read. *)
Lemma bind_get_u8_cons {A} x b (f : Z -> Buf A) : (get_u8 ≫= f) (x :: b) = f x b.
Proof. done. Qed.
Lemma bind_get_u8_nil {A} (f : Z -> Buf A) :
  (get_u8 ≫= f) [] = (Throw ReadException, []).
Proof. done. Qed.
Lemma lift_uintVar v (b : bytes) :
  0 <= v < 2 ^ 61 -> lift (uintVar v) b = (Ret v, b).
Proof. intros. unfold lift. by rewrite uintVar_ret. Qed.

(** A full read: the sum of the shifted bytes is the big-endian value. *)
Ltac uintVar_full Hl :=
  rewrite uintVar_read_full; rewrite Hl; [|simpl length; lia];
  rewrite lift_uintVar; [do 2 f_equal|];
  rewrite ?(land_ones_mod _ 0x7F 7), ?(land_ones_mod _ 0x3F 6),
    ?(land_ones_mod _ 0x1F 5), ?(land_ones_mod _ 0x0F 4) by done;
  rewrite ?Z.shiftl_mul_pow2 by lia;
  unfold be_val, wrap; simpl take; rewrite ?take_0;
  cbn -[Z.add Z.mul Z.pow Z.modulo]; lia.

(** Read the next byte of [b], which the announced length [Hl] asks for. *)
Ltac uintVar_next b Hl Hb :=
  let y := fresh "y" in let Hy := fresh "Hy" in
  destruct b as [|y b];
  [ rewrite bind_get_u8_nil, uintVar_read_short by (rewrite Hl; simpl; lia); reflexivity
  | apply list.Forall_cons in Hb as [Hy Hb]; unfold in_u in Hy;
    rewrite bind_get_u8_cons ].

(** Only the announced bytes matter. *)
Lemma get_uintVar_spec x b :
  wf_bytes (take (uintVar_length x) (x :: b)) -> is_u8 x ->
  get_uintVar (x :: b) = uintVar_read (x :: b).
Proof.
  intros Hb Hx. destruct (uintVar_tests x Hx) as (E1 & E2 & E3). unfold get_uintVar.
  rewrite (run_bind_ret _ _ _ (x :: b) x) by done. rewrite E1, E2, E3.
  assert (uintVar_length x = if x <? 0x80 then 1%nat else if x <? 0xC0 then 2%nat
          else if x <? 0xE0 then 4%nat else 8%nat) as Hl by done.
  unfold in_u in Hx. revert Hb. rewrite Hl.
  destruct (Z.ltb_spec x 0x80); [|destruct (Z.leb_spec 0x80 x); [|lia];
    destruct (Z.ltb_spec x 0xC0); [|destruct (Z.leb_spec 0xC0 x); [|lia];
    destruct (Z.ltb_spec x 0xE0)]]; cbn [andb]; rewrite bind_get_u8_cons;
    simpl take; intros [_ Hb]%list.Forall_cons.
  - uintVar_full Hl.
  - uintVar_next b Hl Hb. uintVar_full Hl.
  - do 3 uintVar_next b Hl Hb. uintVar_full Hl.
  - do 7 uintVar_next b Hl Hb. uintVar_full Hl.
Qed.

Lemma uintVar_bits_size v :
  0 <= v < 2 ^ 61 -> let sz := uintVar_size v in
  0 <= uintVar_bits sz /\ (sz <> 8%nat -> in_u (uintVar_bits sz) v) /\
  uintVar_tag sz + 2 ^ uintVar_bits sz <= 2 ^ (8 * Z.of_nat sz) /\
  uintVar_tag sz mod 2 ^ uintVar_bits sz = 0.
Proof.
  intros Hv. unfold uintVar_size, in_u.
  destruct (Z.ltb_spec v (2 ^ 7)); [|destruct (Z.ltb_spec v (2 ^ 14));
    [|destruct (Z.ltb_spec v (2 ^ 29))]]; repeat split; try done; simpl; lia.
Qed.

Lemma uintVar_wire_cons v :
  0 <= v < 2 ^ 61 ->
  exists x d, uintVar_wire v = x :: d /\ is_u8 x /\ wf_bytes (x :: d) /\
    uintVar_length x = uintVar_size v /\ length (x :: d) = uintVar_size v.
Proof.
  intros Hv. pose proof (wf_be_bytes (uintVar_size v)
    (wrap (uintVar_bits (uintVar_size v)) v + uintVar_tag (uintVar_size v))) as Hwf.
  pose proof (length_be_bytes (uintVar_size v)
    (wrap (uintVar_bits (uintVar_size v)) v + uintVar_tag (uintVar_size v))) as Hlen.
  fold (uintVar_wire v) in Hwf, Hlen. revert Hwf Hlen. unfold uintVar_wire, uintVar_size.
  destruct (Z.ltb_spec v (2 ^ 7)); [|destruct (Z.ltb_spec v (2 ^ 14));
    [|destruct (Z.ltb_spec v (2 ^ 29))]]; unfold be_bytes;
    cbn [le_bytes reverse rev_append]; intros Hwf Hlen;
    eexists _, _; (split; [reflexivity|]); (split; [by apply in_u_wrap|]);
    (split; [exact Hwf|]); (split; [|exact Hlen]);
    unfold uintVar_length, wrap, uintVar_bits, uintVar_tag;
    rewrite ?Z.shiftr_shiftr, ?Z.shiftr_div_pow2 by lia; simpl Z.add; simpl Z.pow; simpl Z.mul;
    repeat match goal with |- context [?a <? ?b] => destruct (Z.ltb_spec a b); try lia end.
Qed.

Lemma parses_get_uintVar v :
  0 <= v < 2 ^ 61 ->
  parses get_uintVar (uintVar_wire v) (wrap (uintVar_bits (uintVar_size v)) v).
Proof.
  intros Hv rest. destruct (uintVar_wire_cons v Hv) as (x & d & E & Hx & Hd & Hl & Hlen).
  pose proof (be_val_bytes (uintVar_size v)
    (wrap (uintVar_bits (uintVar_size v)) v + uintVar_tag (uintVar_size v))) as Hval.
  fold (uintVar_wire v) in Hval. rewrite E in *. cbn [app].
  rewrite get_uintVar_spec, uintVar_read_full; rewrite ?Hl; try done.
  - rewrite app_comm_cons, <- Hlen. rewrite take_app_length, drop_app_length, Hval.
    do 2 f_equal. rewrite Hlen.
    destruct (uintVar_bits_size v Hv) as (Hb & _ & Hle & Ht).
    assert (0 <= uintVar_tag (uintVar_size v)) as Htag by (destruct (uintVar_size v) as [|[|[|[|[|]]]]]; done).
    pose proof (Z.mod_pos_bound v (2 ^ uintVar_bits (uintVar_size v))
      ltac:(apply Z.pow_pos_nonneg; lia)).
    unfold wrap in *. rewrite (Z.mod_small (_ + _)) by lia.
    rewrite Z.add_mod_idemp_l, <- Z.add_mod_idemp_r, Ht, Z.add_0_r by lia. done.
  - cbn [length] in *. rewrite length_app. lia.
  - rewrite app_comm_cons, <- Hlen, take_app_length. done.
Qed.

Lemma parses_uintVar v : 0 <= v < 2 ^ 60 -> parses get_uintVar (uintVar_wire v) v.
Proof.
  intros Hv. pose proof (parses_get_uintVar v ltac:(lia)) as H.
  destruct (uintVar_bits_size v ltac:(lia)) as (Hb & Hin & _).
  rewrite wrap_small in H; [done|].
  destruct (decide (uintVar_size v = 8%nat)) as [->|Hne]; [done|by apply Hin].
Qed.
#[export] Hint Resolve parses_uintVar appends_put_uintVar : codec.

(** ** Byte vectors *)

Definition vector_wire (d : bytes) : bytes :=
  uintVar_wire (Z.of_nat (length d)) ++ d.

Lemma appends_put_vector d :
  Z.of_nat (length d) < 2 ^ 61 -> appends (put_vector d) (vector_wire d).
Proof.
  intros Hd b0. unfold put_vector.
  rewrite (run_bind_ret _ _ _ b0 (Z.of_nat (length d))) by (unfold lift; by rewrite uintVar_ret by lia).
  apply appends_bind; auto with codec. apply appends_put_uintVar. lia.
Qed.

Lemma put_vector_too_long d b0 :
  2 ^ 61 <= Z.of_nat (length d) -> put_vector d b0 = (Throw runtime_error, b0).
Proof.
  intros Hd. unfold put_vector. apply run_bind_throw. unfold lift, uintVar.
  by rewrite (proj2 (Z.leb_le _ _)).
Qed.

Lemma pop_front_app d b n :
  length d = n -> pop_front (Z.of_nat n) (d ++ b) = (Ret d, b).
Proof.
  intros <-. unfold pop_front. destruct d as [|x d]; [done|].
  rewrite (proj2 (Z.eqb_neq _ _)) by (simpl; lia).
  rewrite (proj2 (Z.ltb_ge _ _)) by (rewrite length_app; lia).
  by rewrite Nat2Z.id, take_app_length, drop_app_length.
Qed.

(** A vector comes back cut at its length modulo [2^16]; the rest of it stays
    in the buffer. *)
Lemma get_vector_wire d rest :
  Z.of_nat (length d) < 2 ^ 60 ->
  let n := Z.to_nat (wrap 16 (Z.of_nat (length d))) in
  get_vector (vector_wire d ++ rest) = (Ret (take n d), drop n d ++ rest).
Proof.
  intros Hd n. unfold vector_wire, get_vector. rewrite <- app_assoc.
  rewrite (run_bind_ret _ _ _ (d ++ rest) (Z.of_nat (length d)))
    by (apply parses_uintVar; lia).
  assert (n <= length d)%nat as Hn by (unfold n, wrap; lia).
  rewrite <- (take_drop n d) at 2. rewrite <- app_assoc.
  replace (wrap 16 (Z.of_nat (length d))) with (Z.of_nat n) by (unfold n, wrap; lia).
  apply pop_front_app. rewrite length_take. lia.
Qed.

Lemma parses_vector d :
  Z.of_nat (length d) < 2 ^ 16 -> parses get_vector (vector_wire d) d.
Proof.
  intros Hd rest. rewrite get_vector_wire by lia. rewrite wrap_small by (unfold in_u; lia).
  by rewrite Nat2Z.id, firstn_all, drop_all.
Qed.
#[export] Hint Resolve appends_put_vector parses_vector : codec.

(** * Properties *)

(** A 2-, 4- or 8-byte integer written to a buffer is read back from the
    front of it on every target, the rest of the buffer untouched; a buffer
    shorter than the type throws [ReadException] and is left as it was. *)
Theorem uint_roundtrip {T : Target} sz x b rest :
  is_width sz -> in_u (8 * Z.of_nat sz) x -> wf_bytes rest ->
  exists w, put_uint sz x b = (Ret tt, b ++ w) /\ length w = sz /\
    get_uint sz (w ++ rest) = (Ret x, rest) /\
    ((length rest < sz)%nat -> get_uint sz rest = (Throw ReadException, rest)).
Proof.
  intros Hsz Hx Hr. exists (wire_bytes sz x).
  split; [by apply appends_put_uint|]. split; [by apply length_wire_bytes|].
  split; [by apply parses_get_uint|]. intros Hlen.
  rewrite get_uint_spec by done. by rewrite (proj2 (Z.ltb_lt _ _)) by lia.
Qed.

Lemma uint_roundtrip_witness :
  exists w, put_uint (T := strict_big) 4 0x01020304 [9] = (Ret tt, [9] ++ w) /\ length w = 4%nat /\
    get_uint (T := strict_big) 4 (w ++ [7]) = (Ret 0x01020304, [7]) /\
    ((length [7] < 4)%nat -> get_uint (T := strict_big) 4 [7] = (Throw ReadException, [7])).
Proof.
  apply (uint_roundtrip (T := strict_big) 4 0x01020304 [9] [7]).
  - right. left. reflexivity.
  - vm_compute. split; congruence.
  - repeat constructor; vm_compute; congruence.
Defined.

(** The byte order on the wire: 64-bit integers are written most
    significant byte first on every host; 16- and 32-bit integers too on a
    little-endian host, but least significant byte first on a big-endian one,
    because only the 64-bit swap looks at the host. *)
Theorem uint_wire_order {T : Target} x b :
  put_uint 8 x b = (Ret tt, b ++ be_bytes 8 x) /\
  put_uint 4 x b = (Ret tt, b ++ match native with
                                 | little => be_bytes 4 x | big => le_bytes 4 x end) /\
  put_uint 2 x b = (Ret tt, b ++ match native with
                                 | little => be_bytes 2 x | big => le_bytes 2 x end).
Proof.
  repeat split; rewrite appends_put_uint by (unfold is_width; tauto);
    unfold wire_bytes; by destruct native.
Qed.

(** An integer below 2^60 written as [uintVar_t] is read back, and its
    length is the least of 1, 2, 4 and 8 bytes whose field holds it. *)
Theorem uintVar_roundtrip v b rest :
  0 <= v < 2 ^ 60 ->
  exists w, put_uintVar v b = (Ret tt, b ++ w) /\
    get_uintVar (w ++ rest) = (Ret v, rest) /\
    length w = uintVar_size v /\
    (forall sz, In sz [1; 2; 4; 8]%nat -> v < 2 ^ uintVar_bits sz -> (length w <= sz)%nat).
Proof.
  intros Hv. exists (uintVar_wire v). split; [apply appends_put_uintVar; lia|].
  split; [by apply parses_uintVar|].
  assert (length (uintVar_wire v) = uintVar_size v) as -> by apply length_be_bytes.
  split; [done|]. unfold uintVar_size.
  intros sz [<-|[<-|[<-|[<-|[]]]]]; simpl uintVar_bits; intros;
    destruct (Z.ltb_spec v (2 ^ 7)), (Z.ltb_spec v (2 ^ 14)), (Z.ltb_spec v (2 ^ 29)); lia.
Qed.

Lemma uintVar_roundtrip_witness :
  exists w, put_uintVar 536870912 [] = (Ret tt, [] ++ w) /\
    get_uintVar (w ++ [5]) = (Ret 536870912, [5]) /\
    length w = uintVar_size 536870912 /\
    (forall sz, In sz [1; 2; 4; 8]%nat ->
       536870912 < 2 ^ uintVar_bits sz -> (length w <= sz)%nat).
Proof. apply (uintVar_roundtrip 536870912 [] [5]). lia. Defined.

(** C40: the type accepts values up to 2^61, but the writer keeps 4 bits of the
    top byte: a value from 2^60 on comes back with bit 60 lost. *)
Theorem uintVar_loses_bit_60 v b rest :
  2 ^ 60 <= v < 2 ^ 61 ->
  uintVar v = Ret v /\
  exists w, put_uintVar v b = (Ret tt, b ++ w) /\
    get_uintVar (w ++ rest) = (Ret (v - 2 ^ 60), rest).
Proof.
  intros Hv. split; [apply uintVar_ret; lia|]. exists (uintVar_wire v).
  split; [apply appends_put_uintVar; lia|]. rewrite parses_get_uintVar by lia.
  do 2 f_equal. unfold uintVar_size.
  destruct (Z.ltb_spec v (2 ^ 7)); [lia|]. destruct (Z.ltb_spec v (2 ^ 14)); [lia|].
  destruct (Z.ltb_spec v (2 ^ 29)); [lia|]. unfold wrap, uintVar_bits. lia.
Qed.

Lemma uintVar_loses_bit_60_witness :
  uintVar (2 ^ 60 + 5) = Ret (2 ^ 60 + 5) /\
  exists w, put_uintVar (2 ^ 60 + 5) [] = (Ret tt, [] ++ w) /\
    get_uintVar (w ++ []) = (Ret (2 ^ 60 + 5 - 2 ^ 60), []).
Proof. apply (uintVar_loses_bit_60 (2 ^ 60 + 5) [] []). lia. Defined.

(** Every outcome of reading a [uintVar_t] from received bytes: undefined
    behaviour on an empty buffer; [ReadException] with the buffer used up when
    fewer bytes than the first one announces are left; otherwise the announced
    bytes are consumed and the bits below the tag are returned. *)
Theorem uintVar_read_spec b :
  wf_bytes b ->
  get_uintVar b = uintVar_read b /\
  (fst (get_uintVar b) = Undefined <-> b = []) /\
  (forall v, fst (get_uintVar b) = Ret v -> 0 <= v < 2 ^ 60).
Proof.
  intros Hb. destruct b as [|x b]; [done|].
  rewrite get_uintVar_spec by (by apply list.Forall_take || by inversion Hb).
  split; [done|]. unfold uintVar_read.
  assert (0 < 2 ^ uintVar_bits (uintVar_length x) <= 2 ^ 60) as Hp.
  { unfold uintVar_length. repeat case_match; simpl; lia. }
  case_match; simpl; (split; [by split|]); [done|].
  intros v [= <-]. pose proof (Z.mod_pos_bound (be_val (take (uintVar_length x) (x :: b)))
    (2 ^ uintVar_bits (uintVar_length x))). unfold wrap. lia.
Qed.

Lemma uintVar_read_spec_witness :
  get_uintVar [0xC0; 1] = uintVar_read [0xC0; 1] /\
  (fst (get_uintVar [0xC0; 1]) = Undefined <-> [0xC0; 1] = []) /\
  (forall v, fst (get_uintVar [0xC0; 1]) = Ret v -> 0 <= v < 2 ^ 60).
Proof.
  apply (uintVar_read_spec [0xC0; 1]). repeat constructor; vm_compute; congruence.
Defined.

(** A byte vector shorter than 2^16 is read back whole.  The reader passes
    the size to a [uint16_t] parameter, so a longer one comes back cut at its
    length modulo 2^16, and what was cut is left in front of the buffer. *)
Theorem vector_roundtrip d b rest :
  Z.of_nat (length d) < 2 ^ 60 ->
  let n := Z.to_nat (Z.of_nat (length d) mod 2 ^ 16) in
  exists w, put_vector d b = (Ret tt, b ++ w) /\
    get_vector (w ++ rest) = (Ret (take n d), drop n d ++ rest) /\
    (Z.of_nat (length d) < 2 ^ 16 -> get_vector (w ++ rest) = (Ret d, rest)).
Proof.
  intros Hd n. exists (vector_wire d). split; [apply appends_put_vector; lia|].
  split; [by apply get_vector_wire|]. intros. by apply parses_vector.
Qed.

Lemma vector_roundtrip_witness :
  let d := repeat 7 300 in let n := Z.to_nat (Z.of_nat (length d) mod 2 ^ 16) in
  exists w, put_vector d [1] = (Ret tt, [1] ++ w) /\
    get_vector (w ++ [2]) = (Ret (take n d), drop n d ++ [2]) /\
    (Z.of_nat (length d) < 2 ^ 16 -> get_vector (w ++ [2]) = (Ret d, [2])).
Proof. apply (vector_roundtrip (repeat 7 300) [1] [2]). vm_compute. reflexivity. Defined.

(** The block operations never read out of bounds: with more bytes asked
    for than there are they throw [OutOfRangeException] and change nothing,
    otherwise [pop_front] is [front] then [pop] and splits the buffer. *)
Theorem block_operations_spec len b :
  0 <= len ->
  let n := Z.to_nat len in
  if Z.of_nat (length b) <? len then
    pop_len len b = (Throw OutOfRangeException, b) /\
    front_len len b = (Throw OutOfRangeException, b) /\
    pop_front len b = (Throw OutOfRangeException, b)
  else
    pop_len len b = (Ret tt, drop n b) /\ front_len len b = (Ret (take n b), b) /\
    pop_front len b = (Ret (take n b), drop n b) /\
    (d ← front_len len; pop_len len;; mret d) b = pop_front len b.
Proof.
  intros Hl n. unfold pop_len, front_len, pop_front, mbind, M_bind, mret, M_ret.
  subst n. destruct (Z.eqb_spec len 0) as [->|]; simpl.
  - rewrite (proj2 (Z.ltb_ge _ _)) by lia. by rewrite drop_0, take_0.
  - destruct (Z.ltb_spec (Z.of_nat (length b)) len); [done|].
    by rewrite (proj2 (Z.ltb_ge _ _)).
Qed.

Lemma block_operations_spec_witness :
  let n := Z.to_nat 2 in
  if Z.of_nat (length [1; 2; 3]) <? 2 then
    pop_len 2 [1; 2; 3] = (Throw OutOfRangeException, [1; 2; 3]) /\
    front_len 2 [1; 2; 3] = (Throw OutOfRangeException, [1; 2; 3]) /\
    pop_front 2 [1; 2; 3] = (Throw OutOfRangeException, [1; 2; 3])
  else
    pop_len 2 [1; 2; 3] = (Ret tt, drop n [1; 2; 3]) /\
    front_len 2 [1; 2; 3] = (Ret (take n [1; 2; 3]), [1; 2; 3]) /\
    pop_front 2 [1; 2; 3] = (Ret (take n [1; 2; 3]), drop n [1; 2; 3]) /\
    (d ← front_len 2; pop_len 2;; mret d) [1; 2; 3] = pop_front 2 [1; 2; 3].
Proof. apply (block_operations_spec 2 [1; 2; 3]). lia. Defined.
