(* ===== verification/Common.v ===== *)
(** * Shared types (include/quicr/quicr_common.h)

    The enumerations are scoped enums.  [static_cast] from an integer to such
    a type is defined for every value of the underlying type, so each has a
    constructor [other] for the values that are not enumerators. *)

From S2P Require Export Namespace MessageBuffer.

Definition MAX_TRANSPORT_DATA_SIZE : Z := 1200.

(** An enumeration with its two casts. *)
Class Enum (E : Type) := {
  to_int : E -> Z;
  of_int : Z -> E;
  to_of_int x : to_int (of_int x) = x;
}.

(** [static_cast<uint8_t>(e)] and [static_cast<E>(byte)]. *)
Definition enum_to_u8 {E} `{Enum E} (e : E) : Z := wrap 8 (to_int e).
Definition enum_of_u8 {E} `{Enum E} (x : Z) : E := of_int x.

(** A value that the two casts through a byte preserve. *)
Definition wf_enum {E} `{Enum E} (e : E) : Prop :=
  is_u8 (to_int e) /\ of_int (to_int e) = e.

Lemma enum_roundtrip {E} `{Enum E} (e : E) :
  wf_enum e -> enum_of_u8 (enum_to_u8 e) = e.
Proof. intros [? ?]. unfold enum_of_u8, enum_to_u8. by rewrite wrap_small. Qed.

(** What was received from a byte is well formed. *)
Lemma wf_enum_of_u8 {E} `{Enum E} x : is_u8 x -> wf_enum (enum_of_u8 x : E).
Proof. intros. unfold wf_enum, enum_of_u8. by rewrite to_of_int. Qed.

Ltac enum_cases :=
  intros x; cbv beta;
  repeat match goal with |- context [x =? ?k] => destruct (Z.eqb_spec x k) end;
  subst; reflexivity.

Module MessageType.
Inductive t := Unknown | Subscribe | SubscribeResponse | SubscribeEnd
  | Unsubscribe | Publish | PublishIntent | PublishIntentResponse
  | PublishIntentEnd | other (x : Z).

Definition to_Z (e : t) : Z :=
  match e with
  | Unknown => 0 | Subscribe => 1 | SubscribeResponse => 2
  | SubscribeEnd => 3 | Unsubscribe => 4 | Publish => 5
  | PublishIntent => 6 | PublishIntentResponse => 7
  | PublishIntentEnd => 8 | other x => x
  end.
Definition of_Z (x : Z) : t :=
  if x =? 0 then Unknown else if x =? 1 then Subscribe
  else if x =? 2 then SubscribeResponse else if x =? 3 then SubscribeEnd
  else if x =? 4 then Unsubscribe else if x =? 5 then Publish
  else if x =? 6 then PublishIntent else if x =? 7 then PublishIntentResponse
  else if x =? 8 then PublishIntentEnd else other x.

#[global] Instance eq_dec : EqDecision t.
Proof. solve_decision. Defined.
#[global] Instance enum : Enum t.
Proof. refine {| to_int := to_Z; of_int := of_Z |}. unfold to_Z, of_Z. enum_cases. Defined.
End MessageType.

Module MediaType.
Inductive t := Manifest | Advertisement | Text | RealtimeMedia | other (x : Z).

Definition to_Z (e : t) : Z :=
  match e with
  | Manifest => 0 | Advertisement => 1 | Text => 2 | RealtimeMedia => 3
  | other x => x
  end.
Definition of_Z (x : Z) : t :=
  if x =? 0 then Manifest else if x =? 1 then Advertisement
  else if x =? 2 then Text else if x =? 3 then RealtimeMedia else other x.

#[global] Instance eq_dec : EqDecision t.
Proof. solve_decision. Defined.
#[global] Instance enum : Enum t.
Proof. refine {| to_int := to_Z; of_int := of_Z |}. unfold to_Z, of_Z. enum_cases. Defined.
End MediaType.

Module Response.
Inductive t := Ok | Expired | Fail | Redirect | other (x : Z).

Definition to_Z (e : t) : Z :=
  match e with
  | Ok => 0 | Expired => 1 | Fail => 2 | Redirect => 3 | other x => x
  end.
Definition of_Z (x : Z) : t :=
  if x =? 0 then Ok else if x =? 1 then Expired
  else if x =? 2 then Fail else if x =? 3 then Redirect else other x.

#[global] Instance eq_dec : EqDecision t.
Proof. solve_decision. Defined.
#[global] Instance enum : Enum t.
Proof. refine {| to_int := to_Z; of_int := of_Z |}. unfold to_Z, of_Z. enum_cases. Defined.
End Response.

Module SubscribeIntent.
Inductive t := immediate | wait_up | sync_up | other (x : Z).

Definition to_Z (e : t) : Z :=
  match e with immediate => 0 | wait_up => 1 | sync_up => 2 | other x => x end.
Definition of_Z (x : Z) : t :=
  if x =? 0 then immediate else if x =? 1 then wait_up
  else if x =? 2 then sync_up else other x.

#[global] Instance eq_dec : EqDecision t.
Proof. solve_decision. Defined.
#[global] Instance enum : Enum t.
Proof. refine {| to_int := to_Z; of_int := of_Z |}. unfold to_Z, of_Z. enum_cases. Defined.
End SubscribeIntent.

Module SubscribeStatus.
Inductive t := Ok | Expired | Redirect | FailedError | FailedAuthz | TimeOut
  | ConnectionClosed | other (x : Z).

Definition to_Z (e : t) : Z :=
  match e with
  | Ok => 0 | Expired => 1 | Redirect => 2 | FailedError => 3
  | FailedAuthz => 4 | TimeOut => 5 | ConnectionClosed => 6 | other x => x
  end.
Definition of_Z (x : Z) : t :=
  if x =? 0 then Ok else if x =? 1 then Expired
  else if x =? 2 then Redirect else if x =? 3 then FailedError
  else if x =? 4 then FailedAuthz else if x =? 5 then TimeOut
  else if x =? 6 then ConnectionClosed else other x.

#[global] Instance eq_dec : EqDecision t.
Proof. solve_decision. Defined.
#[global] Instance enum : Enum t.
Proof. refine {| to_int := to_Z; of_int := of_Z |}. unfold to_Z, of_Z. enum_cases. Defined.
End SubscribeStatus.

(** [RelayInfo] *)
Module Protocol.
Inductive t := UDP | QUIC.
End Protocol.
Record RelayInfo := mkRelayInfo {
  hostname : chars;
  port : Z;
  proto : Protocol.t;
}.
Definition RelayInfo_init : RelayInfo := mkRelayInfo [] 0 Protocol.UDP.

(** [SubscribeResult] and [PublishIntentResult] *)
Record SubscribeResult := mkSubscribeResult {
  sr_status : SubscribeStatus.t;
  reason_string : chars;
  subscriber_expiry_interval : option Z;
  sr_redirectInfo : RelayInfo;
}.
Record PublishIntentResult := mkPublishIntentResult {
  pir_status : Response.t;
  pir_redirectInfo : RelayInfo;
  reassignedName : Name;
}.
