(* ===== verification/Encode.v ===== *)
(** * Protocol messages (include/quicr/encode.h, src/encode.cpp)

    A record per message; [put_X] is [operator<<] for it (the const and the
    rvalue overloads write the same bytes) and [get_X msg] is [operator>>] into
    an object that holds [msg], whose members that are not on the wire keep
    their value.  The wire format is specified by [X_wire]. *)

From S2P Require Export Common.

(** ** Message types *)

Record Subscribe := mkSubscribe {
  sub_version : Z;
  sub_transaction_id : Z;
  sub_namespace : Namespace;
  sub_intent : SubscribeIntent.t;
}.

Record Unsubscribe := mkUnsubscribe {
  unsub_version : Z;
  unsub_namespace : Namespace;
}.

Record SubscribeResponse := mkSubscribeResponse {
  subr_namespace : Namespace;
  subr_response : SubscribeStatus.t;
  subr_transaction_id : Z;
}.

Record SubscribeEnd := mkSubscribeEnd {
  sube_namespace : Namespace;
  sube_reason : SubscribeStatus.t;
}.

Record PublishIntent := mkPublishIntent {
  pi_message_type : MessageType.t;
  pi_transaction_id : Z;
  pi_namespace : Namespace;
  pi_payload : bytes;
  pi_media_id : Z;
  pi_datagram_capable : Z;
}.

Record PublishIntentResponse := mkPublishIntentResponse {
  pir_message_type : MessageType.t;
  pir_namespace : Namespace;
  pir_response : Response.t;
  pir_transaction_id : Z;
}.

Record Header := mkHeader {
  media_id : Z;
  name : Name;
  group_id : Z;
  object_id : Z;
  offset_and_fin : Z;
  flags : Z;
}.

Record PublishDatagram := mkPublishDatagram {
  header : Header;
  media_type : MediaType.t;
  media_data_length : Z;
  media_data : bytes;
}.

Record PublishStream := mkPublishStream {
  ps_media_data_length : Z;
  ps_media_data : bytes;
}.

Record PublishIntentEnd := mkPublishIntentEnd {
  pie_message_type : MessageType.t;
  pie_namespace : Namespace;
  pie_payload : bytes;
}.

(** ** Names and namespaces *)

(** [for (int i = sizeof(Name) - 1; i >= 0; --i) msg << val[i];] *)
Fixpoint put_Name_loop (i : nat) (val : Name) : Buf unit :=
  match i with
  | O => mret tt
  | S i' =>
      b ← lift (name_index val (Z.of_nat i'));
      put_u8 b;;
      put_Name_loop i' val
  end.
Definition put_Name (val : Name) : Buf unit :=
  put_Name_loop (Z.to_nat sizeof_Name) val.

(** [bytes] holds the elements above the index. *)
Fixpoint get_Name_loop (i : nat) (bs : bytes) : Buf bytes :=
  match i with
  | O => mret bs
  | S i' => b ← get_u8; get_Name_loop i' (b :: bs)
  end.
Definition get_Name {T : Target} : Buf Name :=
  bs ← get_Name_loop (Z.to_nat sizeof_Name) [];
  lift (Name_of_data bs sizeof_Name).

Definition put_Namespace (val : Namespace) : Buf unit :=
  put_Name (_name val);;
  put_u8 (_sig_bits val).
Definition get_Namespace {T : Target} : Buf Namespace :=
  name_mask ← get_Name;
  sig_bits ← get_u8;
  lift (make_Namespace name_mask sig_bits).

(** [buffer >> msg_type], and the exception when it is not [t]. *)
Definition expect_type (t : MessageType.t) : Buf unit :=
  msg_type ← get_u8;
  if msg_type =? enum_to_u8 t then mret tt else throw MessageTypeException.

Section messages.
Context {T : Target}.

(** ** Subscribe messages *)

Definition put_Subscribe (msg : Subscribe) : Buf unit :=
  put_u8 (enum_to_u8 MessageType.Subscribe);;
  put_uint 8 (sub_transaction_id msg);;
  put_Namespace (sub_namespace msg);;
  put_u8 (enum_to_u8 (sub_intent msg)).
Definition get_Subscribe (msg : Subscribe) : Buf Subscribe :=
  expect_type MessageType.Subscribe;;
  transaction_id ← get_uint 8;
  ns ← get_Namespace;
  intent ← get_u8;
  mret (mkSubscribe (sub_version msg) transaction_id ns (enum_of_u8 intent)).

Definition put_Unsubscribe (msg : Unsubscribe) : Buf unit :=
  put_u8 (enum_to_u8 MessageType.Unsubscribe);;
  put_Namespace (unsub_namespace msg).
Definition get_Unsubscribe (msg : Unsubscribe) : Buf Unsubscribe :=
  expect_type MessageType.Unsubscribe;;
  ns ← get_Namespace;
  mret (mkUnsubscribe (unsub_version msg) ns).

Definition put_SubscribeResponse (msg : SubscribeResponse) : Buf unit :=
  put_u8 (enum_to_u8 MessageType.SubscribeResponse);;
  put_u8 (enum_to_u8 (subr_response msg));;
  put_uint 8 (subr_transaction_id msg);;
  put_Namespace (subr_namespace msg).
Definition get_SubscribeResponse : Buf SubscribeResponse :=
  expect_type MessageType.SubscribeResponse;;
  response ← get_u8;
  transaction_id ← get_uint 8;
  ns ← get_Namespace;
  mret (mkSubscribeResponse ns (enum_of_u8 response) transaction_id).

Definition put_SubscribeEnd (msg : SubscribeEnd) : Buf unit :=
  put_u8 (enum_to_u8 MessageType.SubscribeEnd);;
  put_u8 (enum_to_u8 (sube_reason msg));;
  put_Namespace (sube_namespace msg).
Definition get_SubscribeEnd : Buf SubscribeEnd :=
  expect_type MessageType.SubscribeEnd;;
  reason ← get_u8;
  ns ← get_Namespace;
  mret (mkSubscribeEnd ns (enum_of_u8 reason)).

(** ** Publish messages; the readers of the intents accept any type byte *)

Definition put_PublishIntent (msg : PublishIntent) : Buf unit :=
  put_u8 (enum_to_u8 (pi_message_type msg));;
  put_uint 8 (pi_transaction_id msg);;
  put_Namespace (pi_namespace msg);;
  put_vector (pi_payload msg);;
  put_uintVar (pi_media_id msg);;
  put_uintVar (pi_datagram_capable msg).
Definition get_PublishIntent : Buf PublishIntent :=
  msg_type ← get_u8;
  transaction_id ← get_uint 8;
  ns ← get_Namespace;
  payload ← get_vector;
  mid ← get_uintVar;
  capable ← get_uintVar;
  mret (mkPublishIntent (enum_of_u8 msg_type) transaction_id ns payload mid capable).

Definition put_PublishIntentResponse (msg : PublishIntentResponse) : Buf unit :=
  put_u8 (enum_to_u8 (pir_message_type msg));;
  put_Namespace (pir_namespace msg);;
  put_u8 (enum_to_u8 (pir_response msg));;
  put_uint 8 (pir_transaction_id msg).
Definition get_PublishIntentResponse : Buf PublishIntentResponse :=
  msg_type ← get_u8;
  ns ← get_Namespace;
  response ← get_u8;
  transaction_id ← get_uint 8;
  mret (mkPublishIntentResponse (enum_of_u8 msg_type) ns (enum_of_u8 response)
          transaction_id).

Definition put_Header (msg : Header) : Buf unit :=
  put_Name (name msg);;
  put_uintVar (media_id msg);;
  put_uintVar (group_id msg);;
  put_uintVar (object_id msg);;
  put_uintVar (offset_and_fin msg);;
  put_u8 (flags msg).
Definition get_Header : Buf Header :=
  nm ← get_Name;
  mid ← get_uintVar;
  gid ← get_uintVar;
  oid ← get_uintVar;
  off ← get_uintVar;
  fl ← get_u8;
  mret (mkHeader mid nm gid oid off fl).

Definition put_PublishDatagram (msg : PublishDatagram) : Buf unit :=
  put_u8 (enum_to_u8 MessageType.Publish);;
  put_Header (header msg);;
  put_u8 (enum_to_u8 (media_type msg));;
  put_uintVar (media_data_length msg);;
  put_vector (media_data msg).
Definition get_PublishDatagram : Buf PublishDatagram :=
  expect_type MessageType.Publish;;
  h ← get_Header;
  mtype ← get_u8;
  len ← get_uintVar;
  data ← get_vector;
  if Z.of_nat (length data) =? len
  then mret (mkPublishDatagram h (enum_of_u8 mtype) len data)
  else throw LengthException.

Definition put_PublishStream (msg : PublishStream) : Buf unit :=
  put_uintVar (ps_media_data_length msg);;
  put_vector (ps_media_data msg).
Definition get_PublishStream : Buf PublishStream :=
  len ← get_uintVar;
  data ← get_vector;
  if Z.of_nat (length data) =? len
  then mret (mkPublishStream len data) else throw LengthException.

Definition put_PublishIntentEnd (msg : PublishIntentEnd) : Buf unit :=
  put_u8 (enum_to_u8 (pie_message_type msg));;
  put_Namespace (pie_namespace msg);;
  put_vector (pie_payload msg).
Definition get_PublishIntentEnd : Buf PublishIntentEnd :=
  msg_type ← get_u8;
  ns ← get_Namespace;
  payload ← get_vector;
  mret (mkPublishIntentEnd (enum_of_u8 msg_type) ns payload).
End messages.

(** ** Transaction ids

    [uniform_int_distribution(1, 9)] applied to an engine seeded with the
    time: the draw is an input, of which the library guarantees the range. *)
Definition create_transaction_id (draw : Z) : Z := wrap 64 draw.

(** * Wire format *)

Definition name_wire (n : Name) : bytes := reverse (name_bytes n).
Definition ns_wire (ns : Namespace) : bytes := name_wire (_name ns) ++ [_sig_bits ns].

Lemma length_name_wire n : length (name_wire n) = 16%nat.
Proof. unfold name_wire. by rewrite length_reverse. Qed.
Lemma length_ns_wire ns : length (ns_wire ns) = 17%nat.
Proof. unfold ns_wire. by rewrite length_app, length_name_wire. Qed.

(** The wire form of a name is its integer in network order. *)
Lemma name_wire_val n : wf_name n -> name_wire n = be_bytes 16 (name_val n).
Proof.
  intros [Hh Hl]. unfold name_wire, be_bytes. f_equal.
  assert (le_val (name_bytes n) = name_val n) as <-.
  { unfold name_bytes, name_val.
    rewrite le_val_app, length_le_bytes, !le_val_bytes, !wrap_small by done. lia. }
  rewrite <- (le_bytes_val (name_bytes n)) at 1; [done|].
  apply list.Forall_app. split; apply wf_le_bytes.
Qed.

Lemma appends_lift {A} (a : A) (f : A -> Buf unit) b :
  appends (f a) b -> appends (lift (Ret a) ≫= f) b.
Proof. intros H b0. apply H. Qed.

Lemma appends_put_Name_loop n i :
  (i <= 16)%nat -> appends (put_Name_loop i n) (reverse (take i (name_bytes n))).
Proof.
  induction i as [|i IH]; intros Hi; [apply appends_ret|].
  destruct (name_index_lookup n i ltac:(lia)) as (b & E & El).
  rewrite (take_S_r _ _ _ El), reverse_snoc. cbn [put_Name_loop].
  rewrite E. apply appends_lift, (appends_bind _ _ [b]); [apply appends_put_u8|].
  apply IH. lia.
Qed.

Lemma appends_put_Name n : appends (put_Name n) (name_wire n).
Proof. apply (appends_put_Name_loop n 16). lia. Qed.

Lemma get_Name_loop_app d bs rest :
  get_Name_loop (length d) bs (d ++ rest) = (Ret (reverse d ++ bs), rest).
Proof.
  revert bs. induction d as [|x d IH]; intros bs; [done|].
  cbn [length get_Name_loop app]. rewrite bind_get_u8_cons, IH.
  by rewrite reverse_cons, <- app_assoc.
Qed.

(** A short buffer: the bytes that are there are consumed. *)
Lemma get_Name_loop_short i bs d :
  (length d < i)%nat -> get_Name_loop i bs d = (Throw ReadException, []).
Proof.
  revert bs d. induction i as [|i IH]; intros bs d Hd; [lia|].
  destruct d as [|x d]; [done|]. cbn [get_Name_loop]. rewrite bind_get_u8_cons.
  apply IH. simpl in Hd. lia.
Qed.

Section codecs.
Context {T : Target}.

Lemma get_Name_full d rest :
  length d = 16%nat ->
  get_Name (d ++ rest) = (Ret (name_of_bytes (reverse d)), rest).
Proof.
  intros Hd. unfold get_Name. change (Z.to_nat sizeof_Name) with 16%nat.
  rewrite (run_bind_ret _ _ _ rest (reverse d)).
  - unfold lift. by rewrite Name_of_data_ret by (by rewrite length_reverse).
  - rewrite <- Hd, get_Name_loop_app. by rewrite app_nil_r.
Qed.

Lemma get_Name_short d :
  (length d < 16)%nat -> get_Name d = (Throw ReadException, []).
Proof. intros. unfold get_Name. apply run_bind_throw. by apply get_Name_loop_short. Qed.

Lemma appends_put_Namespace ns : appends (put_Namespace ns) (ns_wire ns).
Proof. apply appends_bind; [apply appends_put_Name | apply appends_put_u8]. Qed.

Lemma appends_u64 x : appends (put_uint 8 x) (be_bytes 8 x).
Proof.
  replace (be_bytes 8 x) with (wire_bytes 8 x) by (unfold wire_bytes; by destruct native).
  apply appends_put_uint. unfold is_width. tauto.
Qed.
Lemma parses_u64 x : is_u64 x -> parses (get_uint 8) (be_bytes 8 x) x.
Proof.
  intros. replace (be_bytes 8 x) with (wire_bytes 8 x) by (unfold wire_bytes; by destruct native).
  apply parses_get_uint; [unfold is_width; tauto | done].
Qed.

Lemma parses_expect_type t : parses (expect_type t) [enum_to_u8 t] tt.
Proof.
  eapply parses_bind_last; [apply parses_get_u8|]. simpl. rewrite Z.eqb_refl.
  apply parses_ret.
Qed.

Lemma make_Namespace_id ns :
  wf_namespace ns -> make_Namespace (_name ns) (_sig_bits ns) = Ret ns.
Proof.
  intros Hns. pose proof Hns as (Hn & Hk & _). rewrite make_Namespace_ret by done.
  destruct ns as [n k]. simpl in *. do 2 f_equal.
  apply name_val_inj; auto with words. rewrite name_and_mask_val by (done || lia).
  symmetry. apply (wf_namespace_val _ Hns).
Qed.

Section little_endian.
(** [Name(const uint8_t*, size_t)] copies bytes into words in host order:
    names survive the wire on little-endian hosts only. *)
Context (Hle : native = little).

Lemma parses_Name n : wf_name n -> parses get_Name (name_wire n) n.
Proof.
  intros Hn rest. rewrite get_Name_full by apply length_name_wire.
  unfold name_wire. rewrite reverse_involutive. do 2 f_equal.
  rewrite <- (name_of_bytes_little n Hn) at 2. unfold name_of_bytes. by rewrite Hle.
Qed.

Lemma parses_Namespace ns : wf_namespace ns -> parses get_Namespace (ns_wire ns) ns.
Proof.
  intros Hns. pose proof Hns as (Hn & _).
  eapply parses_bind; [by apply parses_Name|].
  eapply parses_bind_last; [apply parses_get_u8|]. cbv beta.
  rewrite make_Namespace_id by done. apply parses_lift.
Qed.
End little_endian.
End codecs.

#[export] Hint Resolve appends_put_Name appends_put_Namespace appends_u64 : codec.
#[export] Hint Resolve parses_u64 parses_expect_type parses_Name parses_Namespace : codec.

(** * The codec interface

    What a message type promises to the client and the server: a writer that
    appends the wire form of an encodable message, and a reader that consumes
    exactly that form and restores the members which are on the wire. *)

Class Codec (A : Type) := {
  put : A -> Buf unit;
  get : A -> Buf A;
}.

Class LawfulCodec (A : Type) `{Codec A} := {
  encodable : A -> Prop;
  wire : A -> bytes;
  received : A -> A -> A;
  put_wire a : encodable a -> appends (put a) (wire a);
  get_wire old a : encodable a -> parses (get old) (wire a) (received old a);
}.

(** The ranges of the members of a message. *)
Definition is_field (x : Z) : Prop := 0 <= x < 2 ^ 60.
Definition is_payload (d : bytes) : Prop := Z.of_nat (length d) < 2 ^ 16.

Lemma appends_field x : is_field x -> appends (put_uintVar x) (uintVar_wire x).
Proof. intros. apply appends_put_uintVar. unfold is_field in *. lia. Qed.
Lemma parses_field x : is_field x -> parses get_uintVar (uintVar_wire x) x.
Proof. apply parses_uintVar. Qed.
Lemma appends_payload d : is_payload d -> appends (put_vector d) (vector_wire d).
Proof. intros. apply appends_put_vector. unfold is_payload in *. lia. Qed.
#[export] Hint Resolve appends_field parses_field appends_payload : codec.

(** The wire forms. *)
Definition tag_wire (t : MessageType.t) : bytes := [enum_to_u8 t].
Definition enum_wire {E} `{Enum E} (e : E) : bytes := [enum_to_u8 e].

Definition Subscribe_wire (m : Subscribe) : bytes :=
  tag_wire MessageType.Subscribe ++ be_bytes 8 (sub_transaction_id m)
  ++ ns_wire (sub_namespace m) ++ enum_wire (sub_intent m).
Definition Unsubscribe_wire (m : Unsubscribe) : bytes :=
  tag_wire MessageType.Unsubscribe ++ ns_wire (unsub_namespace m).
Definition SubscribeResponse_wire (m : SubscribeResponse) : bytes :=
  tag_wire MessageType.SubscribeResponse ++ enum_wire (subr_response m)
  ++ be_bytes 8 (subr_transaction_id m) ++ ns_wire (subr_namespace m).
Definition SubscribeEnd_wire (m : SubscribeEnd) : bytes :=
  tag_wire MessageType.SubscribeEnd ++ enum_wire (sube_reason m)
  ++ ns_wire (sube_namespace m).
Definition PublishIntent_wire (m : PublishIntent) : bytes :=
  enum_wire (pi_message_type m) ++ be_bytes 8 (pi_transaction_id m)
  ++ ns_wire (pi_namespace m) ++ vector_wire (pi_payload m)
  ++ uintVar_wire (pi_media_id m) ++ uintVar_wire (pi_datagram_capable m).
Definition PublishIntentResponse_wire (m : PublishIntentResponse) : bytes :=
  enum_wire (pir_message_type m) ++ ns_wire (pir_namespace m)
  ++ enum_wire (pir_response m) ++ be_bytes 8 (pir_transaction_id m).
Definition Header_wire (m : Header) : bytes :=
  name_wire (name m) ++ uintVar_wire (media_id m) ++ uintVar_wire (group_id m)
  ++ uintVar_wire (object_id m) ++ uintVar_wire (offset_and_fin m) ++ [flags m].
Definition PublishDatagram_wire (m : PublishDatagram) : bytes :=
  tag_wire MessageType.Publish ++ Header_wire (header m) ++ enum_wire (media_type m)
  ++ uintVar_wire (media_data_length m) ++ vector_wire (media_data m).
Definition PublishStream_wire (m : PublishStream) : bytes :=
  uintVar_wire (ps_media_data_length m) ++ vector_wire (ps_media_data m).
Definition PublishIntentEnd_wire (m : PublishIntentEnd) : bytes :=
  enum_wire (pie_message_type m) ++ ns_wire (pie_namespace m)
  ++ vector_wire (pie_payload m).

(** What a sender must respect for a message to survive the wire. *)
Definition ok_Subscribe (m : Subscribe) : Prop :=
  is_u64 (sub_transaction_id m) /\ wf_namespace (sub_namespace m) /\
  wf_enum (sub_intent m).
Definition ok_Unsubscribe (m : Unsubscribe) : Prop := wf_namespace (unsub_namespace m).
Definition ok_SubscribeResponse (m : SubscribeResponse) : Prop :=
  is_u64 (subr_transaction_id m) /\ wf_namespace (subr_namespace m) /\
  wf_enum (subr_response m).
Definition ok_SubscribeEnd (m : SubscribeEnd) : Prop :=
  wf_namespace (sube_namespace m) /\ wf_enum (sube_reason m).
Definition ok_PublishIntent (m : PublishIntent) : Prop :=
  wf_enum (pi_message_type m) /\ is_u64 (pi_transaction_id m) /\
  wf_namespace (pi_namespace m) /\ is_payload (pi_payload m) /\
  is_field (pi_media_id m) /\ is_field (pi_datagram_capable m).
Definition ok_PublishIntentResponse (m : PublishIntentResponse) : Prop :=
  wf_enum (pir_message_type m) /\ wf_namespace (pir_namespace m) /\
  wf_enum (pir_response m) /\ is_u64 (pir_transaction_id m).
Definition ok_Header (m : Header) : Prop :=
  wf_name (name m) /\ is_field (media_id m) /\ is_field (group_id m) /\
  is_field (object_id m) /\ is_field (offset_and_fin m) /\ is_u8 (flags m).
Definition ok_PublishDatagram (m : PublishDatagram) : Prop :=
  ok_Header (header m) /\ wf_enum (media_type m) /\
  media_data_length m = Z.of_nat (length (media_data m)) /\
  is_payload (media_data m).
Definition ok_PublishStream (m : PublishStream) : Prop :=
  ps_media_data_length m = Z.of_nat (length (ps_media_data m)) /\
  is_payload (ps_media_data m).
Definition ok_PublishIntentEnd (m : PublishIntentEnd) : Prop :=
  wf_enum (pie_message_type m) /\ wf_namespace (pie_namespace m) /\
  is_payload (pie_payload m).

(** A reader and a writer derivation, member after member. *)
Ltac codec_solve :=
  solve [ eauto with codec | unfold is_payload, is_field in *; eauto with codec lia ].
Ltac solve_put :=
  repeat first [ codec_solve | eapply appends_bind ].
Ltac solve_get :=
  repeat first [ codec_solve
               | eapply parses_bind; [codec_solve|]; cbv beta
               | eapply parses_bind_last; [codec_solve|]; cbv beta ].

Section writers.
Context {T : Target}.

Lemma put_Subscribe_wire m : appends (put_Subscribe m) (Subscribe_wire m).
Proof. unfold put_Subscribe, Subscribe_wire. solve_put. Qed.
Lemma put_Unsubscribe_wire m : appends (put_Unsubscribe m) (Unsubscribe_wire m).
Proof. unfold put_Unsubscribe, Unsubscribe_wire. solve_put. Qed.
Lemma put_SubscribeResponse_wire m :
  appends (put_SubscribeResponse m) (SubscribeResponse_wire m).
Proof. unfold put_SubscribeResponse, SubscribeResponse_wire. solve_put. Qed.
Lemma put_SubscribeEnd_wire m : appends (put_SubscribeEnd m) (SubscribeEnd_wire m).
Proof. unfold put_SubscribeEnd, SubscribeEnd_wire. solve_put. Qed.
Lemma put_PublishIntent_wire m :
  ok_PublishIntent m -> appends (put_PublishIntent m) (PublishIntent_wire m).
Proof.
  intros (? & ? & ? & ? & ? & ?). unfold put_PublishIntent, PublishIntent_wire. solve_put.
Qed.
Lemma put_PublishIntentResponse_wire m :
  appends (put_PublishIntentResponse m) (PublishIntentResponse_wire m).
Proof. unfold put_PublishIntentResponse, PublishIntentResponse_wire. solve_put. Qed.
Lemma put_Header_wire m : ok_Header m -> appends (put_Header m) (Header_wire m).
Proof.
  intros (? & ? & ? & ? & ? & ?). unfold put_Header, Header_wire. solve_put.
Qed.
Lemma put_PublishDatagram_wire m :
  ok_PublishDatagram m -> appends (put_PublishDatagram m) (PublishDatagram_wire m).
Proof.
  intros (? & ? & E & ?). unfold put_PublishDatagram, PublishDatagram_wire. rewrite E.
  pose proof (put_Header_wire (header m)).
  assert (is_field (Z.of_nat (length (media_data m)))) by (unfold is_payload, is_field in *; lia).
  solve_put.
Qed.
Lemma put_PublishStream_wire m :
  ok_PublishStream m -> appends (put_PublishStream m) (PublishStream_wire m).
Proof.
  intros (E & ?). unfold put_PublishStream, PublishStream_wire. rewrite E.
  assert (is_field (Z.of_nat (length (ps_media_data m)))) by (unfold is_payload, is_field in *; lia).
  solve_put.
Qed.
Lemma put_PublishIntentEnd_wire m :
  ok_PublishIntentEnd m -> appends (put_PublishIntentEnd m) (PublishIntentEnd_wire m).
Proof.
  intros (? & ? & ?). unfold put_PublishIntentEnd, PublishIntentEnd_wire. solve_put.
Qed.
End writers.

Section readers.
Context {T : Target} (Hle : native = little).

(** Reads the object built from the members of [m], its enumerations as the
    two casts leave them. *)
Ltac solve_get_as m obj :=
  let E := fresh "E" in
  assert (obj = m) as E by (rewrite ?enum_roundtrip by done; by destruct m);
  match goal with |- parses ?p ?w _ => apply (eq_rect obj (parses p w)); [|exact E] end;
  solve_get.

Lemma get_Subscribe_wire old m :
  ok_Subscribe m ->
  parses (get_Subscribe old) (Subscribe_wire m)
    (mkSubscribe (sub_version old) (sub_transaction_id m) (sub_namespace m)
       (sub_intent m)).
Proof.
  intros (? & ? & ?). unfold get_Subscribe, Subscribe_wire.
  rewrite <- (enum_roundtrip (sub_intent m)) at 2 by done. solve_get.
Qed.

Lemma get_Unsubscribe_wire old m :
  ok_Unsubscribe m ->
  parses (get_Unsubscribe old) (Unsubscribe_wire m)
    (mkUnsubscribe (unsub_version old) (unsub_namespace m)).
Proof.
  intros Hm. unfold ok_Unsubscribe in Hm. unfold get_Unsubscribe, Unsubscribe_wire.
  solve_get.
Qed.

Lemma get_SubscribeResponse_wire m :
  ok_SubscribeResponse m ->
  parses get_SubscribeResponse (SubscribeResponse_wire m) m.
Proof.
  intros (? & ? & ?). unfold get_SubscribeResponse, SubscribeResponse_wire.
  solve_get_as m (mkSubscribeResponse (subr_namespace m)
    (enum_of_u8 (enum_to_u8 (subr_response m))) (subr_transaction_id m)).
Qed.

Lemma get_SubscribeEnd_wire m :
  ok_SubscribeEnd m -> parses get_SubscribeEnd (SubscribeEnd_wire m) m.
Proof.
  intros (? & ?). unfold get_SubscribeEnd, SubscribeEnd_wire.
  solve_get_as m (mkSubscribeEnd (sube_namespace m)
    (enum_of_u8 (enum_to_u8 (sube_reason m)))).
Qed.

Lemma get_PublishIntent_wire m :
  ok_PublishIntent m -> parses get_PublishIntent (PublishIntent_wire m) m.
Proof.
  intros (? & ? & ? & ? & ? & ?). unfold get_PublishIntent, PublishIntent_wire.
  solve_get_as m (mkPublishIntent (enum_of_u8 (enum_to_u8 (pi_message_type m)))
    (pi_transaction_id m) (pi_namespace m) (pi_payload m) (pi_media_id m)
    (pi_datagram_capable m)).
Qed.

Lemma get_PublishIntentResponse_wire m :
  ok_PublishIntentResponse m ->
  parses get_PublishIntentResponse (PublishIntentResponse_wire m) m.
Proof.
  intros (? & ? & ? & ?). unfold get_PublishIntentResponse, PublishIntentResponse_wire.
  solve_get_as m (mkPublishIntentResponse
    (enum_of_u8 (enum_to_u8 (pir_message_type m))) (pir_namespace m)
    (enum_of_u8 (enum_to_u8 (pir_response m))) (pir_transaction_id m)).
Qed.

Lemma get_Header_wire m : ok_Header m -> parses get_Header (Header_wire m) m.
Proof.
  intros (? & ? & ? & ? & ? & ?). unfold get_Header, Header_wire.
  solve_get_as m (mkHeader (media_id m) (name m) (group_id m) (object_id m)
    (offset_and_fin m) (flags m)).
Qed.

Lemma get_PublishDatagram_wire m :
  ok_PublishDatagram m -> parses get_PublishDatagram (PublishDatagram_wire m) m.
Proof.
  intros (Hh & ? & E & Hd). unfold get_PublishDatagram, PublishDatagram_wire.
  pose proof (get_Header_wire _ Hh). rewrite E.
  assert (is_field (Z.of_nat (length (media_data m)))) by (unfold is_payload, is_field in *; lia).
  repeat (eapply parses_bind; [codec_solve|]; cbv beta).
  eapply parses_bind_last; [codec_solve|]; cbv beta.
  rewrite Z.eqb_refl, <- E, enum_roundtrip by done. destruct m. apply parses_ret.
Qed.

Lemma get_PublishStream_wire m :
  ok_PublishStream m -> parses get_PublishStream (PublishStream_wire m) m.
Proof.
  intros (E & Hd). unfold get_PublishStream, PublishStream_wire. rewrite E.
  assert (is_field (Z.of_nat (length (ps_media_data m)))) by (unfold is_payload, is_field in *; lia).
  eapply parses_bind; [codec_solve|]; cbv beta.
  eapply parses_bind_last; [codec_solve|]; cbv beta.
  rewrite Z.eqb_refl, <- E. destruct m. apply parses_ret.
Qed.

Lemma get_PublishIntentEnd_wire m :
  ok_PublishIntentEnd m -> parses get_PublishIntentEnd (PublishIntentEnd_wire m) m.
Proof.
  intros (? & ? & ?). unfold get_PublishIntentEnd, PublishIntentEnd_wire.
  solve_get_as m (mkPublishIntentEnd (enum_of_u8 (enum_to_u8 (pie_message_type m)))
    (pie_namespace m) (pie_payload m)).
Qed.
End readers.

(** ** Instances *)

Class LittleEndian {T : Target} : Prop := native_little : native = little.
#[export] Instance strict_little_le : @LittleEndian strict_little := eq_refl.
#[export] Instance x86_64_le : @LittleEndian x86_64 := eq_refl.

Section instances.
Context {T : Target} `{!LittleEndian}.

#[export] Instance Subscribe_codec : Codec Subscribe :=
  {| put := put_Subscribe; get := get_Subscribe |}.
#[export] Program Instance Subscribe_lawful : LawfulCodec Subscribe :=
  {| encodable := ok_Subscribe; wire := Subscribe_wire;
     received := fun old m => mkSubscribe (sub_version old)
       (sub_transaction_id m) (sub_namespace m) (sub_intent m) |}.
Next Obligation. intros. apply put_Subscribe_wire. Qed.
Next Obligation. intros. by apply get_Subscribe_wire. Qed.

#[export] Instance Unsubscribe_codec : Codec Unsubscribe :=
  {| put := put_Unsubscribe; get := get_Unsubscribe |}.
#[export] Program Instance Unsubscribe_lawful : LawfulCodec Unsubscribe :=
  {| encodable := ok_Unsubscribe; wire := Unsubscribe_wire;
     received := fun old m => mkUnsubscribe (unsub_version old) (unsub_namespace m) |}.
Next Obligation. intros. apply put_Unsubscribe_wire. Qed.
Next Obligation. intros. by apply get_Unsubscribe_wire. Qed.

#[export] Instance SubscribeResponse_codec : Codec SubscribeResponse :=
  {| put := put_SubscribeResponse; get := fun _ => get_SubscribeResponse |}.
#[export] Program Instance SubscribeResponse_lawful : LawfulCodec SubscribeResponse :=
  {| encodable := ok_SubscribeResponse; wire := SubscribeResponse_wire;
     received := fun _ m => m |}.
Next Obligation. intros. apply put_SubscribeResponse_wire. Qed.
Next Obligation. intros. by apply get_SubscribeResponse_wire. Qed.

#[export] Instance SubscribeEnd_codec : Codec SubscribeEnd :=
  {| put := put_SubscribeEnd; get := fun _ => get_SubscribeEnd |}.
#[export] Program Instance SubscribeEnd_lawful : LawfulCodec SubscribeEnd :=
  {| encodable := ok_SubscribeEnd; wire := SubscribeEnd_wire;
     received := fun _ m => m |}.
Next Obligation. intros. apply put_SubscribeEnd_wire. Qed.
Next Obligation. intros. by apply get_SubscribeEnd_wire. Qed.

#[export] Instance PublishIntent_codec : Codec PublishIntent :=
  {| put := put_PublishIntent; get := fun _ => get_PublishIntent |}.
#[export] Program Instance PublishIntent_lawful : LawfulCodec PublishIntent :=
  {| encodable := ok_PublishIntent; wire := PublishIntent_wire;
     received := fun _ m => m |}.
Next Obligation. intros. by apply put_PublishIntent_wire. Qed.
Next Obligation. intros. by apply get_PublishIntent_wire. Qed.

#[export] Instance PublishIntentResponse_codec : Codec PublishIntentResponse :=
  {| put := put_PublishIntentResponse; get := fun _ => get_PublishIntentResponse |}.
#[export] Program Instance PublishIntentResponse_lawful :
    LawfulCodec PublishIntentResponse :=
  {| encodable := ok_PublishIntentResponse; wire := PublishIntentResponse_wire;
     received := fun _ m => m |}.
Next Obligation. intros. apply put_PublishIntentResponse_wire. Qed.
Next Obligation. intros. by apply get_PublishIntentResponse_wire. Qed.

#[export] Instance PublishDatagram_codec : Codec PublishDatagram :=
  {| put := put_PublishDatagram; get := fun _ => get_PublishDatagram |}.
#[export] Program Instance PublishDatagram_lawful : LawfulCodec PublishDatagram :=
  {| encodable := ok_PublishDatagram; wire := PublishDatagram_wire;
     received := fun _ m => m |}.
Next Obligation. intros. by apply put_PublishDatagram_wire. Qed.
Next Obligation. intros. by apply get_PublishDatagram_wire. Qed.

#[export] Instance PublishStream_codec : Codec PublishStream :=
  {| put := put_PublishStream; get := fun _ => get_PublishStream |}.
#[export] Program Instance PublishStream_lawful : LawfulCodec PublishStream :=
  {| encodable := ok_PublishStream; wire := PublishStream_wire;
     received := fun _ m => m |}.
Next Obligation. intros. by apply put_PublishStream_wire. Qed.
Next Obligation. intros. by apply get_PublishStream_wire. Qed.

#[export] Instance PublishIntentEnd_codec : Codec PublishIntentEnd :=
  {| put := put_PublishIntentEnd; get := fun _ => get_PublishIntentEnd |}.
#[export] Program Instance PublishIntentEnd_lawful : LawfulCodec PublishIntentEnd :=
  {| encodable := ok_PublishIntentEnd; wire := PublishIntentEnd_wire;
     received := fun _ m => m |}.
Next Obligation. intros. by apply put_PublishIntentEnd_wire. Qed.
Next Obligation. intros. by apply get_PublishIntentEnd_wire. Qed.
End instances.

(** The bytes a writer puts into a fresh buffer. *)
Definition encoded (m : Buf unit) : bytes := snd (m []).

Lemma encoded_wire (m : Buf unit) w : appends m w -> m [] = (Ret tt, w) /\ encoded m = w.
Proof. intros H. pose proof (H []) as E. unfold encoded. by rewrite E. Qed.

(** The round trip of every message type with a lawful codec. *)
Lemma codec_roundtrip `{LawfulCodec A} (old a : A) rest :
  encodable a ->
  fst (put a []) = Ret tt /\
  get old (encoded (put a) ++ rest) = (Ret (received old a), rest).
Proof.
  intros Ha. destruct (encoded_wire _ _ (put_wire a Ha)) as [E ->]. rewrite E.
  split; [done|]. by apply get_wire.
Qed.

(** ** Rejected messages *)

Lemma expect_type_wrong t x b :
  x <> enum_to_u8 t -> expect_type t (x :: b) = (Throw MessageTypeException, b).
Proof.
  intros Hx. unfold expect_type. rewrite bind_get_u8_cons.
  by rewrite (proj2 (Z.eqb_neq _ _)).
Qed.

Lemma expect_type_bind_wrong {A} t x b (f : unit -> Buf A) :
  x <> enum_to_u8 t -> (expect_type t ≫= f) (x :: b) = (Throw MessageTypeException, b).
Proof. intros. by apply run_bind_throw, expect_type_wrong. Qed.

Lemma expect_type_bind_nil {A} t (f : unit -> Buf A) :
  (expect_type t ≫= f) [] = (Throw ReadException, []).
Proof. done. Qed.

Lemma expect_type_bind {A} t b (f : unit -> Buf A) :
  (expect_type t ≫= f) (enum_to_u8 t :: b) = f tt b.
Proof. rewrite (run_bind_ret _ _ _ b tt); [done|]. apply (parses_expect_type t b). Qed.

(** ** Reading a subscription from any bytes *)

Section total.
Context {T : Target}.

Lemma get_u64_bind_short {A} (f : Z -> Buf A) d :
  wf_bytes d -> (length d < 8)%nat -> (get_uint 8 ≫= f) d = (Throw ReadException, d).
Proof.
  intros Hd Hl. apply run_bind_throw. rewrite get_uint_spec by (done || unfold is_width; tauto).
  by rewrite (proj2 (Z.ltb_lt _ _)) by lia.
Qed.

Lemma get_u64_bind {A} (f : Z -> Buf A) d :
  wf_bytes d -> (8 <= length d)%nat ->
  (get_uint 8 ≫= f) d = f (be_val (take 8 d)) (drop 8 d).
Proof.
  intros Hd Hl. apply run_bind_ret. rewrite get_uint_spec by (done || unfold is_width; tauto).
  rewrite (proj2 (Z.ltb_ge _ _)) by lia. do 2 f_equal. unfold wire_val.
  rewrite length_take, Nat.min_l by lia. by destruct native.
Qed.

Lemma get_Name_bind_short {A} (f : Name -> Buf A) d :
  (length d < 16)%nat -> (get_Name ≫= f) d = (Throw ReadException, []).
Proof. intros. by apply run_bind_throw, get_Name_short. Qed.

Lemma get_Name_bind {A} (f : Name -> Buf A) d :
  (16 <= length d)%nat ->
  (get_Name ≫= f) d = f (name_of_bytes (reverse (take 16 d))) (drop 16 d).
Proof.
  intros Hl. apply run_bind_ret. rewrite <- (take_drop 16 d) at 1.
  apply get_Name_full. rewrite length_take. lia.
Qed.

(** The namespace at the front of [d], when its 17 bytes are there. *)
Definition namespace_at (d : bytes) : result Namespace :=
  make_Namespace (name_of_bytes (reverse (take 16 d))) (nth 16 d 0).

Lemma get_Namespace_bind {A} (f : Namespace -> Buf A) d :
  (17 <= length d)%nat ->
  fst ((get_Namespace ≫= f) d)
  = ns ← namespace_at d; fst (f ns (drop 17 d)).
Proof.
  intros Hl. unfold get_Namespace, namespace_at.
  assert (nth 16 d 0 :: drop 17 d = drop 16 d) as E.
  { do 16 (destruct d as [|? d]; [simpl in Hl; lia|]). simpl.
    destruct d; [simpl in Hl; lia|]. simpl. by rewrite drop_0. }
  unfold mbind at 1, M_bind at 1. rewrite get_Name_bind by lia.
  rewrite <- E, bind_get_u8_cons. unfold lift.
  destruct (make_Namespace _ _); reflexivity.
Qed.

Lemma get_Namespace_bind_short {A} (f : Namespace -> Buf A) d :
  (length d < 17)%nat -> fst ((get_Namespace ≫= f) d) = Throw ReadException.
Proof.
  intros Hl. assert (exists d', get_Namespace d = (Throw ReadException, d')) as [d' E].
  { unfold get_Namespace. destruct (decide (length d < 16)%nat).
    - exists []. by rewrite get_Name_bind_short.
    - rewrite get_Name_bind by lia.
      rewrite (nil_length_inv (drop 16 d)) by (rewrite length_drop; lia).
      by exists []. }
  by rewrite (run_bind_throw _ _ _ _ _ E).
Qed.
End total.

(** What becomes of a received buffer. *)
Definition Subscribe_of_bytes {T : Target} (version : Z) (b : bytes) : result Subscribe :=
  match b with
  | [] => Throw ReadException
  | t :: d =>
      if t =? 1 then
        if (length d <? 25)%nat then Throw ReadException
        else
          ns ← namespace_at (drop 8 d);
          match drop 25 d with
          | [] => Throw ReadException
          | i :: _ =>
              mret (mkSubscribe version (be_val (take 8 d)) ns (enum_of_u8 i))
          end
      else Throw MessageTypeException
  end.

Lemma get_Subscribe_total {T : Target} old b :
  wf_bytes b ->
  fst (get_Subscribe old b) = Subscribe_of_bytes (sub_version old) b.
Proof.
  intros Hb. unfold get_Subscribe, Subscribe_of_bytes.
  destruct b as [|t d]; [done|]. apply list.Forall_cons in Hb as [_ Hd].
  change 1 with (enum_to_u8 MessageType.Subscribe).
  destruct (Z.eqb_spec t (enum_to_u8 MessageType.Subscribe)) as [->|Ht];
    [|by rewrite expect_type_bind_wrong].
  rewrite expect_type_bind. destruct (decide (length d < 8)%nat).
  { rewrite get_u64_bind_short by done. by rewrite (proj2 (Nat.ltb_lt _ _)) by lia. }
  rewrite get_u64_bind by (done || lia). destruct (decide (length d < 25)%nat).
  { rewrite get_Namespace_bind_short by (rewrite length_drop; lia).
    by rewrite (proj2 (Nat.ltb_lt _ _)). }
  rewrite get_Namespace_bind by (rewrite length_drop; lia).
  rewrite (proj2 (Nat.ltb_ge _ _)), drop_drop by lia. change (8 + 17)%nat with 25%nat.
  destruct (namespace_at (drop 8 d)); [|done..]. simpl.
  by destruct (drop 25 d).
Qed.

(** * Properties *)

(** C24: on a little-endian host every subscription message whose namespace is
    shorter than 128 bits survives the wire: its reader, run on the bytes its writer made and anything after them,
    returns the message and leaves the rest (the unused [version] member keeps
    the receiver's value). *)
Theorem subscription_messages_roundtrip `{LittleEndian} s u r e old_s old_u rest :
  ok_Subscribe s -> ok_Unsubscribe u -> ok_SubscribeResponse r -> ok_SubscribeEnd e ->
  get_Subscribe old_s (encoded (put_Subscribe s) ++ rest)
    = (Ret (mkSubscribe (sub_version old_s) (sub_transaction_id s) (sub_namespace s)
              (sub_intent s)), rest) /\
  get_Unsubscribe old_u (encoded (put_Unsubscribe u) ++ rest)
    = (Ret (mkUnsubscribe (unsub_version old_u) (unsub_namespace u)), rest) /\
  get_SubscribeResponse (encoded (put_SubscribeResponse r) ++ rest) = (Ret r, rest) /\
  get_SubscribeEnd (encoded (put_SubscribeEnd e) ++ rest) = (Ret e, rest).
Proof.
  intros Hs Hu Hr He. split; [by destruct (codec_roundtrip old_s s rest) as [_ ?]|].
  split; [by destruct (codec_roundtrip old_u u rest) as [_ ?]|].
  split; [by destruct (codec_roundtrip r r rest) as [_ ?] | by destruct (codec_roundtrip e e rest) as [_ ?]].
Qed.

Lemma subscription_messages_roundtrip_witness :
  let ns := mkNamespace (mkName 0x1000 0x2000) 125 in
  let s := mkSubscribe 1 0x1000 ns SubscribeIntent.wait_up in
  get_Subscribe (T := strict_little) s (encoded (put_Subscribe (T := strict_little) s) ++ [7])
    = (Ret s, [7]) /\
  get_Unsubscribe (T := strict_little) (mkUnsubscribe 1 ns)
    (encoded (put_Unsubscribe (mkUnsubscribe 1 ns)) ++ [7])
    = (Ret (mkUnsubscribe 1 ns), [7]) /\
  get_SubscribeResponse (T := strict_little)
    (encoded (put_SubscribeResponse (T := strict_little)
       (mkSubscribeResponse ns SubscribeStatus.Ok 5)) ++ [7])
    = (Ret (mkSubscribeResponse ns SubscribeStatus.Ok 5), [7]) /\
  get_SubscribeEnd (T := strict_little)
    (encoded (put_SubscribeEnd (mkSubscribeEnd ns SubscribeStatus.TimeOut)) ++ [7])
    = (Ret (mkSubscribeEnd ns SubscribeStatus.TimeOut), [7]).
Proof.
  set (ns := mkNamespace (mkName 0x1000 0x2000) 125).
  apply (subscription_messages_roundtrip (T := strict_little)
    (mkSubscribe 1 0x1000 ns SubscribeIntent.wait_up) (mkUnsubscribe 1 ns)
    (mkSubscribeResponse ns SubscribeStatus.Ok 5) (mkSubscribeEnd ns SubscribeStatus.TimeOut)
    (mkSubscribe 1 0x1000 ns SubscribeIntent.wait_up) (mkUnsubscribe 1 ns) [7]);
    repeat split; vm_compute; congruence.
Defined.

(** C23: on a little-endian host every publish message whose fields are below
    2^60, whose payload is shorter than 2^16 and whose namespace is shorter than
    128 bits survives the wire. *)
Theorem publish_messages_roundtrip `{LittleEndian} d s i r e rest :
  ok_PublishDatagram d -> ok_PublishStream s -> ok_PublishIntent i ->
  ok_PublishIntentResponse r -> ok_PublishIntentEnd e ->
  get_PublishDatagram (encoded (put_PublishDatagram d) ++ rest) = (Ret d, rest) /\
  get_PublishStream (encoded (put_PublishStream s) ++ rest) = (Ret s, rest) /\
  get_PublishIntent (encoded (put_PublishIntent i) ++ rest) = (Ret i, rest) /\
  get_PublishIntentResponse (encoded (put_PublishIntentResponse r) ++ rest) = (Ret r, rest) /\
  get_PublishIntentEnd (encoded (put_PublishIntentEnd e) ++ rest) = (Ret e, rest).
Proof.
  intros Hd Hs Hi Hr He. split; [by destruct (codec_roundtrip d d rest) as [_ ?]|].
  split; [by destruct (codec_roundtrip s s rest) as [_ ?]|]. split; [by destruct (codec_roundtrip i i rest) as [_ ?]|].
  split; [by destruct (codec_roundtrip r r rest) as [_ ?] | by destruct (codec_roundtrip e e rest) as [_ ?]].
Qed.

Lemma publish_messages_roundtrip_witness :
  let ns := mkNamespace (mkName 0x1000 0x2000) 125 in
  let h := mkHeader 0x1000 (mkName 0x1000 0x2000) 0x0100 0x0010 1 0 in
  let d := mkPublishDatagram h MediaType.Text 3 [1; 2; 3] in
  let s := mkPublishStream 3 [1; 2; 3] in
  let i := mkPublishIntent MessageType.PublishIntent 0x1000 ns [1; 2] 0x100 0 in
  let r := mkPublishIntentResponse MessageType.PublishIntentResponse ns Response.Ok 9 in
  let e := mkPublishIntentEnd MessageType.PublishIntentEnd ns [] in
  get_PublishDatagram (T := strict_little) (encoded (put_PublishDatagram d) ++ [9]) = (Ret d, [9]) /\
  get_PublishStream (encoded (put_PublishStream s) ++ [9]) = (Ret s, [9]) /\
  get_PublishIntent (T := strict_little)
    (encoded (put_PublishIntent (T := strict_little) i) ++ [9]) = (Ret i, [9]) /\
  get_PublishIntentResponse (T := strict_little)
    (encoded (put_PublishIntentResponse (T := strict_little) r) ++ [9]) = (Ret r, [9]) /\
  get_PublishIntentEnd (T := strict_little) (encoded (put_PublishIntentEnd e) ++ [9]) = (Ret e, [9]).
Proof.
  cbv zeta. apply (publish_messages_roundtrip (T := strict_little)
    (mkPublishDatagram (mkHeader 0x1000 (mkName 0x1000 0x2000) 0x0100 0x0010 1 0)
       MediaType.Text 3 [1; 2; 3]));
    repeat split; vm_compute; congruence.
Defined.

(** A name goes on the wire as its 128-bit integer, most significant byte
    first, on every host; a big-endian host reads each half reversed, because
    the constructor from bytes copies into words in host order. *)
Theorem name_wire_order n b :
  wf_name n ->
  put_Name n b = (Ret tt, b ++ be_bytes 16 (name_val n)) /\
  (forall rest, get_Name (T := strict_little) (be_bytes 16 (name_val n) ++ rest) = (Ret n, rest)) /\
  (forall rest, get_Name (T := strict_big) (be_bytes 16 (name_val n) ++ rest)
     = (Ret (mkName (le_val (be_bytes 8 (_hi n))) (le_val (be_bytes 8 (_low n)))), rest)).
Proof.
  intros Hn. rewrite <- name_wire_val by done. split; [by apply appends_put_Name|].
  split; intros rest; [by apply (parses_Name (T := strict_little))|].
  rewrite get_Name_full by apply length_name_wire. unfold name_wire.
  rewrite reverse_involutive. unfold name_of_bytes, name_bytes. simpl native. cbv iota.
  by rewrite take_app_length', drop_app_length' by (by rewrite length_le_bytes).
Qed.

Lemma name_wire_order_witness :
  let n := mkName 0x0102030405060708 0x090a0b0c0d0e0f10 in
  put_Name n [] = (Ret tt, [] ++ be_bytes 16 (name_val n)) /\
  (forall rest, get_Name (T := strict_little) (be_bytes 16 (name_val n) ++ rest) = (Ret n, rest)) /\
  (forall rest, get_Name (T := strict_big) (be_bytes 16 (name_val n) ++ rest)
     = (Ret (mkName (le_val (be_bytes 8 (_hi n))) (le_val (be_bytes 8 (_low n)))), rest)).
Proof.
  apply (name_wire_order (mkName 0x0102030405060708 0x090a0b0c0d0e0f10) []).
  split; vm_compute; split; congruence.
Defined.

(** The reader of [Subscribe] on any received bytes: an empty or short
    buffer throws [ReadException], another type byte [MessageTypeException];
    otherwise the fields are at their places, and the only undefined behaviour
    comes from a namespace length of 128 or more. *)
Theorem subscribe_read_total {T : Target} old b :
  wf_bytes b ->
  fst (get_Subscribe old b) = Subscribe_of_bytes (sub_version old) b /\
  (nth 25 b 0 < 128 -> safe (fst (get_Subscribe old b))).
Proof.
  intros Hb. rewrite get_Subscribe_total by done. split; [done|].
  unfold safe, Subscribe_of_bytes. intros Hk. destruct b as [|t d]; [done|].
  apply list.Forall_cons in Hb as [_ Hd]. simpl in Hk.
  case_match; [|done]. destruct (Nat.ltb_spec (length d) 25); [done|].
  unfold namespace_at.
  assert (nth 16 (drop 8 d) 0 = nth 24 d 0) as ->.
  { do 8 (destruct d as [|? d]; [simpl in *; lia|]). simpl. by rewrite drop_0. }
  assert (0 <= nth 24 d 0) as Hk0.
  { destruct (nth_in_or_default 24 d 0) as [Hin| ->]; [|done].
    rewrite list.Forall_forall in Hd. apply Hd. by apply list_elem_of_In. }
  rewrite make_Namespace_ret by lia. simpl. by destruct (drop 25 d).
Qed.

Lemma subscribe_read_total_witness :
  let old := mkSubscribe 0 0 (mkNamespace (mkName 0 0) 0) SubscribeIntent.immediate in
  fst (get_Subscribe (T := strict_little) old [1; 2; 3])
  = Subscribe_of_bytes (T := strict_little) 0 [1; 2; 3] /\
  (nth 25 [1; 2; 3] 0 < 128 ->
   safe (fst (get_Subscribe (T := strict_little) old [1; 2; 3]))).
Proof.
  apply (subscribe_read_total (T := strict_little)
    (mkSubscribe 0 0 (mkNamespace (mkName 0 0) 0) SubscribeIntent.immediate) [1; 2; 3]).
  repeat constructor; vm_compute; congruence.
Defined.

(** The readers that check the type byte refuse every other message, and
    take nothing but that byte. *)
Theorem wrong_type_refused {T : Target} old_s old_u x b :
  (x <> 1 -> get_Subscribe old_s (x :: b) = (Throw MessageTypeException, b)) /\
  (x <> 2 -> get_SubscribeResponse (x :: b) = (Throw MessageTypeException, b)) /\
  (x <> 3 -> get_SubscribeEnd (x :: b) = (Throw MessageTypeException, b)) /\
  (x <> 4 -> get_Unsubscribe old_u (x :: b) = (Throw MessageTypeException, b)) /\
  (x <> 5 -> get_PublishDatagram (x :: b) = (Throw MessageTypeException, b)).
Proof. repeat split; intros; by apply expect_type_bind_wrong. Qed.

(** A datagram whose payload is 2^16 bytes or longer (and below 2^60) is
    written without error and refused by the reader with [LengthException],
    as the vector comes back shorter than the announced length. *)
Theorem long_datagram_refused `{LittleEndian} m rest :
  ok_Header (header m) ->
  media_data_length m = Z.of_nat (length (media_data m)) ->
  2 ^ 16 <= Z.of_nat (length (media_data m)) < 2 ^ 60 ->
  fst (put_PublishDatagram m []) = Ret tt /\
  fst (get_PublishDatagram (encoded (put_PublishDatagram m) ++ rest)) = Throw LengthException.
Proof.
  intros Hh E Hl. assert (appends (put_PublishDatagram m) (PublishDatagram_wire m)) as Hw.
  { unfold put_PublishDatagram, PublishDatagram_wire. rewrite E.
    pose proof (put_Header_wire _ Hh).
    assert (appends (put_vector (media_data m)) (vector_wire (media_data m))).
    { apply appends_put_vector. lia. }
    assert (is_field (Z.of_nat (length (media_data m)))) by (unfold is_field; lia).
    solve_put. }
  destruct (encoded_wire _ _ Hw) as [-> ->]. split; [done|].
  unfold get_PublishDatagram, PublishDatagram_wire, tag_wire, enum_wire.
  rewrite <- !app_assoc, E. cbn [app]. rewrite expect_type_bind.
  rewrite (run_bind_ret _ _ _ _ _ (get_Header_wire native_little _ Hh _)).
  rewrite bind_get_u8_cons.
  rewrite (run_bind_ret _ _ _ _ _ (parses_uintVar (Z.of_nat (length (media_data m))) ltac:(lia) _)).
  rewrite (run_bind_ret _ _ _ _ _ (get_vector_wire (media_data m) rest ltac:(lia))).
  rewrite (proj2 (Z.eqb_neq _ _)); [done|].
  rewrite length_take. unfold wrap. lia.
Qed.

Lemma long_datagram_refused_witness :
  let m := mkPublishDatagram (mkHeader 0 (mkName 0 1) 0 0 1 0) MediaType.Text
             (Z.of_nat (length (repeat 7 (Z.to_nat 65536)))) (repeat 7 (Z.to_nat 65536)) in
  fst (put_PublishDatagram m []) = Ret tt /\
  fst (get_PublishDatagram (T := strict_little) (encoded (put_PublishDatagram m) ++ []))
  = Throw LengthException.
Proof.
  apply (long_datagram_refused (T := strict_little)
    (mkPublishDatagram (mkHeader 0 (mkName 0 1) 0 0 1 0) MediaType.Text
       (Z.of_nat (length (repeat 7 (Z.to_nat 65536)))) (repeat 7 (Z.to_nat 65536)))).
  - repeat split; vm_compute; congruence.
  - reflexivity.
  - vm_compute. split; congruence.
Defined.

(** A received publish message that ends right after its name makes the
    reader take the front of an empty vector, which is undefined behaviour
    rather than a [ReadException]. *)
Theorem datagram_cut_after_name_undefined {T : Target} d :
  length d = 16%nat ->
  fst (get_PublishDatagram (enum_to_u8 MessageType.Publish :: d)) = Undefined.
Proof.
  intros Hd. unfold get_PublishDatagram. rewrite expect_type_bind.
  rewrite (run_bind_undefined _ _ _ []); [done|]. unfold get_Header.
  rewrite get_Name_bind by lia. by rewrite drop_ge by lia.
Qed.

Lemma datagram_cut_after_name_undefined_witness :
  fst (get_PublishDatagram (T := x86_64)
         (enum_to_u8 MessageType.Publish :: repeat 1 16)) = Undefined.
Proof. apply (datagram_cut_after_name_undefined (T := x86_64) (repeat 1 16)). reflexivity. Defined.
