(* ===== verification/Transport.v ===== *)
(** * The transport, as the library uses it

    The transport (qtransport) is a git submodule whose sources are not part of
    the repository: everything it decides is a parameter.  [ITransport] names
    the operations the client and the server call, and the enumerators of its
    status type they compare with. *)

From S2P Require Export Encode StdMap.

(** What [enqueue] is given. *)
Record Packet := mkPacket {
  pkt_context_id : Z;
  pkt_stream_id : Z;
  pkt_data : bytes;
}.

#[export] Instance Packet_eq_dec : EqDecision Packet.
Proof. solve_decision. Defined.

Class ITransport := {
  (** [qtransport::TransportStatus], with three of its enumerators *)
  TransportStatus : Type;
  #[global] TransportStatus_eq_dec :: EqDecision TransportStatus;
  Ready : TransportStatus;
  Connecting : TransportStatus;
  Disconnected : TransportStatus;
  Ready_not_Connecting : Ready <> Connecting;
  Ready_not_Disconnected : Ready <> Disconnected;
  (** the answer to the n-th call of [status()] *)
  status : nat -> TransportStatus;
  (** the context [start()] returns, and the stream [createStream] opens in it *)
  start : Z;
  createStream : Z -> bool -> Z;
  (** does [enqueue] answer [TransportError::None], after earlier packets *)
  enqueue_none : list Packet -> Packet -> bool;
}.

(** The transport of the unit tests (test/fake_transport.h). *)
Inductive FakeStatus := FakeReady | FakeConnecting | FakeDisconnected.
#[export] Instance FakeStatus_eq_dec : EqDecision FakeStatus.
Proof. solve_decision. Defined.

Definition FakeTransport : ITransport.
Proof.
  refine {|
    TransportStatus := FakeStatus;
    Ready := FakeReady;
    Connecting := FakeConnecting;
    Disconnected := FakeDisconnected;
    status := fun _ => FakeReady;
    start := 0x1000;
    createStream := fun _ _ => 0x2000;
    enqueue_none := fun _ _ => true;
  |}; done.
Defined.

(** [MessageBuffer msg; msg << object; ... msg.get()] *)
Definition serialize (m : Buf unit) : result bytes :=
  match m [] with
  | (Ret _, b) => Ret b
  | (Throw e, _) => Throw e
  | (Undefined, _) => Undefined
  end.

Lemma serialize_encoded m :
  fst (m []) = Ret tt -> serialize m = Ret (encoded m).
Proof.
  unfold serialize, encoded. destruct (m []) as [[[]|e|] b]; simpl; [done|done|done].
Qed.

Lemma serialize_wire m w : appends m w -> serialize m = Ret w.
Proof. intros H. unfold serialize. by rewrite (H []). Qed.

(** A loop of [status()] calls: [for (; status() == Connecting; body)], where
    the body makes [polls - 1] further calls.  The result is the index of the
    next call; [None] when the loop has not ended within the fuel. *)
Fixpoint wait_while_connecting `{ITransport} (polls fuel n : nat) : option nat :=
  match fuel with
  | O => None
  | S fuel' =>
      if decide (status n = Connecting)
      then wait_while_connecting polls fuel' (polls + n)
      else Some (S n)
  end.

Section wait.
Context `{ITransport}.

(** The loop ends as soon as one of the calls it makes is answered otherwise,
    and then the last answer was not [Connecting]. *)
Lemma wait_terminates polls k n :
  status (k * polls + n) <> Connecting ->
  exists j, (j <= k)%nat /\
    wait_while_connecting polls (S k) n = Some (S (j * polls + n)) /\
    status (j * polls + n) <> Connecting /\
    forall i, (i < j)%nat -> status (i * polls + n) = Connecting.
Proof.
  revert n. induction k as [|k IH]; intros n Hk; cbn [wait_while_connecting].
  { exists 0%nat. rewrite decide_False by done. split_and!; [lia|done|done|lia]. }
  destruct (decide (status n = Connecting)) as [E|E].
  - destruct (IH (polls + n)%nat) as (j & Hj & Ew & Hs & Hb).
    { by replace (k * polls + (polls + n))%nat with (S k * polls + n)%nat by lia. }
    exists (S j). replace (S j * polls + n)%nat with (j * polls + (polls + n))%nat by lia.
    split_and!; [lia|done|done|]. intros [|i] Hi; [done|].
    replace (S i * polls + n)%nat with (i * polls + (polls + n))%nat by lia. apply Hb. lia.
  - exists 0%nat. split_and!; [lia|done|done|lia].
Qed.
End wait.
