(* ===== verification/Types.v ===== *)
(** * What the readers yield

    The readers take any bytes.  Every member of what they return is a value of
    its C++ type, every variable-length integer is below 2^60, and every vector
    shorter than 2^16: what was read can be written and is read back the same,
    unless it holds a namespace of 128 bits or more. *)

From S2P Require Export Transport.

Section readers.
Context {T : Target}.

(** From any bytes, [m] yields a value in [P] and leaves bytes. *)
Definition yields {A} (m : Buf A) (P : A -> Prop) : Prop := preserves wf_bytes m P.

Lemma yields_bind {A B} (m : Buf A) (f : A -> Buf B) (P : A -> Prop) (Q : B -> Prop) :
  yields m P -> (forall a, P a -> yields (f a) Q) -> yields (m ≫= f) Q.
Proof. apply preserves_bind. Qed.
Lemma yields_ret {A} (a : A) (P : A -> Prop) : P a -> yields (mret a) P.
Proof. apply preserves_ret. Qed.
Lemma yields_lift {A} (r : result A) (P : A -> Prop) :
  (forall a, r = Ret a -> P a) -> yields (lift r) P.
Proof. apply preserves_lift. Qed.
Lemma yields_throw {A} e (P : A -> Prop) : yields (throw e) P.
Proof. apply preserves_throw. Qed.

Lemma wf_bytes_take n b : wf_bytes b -> wf_bytes (take n b).
Proof. apply Forall_take. Qed.
Lemma wf_bytes_drop n b : wf_bytes b -> wf_bytes (drop n b).
Proof. apply Forall_drop. Qed.

Lemma yields_front : yields front is_u8.
Proof.
  intros b Hb Hs. unfold front in *. destruct b as [|x b]; [by destruct Hs|].
  split; [done|]. intros ? [= <-]. by inversion Hb.
Qed.

Lemma yields_get_u8 : yields get_u8 is_u8.
Proof.
  intros b Hb _. unfold get_u8. destruct b as [|x b]; [by split|]. simpl.
  inversion Hb. split; [done|]. by intros ? [= <-].
Qed.

Lemma in_u_land_r w x y : 0 <= w -> in_u w y -> in_u w (Z.land x y).
Proof.
  intros Hw Hy. apply in_u_bits; [done|]. intros i Hi. autorewrite with bits. bits_oob.
  apply andb_false_r.
Qed.

Lemma object_value_u64 b : wf_bytes b -> length b = 8%nat -> is_u64 (object_value b).
Proof.
  intros Hb Hl. unfold object_value. destruct native.
  - pose proof (le_val_bound b Hb) as H. by rewrite Hl in H.
  - pose proof (le_val_bound (reverse b)) as H. rewrite length_reverse, Hl in H.
    apply H. by apply Forall_reverse.
Qed.

Lemma swap_bytes64_u64 x : is_u64 x -> is_u64 (swap_bytes64 x).
Proof.
  intros Hx. unfold swap_bytes64. destruct native; [|done].
  repeat apply in_u_lor; try lia; apply in_u_land_r; unfold in_u; lia.
Qed.

Lemma yields_get_u64 : yields (get_uint 8) is_u64.
Proof.
  intros b Hb _. unfold get_uint. destruct (buf_empty b); [by split|].
  destruct (Z.ltb_spec (Z.of_nat (length b)) (Z.of_nat 8)); [by split|].
  split; [by apply wf_bytes_drop|]. intros ? [= <-].
  apply swap_bytes64_u64, object_value_u64; [by apply wf_bytes_take|].
  rewrite length_take. lia.
Qed.

(** Each form of a variable-length integer. *)
Lemma yields_uintVar x : is_field x -> yields (lift (uintVar x)) is_field.
Proof.
  intros Hx. apply yields_lift. intros a. unfold uintVar. destruct (2 ^ 61 <=? x); [done|].
  by intros [= <-].
Qed.

Lemma shiftl_land_bound x k n :
  0 <= n -> 0 <= k -> 0 <= Z.shiftl (Z.land x (Z.ones k)) n < 2 ^ (k + n).
Proof.
  intros Hn Hk. rewrite Z.land_ones, Z.shiftl_mul_pow2, Z.pow_add_r by done.
  assert (0 < 2 ^ n) by (apply Z.pow_pos_nonneg; lia).
  assert (0 <= x mod 2 ^ k < 2 ^ k) by (apply Z.mod_pos_bound, Z.pow_pos_nonneg; lia). nia.
Qed.

Lemma yields_get_uintVar : yields get_uintVar is_field.
Proof.
  unfold get_uintVar. eapply yields_bind; [apply yields_front|intros first _].
  assert (forall w x, in_u w (wrap w x) \/ w < 0) as Hw.
  { intros w x. destruct (Z.leb_spec 0 w); [left; by apply in_u_wrap|by right]. }
  destruct (_ =? 0).
  { eapply yields_bind; [apply yields_get_u8|intros b0 _]. apply yields_uintVar.
    pose proof (in_u_wrap 8 (Z.shiftl (Z.land b0 127) 0)). unfold in_u, is_field in *. lia. }
  destruct (_ =? 128).
  { do 2 (eapply yields_bind; [apply yields_get_u8|intros ? _]). apply yields_uintVar.
    match goal with |- is_field (wrap 16 ?x) => pose proof (in_u_wrap 16 x) end.
    unfold in_u, is_field in *. lia. }
  destruct (_ =? Z.lor 128 64).
  { do 4 (eapply yields_bind; [apply yields_get_u8|intros ? _]). apply yields_uintVar.
    match goal with |- is_field (wrap 32 ?x) => pose proof (in_u_wrap 32 x) end.
    unfold in_u, is_field in *. lia. }
  do 8 (eapply yields_bind; [apply yields_get_u8|intros]). apply yields_uintVar.
  (* the top byte is masked to four bits *)
  assert (forall x n, is_u8 x -> 0 <= n <= 48 -> 0 <= wrap 64 (Z.shiftl x n) <= 255 * 2 ^ n) as Hb.
  { intros x n Hx Hn. rewrite Z.shiftl_mul_pow2 by lia.
    assert (2 ^ (8 + n) = 2 ^ 8 * 2 ^ n) as E by (apply Z.pow_add_r; lia).
    assert (0 < 2 ^ n) by (apply Z.pow_pos_nonneg; lia).
    assert (2 ^ (8 + n) <= 2 ^ 56) by (apply Z.pow_le_mono_r; lia).
    unfold in_u in Hx.
    assert (x * 2 ^ n <= 255 * 2 ^ n) by (apply Z.mul_le_mono_nonneg_r; lia).
    assert (0 <= x * 2 ^ n) by (apply Z.mul_nonneg_nonneg; lia).
    rewrite wrap_small by (unfold in_u; lia). lia. }
  pose proof (shiftl_land_bound a 4 56 ltac:(done) ltac:(done)) as Ha.
  change (Z.ones 4) with 15 in Ha. change (4 + 56) with 60 in Ha.
  rewrite (wrap_small 64 (Z.shiftl (Z.land a 15) 56)) by (unfold in_u; lia).
  pose proof (Hb a0 48 H0 ltac:(lia)). pose proof (Hb a1 40 H1 ltac:(lia)).
  pose proof (Hb a2 32 H2 ltac:(lia)). pose proof (Hb a3 24 H3 ltac:(lia)).
  pose proof (Hb a4 16 H4 ltac:(lia)). pose proof (Hb a5 8 H5 ltac:(lia)).
  clear Hb Hw.
  rewrite Z.shiftl_0_r. unfold in_u in *. rewrite wrap_small by (unfold in_u; lia).
  (* a sum of disjoint fields below 2^60 *)
  assert (Z.shiftl (Z.land a 15) 56 <= 15 * 2 ^ 56).
  { rewrite Z.shiftl_mul_pow2 by lia. apply Z.mul_le_mono_nonneg_r; [lia|].
    change 15 with (Z.ones 4). rewrite Z.land_ones by lia.
    change (Z.ones 4) with 15. pose proof (Z.mod_pos_bound a (2 ^ 4) ltac:(done)). lia. }
  unfold is_field. lia.
Qed.

Lemma yields_get_vector : yields get_vector (fun d => wf_bytes d /\ is_payload d).
Proof.
  unfold get_vector. eapply yields_bind; [apply yields_get_uintVar|intros n _].
  intros b Hb _. unfold pop_front.
  pose proof (in_u_wrap 16 n ltac:(done)) as Hn. unfold in_u in Hn.
  destruct (Z.eqb_spec (wrap 16 n) 0).
  { split; [done|]. intros ? [= <-]. split; [by constructor|done]. }
  destruct (Z.ltb_spec (Z.of_nat (length b)) (wrap 16 n)); [by split|].
  split; [by apply wf_bytes_drop|]. intros ? [= <-]. split; [by apply wf_bytes_take|].
  unfold is_payload. rewrite length_take. lia.
Qed.

Lemma yields_get_Name_loop i bs :
  wf_bytes bs -> yields (get_Name_loop i bs) (fun d => wf_bytes d /\ length d = (i + length bs)%nat).
Proof.
  revert bs. induction i as [|i IH]; intros bs Hbs; cbn [get_Name_loop]; [by apply yields_ret|].
  eapply yields_bind; [apply yields_get_u8|intros b Hb].
  replace (S i + length bs)%nat with (i + length (b :: bs))%nat by (simpl; lia).
  apply IH. by constructor.
Qed.

Lemma wf_name_of_bytes d : wf_bytes d -> length d = 16%nat -> wf_name (name_of_bytes d).
Proof.
  intros Hd Hl. assert (forall x, wf_bytes x -> length x = 8%nat -> is_u64 (le_val x)) as H.
  { intros x Hx Hlx. pose proof (le_val_bound x Hx) as H. by rewrite Hlx in H. }
  unfold name_of_bytes. destruct native; split; cbn [_hi _low]; apply H;
    rewrite ?length_reverse, ?length_take, ?length_drop, ?Hl; try done;
    unfold wf_bytes; rewrite ?Forall_reverse; (by apply wf_bytes_take) || (by apply wf_bytes_drop).
Qed.

Lemma yields_get_Name : yields get_Name wf_name.
Proof.
  unfold get_Name. eapply yields_bind; [by apply yields_get_Name_loop, Forall_nil|].
  intros d [Hd Hl]. apply yields_lift. intros n. simpl in Hl.
  change sizeof_Name with 16. rewrite Name_of_data_ret by done. intros [= <-].
  by apply wf_name_of_bytes.
Qed.

(** A namespace as it is read: its length is a byte, and below 128 bits it is
    one the constructor made of a name. *)
Definition read_namespace (ns : Namespace) : Prop :=
  is_u8 (_sig_bits ns) /\ (_sig_bits ns < 128 -> wf_namespace ns).

Lemma yields_get_Namespace : yields get_Namespace read_namespace.
Proof.
  unfold get_Namespace. eapply yields_bind; [apply yields_get_Name|intros n Hn].
  eapply yields_bind; [apply yields_get_u8|intros k Hk]. apply yields_lift. intros ns E.
  assert (_sig_bits ns = k) as Ek.
  { unfold make_Namespace in E. cbv [mbind result_bind] in E.
    destruct (prefix_mask k); [|done..]. by injection E as <-. }
  split; [by rewrite Ek|]. rewrite Ek. intros Hlt. unfold in_u in Hk.
  rewrite make_Namespace_ret in E by lia. injection E as <-. apply wf_make_Namespace; [done|lia].
Qed.

Lemma yields_expect_type t : yields (expect_type t) anything.
Proof.
  unfold expect_type. eapply yields_bind; [apply yields_get_u8|intros x _].
  destruct (_ =? _); [by apply yields_ret|apply yields_throw].
Qed.
End readers.

Create HintDb reads.
#[export] Hint Resolve yields_get_u8 yields_get_u64 yields_get_uintVar yields_get_vector
  yields_get_Name yields_get_Namespace yields_expect_type wf_enum_of_u8 : reads.

(** Read member after member; [finish] proves that the members fit. *)
Ltac reads :=
  repeat match goal with
  | |- yields (mbind _ _) _ => eapply yields_bind; [eauto with reads|cbv beta; intros]
  | |- yields (if _ then _ else _) _ => case_match; [|apply yields_throw]
  end; apply yields_ret.

Section messages.
Context {T : Target}.

(** The members of each message as it is read. *)
Definition typed_Subscribe (m : Subscribe) : Prop :=
  is_u64 (sub_transaction_id m) /\ read_namespace (sub_namespace m) /\ wf_enum (sub_intent m).
Definition typed_SubscribeResponse (m : SubscribeResponse) : Prop :=
  is_u64 (subr_transaction_id m) /\ read_namespace (subr_namespace m) /\ wf_enum (subr_response m).
Definition typed_SubscribeEnd (m : SubscribeEnd) : Prop :=
  read_namespace (sube_namespace m) /\ wf_enum (sube_reason m).
Definition typed_PublishIntent (m : PublishIntent) : Prop :=
  wf_enum (pi_message_type m) /\ is_u64 (pi_transaction_id m) /\
  read_namespace (pi_namespace m) /\ (wf_bytes (pi_payload m) /\ is_payload (pi_payload m)) /\
  is_field (pi_media_id m) /\ is_field (pi_datagram_capable m).
Definition typed_PublishIntentResponse (m : PublishIntentResponse) : Prop :=
  wf_enum (pir_message_type m) /\ read_namespace (pir_namespace m) /\
  wf_enum (pir_response m) /\ is_u64 (pir_transaction_id m).
Definition typed_PublishIntentEnd (m : PublishIntentEnd) : Prop :=
  wf_enum (pie_message_type m) /\ read_namespace (pie_namespace m) /\
  (wf_bytes (pie_payload m) /\ is_payload (pie_payload m)).

Lemma yields_get_Header : yields get_Header ok_Header.
Proof. unfold get_Header. reads. by split_and!. Qed.

Lemma yields_get_Subscribe old : yields (get_Subscribe old) typed_Subscribe.
Proof. unfold get_Subscribe. reads. split_and!; eauto with reads. Qed.
Lemma yields_get_Unsubscribe old :
  yields (get_Unsubscribe old) (fun m => read_namespace (unsub_namespace m)).
Proof. unfold get_Unsubscribe. by reads. Qed.
Lemma yields_get_SubscribeResponse : yields get_SubscribeResponse typed_SubscribeResponse.
Proof. unfold get_SubscribeResponse. reads. split_and!; eauto with reads. Qed.
Lemma yields_get_SubscribeEnd : yields get_SubscribeEnd typed_SubscribeEnd.
Proof. unfold get_SubscribeEnd. reads. split; eauto with reads. Qed.
Lemma yields_get_PublishIntent : yields get_PublishIntent typed_PublishIntent.
Proof. unfold get_PublishIntent. reads. split_and!; eauto with reads; by tauto. Qed.
Lemma yields_get_PublishIntentResponse :
  yields get_PublishIntentResponse typed_PublishIntentResponse.
Proof. unfold get_PublishIntentResponse. reads. split_and!; eauto with reads. Qed.
Lemma yields_get_PublishIntentEnd : yields get_PublishIntentEnd typed_PublishIntentEnd.
Proof. unfold get_PublishIntentEnd. reads. split_and!; eauto with reads; by tauto. Qed.

Lemma yields_get_PublishDatagram :
  yields get_PublishDatagram (fun m => ok_PublishDatagram m /\ wf_bytes (media_data m)).
Proof.
  unfold get_PublishDatagram.
  eapply yields_bind; [apply yields_expect_type|intros _ _].
  eapply yields_bind; [apply yields_get_Header|intros h Hh]. reads.
  match goal with H : _ /\ is_payload _ |- _ => destruct H end.
  match goal with H : (_ =? _) = true |- _ => apply Z.eqb_eq in H end.
  split; [|done]. split_and!; eauto with reads.
Qed.
Lemma yields_get_PublishStream :
  yields get_PublishStream (fun m => ok_PublishStream m /\ wf_bytes (ps_media_data m)).
Proof.
  unfold get_PublishStream. reads.
  match goal with H : _ /\ is_payload _ |- _ => destruct H end.
  match goal with H : (_ =? _) = true |- _ => apply Z.eqb_eq in H end. by split.
Qed.
End messages.

(** [yields] on one buffer. *)
Lemma yields_read {A} (m : Buf A) (P : A -> Prop) b a rest :
  yields m P -> wf_bytes b -> m b = (Ret a, rest) -> P a /\ wf_bytes rest.
Proof. intros Hm Hb E. specialize (Hm b Hb). rewrite E in Hm. destruct Hm; auto. done. Qed.

(** C29: Whatever bytes arrive, each member of each message that a reader returns
    is a value of its type: identifiers of 64 bits, variable-length integers
    below 2^60, enumerators, bytes; every payload is shorter than 2^16 and the
    declared length of an object is the length of its data; a namespace of less
    than 128 bits has no bit below its prefix.  The rest is bytes again. *)
Theorem read_messages_typed {T : Target} b sub unsub :
  wf_bytes b ->
  (forall m rest, get_PublishDatagram b = (Ret m, rest) ->
     (ok_PublishDatagram m /\ wf_bytes (media_data m)) /\ wf_bytes rest) /\
  (forall m rest, get_PublishStream b = (Ret m, rest) ->
     (ok_PublishStream m /\ wf_bytes (ps_media_data m)) /\ wf_bytes rest) /\
  (forall m rest, get_PublishIntent b = (Ret m, rest) -> typed_PublishIntent m /\ wf_bytes rest) /\
  (forall m rest, get_PublishIntentResponse b = (Ret m, rest) ->
     typed_PublishIntentResponse m /\ wf_bytes rest) /\
  (forall m rest, get_PublishIntentEnd b = (Ret m, rest) ->
     typed_PublishIntentEnd m /\ wf_bytes rest) /\
  (forall m rest, get_Subscribe sub b = (Ret m, rest) -> typed_Subscribe m /\ wf_bytes rest) /\
  (forall m rest, get_Unsubscribe unsub b = (Ret m, rest) ->
     read_namespace (unsub_namespace m) /\ wf_bytes rest) /\
  (forall m rest, get_SubscribeResponse b = (Ret m, rest) ->
     typed_SubscribeResponse m /\ wf_bytes rest) /\
  (forall m rest, get_SubscribeEnd b = (Ret m, rest) -> typed_SubscribeEnd m /\ wf_bytes rest).
Proof.
  intros Hb. split_and!; intros m rest Hm.
  - apply (yields_read _ _ _ _ _ yields_get_PublishDatagram Hb Hm).
  - apply (yields_read _ _ _ _ _ yields_get_PublishStream Hb Hm).
  - apply (yields_read _ _ _ _ _ yields_get_PublishIntent Hb Hm).
  - apply (yields_read _ _ _ _ _ yields_get_PublishIntentResponse Hb Hm).
  - apply (yields_read _ _ _ _ _ yields_get_PublishIntentEnd Hb Hm).
  - apply (yields_read _ _ _ _ _ (yields_get_Subscribe _) Hb Hm).
  - apply (yields_read _ _ _ _ _ (yields_get_Unsubscribe _) Hb Hm).
  - apply (yields_read _ _ _ _ _ yields_get_SubscribeResponse Hb Hm).
  - apply (yields_read _ _ _ _ _ yields_get_SubscribeEnd Hb Hm).
Qed.

(** A datagram in a non-minimal encoding: its lengths take eight bytes. *)
Definition demo_bytes : bytes :=
  enum_to_u8 MessageType.Publish :: replicate 16 1 ++ [1; 2; 3; 1; 9; 3]
  ++ [0xE0; 0; 0; 0; 0; 0; 0; 2] ++ [0xE0; 0; 0; 0; 0; 0; 0; 2] ++ [7; 8; 99].

Example demo_bytes_read :
  exists m, get_PublishDatagram (T := strict_little) demo_bytes = (Ret m, [99]) /\
    media_data m = [7; 8].
Proof. eexists. split; [vm_compute; reflexivity|reflexivity]. Qed.

Lemma demo_bytes_wf : wf_bytes demo_bytes.
Proof. apply (bool_decide_unpack _). vm_compute. exact I. Qed.

Lemma read_messages_typed_witness :
  wf_bytes demo_bytes /\
  forall m rest, get_PublishDatagram (T := strict_little) demo_bytes = (Ret m, rest) ->
    (ok_PublishDatagram m /\ wf_bytes (media_data m)) /\ wf_bytes rest.
Proof.
  split; [apply demo_bytes_wf|].
  apply (read_messages_typed (T := strict_little) demo_bytes (mkSubscribe 0 0
    (mkNamespace (mkName 0 0) 0) SubscribeIntent.immediate)
    (mkUnsubscribe 0 (mkNamespace (mkName 0 0) 0)) demo_bytes_wf).
Defined.

(** Reading normalises: what was read from any bytes, however it was
    encoded, is written without error, and the written bytes are read to the
    same object or intent; so that a relay that forwards an object it read sends
    the same object. *)
Theorem read_again {T : Target} `{!LittleEndian} b rest' :
  wf_bytes b ->
  (forall m rest, get_PublishDatagram b = (Ret m, rest) ->
     serialize (put_PublishDatagram m) = Ret (encoded (put_PublishDatagram m)) /\
     get_PublishDatagram (encoded (put_PublishDatagram m) ++ rest') = (Ret m, rest')) /\
  (forall m rest, get_PublishIntent b = (Ret m, rest) -> _sig_bits (pi_namespace m) < 128 ->
     serialize (put_PublishIntent m) = Ret (encoded (put_PublishIntent m)) /\
     get_PublishIntent (encoded (put_PublishIntent m) ++ rest') = (Ret m, rest')).
Proof.
  intros Hb. split; intros m rest Hm.
  - destruct (yields_read _ _ _ _ _ yields_get_PublishDatagram Hb Hm) as [[Hok _] _].
    destruct (encoded_wire _ _ (put_PublishDatagram_wire m Hok)) as [_ E].
    split; [rewrite E; by apply serialize_wire, put_PublishDatagram_wire|].
    rewrite E. by apply get_PublishDatagram_wire.
  - intros Hlt.
    destruct (yields_read _ _ _ _ _ yields_get_PublishIntent Hb Hm) as [(H1 & H2 & [_ H3] & H4 & H5 & H6) _].
    assert (ok_PublishIntent m) as Hok by (split_and!; try done; [by apply H3|apply H4]).
    destruct (encoded_wire _ _ (put_PublishIntent_wire m Hok)) as [_ E].
    split; [rewrite E; by apply serialize_wire, put_PublishIntent_wire|].
    rewrite E. by apply get_PublishIntent_wire.
Qed.

Lemma read_again_witness :
  exists m, get_PublishDatagram (T := strict_little) demo_bytes = (Ret m, [99]) /\
    length (encoded (put_PublishDatagram m)) = 27%nat /\
    get_PublishDatagram (T := strict_little) (encoded (put_PublishDatagram m) ++ [5]) = (Ret m, [5]).
Proof.
  eexists. split; [vm_compute; reflexivity|]. split; [vm_compute; reflexivity|].
  eapply (proj1 (read_again (T := strict_little) demo_bytes [5] demo_bytes_wf)).
  vm_compute. reflexivity.
Defined.
