(* ===== verification/Threads.v ===== *)
(** * Threads that share memory and one mutex

    Code that several threads run at once is a tree of steps ([prog]): each
    step is one access to the shared memory, with the locations it reads and
    writes, or takes or gives back the mutex.  [run] is the tree run by one
    thread alone, and [refines] relates it to a computation of the atomic
    models; [perform] is one step of one of several threads.  A data race, and
    locking the mutex a thread holds already, are configurations: [racy],
    [relocks].

    [follows] is a discipline that a program can be checked for on its own; the
    lemmas say what threads that follow it give together: no race, mutual
    exclusion, progress, and runs that are runs of whole critical sections. *)

From S2P Require Export Prelude.
From stdpp Require Export relations.
From Stdlib Require Import Relation_Operators Wellfounded.Lexicographic_Product.
#[global] Open Scope Z_scope.

(** ** Programs *)

Record access (L : Type) := mkAccess { reads : list L; writes : list L }.
Arguments mkAccess {L} _ _.
Arguments reads {L} _.
Arguments writes {L} _.

(** [Busy] is a loop that has used up its fuel. *)
Inductive prog (S L A : Type) : Type :=
  | Done (r : result A)
  | Busy
  | Lock (k : prog S L A)
  | Unlock (k : prog S L A)
  | Step (a : access L) (f : S -> S) (k : S -> prog S L A).
Arguments Done {S L A} r.
Arguments Busy {S L A}.
Arguments Lock {S L A} k.
Arguments Unlock {S L A} k.
Arguments Step {S L A} a f k.

Fixpoint prog_bind_def {S L A B} (p : prog S L A) (f : A -> prog S L B) : prog S L B :=
  match p with
  | Done (Ret a) => f a
  | Done (Throw e) => Done (Throw e)
  | Done Undefined => Done Undefined
  | Busy => Busy
  | Lock k => Lock (prog_bind_def k f)
  | Unlock k => Unlock (prog_bind_def k f)
  | Step a g k => Step a g (fun s => prog_bind_def (k s) f)
  end.
#[export] Instance prog_ret {S L} : MRet (prog S L) := fun A a => Done (Ret a).
#[export] Instance prog_bind {S L} : MBind (prog S L) := fun A B f p => prog_bind_def p f.

(** One access. *)
Definition atomic {S L A} (a : access L) (m : M S A) : prog S L A :=
  Step a (fun s => snd (m s)) (fun s => Done (fst (m s))).

(** An access to one location, and a step that makes none.  [m[k]] on a map counts
    as a write, as the standard has it. *)
Abbreviation rd l m := (atomic (mkAccess [l] []) m).
Abbreviation wr l m := (atomic (mkAccess [] [l]) m).
Abbreviation io m := (atomic (mkAccess [] []) m).

(** [try { p } catch (...) { h }] *)
Fixpoint prog_catch {S L A} (p : prog S L A) (h : exn -> option (prog S L A)) : prog S L A :=
  match p with
  | Done (Throw e) => match h e with Some k => k | None => Done (Throw e) end
  | Done r => Done r
  | Busy => Busy
  | Lock k => Lock (prog_catch k h)
  | Unlock k => Unlock (prog_catch k h)
  | Step a g k => Step a g (fun s => prog_catch (k s) h)
  end.

(** [{ std::lock_guard lock(mutex); p }]: the destructor unlocks, also when [p]
    throws. *)
Fixpoint unlock_after {S L A} (p : prog S L A) : prog S L A :=
  match p with
  | Done r => Unlock (Done r)
  | Busy => Busy
  | Lock k => Lock (unlock_after k)
  | Unlock k => Unlock (unlock_after k)
  | Step a g k => Step a g (fun s => unlock_after (k s))
  end.
Definition with_lock {S L A} (p : prog S L A) : prog S L A := Lock (unlock_after p).

Fixpoint prog_for {S L A} (l : list A) (f : A -> prog S L unit) : prog S L unit :=
  match l with
  | [] => mret tt
  | x :: l' => f x ≫= fun _ => prog_for l' f
  end.

(** ** One thread alone

    [held] tells whether it holds the mutex; a [std::mutex] must not be locked
    by the thread that holds it, nor unlocked by another.  [None]: out of fuel. *)
Fixpoint run {S L A} (held : bool) (p : prog S L A) (s : S) : option (result A * S * bool) :=
  match p with
  | Done r => Some (r, s, held)
  | Busy => None
  | Lock k => if held then Some (Undefined, s, held) else run true k s
  | Unlock k => if held then run false k s else Some (Undefined, s, held)
  | Step _ f k => run held (k s) (f s)
  end.

(** ** Several threads *)

Record config (S L : Type) := mkConfig {
  memory : S;
  (** the thread that holds the mutex *)
  owner : option nat;
  threads : list (prog S L unit);
}.
Arguments mkConfig {S L} _ _ _.
Arguments memory {S L} _.
Arguments owner {S L} _.
Arguments threads {S L} _.

Definition spawn {S L} (s : S) (ps : list (prog S L unit)) : config S L := mkConfig s None ps.

(** One step of thread [i]; [None] when it cannot move: it is blocked or has
    ended, or its next step is undefined. *)
Definition perform {S L} (i : nat) (c : config S L) : option (config S L) :=
  p ← threads c !! i;
  match p with
  | Done _ | Busy => None
  | Lock k =>
      match owner c with
      | None => Some (mkConfig (memory c) (Some i) (<[i := k]> (threads c)))
      | Some _ => None
      end
  | Unlock k =>
      if decide (owner c = Some i)
      then Some (mkConfig (memory c) None (<[i := k]> (threads c))) else None
  | Step _ f k =>
      Some (mkConfig (f (memory c)) (owner c) (<[i := k (memory c)]> (threads c)))
  end.

Fixpoint exec {S L} (schedule : list nat) (c : config S L) : option (config S L) :=
  match schedule with
  | [] => Some c
  | i :: schedule' => c' ← perform i c; exec schedule' c'
  end.

Definition moves {S L} (c c' : config S L) : Prop := exists i, perform i c = Some c'.

Definition next_access {S L A} (p : prog S L A) : option (access L) :=
  match p with Step a _ _ => Some a | _ => None end.

(** Two threads are about to access one location, and one of them writes. *)
Definition racy {S L} (c : config S L) : Prop :=
  exists i j p q a b l, i <> j /\ threads c !! i = Some p /\ threads c !! j = Some q /\
    next_access p = Some a /\ next_access q = Some b /\
    l ∈ writes a /\ l ∈ reads b ++ writes b.

(** A thread is about to lock the mutex it holds. *)
Definition relocks {S L} (c : config S L) : Prop :=
  exists i k, threads c !! i = Some (Lock k) /\ owner c = Some i.

Definition is_done {S L A} (p : prog S L A) : Prop :=
  match p with Done _ => True | _ => False end.

(** ** A discipline

    [follows J b ok h0 h p]: started while it holds the mutex or not ([h]), [p]
    locks only when it does not hold it, unlocks only when it does, makes accesses
    allowed by [ok] only, and ends with [h0]; [b] tells whether it may run out
    of fuel.  [J] is what all threads keep true of the memory: each access may rely
    on it, and keeps it. *)
Fixpoint follows {S L A} (J : S -> Prop) (b : Prop) (ok : bool -> access L -> Prop)
    (h0 h : bool) (p : prog S L A) : Prop :=
  match p with
  | Done _ => h = h0
  | Busy => b
  | Lock k => h = false /\ follows J b ok h0 true k
  | Unlock k => h = true /\ follows J b ok h0 false k
  | Step a f k => ok h a /\ forall s, J s -> J (f s) /\ follows J b ok h0 h (k s)
  end.

(** No condition on the state. *)
Definition always {S} (s : S) : Prop := True.

(** Who may access a location: those that hold the mutex, one thread, or
    everybody, for reading. *)
Inductive sharing := Guarded | Private (i : nat) | Constant.

Definition may_read {L} (policy : L -> sharing) (i : nat) (held : bool) (l : L) : Prop :=
  match policy l with Guarded => held = true | Private j => i = j | Constant => True end.
Definition may_write {L} (policy : L -> sharing) (i : nat) (held : bool) (l : L) : Prop :=
  match policy l with Guarded => held = true | Private j => i = j | Constant => False end.
Definition allowed {L} (policy : L -> sharing) (i : nat) (held : bool) (a : access L) : Prop :=
  Forall (may_read policy i held) (reads a) /\ Forall (may_write policy i held) (writes a).

(** Accesses under the mutex only. *)
Definition inside {L} (held : bool) (a : access L) : Prop := held = true.

(** ** Whole critical sections *)

(** A thread that holds the mutex, up to its next unlock. *)
Fixpoint until_unlock {S L A} (p : prog S L A) (s : S) : option (prog S L A * S) :=
  match p with
  | Unlock k => Some (k, s)
  | Step _ f k => until_unlock (k s) (f s)
  | Done _ | Busy | Lock _ => None
  end.

(** No lock, no unlock. *)
Fixpoint straight {S L A} (p : prog S L A) : Prop :=
  match p with
  | Done _ | Busy => True
  | Step _ _ k => forall s, straight (k s)
  | Lock _ | Unlock _ => False
  end.

(** Thread [i] runs a critical section at once. *)
Definition section {S L} (i : nat) (c c' : config S L) : Prop :=
  exists k k' s', threads c !! i = Some (Lock k) /\ owner c = None /\
    until_unlock k (memory c) = Some (k', s') /\
    c' = mkConfig s' None (<[i := k']> (threads c)).

(** * Programs: lemmas *)

Section programs.
Context {S L : Type} (J : S -> Prop) (b : Prop) (ok : bool -> access L -> Prop).
Context {A B : Type}.
Implicit Types (p : prog S L A) (s : S).

Lemma follows_bind h0 h p (f : A -> prog S L B) :
  follows J b ok h0 h p -> (forall a, follows J b ok h0 h0 (f a)) -> follows J b ok h0 h (p ≫= f).
Proof.
  intros Hp Hf. unfold mbind, prog_bind. revert h Hp.
  induction p as [[a|e|]| |k IH|k IH|a g k IH]; cbn; intros h Hp; try done.
  - subst h. apply Hf.
  - split; [tauto|]. by apply IH, Hp.
  - split; [tauto|]. by apply IH, Hp.
  - split; [tauto|]. intros s Hs. destruct Hp as [_ Hp]. destruct (Hp s Hs). split; auto.
Qed.

Lemma follows_done h r : follows J b ok h h (Done r : prog S L A).
Proof. done. Qed.

Lemma follows_ret h (a : A) : follows J b ok h h (mret a : prog S L A).
Proof. done. Qed.

Lemma follows_atomic h a (m : M S A) :
  ok h a -> (forall s, J s -> J (m s).2) -> follows J b ok h h (atomic a m).
Proof. intros H Hm. split; [done|]. intros s Hs. by split; [apply Hm|]. Qed.

(** An access whose value the code relies on. *)
Lemma follows_access h0 h a (m : M S A) (f : A -> prog S L B) :
  ok h a ->
  (forall s, J s -> J (m s).2 /\
     match (m s).1 with Ret x => follows J b ok h0 h (f x) | _ => h = h0 end) ->
  follows J b ok h0 h (atomic a m ≫= f).
Proof.
  intros H Hm. split; [done|]. intros s Hs. destruct (Hm s Hs) as [H1 H2]. split; [done|].
  cbn. by destruct (m s).1.
Qed.

Lemma follows_catch h0 h p c :
  follows J b ok h0 h p -> (forall e k, c e = Some k -> follows J b ok h0 h0 k) ->
  follows J b ok h0 h (prog_catch p c).
Proof.
  intros Hp Hc. revert h Hp.
  induction p as [[a|e|]| |k IH|k IH|a g k IH]; cbn; intros h Hp; try done.
  - subst h. destruct (c e) as [k|] eqn:E; [by eapply Hc|done].
  - split; [tauto|]. by apply IH, Hp.
  - split; [tauto|]. by apply IH, Hp.
  - split; [tauto|]. intros s Hs. destruct Hp as [_ Hp]. destruct (Hp s Hs). split; auto.
Qed.

Lemma follows_unlock_after h p : follows J b ok true h p -> follows J b ok false h (unlock_after p).
Proof.
  revert h. induction p as [r| |k IH|k IH|a g k IH]; cbn; intros h Hp; try done.
  - split; [tauto|]. by apply IH, Hp.
  - split; [tauto|]. by apply IH, Hp.
  - split; [tauto|]. intros s Hs. destruct Hp as [_ Hp]. destruct (Hp s Hs). split; auto.
Qed.

Lemma follows_with_lock p : follows J b ok true true p -> follows J b ok false false (with_lock p).
Proof. intros Hp. split; [done|]. by apply follows_unlock_after. Qed.

(** A disciplined program ends, without undefined use of the mutex. *)
Lemma run_follows h0 h p s :
  follows J False ok h0 h p -> J s -> exists r s', run h p s = Some (r, s', h0) /\ J s'.
Proof.
  revert h s. induction p as [r| |k IH|k IH|a g k IH]; cbn; intros h s Hp Hs; try done.
  - subst h. eauto.
  - destruct Hp as [-> Hp]. by apply IH.
  - destruct Hp as [-> Hp]. by apply IH.
  - destruct Hp as [_ Hp]. destruct (Hp s Hs). by apply IH.
Qed.

Lemma run_bind h p (f : A -> prog S L B) s :
  run h (p ≫= f) s =
  (match run h p s with
   | Some (Ret a, s', h') => run h' (f a) s'
   | Some (Throw e, s', h') => Some (Throw e, s', h')
   | Some (Undefined, s', h') => Some (Undefined, s', h')
   | None => None
   end).
Proof.
  unfold mbind, prog_bind. revert h s.
  induction p as [[a|e|]| |k IH|k IH|a g k IH]; cbn; intros h s; try done.
  - destruct h; [done|apply IH].
  - destruct h; [apply IH|done].
Qed.

Lemma run_unlock_after h p s : follows J b ok true h p -> J s ->
  run h (unlock_after p) s =
  (match run h p s with Some (r, s', _) => Some (r, s', false) | None => None end).
Proof.
  revert h s. induction p as [r| |k IH|k IH|a g k IH]; cbn; intros h s Hp Hs; try done.
  - by subst h.
  - destruct Hp as [-> Hp]. by apply IH.
  - destruct Hp as [-> Hp]. by apply IH.
  - destruct Hp as [_ Hp]. destruct (Hp s Hs). by apply IH.
Qed.

Lemma run_catch h p c s :
  run h (prog_catch p c) s =
  (match run h p s with
   | Some (Throw e, s', h') =>
       match c e with Some k => run h' k s' | None => Some (Throw e, s', h') end
   | r => r
   end).
Proof.
  revert h s. induction p as [[a|e|]| |k IH|k IH|a g k IH]; cbn; intros h s; try done.
  - by destruct (c e).
  - destruct h; [done|apply IH].
  - destruct h; [apply IH|done].
Qed.
End programs.

Lemma follows_for_elem {S L A} (J : S -> Prop) b (ok : bool -> access L -> Prop) h (l : list A)
    (f : A -> prog S L unit) :
  (forall x, x ∈ l -> follows J b ok h h (f x)) -> follows J b ok h h (prog_for l f).
Proof.
  induction l as [|x l IH]; intros Hf; [done|]. apply follows_bind; [apply Hf; by left|].
  intros _. apply IH. intros y Hy. apply Hf. by right.
Qed.

Lemma follows_for {S L A} (J : S -> Prop) b (ok : bool -> access L -> Prop) h (l : list A)
    (f : A -> prog S L unit) :
  (forall x, follows J b ok h h (f x)) -> follows J b ok h h (prog_for l f).
Proof. intros Hf. by apply follows_for_elem. Qed.

Lemma follows_weaken {S L A} (J : S -> Prop) b (ok ok' : bool -> access L -> Prop) h0 h (p : prog S L A) :
  (forall h a, ok h a -> ok' h a) -> follows J b ok h0 h p -> follows J b ok' h0 h p.
Proof.
  intros Hok. revert h. induction p as [r| |k IH|k IH|a g k IH]; cbn; intros h Hp; try done.
  - split; [tauto|]. by apply IH, Hp.
  - split; [tauto|]. by apply IH, Hp.
  - destruct Hp as [Ha Hp]. split; [by apply Hok|]. intros s Hs. destruct (Hp s Hs). split; auto.
Qed.

Lemma straight_follows {S L A} h (p : prog S L A) :
  straight p -> follows always True (fun h' _ => h' = h) h h p.
Proof.
  induction p as [r| |k IH|k IH|a g k IH]; cbn; intros Hp; try done.
  split; [done|]. intros s _. split; [done|]. apply IH, Hp.
Qed.

Lemma straight_catch {S L A} (p : prog S L A) c :
  straight p -> (forall e k, c e = Some k -> straight k) -> straight (prog_catch p c).
Proof.
  intros Hp Hc. revert Hp.
  induction p as [[a|e|]| |k IH|k IH|a g k IH]; cbn; intros Hp; try done.
  - destruct (c e) as [k|] eqn:E; [by eapply Hc|done].
  - intros s. apply IH, Hp.
Qed.

(** It leaves the mutex as it is. *)
Lemma straight_run {S L A} h h' (p : prog S L A) s : straight p ->
  run h' p s = (r ← run h p s; Some (r.1, h')).
Proof.
  revert s. induction p as [r| |k IH|k IH|a g k IH]; cbn; intros s Hp; try done. apply IH, Hp.
Qed.

Lemma straight_bind {S L A B} (p : prog S L A) (f : A -> prog S L B) :
  straight p -> (forall a, straight (f a)) -> straight (p ≫= f).
Proof.
  intros Hp Hf. unfold mbind, prog_bind. revert Hp.
  induction p as [[a|e|]| |k IH|k IH|a g k IH]; cbn; intros Hp; try done.
  intros s. apply IH, Hp.
Qed.

Lemma straight_for {S L A} (l : list A) (f : A -> prog S L unit) :
  (forall x, straight (f x)) -> straight (prog_for l f).
Proof. intros Hf. induction l as [|x l IH]; [done|]. by apply straight_bind. Qed.

(** ** Programs and the atomic computations they are made of *)

(** From states in [I], [p] run alone does what [m] does. *)
Definition refines {S L A} (I : S -> Prop) (h : bool) (p : prog S L A) (m : M S A) : Prop :=
  forall s, I s -> run h p s = Some ((m s).1, (m s).2, h).

Section refines.
Context {S L : Type} (I : S -> Prop).
Context {A B : Type}.
Implicit Types (p : prog S L A) (m : M S A).

Lemma refines_done h r : refines (A := A) (L := L) I h (Done r) (lift r).
Proof. by intros s _. Qed.

Lemma refines_ret h (a : A) : refines (L := L) I h (mret a) (mret a).
Proof. by intros s _. Qed.

Lemma refines_atomic h (a : access L) m : refines I h (atomic a m) m.
Proof. by intros s _. Qed.

Lemma refines_bind h p m (f : A -> prog S L B) g (Q : A -> Prop) :
  refines I h p m -> preserves I m Q -> (forall a, Q a -> refines I h (f a) (g a)) ->
  refines I h (p ≫= f) (m ≫= g).
Proof.
  intros Hp Hm Hf s Hs. rewrite run_bind, Hp by done. specialize (Hm s Hs).
  unfold mbind, M_bind. destruct (m s) as [[a|e|] s'] eqn:E; cbn; [|done..].
  destruct Hm as [Hs' Ha]; [done|]. by apply Hf; [apply Ha|].
Qed.

Lemma refines_with_lock b (ok : bool -> access L -> Prop) p m :
  follows always b ok true true p -> refines I true p m -> refines I false (with_lock p) m.
Proof. intros Hl Hp s Hs. cbn. by rewrite (run_unlock_after always b ok), Hp. Qed.

Lemma refines_locked p m : straight p -> refines I true p m -> refines I false (with_lock p) m.
Proof. intros Hp. by apply (refines_with_lock True inside), (straight_follows true). Qed.

Lemma refines_catch h p m (c : exn -> option (prog S L A)) c' :
  refines I h p m -> preserves I m anything ->
  (forall e, match c e, c' e with
             | Some k, Some k' => refines I h k k' | None, None => True | _, _ => False end) ->
  refines I h (prog_catch p c) (try_catch m c').
Proof.
  intros Hp Hm Hc s Hs. rewrite run_catch, Hp by done. specialize (Hm s Hs).
  unfold try_catch. destruct (m s) as [[a|e|] s'] eqn:E; cbn; [done| |done].
  destruct Hm as [Hs' _]; [done|]. specialize (Hc e).
  destruct (c e), (c' e); try done. by apply Hc.
Qed.
Lemma straight_refines h h' p m : straight p -> refines I h p m -> refines I h' p m.
Proof. intros Hp Hm s Hs. by rewrite (straight_run h), (Hm s Hs). Qed.
End refines.

Lemma preserves_always {S A} (m : M S A) : preserves always m anything.
Proof. by intros s _ _. Qed.
Lemma refines_always {S L A} (I : S -> Prop) h (p : prog S L A) m :
  refines always h p m -> refines I h p m.
Proof. intros H s _. by apply H. Qed.

Lemma refines_for {S L A} (I : S -> Prop) h (l : list A) (f : A -> prog S L unit) g :
  (forall x, x ∈ l -> refines I h (f x) (g x)) -> (forall x, preserves I (g x) anything) ->
  refines I h (prog_for l f) (mfor l g).
Proof.
  intros Hf Hg. induction l as [|x l IH]; [apply refines_ret|].
  apply refines_bind with anything; [apply Hf; by left|done|].
  intros _ _. apply IH. intros y Hy. apply Hf. by right.
Qed.

(** * Configurations: what a discipline gives *)

Section discipline.
Context {S L : Type}.
Implicit Types (c : config S L) (p : prog S L unit).

Lemma perform_inv i c c' :
  perform i c = Some c' ->
  exists p, threads c !! i = Some p /\
    match p with
    | Done _ | Busy => False
    | Lock k => owner c = None /\ c' = mkConfig (memory c) (Some i) (<[i := k]> (threads c))
    | Unlock k => owner c = Some i /\ c' = mkConfig (memory c) None (<[i := k]> (threads c))
    | Step _ f k => c' = mkConfig (f (memory c)) (owner c) (<[i := k (memory c)]> (threads c))
    end.
Proof.
  unfold perform. cbv [mbind option_bind].
  destruct (threads c !! i) as [p|] eqn:E; [|done]. intros H. exists p. split; [done|].
  destruct p as [r| |k|k|a f k]; [done|done| | |].
  - destruct (owner c); [done|]. by simplify_eq.
  - case_decide; [|done]. by simplify_eq.
  - by simplify_eq.
Qed.

(** Each thread follows the discipline, from where it stands; [ok i] is the
    discipline of thread [i]. *)
Record disciplined (J : S -> Prop) (b : Prop) (ok : nat -> bool -> access L -> Prop) c : Prop := {
  disciplined_memory : J (memory c);
  disciplined_owner i : owner c = Some i -> is_Some (threads c !! i);
  disciplined_thread i p : threads c !! i = Some p ->
    follows J b (ok i) false (bool_decide (owner c = Some i)) p;
}.

Context (J : S -> Prop) (b : Prop) (ok : nat -> bool -> access L -> Prop).

Lemma disciplined_start s ps :
  J s -> (forall i p, ps !! i = Some p -> follows J b (ok i) false false p) ->
  disciplined J b ok (spawn s ps).
Proof. intros Hs H. split; [done..|]. intros i p Hp. by apply H. Qed.

Lemma disciplined_update i p s o c :
  disciplined J b ok c -> J s -> is_Some (threads c !! i) ->
  (forall j, j <> i -> o = Some j <-> owner c = Some j) ->
  follows J b (ok i) false (bool_decide (o = Some i)) p ->
  disciplined J b ok (mkConfig s o (<[i := p]> (threads c))).
Proof.
  intros [_ Ho Ht] Hs [q Hq] Hj Hp. pose proof (lookup_lt_Some _ _ _ Hq) as Hlt. split; cbn; [done|..].
  - intros j Eo. destruct (decide (j = i)) as [->|Hji].
    + by rewrite list_lookup_insert_eq.
    + rewrite list_lookup_insert_ne by done. by apply Ho, Hj.
  - intros j r. destruct (decide (j = i)) as [->|Hji].
    + rewrite list_lookup_insert_eq by done. by intros [= <-].
    + rewrite list_lookup_insert_ne by done. intros Hr%Ht.
      by rewrite (bool_decide_ext _ _ (Hj j Hji)).
Qed.

Lemma disciplined_moves c c' : disciplined J b ok c -> moves c c' -> disciplined J b ok c'.
Proof.
  intros Hc [i Hi]. apply perform_inv in Hi as (p & Hp & Hi).
  pose proof Hc as [Hs _ Ht]. pose proof (Ht i p Hp) as Hf. pose proof (mk_is_Some _ _ Hp) as His.
  destruct p as [r| |k|k|a f k]; [done|done| | |].
  - destruct Hi as [Ho ->]. apply disciplined_update; [done..| |].
    + intros j Hj. rewrite Ho. split; congruence.
    + by rewrite bool_decide_eq_true_2; [apply Hf|].
  - destruct Hi as [Ho ->]. apply disciplined_update; [done..| |].
    + intros j Hj. rewrite Ho. split; congruence.
    + by rewrite bool_decide_eq_false_2; [apply Hf|].
  - subst c'. destruct Hf as [_ Hf]. destruct (Hf _ Hs). by apply disciplined_update.
Qed.

Lemma disciplined_reachable c c' : disciplined J b ok c -> rtc moves c c' -> disciplined J b ok c'.
Proof. intros H Hr. revert H. induction Hr; eauto using disciplined_moves. Qed.

Lemma no_relock c : disciplined J b ok c -> ~ relocks c.
Proof.
  intros [_ _ Ht] (i & k & Hk & Ho). apply Ht in Hk as [Hk _].
  by rewrite bool_decide_eq_true_2 in Hk.
Qed.

(** Unless a loop has used up its fuel, some thread can move, or all have ended
    and the mutex is free. *)
Lemma progress c : disciplined J b ok c -> (forall p, p ∈ threads c -> p <> Busy) ->
  (exists c', moves c c') \/ (owner c = None /\ Forall is_done (threads c)).
Proof.
  intros [_ Ho Ht] Hb. destruct (owner c) as [i|] eqn:Eo.
  - destruct (Ho i eq_refl) as [p Hp]. pose proof (Ht i p Hp) as Hf.
    pose proof (Hb p (list_elem_of_lookup_2 _ _ _ Hp)) as Hnb.
    rewrite bool_decide_eq_true_2 in Hf by done. left.
    destruct p as [r| |k|k|a f k]; [done|done|by destruct Hf| |];
      eexists; exists i; unfold perform; rewrite Hp; cbv [mbind option_bind]; [|done].
    by rewrite decide_True.
  - destruct (decide (Forall (fun p => match p with Done _ => true | _ => false end = true)
      (threads c))) as [Hd|Hd].
    { right. split; [done|]. eapply Forall_impl; [exact Hd|]. by intros []. }
    left. apply not_Forall_Exists in Hd; [|intros x; apply _].
    apply Exists_exists in Hd as (p & Hp & Hn). pose proof (Hb p Hp) as Hnb.
    apply list_elem_of_lookup in Hp as [i Hp]. pose proof (Ht i p Hp) as Hf.
    destruct p as [r| |k|k|a f k]; [by destruct Hn|done| | |];
      [|destruct Hf as [Hf _]; by rewrite bool_decide_eq_false_2 in Hf|];
      eexists; exists i; unfold perform; rewrite Hp; cbv [mbind option_bind]; [|done].
    by rewrite Eo.
Qed.

(** Code without such loops never does. *)
Lemma never_busy c : disciplined J False ok c -> forall p, p ∈ threads c -> p <> Busy.
Proof. intros [_ _ Ht] p Hp ->. apply list_elem_of_lookup in Hp as [i Hp]. exact (Ht i _ Hp). Qed.
End discipline.

(** Threads that keep to a policy do not race. *)
Lemma no_race {S L} (J : S -> Prop) (busy : Prop) (policy : L -> sharing) (c : config S L) :
  disciplined J busy (allowed policy) c -> ~ racy c.
Proof.
  intros [_ _ Ht] (i & j & p & q & a & b & l & Hij & Hp & Hq & Ha & Hb & Hl & Hl').
  pose proof (Ht i p Hp) as Hfp. pose proof (Ht j q Hq) as Hfq.
  destruct p as [| | | |a' f k]; try done. destruct q as [| | | |b' f' k']; try done.
  injection Ha as ->. injection Hb as ->.
  destruct Hfp as [[_ Hw] _], Hfq as [[Hr' Hw'] _]. rewrite Forall_forall in Hw, Hr', Hw'.
  specialize (Hw l Hl). apply elem_of_app in Hl'.
  assert (may_read policy j (bool_decide (owner c = Some j)) l) as Hr.
  { destruct Hl' as [H|H]; [by apply Hr'|]. specialize (Hw' l H).
    unfold may_read, may_write in *. by destruct (policy l). }
  unfold may_write, may_read in *. destruct (policy l) as [|k2|]; [|congruence|done].
  apply bool_decide_eq_true in Hw, Hr. congruence.
Qed.

(** A schedule that can be run reaches a configuration. *)
Lemma exec_reaches {S L} (schedule : list nat) (c : config S L) :
  (if exec schedule c is Some _ then true else false) = true ->
  rtc moves c (default c (exec schedule c)).
Proof.
  revert c. induction schedule as [|i schedule IH]; intros c; cbn; [intros _; constructor|].
  cbv [mbind option_bind]. destruct (perform i c) as [c1|] eqn:E; [|done].
  intros H. eapply rtc_l; [by exists i|]. specialize (IH c1 H).
  by destruct (exec schedule c1).
Qed.

(** ** Every schedule ends *)

Section termination.
Context {S L : Type}.

(** The program of a thread, after one step. *)
Inductive shorter {A} : prog S L A -> prog S L A -> Prop :=
  | shorter_lock k : shorter k (Lock k)
  | shorter_unlock k : shorter k (Unlock k)
  | shorter_step a f k s : shorter (k s) (Step a f k).

Lemma shorter_wf {A} (p : prog S L A) : Acc shorter p.
Proof.
  induction p as [r| |k IH|k IH|a f k IH]; constructor; intros q Hq; by inversion Hq; subst.
Qed.

(** One thread of a list has made a step. *)
Definition one_shorter (qs ps : list (prog S L unit)) : Prop :=
  exists i p q, ps !! i = Some p /\ shorter q p /\ qs = <[i := q]> ps.

Lemma one_shorter_wf (ps : list (prog S L unit)) : Acc one_shorter ps.
Proof.
  induction ps as [|p ps IH].
  { constructor. intros qs (i & p & q & Hp & _). done. }
  revert ps IH. induction (shorter_wf p) as [p _ IHp].
  intros ps Hps. pose proof Hps as Hps'. induction Hps' as [ps _ IHps].
  constructor. intros qs (i & r & q & Hr & Hq & ->). destruct i as [|i]; cbn in Hr |- *.
  - injection Hr as ->. by apply IHp.
  - apply IHps; [by eexists _, _, _|]. apply Hps. by eexists _, _, _.
Qed.

Lemma moves_shorter (c c' : config S L) : moves c c' -> one_shorter (threads c') (threads c).
Proof.
  intros [i Hi]. apply perform_inv in Hi as (p & Hp & Hi). exists i, p.
  destruct p as [r| |k|k|a f k]; [done|done| | |].
  - destruct Hi as [_ ->]. eexists. by split_and!; [|constructor|].
  - destruct Hi as [_ ->]. eexists. by split_and!; [|constructor|].
  - subst c'. eexists. by split_and!; [|apply shorter_step|].
Qed.

Lemma schedules_end (c : config S L) : Acc (flip moves) c.
Proof.
  remember (threads c) as ps eqn:E. revert c E.
  induction (one_shorter_wf ps) as [ps _ IH]. intros c ->. constructor.
  intros c' Hc'. by eapply IH; [apply moves_shorter|].
Qed.
End termination.

(** ** Whole critical sections

    Threads that access the memory under the mutex only: whenever it is free,
    the configuration is one that whole critical sections lead to. *)

Section sections.
Context {S L : Type}.
Implicit Types (c : config S L).

Definition sections c c' : Prop := exists i, section i c c'.

(** The thread that holds the mutex is on its way through a section that began
    when the mutex was free. *)
Definition on_the_way c0 c : Prop :=
  match owner c with
  | None => rtc sections c0 c
  | Some i => exists c1 k p,
      rtc sections c0 c1 /\ owner c1 = None /\ threads c1 !! i = Some (Lock k) /\
      threads c = <[i := p]> (threads c1) /\
      until_unlock k (memory c1) = until_unlock p (memory c)
  end.

Lemma serializable b c0 c :
  owner c0 = None -> disciplined always b (fun _ => inside) c0 -> rtc moves c0 c -> on_the_way c0 c.
Proof.
  intros Ho Hd Hr.
  assert (on_the_way c0 c0) as H0 by (unfold on_the_way; by rewrite Ho).
  cut (forall c1, rtc moves c1 c -> disciplined always b (fun _ => inside) c1 -> on_the_way c0 c1 ->
    on_the_way c0 c); [intros H; by apply (H c0)|]. clear Hr H0 Ho Hd.
  intros c1 Hr. induction Hr as [c1|c1 c2 c3 Hm _ IH]; [done|]. intros Hd Hw.
  apply IH; [by eapply disciplined_moves|]. clear IH. destruct Hm as [i Hi].
  apply perform_inv in Hi as (p & Hp & Hi). pose proof (disciplined_thread _ _ _ _ Hd i p Hp) as Hf.
  destruct p as [r| |k|k|a f k]; [done|done| | |].
  - destruct Hi as [Ho ->]. unfold on_the_way in *. rewrite Ho in Hw. cbn.
    by exists c1, k, k.
  - destruct Hi as [Ho ->]. unfold on_the_way in *. rewrite Ho in Hw. cbn.
    destruct Hw as (c2' & k0 & p & Hr & Ho2 & Hk & Et & Eu).
    pose proof (lookup_lt_Some _ _ _ Hk) as Hlt.
    rewrite Et, list_lookup_insert_eq in Hp by done. injection Hp as ->. cbn in Eu.
    eapply rtc_r; [exact Hr|]. exists i, k0, k, (memory c1). split_and!; [done..|].
    by rewrite Et, list_insert_insert_eq.
  - subst c2. cbn in Hf. destruct Hf as [Hf _]. unfold inside in Hf.
    apply bool_decide_eq_true in Hf. unfold on_the_way in *. cbn. rewrite Hf in *.
    destruct Hw as (c2' & k0 & p & Hr & Ho2 & Hk & Et & Eu).
    pose proof (lookup_lt_Some _ _ _ Hk) as Hlt.
    rewrite Et, list_lookup_insert_eq in Hp by done. injection Hp as ->. cbn in Eu.
    exists c2', k0, (k (memory c1)). split_and!; [done..| |done].
    by rewrite Et, list_insert_insert_eq.
Qed.

Lemma until_unlock_run {A B} (p : prog S L A) (f : A -> prog S L B) s r s' :
  straight p -> run true p s = Some (r, s', true) ->
  until_unlock (unlock_after p ≫= f) s = Some (Done r ≫= f, s').
Proof.
  unfold mbind, prog_bind. revert s.
  induction p as [r0| |k IH|k IH|a g k IH]; cbn; intros s Hp Hr; try done.
  - injection Hr as -> ->. by destruct r.
  - by apply IH.
Qed.
End sections.

(** ** Calls under the mutex

    [locked] says which bodies run under the mutex, and the computations they
    carry out from states in [J]. *)

Section calls.
Context {S L : Type} (locked : forall A, prog S L A -> M S A -> Prop) (J : S -> Prop).

(** A thread that accesses the memory through these calls only. *)
Inductive caller : prog S L unit -> Prop :=
  | caller_end r : caller (Done r)
  | caller_call A (p : prog S L A) m f :
      locked A p m -> (forall a, caller (f a)) -> caller (with_lock p ≫= f).

(** One whole call of one thread. *)
Inductive call_step : S * list (prog S L unit) -> S * list (prog S L unit) -> Prop :=
  | call_step_intro i A (p : prog S L A) m f s s' r ps :
      ps !! i = Some (with_lock p ≫= f) -> locked A p m -> m s = (r, s') ->
      call_step (s, ps) (s', <[i := Done r ≫= f]> ps).

Hypothesis locked_straight : forall A p m, locked A p m -> straight p.
Hypothesis locked_alone : forall A p m, locked A p m -> refines J true p m.
Hypothesis locked_keeps : forall A p m s, locked A p m -> J s -> J (m s).2.

Lemma caller_inside p : caller p -> follows always True inside false false p.
Proof.
  induction 1 as [r|A p m f Hp _ IH]; [done|]. apply follows_bind; [|exact IH].
  by apply follows_with_lock, (straight_follows true), (locked_straight _ _ m).
Qed.

Lemma callers_disciplined s ps :
  Forall caller ps -> disciplined always True (fun _ => inside) (spawn s ps).
Proof.
  intros H. apply disciplined_start; [done|]. intros i p Hp.
  by apply caller_inside, (Forall_lookup_1 _ _ _ _ H Hp).
Qed.

(** A critical section of a caller is a call. *)
Lemma section_call i (c c' : config S L) :
  section i c c' -> J (memory c) -> Forall caller (threads c) ->
  call_step (memory c, threads c) (memory c', threads c') /\
  J (memory c') /\ Forall caller (threads c').
Proof.
  intros (k & k' & s' & Hk & _ & Hu & ->) Hw Hc.
  pose proof (Forall_lookup_1 _ _ _ _ Hc Hk) as Hcall. inversion Hcall as [|A p m f Hp Hf E]; subst.
  pose proof (until_unlock_run p f _ _ _ (locked_straight _ _ _ Hp)
    (locked_alone _ _ _ Hp _ Hw)) as Hu'.
  change (until_unlock (unlock_after p ≫= f) (memory c) = Some (k', s')) in Hu. rewrite Hu' in Hu.
  injection Hu as <- <-. cbn. split; [|split].
  - apply (call_step_intro i A p m f); [done..|]. by destruct (m (memory c)).
  - by apply (locked_keeps _ p).
  - apply Forall_insert; [done|].
    destruct (m (memory c)).1 as [a|e|]; [apply Hf|apply caller_end..].
Qed.

Lemma sections_calls (c c' : config S L) :
  rtc sections c c' -> J (memory c) -> Forall caller (threads c) ->
  rtc call_step (memory c, threads c) (memory c', threads c') /\ J (memory c').
Proof.
  induction 1 as [c|c c1 c' [i Hs] _ IH]; intros Hw Hc; [by split; [constructor|]|].
  destruct (section_call i c c1) as (Hstep & Hw1 & Hc1); [done..|].
  destruct (IH Hw1 Hc1). split; [|done]. by eapply rtc_l.
Qed.

(** Whenever the mutex is free, whole calls lead there. *)
Lemma calls_serializable s ps c :
  J s -> Forall caller ps -> rtc moves (spawn s ps) c -> owner c = None ->
  rtc call_step (s, ps) (memory c, threads c) /\ J (memory c).
Proof.
  intros Hs Hps Hr Ho.
  pose proof (serializable True (spawn s ps) c eq_refl (callers_disciplined s ps Hps) Hr) as Hw.
  unfold on_the_way in Hw. rewrite Ho in Hw. by apply (sections_calls (spawn s ps) c).
Qed.
End calls.

(** ** One thread that runs ahead *)

Section ahead.
Context {S L : Type}.

(** What a program does alone it can do among others, when they let it, and in any
    place of a larger one ([K]). *)
Lemma run_moves_in {A} (K : prog S L A -> prog S L unit) i h q s r s' h' ps :
  (forall k, K (Lock k) = Lock (K k)) -> (forall k, K (Unlock k) = Unlock (K k)) ->
  (forall a f k, K (Step a f k) = Step a f (fun s => K (k s))) ->
  run h q s = Some (r, s', h') -> r <> Undefined -> ps !! i = Some (K q) ->
  rtc moves (mkConfig s (if h then Some i else None) ps)
    (mkConfig s' (if h' then Some i else None) (<[i := K (Done r)]> ps)).
Proof.
  intros Hl Hu Hs Hr Hd. revert h s ps Hr.
  induction q as [r0| |k IH|k IH|a f k IH]; cbn; intros h s ps Hr Hp.
  { injection Hr as -> -> ->. by rewrite list_insert_id. }
  { done. }
  all: pose proof (lookup_lt_Some _ _ _ Hp); rewrite ?Hl, ?Hu, ?Hs in Hp.
  - destruct h; [by injection Hr as <- _ _|].
    eapply rtc_l; [exists i; unfold perform; cbn; rewrite Hp; reflexivity|]. cbn.
    rewrite <- (list_insert_insert_eq ps i (K (Done r)) (K k)).
    by apply (IH true); [|apply list_lookup_insert_eq].
  - destruct h; [|by injection Hr as <- _ _].
    eapply rtc_l; [exists i; unfold perform; cbn; rewrite Hp; cbn; by rewrite decide_True|]. cbn.
    rewrite <- (list_insert_insert_eq ps i (K (Done r)) (K k)).
    by apply (IH false); [|apply list_lookup_insert_eq].
  - eapply rtc_l; [exists i; unfold perform; cbn; rewrite Hp; reflexivity|]. cbn.
    rewrite <- (list_insert_insert_eq ps i (K (Done r)) (K (k s))).
    by apply (IH s h); [|apply list_lookup_insert_eq].
Qed.

(** To its end. *)
Lemma run_moves i h (p : prog S L unit) s r s' h' ps :
  run h p s = Some (r, s', h') -> r <> Undefined -> ps !! i = Some p ->
  rtc moves (mkConfig s (if h then Some i else None) ps)
    (mkConfig s' (if h' then Some i else None) (<[i := Done r]> ps)).
Proof. by apply (run_moves_in (fun q => q)). Qed.

(** To the end of its first part. *)
Lemma run_moves_bind {A} i h (q : prog S L A) f s x s' h' ps :
  run h q s = Some (Ret x, s', h') -> ps !! i = Some (q ≫= f) ->
  rtc moves (mkConfig s (if h then Some i else None) ps)
    (mkConfig s' (if h' then Some i else None) (<[i := f x]> ps)).
Proof.
  intros Hr Hp. change (f x) with (Done (Ret x) ≫= f).
  by apply (run_moves_in (fun q => q ≫= f) i h q s (Ret x) s' h' ps).
Qed.

(** The same under a lock; the thread is where the list is updated. *)
Lemma hop_locked {A} i (q : prog S L A) (f : A -> prog S L unit) s x s' ps c :
  run true q s = Some (Ret x, s', true) -> (i < length ps)%nat ->
  rtc moves (mkConfig s' (Some i) (<[i := unlock_after (f x)]> ps)) c ->
  rtc moves (mkConfig s (Some i) (<[i := unlock_after (q ≫= f)]> ps)) c.
Proof.
  intros Hr Hi H. etrans; [|exact H].
  rewrite <- (list_insert_insert_eq ps i (unlock_after (f x)) (unlock_after (q ≫= f))).
  change (f x) with (Done (Ret x) ≫= f).
  apply (run_moves_in (fun q => unlock_after (q ≫= f)) i true q s (Ret x) s' true
    (<[i := unlock_after (q ≫= f)]> ps)); try done. by apply list_lookup_insert_eq.
Qed.
End ahead.
