(* ===== verification/Client.v ===== *)
(** * quicr::QuicRClient (include/quicr/quicr_client.h, src/quicr_client.cpp)

    The state of a client with the parts of its surroundings the code changes:
    the process-wide reassembly buffers (the file's static variables), the
    packets handed to the transport, the received data waiting in it, and the
    calls made to the application.  Operations are in the monad [M t].

    Applications appear through [SubscriberApp]: which delegates still exist
    when a [weak_ptr] is locked, and which of them move the data out of the
    [bytes&&] they get.  Callbacks are recorded; they do not call back into the
    client, and each operation is one step: for delegates that do, for the mutex
    and for several threads see [ClientThreads].  Logging and sleeping leave no
    trace in the state. *)

From S2P Require Export Transport.

(** [std::weak_ptr]: empty, or designating an object. *)
Abbreviation weak_ptr := (option Z).

Class SubscriberApp := {
  alive : Z -> bool;
  consumes : Z -> bool;
}.

Definition lock `{SubscriberApp} (w : weak_ptr) : option Z :=
  match w with Some d => if alive d then Some d else None | None => None end.

Module QuicRClient.

Inductive State := Unknown | Pending | Ready.
#[export] Instance State_eq_dec : EqDecision State.
Proof. solve_decision. Defined.

Inductive ClientStatus := READY | CONNECTING | RELAY_HOST_INVALID
  | RELAY_PORT_INVALID | RELAY_NOT_CONNECTED | TRANSPORT_ERROR | UNAUTHORIZED
  | TERMINATED.

Record SubscribeContext := mkSubscribeContext {
  sc_state : State;
  sc_transport_context_id : Z;
  sc_transport_stream_id : Z;
  sc_transaction_id : Z;
}.
Definition SubscribeContext_init : SubscribeContext :=
  mkSubscribeContext Unknown 0 0 0.

Record PublishContext := mkPublishContext {
  pc_state : State;
  pc_transport_context_id : Z;
  pc_transport_stream_id : Z;
  pc_group_id : Z;
  pc_object_id : Z;
  pc_offset : Z;
}.
Definition PublishContext_init : PublishContext :=
  mkPublishContext Unknown 0 0 0 0 0.

(** The calls of delegate methods. *)
Inductive Event :=
  | onSubscribeResponse (d : Z) (ns : Namespace) (status : SubscribeStatus.t)
  | onSubscriptionEnded (d : Z) (ns : Namespace) (reason : SubscribeStatus.t)
  | onSubscribedObject (d : Z) (name : Name) (priority expiry_age_ms : Z)
      (use_reliable_transport : bool) (data : bytes)
  | onPublishIntentResponse (d : Z) (ns : Namespace) (status : Response.t).

(** offset -> data, for one name; and the names of one buffer *)
Abbreviation frag_map := (list (Z * bytes)).
Abbreviation frag_buffer := (list (Name * frag_map)).

Record t := mk {
  need_pacing : bool;
  client_status : ClientStatus;
  transport_context_id : Z;
  transport_stream_id : Z;
  sub_delegates : list (Namespace * weak_ptr);
  pub_delegates : list (Namespace * weak_ptr);
  subscribe_state : list (Namespace * SubscribeContext);
  publish_state : list (Name * PublishContext);
  MAX_FRAGMENT_NAMES_PENDING_PER_BUFFER : Z;
  MAX_FRAGMENT_BUFFERS : Z;
  (* static variables *)
  fragments : list (Z * frag_buffer);
  cindex : Z;
  (* the transport and the application *)
  rx : list bytes;
  tx : list Packet;
  events : list Event;
}.

(** A new client; the static variables keep their values. *)
Definition init (need_pacing : bool) (context_id stream_id : Z)
    (fragments : list (Z * frag_buffer)) (cindex : Z) : t :=
  {| need_pacing := need_pacing; client_status := TERMINATED;
     transport_context_id := context_id; transport_stream_id := stream_id;
     sub_delegates := []; pub_delegates := []; subscribe_state := [];
     publish_state := [];
     MAX_FRAGMENT_NAMES_PENDING_PER_BUFFER := 5000; MAX_FRAGMENT_BUFFERS := 20;
     fragments := fragments; cindex := cindex; rx := []; tx := []; events := [] |}.

(** ** Assignments to the members *)

Definition with_sub_delegates (v : list (Namespace * weak_ptr)) (c : t) : t :=
  mk (need_pacing c) (client_status c) (transport_context_id c)
    (transport_stream_id c) v (pub_delegates c) (subscribe_state c)
    (publish_state c) (MAX_FRAGMENT_NAMES_PENDING_PER_BUFFER c)
    (MAX_FRAGMENT_BUFFERS c) (fragments c) (cindex c) (rx c) (tx c) (events c).
Definition with_pub_delegates (v : list (Namespace * weak_ptr)) (c : t) : t :=
  mk (need_pacing c) (client_status c) (transport_context_id c)
    (transport_stream_id c) (sub_delegates c) v (subscribe_state c)
    (publish_state c) (MAX_FRAGMENT_NAMES_PENDING_PER_BUFFER c)
    (MAX_FRAGMENT_BUFFERS c) (fragments c) (cindex c) (rx c) (tx c) (events c).
Definition with_subscribe_state (v : list (Namespace * SubscribeContext)) (c : t) : t :=
  mk (need_pacing c) (client_status c) (transport_context_id c)
    (transport_stream_id c) (sub_delegates c) (pub_delegates c) v
    (publish_state c) (MAX_FRAGMENT_NAMES_PENDING_PER_BUFFER c)
    (MAX_FRAGMENT_BUFFERS c) (fragments c) (cindex c) (rx c) (tx c) (events c).
Definition with_publish_state (v : list (Name * PublishContext)) (c : t) : t :=
  mk (need_pacing c) (client_status c) (transport_context_id c)
    (transport_stream_id c) (sub_delegates c) (pub_delegates c) (subscribe_state c)
    v (MAX_FRAGMENT_NAMES_PENDING_PER_BUFFER c)
    (MAX_FRAGMENT_BUFFERS c) (fragments c) (cindex c) (rx c) (tx c) (events c).
Definition with_fragments (v : list (Z * frag_buffer)) (i : Z) (c : t) : t :=
  mk (need_pacing c) (client_status c) (transport_context_id c)
    (transport_stream_id c) (sub_delegates c) (pub_delegates c) (subscribe_state c)
    (publish_state c) (MAX_FRAGMENT_NAMES_PENDING_PER_BUFFER c)
    (MAX_FRAGMENT_BUFFERS c) v i (rx c) (tx c) (events c).
Definition with_io (r : list bytes) (x : list Packet) (e : list Event) (c : t) : t :=
  mk (need_pacing c) (client_status c) (transport_context_id c)
    (transport_stream_id c) (sub_delegates c) (pub_delegates c) (subscribe_state c)
    (publish_state c) (MAX_FRAGMENT_NAMES_PENDING_PER_BUFFER c)
    (MAX_FRAGMENT_BUFFERS c) (fragments c) (cindex c) r x e.

(** ** The client's surroundings *)

(** A call of a delegate method. *)
Definition notify (e : Event) : M t unit :=
  modify (fun c => with_io (rx c) (tx c) (events c ++ [e]) c).

(** [transport->enqueue(...) == TransportError::None] *)
Definition enqueue `{ITransport} (context_id stream_id : Z) (data : bytes) : M t bool :=
  fun c =>
    let p := mkPacket context_id stream_id data in
    (Ret (enqueue_none (tx c) p), with_io (rx c) (tx c ++ [p]) (events c) c).

(** [transport->dequeue(...)] *)
Definition dequeue : M t (option bytes) :=
  fun c =>
    match rx c with
    | [] => (Ret None, c)
    | d :: r => (Ret (Some d), with_io r (tx c) (events c) c)
    end.

Section client.
Context {T : Target} {Tr : ITransport} {App : SubscriberApp}.

(** [m[ns].lock()] for the two maps of delegates *)
Definition lock_sub (ns : Namespace) : M t (option Z) := fun c =>
  let '(w, m) := subscript (sub_delegates c) ns None in
  (Ret (lock w), with_sub_delegates m c).
Definition lock_pub (ns : Namespace) : M t (option Z) := fun c =>
  let '(w, m) := subscript (pub_delegates c) ns None in
  (Ret (lock w), with_pub_delegates m c).

(** ** Publisher API *)

Definition publishIntent (pub_delegate : weak_ptr) (ns : Namespace)
    (payload : bytes) (draw : Z) : M t bool :=
  pds ← gets pub_delegates;
  (if contains_key pds ns then mret tt
   else modify (with_pub_delegates (assign pds ns pub_delegate)));;
  c ← gets id;
  stream_id ← lift (uintVar (transport_stream_id c));
  capable ← lift (uintVar 1);
  msg ← lift (serialize (put_PublishIntent
    (mkPublishIntent MessageType.PublishIntent (create_transaction_id draw) ns
       payload stream_id capable)));
  enqueue (transport_context_id c) (transport_stream_id c) msg.

Definition publishIntentEnd (ns : Namespace) : M t unit :=
  pds ← gets pub_delegates;
  if contains_key pds ns then
    modify (with_pub_delegates (erase pds ns));;
    msg ← lift (serialize (put_PublishIntentEnd
      (mkPublishIntentEnd MessageType.PublishIntentEnd ns [])));
    c ← gets id;
    enqueue (transport_context_id c) (transport_stream_id c) msg;;
    mret tt
  else mret tt.

(** ** Subscriber API *)

Definition subscribe (subscriber_delegate : weak_ptr) (ns : Namespace)
    (intent : SubscribeIntent.t) (draw : Z) : M t unit :=
  sds ← gets sub_delegates;
  (if contains_key sds ns then mret tt
   else modify (with_sub_delegates (assign sds ns subscriber_delegate)));;
  let transaction_id := create_transaction_id draw in
  msg ← lift (serialize (put_Subscribe (mkSubscribe 1 transaction_id ns intent)));
  c ← gets id;
  if negb (contains_key (subscribe_state c) ns) then
    modify (with_subscribe_state
      (assign (subscribe_state c) ns
         (mkSubscribeContext Pending (transport_context_id c)
            (transport_stream_id c) transaction_id)));;
    enqueue (transport_context_id c) (transport_stream_id c) msg;;
    mret tt
  else
    let '(ctx, m) := subscript (subscribe_state c) ns SubscribeContext_init in
    modify (with_subscribe_state m);;
    if decide (sc_state ctx = Ready) then mret tt
    else
      enqueue (transport_context_id c) (transport_stream_id c) msg;;
      mret tt.

(** The branch of [removeSubscribeState] for one namespace. *)
Definition removeSubscribeState_one (ns : Namespace) (reason : SubscribeStatus.t)
    : M t unit :=
  st ← gets subscribe_state;
  (if contains_key st ns then modify (with_subscribe_state (erase st ns))
   else mret tt);;
  sds ← gets sub_delegates;
  if contains_key sds ns then
    d ← lock_sub ns;
    (match d with
     | Some d => notify (onSubscriptionEnded d ns reason)
     | None => mret tt
     end);;
    modify (fun c => with_sub_delegates (erase (sub_delegates c) ns) c)
  else mret tt.
Definition removeSubscribeState (all : bool) (ns : Namespace)
    (reason : SubscribeStatus.t) : M t unit :=
  if all then
    st ← gets subscribe_state;
    mfor (map fst st) (fun ns => removeSubscribeState_one ns reason)
  else removeSubscribeState_one ns reason.

Definition unsubscribe (ns : Namespace) : M t unit :=
  msg ← lift (serialize (put_Unsubscribe (mkUnsubscribe 1 ns)));
  st ← gets subscribe_state;
  (if contains_key st ns then modify (with_subscribe_state (erase st ns))
   else mret tt);;
  c ← gets id;
  enqueue (transport_context_id c) (transport_stream_id c) msg;;
  mret tt.

(** ** Publication of objects *)

(** [bytes(data.begin() + from, data.begin() + from + len)] *)
Definition slice (data : bytes) (from len : Z) : result bytes :=
  if ((0 <=? from) && (from + len <=? Z.of_nat (length data)))%bool
  then Ret (take (Z.to_nat len) (drop (Z.to_nat from) data))
  else Undefined.

(** The conversion of an [int] to [uintVar_t]. *)
Definition uintVar_of_int (x : Z) : result Z := uintVar (wrap 64 x).

Definition with_media (d : PublishDatagram) (offset_and_fin : Z) (data : bytes)
    : result PublishDatagram :=
  len ← uintVar (Z.of_nat (length data));
  let h := header d in
  mret (mkPublishDatagram
    (mkHeader (media_id h) (name h) (group_id h) (object_id h) offset_and_fin (flags h))
    (media_type d) len data).

(** The [while] loop; [frag_num] is its counter. The result is the offset
    after it, or [None] when the function returned early. *)
Fixpoint publish_fragments (datagram : PublishDatagram) (data : bytes)
    (frag_num : nat) (frag_remaining_bytes offset stream_id : Z) : M t (option Z) :=
  match frag_num with
  | O => mret (Some offset)
  | S frag_num' =>
      offset_and_fin ← lift (uintVar_of_int
        (if ((Z.of_nat frag_num' =? 0) && (frag_remaining_bytes =? 0))%bool
         then wrap_int (Z.shiftl offset 1) + 1
         else wrap_int (Z.shiftl offset 1)));
      frag_data ← lift (slice data offset MAX_TRANSPORT_DATA_SIZE);
      datagram' ← lift (with_media datagram offset_and_fin frag_data);
      msg ← lift (serialize (put_PublishDatagram datagram'));
      offset' ← lift (int_op (offset + MAX_TRANSPORT_DATA_SIZE));
      cid ← gets transport_context_id;
      ok ← enqueue cid stream_id msg;
      if (ok : bool)
      then publish_fragments datagram' data frag_num' frag_remaining_bytes offset' stream_id
      else mret None
  end.

Definition publishNamedObject (quicr_name : Name) (data : bytes) : M t unit :=
  c ← gets id;
  let '(context, m) :=
    if negb (contains_key (publish_state c) quicr_name)
    then (mkPublishContext Pending (transport_context_id c) (transport_stream_id c) 0 0 0,
          publish_state c)
    else subscript (publish_state c) quicr_name PublishContext_init in
  modify (with_publish_state m);;
  mid ← lift (uintVar (pc_transport_stream_id context));
  gid ← lift (uintVar (pc_group_id context));
  oid ← lift (uintVar (pc_object_id context));
  let datagram :=
    mkPublishDatagram (mkHeader mid quicr_name gid oid 1 0) MediaType.RealtimeMedia 0 [] in
  let size := Z.of_nat (length data) in
  if size <=? MAX_TRANSPORT_DATA_SIZE then
    datagram' ← lift (with_media datagram 1 data);
    msg ← lift (serialize (put_PublishDatagram datagram'));
    enqueue (transport_context_id c) (pc_transport_stream_id context) msg;;
    mret tt
  else
    let frag_num := wrap_int (size / MAX_TRANSPORT_DATA_SIZE) in
    let frag_remaining_bytes := wrap_int (size mod MAX_TRANSPORT_DATA_SIZE) in
    r ← publish_fragments datagram data (Z.to_nat frag_num) frag_remaining_bytes 0
          (pc_transport_stream_id context);
    match r with
    | None => mret tt
    | Some offset =>
        if frag_remaining_bytes =? 0 then mret tt
        else
          offset_and_fin ← lift (uintVar_of_int (wrap_int (Z.shiftl offset 1) + 1));
          frag_data ← lift (slice data offset (size - offset));
          datagram' ← lift (with_media datagram offset_and_fin frag_data);
          msg ← lift (serialize (put_PublishDatagram datagram'));
          enqueue (transport_context_id c) (pc_transport_stream_id context) msg;;
          mret tt
    end.

Definition publishNamedObjectFragment : M t unit := throw runtime_error.

(** ** Reassembly *)

(** The loop over the fragments; [None] is its [return false]. *)
Fixpoint reassemble (m : frag_map) (seq_bytes : Z) (reassembled : bytes)
    : result (option bytes) :=
  match m with
  | [] => Ret (Some reassembled)
  | (key, data) :: m' =>
      diff ← int_op (Z.shiftr key 1 - seq_bytes);
      if diff =? 0
      then reassemble m' (wrap_int (seq_bytes + Z.of_nat (length data)))
             (reassembled ++ data)
      else Ret None
  end.

Definition deliver (entry : Namespace * weak_ptr) (name : Name) (data : bytes)
    : M t bool :=
  inside ← lift (contains entry.1 name);
  if (inside : bool) then
    d ← lock_sub entry.1;
    match d with
    | Some d => notify (onSubscribedObject d name 0 0 false data);; mret (consumes d)
    | None => mret false
    end
  else mret false.

Definition notify_pub_fragment (datagram : PublishDatagram) (m : frag_map)
    : M t bool :=
  match rbegin m with
  | None => undefined
  | Some (key, _) =>
      if negb (Z.land key 1 =? 1) then mret false
      else
        r ← lift (reassemble m 0 []);
        match r with
        | None => mret false
        | Some reassembled =>
            sds ← gets sub_delegates;
            mfor sds (fun entry =>
              deliver entry (name (header datagram)) reassembled;; mret tt);;
            mret true
        end
  end.

(** The first buffer that holds the name. *)
Fixpoint search_buffers (fs : list (Z * frag_buffer)) (n : Name)
    : option (Z * (Name * frag_map)) :=
  match fs with
  | [] => None
  | (i, buf) :: fs' =>
      match find buf n with
      | Some node => Some (i, node)
      | None => search_buffers fs' n
      end
  end.

(** [msg_iter->second = m], for an iterator into the buffer [i] *)
Definition set_fragments (i : Z) (n : Name) (m : frag_map) : M t unit :=
  modify (fun c =>
    let '(buf, fs) := subscript (fragments c) i [] in
    with_fragments (assign fs i (assign buf n m)) (cindex c) c).

(** [fragments[cindex].erase(msg_iter)], for an iterator into the buffer [i]:
    erasing an iterator of another container is undefined. *)
Definition erase_fragments (i : Z) (n : Name) : M t unit :=
  c ← gets id;
  let index := wrap_int (cindex c) in
  let '(buf, fs) := subscript (fragments c) index [] in
  if i =? index
  then modify (with_fragments (assign fs index (erase buf n)) (cindex c))
  else undefined.

(** [if (fragments[cindex].size() >= MAX...) ...] *)
Definition rotate_buffers : M t unit :=
  modify (fun c =>
    let '(buf, fs) := subscript (fragments c) (wrap_int (cindex c)) [] in
    if MAX_FRAGMENT_NAMES_PENDING_PER_BUFFER c <=? Z.of_nat (length buf) then
      let cindex' :=
        if cindex c <? MAX_FRAGMENT_BUFFERS c then wrap 32 (cindex c + 1) else 1 in
      with_fragments (erase fs (wrap_int cindex')) cindex' c
    else with_fragments fs (cindex c) c).

(** The key of a fragment: [uintVar_t] converted to [int]. *)
Definition fragment_key (datagram : PublishDatagram) : Z :=
  wrap_int (offset_and_fin (header datagram)).

(** The body shared by the two "Found" branches, for an iterator into the
    buffer [i] at a node with value [m]. *)
Definition update_fragments (datagram : PublishDatagram) (i : Z) (m : frag_map)
    : M t unit :=
  let n := name (header datagram) in
  let m' := emplace m (fragment_key datagram) (media_data datagram) in
  set_fragments i n m';;
  complete ← notify_pub_fragment datagram m';
  if (complete : bool) then erase_fragments i n else mret tt.

Definition handle_pub_fragment (datagram : PublishDatagram) : M t unit :=
  let n := name (header datagram) in
  c ← gets id;
  let index := wrap_int (cindex c) in
  let '(buf, fs) := subscript (fragments c) index [] in
  modify (with_fragments fs (cindex c));;
  (match find buf n with
   | Some (_, m) => update_fragments datagram index m
   | None =>
       match search_buffers fs n with
       | Some (i, (_, m)) => update_fragments datagram i m
       | None =>
           (* fragments[cindex][name].emplace(...) *)
           let '(m, buf') := subscript buf n [] in
           modify (with_fragments
             (assign fs index
                (assign buf' n (emplace m (fragment_key datagram) (media_data datagram))))
             (cindex c))
       end
   end);;
  rotate_buffers.

(** ** Received messages *)

(** The loop over the delegates; the data is gone once a delegate took it. *)
Fixpoint deliver_moving (entries : list (Namespace * weak_ptr)) (n : Name)
    (data : bytes) : M t unit :=
  match entries with
  | [] => mret tt
  | entry :: entries' =>
      moved ← deliver entry n data;
      deliver_moving entries' n (if (moved : bool) then [] else data)
  end.

Definition handle (msg : bytes) : M t unit :=
  match msg with
  | [] => mret tt
  | front :: _ =>
      match (enum_of_u8 front : MessageType.t) with
      | MessageType.SubscribeResponse =>
          response ← on_local msg get_SubscribeResponse;
          sds ← gets sub_delegates;
          if contains_key sds (subr_namespace response) then
            d ← lock_sub (subr_namespace response);
            match d with
            | Some d =>
                notify (onSubscribeResponse d (subr_namespace response)
                          (subr_response response))
            | None => mret tt
            end
          else mret tt
      | MessageType.SubscribeEnd =>
          subEnd ← on_local msg get_SubscribeEnd;
          removeSubscribeState false (sube_namespace subEnd) (sube_reason subEnd)
      | MessageType.Publish =>
          datagram ← on_local msg get_PublishDatagram;
          if uintVar_eqb (offset_and_fin (header datagram)) 1 then
            sds ← gets sub_delegates;
            deliver_moving sds (name (header datagram)) (media_data datagram)
          else handle_pub_fragment datagram
      | MessageType.PublishIntentResponse =>
          response ← on_local msg get_PublishIntentResponse;
          pds ← gets pub_delegates;
          if negb (contains_key pds (pir_namespace response)) then mret tt
          else
            d ← lock_pub (pir_namespace response);
            match d with
            | Some d =>
                notify (onPublishIntentResponse d (pir_namespace response)
                          (pir_response response))
            | None => mret tt
            end
      | _ => mret tt
      end
  end.

(** ** Transport delegate *)

Definition on_connection_status (st : TransportStatus) : M t unit :=
  if decide (st = Disconnected)
  then removeSubscribeState true (mkNamespace (mkName 0 0) 0)
         SubscribeStatus.ConnectionClosed
  else mret tt.

(** [for (int i = 0; i < 150; i++)]: both [catch] clauses return. *)
Fixpoint on_recv_notify_loop (n : nat) : M t unit :=
  match n with
  | O => mret tt
  | S n' =>
      data ← dequeue;
      match data with
      | None => mret tt
      | Some msg =>
          go ← try_catch (handle msg;; mret true) (fun _ => Some (mret false));
          if (go : bool) then on_recv_notify_loop n' else mret tt
      end
  end.
Definition on_recv_notify : M t unit := on_recv_notify_loop 150.

(** ** Construction and destruction *)

(** [TransportRemote] of a relay *)
Definition transport_remote (relay : RelayInfo) : chars * Z * Protocol.t :=
  (hostname relay, port relay,
   match proto relay with Protocol.UDP => Protocol.UDP | _ => Protocol.QUIC end).

(** The body of the loop polls the status once more, for its log message. *)
Definition make_transport (fuel : nat) (c : t) : option (result t) :=
  n ← wait_while_connecting 2 fuel 0;
  if decide (status n = Transport.Ready) then
    Some (Ret (mk (need_pacing c) (client_status c) start (createStream start false)
      (sub_delegates c) (pub_delegates c) (subscribe_state c) (publish_state c)
      (MAX_FRAGMENT_NAMES_PENDING_PER_BUFFER c) (MAX_FRAGMENT_BUFFERS c)
      (fragments c) (cindex c) (rx c) (tx c) (events c)))
  else Some (Throw runtime_error).

(** [QuicRClient(RelayInfo&, TransportConfig, LogHandler&)]; the ids are
    uninitialised until [make_transport] sets them. *)
Definition QuicRClient_relay (fuel : nat) (relay : RelayInfo) (cid : Z)
    (fs : list (Z * frag_buffer)) (ci : Z) : option (result t) :=
  make_transport fuel
    (init (match proto relay with Protocol.UDP => true | _ => false end) cid 0 fs ci).

(** [QuicRClient(std::shared_ptr<ITransport>)] does not start the transport:
    its context id stays uninitialised ([cid]). *)
Definition QuicRClient_transport (cid : Z) (fs : list (Z * frag_buffer)) (ci : Z) : t :=
  init false cid 0 fs ci.

Definition destruct_client : M t unit :=
  removeSubscribeState true (mkNamespace (mkName 0 0) 0)
    SubscribeStatus.ConnectionClosed.
End client.

(** * Frame lemmas: what an operation leaves alone *)

(** More calls of delegates, and nothing else. *)
Definition emit (ev : list Event) (c : t) : t :=
  with_io (rx c) (tx c) (events c ++ ev) c.

Lemma emit_nil c : emit [] c = c.
Proof. unfold emit. rewrite app_nil_r. by destruct c. Qed.
Lemma emit_emit e1 e2 c : emit e2 (emit e1 c) = emit (e1 ++ e2) c.
Proof. unfold emit, with_io. simpl. by rewrite app_assoc. Qed.
Lemma emit_fragments ev fs i c : emit ev (with_fragments fs i c) = with_fragments fs i (emit ev c).
Proof. done. Qed.
Lemma with_fragments_twice fs i fs' i' c :
  with_fragments fs' i' (with_fragments fs i c) = with_fragments fs' i' c.
Proof. done. Qed.
Lemma with_fragments_id c : with_fragments (fragments c) (cindex c) c = c.
Proof. by destruct c. Qed.
Lemma with_sub_delegates_id c : with_sub_delegates (sub_delegates c) c = c.
Proof. by destruct c. Qed.

Section delivery.
Context {T : Target} {Tr : ITransport} {App : SubscriberApp}.

Lemma lock_sub_elem e c :
  sorted (sub_delegates c) -> e ∈ sub_delegates c ->
  lock_sub e.1 c = (Ret (lock e.2), c).
Proof.
  intros Hs He. unfold lock_sub. destruct e as [ns w].
  rewrite (subscript_elem _ ns w) by done. by rewrite with_sub_delegates_id.
Qed.

(** The call an object makes at one entry of the map. *)
Definition object_events (e : Namespace * weak_ptr) (n : Name) (data : bytes)
    : list Event :=
  match lock e.2 with
  | Some d => [onSubscribedObject d n 0 0 false data]
  | None => []
  end.
Definition entry_consumes (e : Namespace * weak_ptr) : bool :=
  match lock e.2 with Some d => consumes d | None => false end.

Lemma deliver_run e n data c :
  sorted (sub_delegates c) -> e ∈ sub_delegates c ->
  deliver e n data c
  = match contains e.1 n with
    | Ret true => (Ret (entry_consumes e), emit (object_events e n data) c)
    | Ret false => (Ret false, c)
    | Throw x => (Throw x, c)
    | Undefined => (Undefined, c)
    end.
Proof.
  intros Hs He. unfold deliver, object_events, entry_consumes, mbind, M_bind, lift.
  destruct (contains e.1 n) as [[]|x|]; [|done..].
  rewrite lock_sub_elem by done. destruct (lock e.2) as [d|]; [done|].
  by rewrite emit_nil.
Qed.

Lemma deliver_emits e n data c :
  sorted (sub_delegates c) -> e ∈ sub_delegates c ->
  exists ev, (deliver e n data c).2 = emit ev c.
Proof.
  intros Hs He. rewrite deliver_run by done.
  destruct (contains e.1 n) as [[]|x|]; eexists; try done; symmetry; apply emit_nil.
Qed.

Lemma deliver_all_emits l n data c :
  sorted (sub_delegates c) -> (forall e, e ∈ l -> e ∈ sub_delegates c) ->
  exists ev, (mfor l (fun e => deliver e n data;; mret tt) c).2 = emit ev c.
Proof.
  revert c. induction l as [|e l IH]; intros c Hs Hl.
  { exists []. by rewrite emit_nil. }
  cbn [mfor]. destruct (deliver_emits e n data c) as [ev E]; [done|apply Hl; by left|].
  unfold mbind, M_bind. destruct (deliver e n data c) as [[b|x|] c1]; simpl in *; subst c1;
    [|by exists ev..].
  destruct (IH (emit ev c)) as [ev' E']; [done| |].
  { intros e' He'. apply Hl. by right. }
  exists (ev ++ ev'). rewrite <- emit_emit. exact E'.
Qed.

Lemma deliver_moving_emits l n data c :
  sorted (sub_delegates c) -> (forall e, e ∈ l -> e ∈ sub_delegates c) ->
  exists ev, (deliver_moving l n data c).2 = emit ev c.
Proof.
  revert data c. induction l as [|e l IH]; intros data c Hs Hl.
  { exists []. by rewrite emit_nil. }
  cbn [deliver_moving].
  destruct (deliver_emits e n data c) as [ev E]; [done|apply Hl; by left|].
  unfold mbind, M_bind. destruct (deliver e n data c) as [[b|x|] c1]; simpl in *; subst c1;
    [|by exists ev..].
  destruct (IH (if b then [] else data) (emit ev c)) as [ev' E']; [done| |].
  { intros e' He'. apply Hl. by right. }
  exists (ev ++ ev'). rewrite <- emit_emit. exact E'.
Qed.

Lemma notify_pub_fragment_emits d m c :
  sorted (sub_delegates c) -> exists ev, (notify_pub_fragment d m c).2 = emit ev c.
Proof.
  intros Hs. unfold notify_pub_fragment.
  assert (exists ev, c = emit ev c) as Hc by (exists []; by rewrite emit_nil).
  destruct (rbegin m) as [[key x]|]; [|done].
  case_match; [done|]. unfold mbind, M_bind, lift.
  destruct (reassemble m 0 []) as [[r|]|x'|]; [|done..]. simpl.
  destruct (deliver_all_emits (sub_delegates c) (name (header d)) r c) as [ev E]; [done..|].
  destruct (mfor _ _ c) as [[[]|e|] c1]; simpl in *; subst c1; by exists ev.
Qed.
End delivery.

(** * The reassembly store *)

(** One buffer: at most [max] names, each with some fragment. *)
Definition ok_buffer (max : Z) (b : frag_buffer) : Prop :=
  sorted b /\ Z.of_nat (length b) <= max /\
  forall n m, at_key b n = Some m -> sorted m /\ m <> [].

(** No name is in two buffers. *)
Definition disjoint_buffers (fs : list (Z * frag_buffer)) : Prop :=
  forall i j bi bj n, at_key fs i = Some bi -> at_key fs j = Some bj ->
    contains_key bi n = true -> contains_key bj n = true -> i = j.

Record ok_store (max_names max_buffers : Z) (fs : list (Z * frag_buffer)) : Prop := {
  store_sorted : sorted fs;
  store_keys i b : at_key fs i = Some b -> 1 <= i <= max_buffers;
  store_buffers i b : at_key fs i = Some b -> ok_buffer max_names b;
  store_disjoint : disjoint_buffers fs;
}.

(** The buffer a subscript designates. *)
Definition buffer (fs : list (Z * frag_buffer)) (i : Z) : frag_buffer :=
  default [] (at_key fs i).

Section store.
Context (max_names max_buffers : Z) (Hmax : 0 <= max_names).
Implicit Types (fs : list (Z * frag_buffer)) (b : frag_buffer).

Lemma ok_buffer_nil : ok_buffer max_names [].
Proof. split; [constructor|]. by split. Qed.

Lemma buffer_ok fs i : ok_store max_names max_buffers fs -> ok_buffer max_names (buffer fs i).
Proof.
  intros Hf. unfold buffer. destruct (at_key fs i) as [b|] eqn:E; simpl.
  - by apply (store_buffers _ _ _ Hf i).
  - apply ok_buffer_nil.
Qed.

(** The one update there is: another buffer at an index, whose names are in
    no other buffer. *)
Lemma ok_store_assign fs i b :
  ok_store max_names max_buffers fs -> 1 <= i <= max_buffers -> ok_buffer max_names b ->
  (forall n j bj, contains_key b n = true -> at_key fs j = Some bj ->
     contains_key bj n = true -> j = i) ->
  ok_store max_names max_buffers (assign fs i b).
Proof.
  intros [Hs Hk Hb Hd] Hi Hok Hn. unfold assign. split.
  - by apply sorted_insert_node.
  - intros j b'. rewrite at_key_insert by done. case_decide; [by subst|apply Hk].
  - intros j b'. rewrite at_key_insert by done.
    case_decide; [intros; by simplify_eq | apply Hb].
  - intros j1 j2 b1 b2 n. rewrite !at_key_insert by done.
    repeat case_decide; intros; simplify_eq/=; eauto.
    symmetry. eauto.
Qed.

Lemma ok_store_erase fs i :
  ok_store max_names max_buffers fs -> ok_store max_names max_buffers (erase fs i).
Proof.
  intros [Hs Hk Hb Hd]. split.
  - by apply sorted_erase.
  - intros j b. rewrite at_key_erase by done. case_decide; [done|apply Hk].
  - intros j b. rewrite at_key_erase by done. case_decide; [done|apply Hb].
  - intros j1 j2 b1 b2 n. rewrite !at_key_erase by done.
    repeat case_decide; [done..|]. apply Hd.
Qed.

Lemma ok_store_subscript fs i :
  ok_store max_names max_buffers fs -> 1 <= i <= max_buffers ->
  ok_store max_names max_buffers (subscript fs i []).2.
Proof.
  intros Hf Hi. unfold subscript. destruct (find fs i) as [[? ?]|] eqn:E; [done|].
  pose proof (ok_store_assign fs i [] Hf Hi ok_buffer_nil) as Ha. simpl.
  assert (emplace fs i [] = assign fs i []) as ->; [|by apply Ha].
  destruct Hf as [Hs _ _ _]. apply sorted_ext; [by apply sorted_insert_node..|].
  assert (at_key fs i = None) as E' by (unfold at_key; by rewrite E).
  assert (forall p, p ∈ emplace fs i [] <-> at_key (emplace fs i []) p.1 = Some p.2) as H1.
  { intros [k v]. split; [apply elem_at_key|apply at_key_elem]. by apply sorted_insert_node. }
  assert (forall p, p ∈ assign fs i [] <-> at_key (assign fs i []) p.1 = Some p.2) as H2.
  { intros [k v]. split; [apply elem_at_key|apply at_key_elem]. by apply sorted_insert_node. }
  intros p. rewrite H1, H2. unfold emplace, assign.
  rewrite !at_key_insert by done. by rewrite E'.
Qed.

Lemma search_buffers_spec fs n :
  sorted fs ->
  match search_buffers fs n with
  | Some (i, (n', m)) => n' = n /\ exists b, at_key fs i = Some b /\ at_key b n = Some m
  | None => forall i b, at_key fs i = Some b -> at_key b n = None
  end.
Proof.
  induction fs as [|[i b] fs IH]; intros Hs; [done|].
  pose proof (sorted_cons_inv _ _ _ Hs) as [Hs' Hall]. specialize (IH Hs').
  cbn [search_buffers]. rewrite find_at_key.
  destruct (at_key b n) as [m|] eqn:E; simpl.
  { split; [done|]. exists b. split; [|done]. apply elem_at_key; [done|]. by left. }
  assert (forall j b', at_key fs j = Some b' -> at_key ((i, b) :: fs) j = Some b') as Hup.
  { intros j b' Hj. apply elem_at_key; [done|]. right. by apply at_key_elem. }
  destruct (search_buffers fs n) as [[j [n' m]]|].
  - destruct IH as (-> & b' & Hj & Hm). split; [done|]. exists b'. split; [|done]. by apply Hup.
  - intros j b' Hj. apply at_key_elem, elem_of_cons in Hj as [Hj|Hj].
    + by simplify_eq.
    + apply (IH j). by apply elem_at_key.
Qed.
End store.

(** * The invariant of a client *)

(** Everything but the room left in the current buffer, which a fragment may
    use up until the buffers are rotated. *)
Record wf_base (c : t) : Prop := {
  wf_sub_delegates : sorted (sub_delegates c);
  wf_pub_delegates : sorted (pub_delegates c);
  wf_subscribe_state : sorted (subscribe_state c);
  wf_pending p : p ∈ subscribe_state c -> sc_state p.2 = Pending;
  wf_publish_state : publish_state c = [];
  wf_max_names : 1 <= MAX_FRAGMENT_NAMES_PENDING_PER_BUFFER c;
  wf_max_buffers : 1 <= MAX_FRAGMENT_BUFFERS c < 2 ^ 31;
  wf_cindex : 1 <= cindex c <= MAX_FRAGMENT_BUFFERS c;
  wf_store : ok_store (MAX_FRAGMENT_NAMES_PENDING_PER_BUFFER c)
               (MAX_FRAGMENT_BUFFERS c) (fragments c);
}.
Definition has_room (c : t) : Prop :=
  Z.of_nat (length (buffer (fragments c) (cindex c)))
  < MAX_FRAGMENT_NAMES_PENDING_PER_BUFFER c.
Definition wf (c : t) : Prop := wf_base c /\ has_room c.

Lemma wf_index c : wf_base c -> wrap_int (cindex c) = cindex c.
Proof.
  intros [????? ? ? ? ?]. unfold wrap_int. rewrite Z.mod_small; lia.
Qed.

Lemma wf_base_emit ev c : wf_base c -> wf_base (emit ev c).
Proof. intros []; by split. Qed.
Lemma wf_emit ev c : wf c -> wf (emit ev c).
Proof. intros [Hb Hr]. split; [by apply wf_base_emit|exact Hr]. Qed.
Lemma wf_with_io r x ev c : wf c -> wf (with_io r x ev c).
Proof. intros [[] Hr]. split; [by split|exact Hr]. Qed.

Lemma wf_base_fragments fs i c :
  wf_base c -> 1 <= i <= MAX_FRAGMENT_BUFFERS c ->
  ok_store (MAX_FRAGMENT_NAMES_PENDING_PER_BUFFER c) (MAX_FRAGMENT_BUFFERS c) fs ->
  wf_base (with_fragments fs i c).
Proof. intros []; by split. Qed.

Lemma wf_with_sub_delegates m c : wf c -> sorted m -> wf (with_sub_delegates m c).
Proof. intros [[] Hr] Hm. split; [by split|exact Hr]. Qed.
Lemma wf_with_pub_delegates m c : wf c -> sorted m -> wf (with_pub_delegates m c).
Proof. intros [[] Hr] Hm. split; [by split|exact Hr]. Qed.
Lemma wf_with_subscribe_state m c :
  wf c -> sorted m -> (forall p, p ∈ m -> sc_state p.2 = Pending) ->
  wf (with_subscribe_state m c).
Proof. intros [[] Hr] Hm Hp. split; [by split|exact Hr]. Qed.

Section reassembly.
Context {T : Target} {Tr : ITransport} {App : SubscriberApp}.

Lemma set_fragments_run i n m b c :
  at_key (fragments c) i = Some b ->
  set_fragments i n m c
  = (Ret tt, with_fragments (assign (fragments c) i (assign b n m)) (cindex c) c).
Proof. intros E. unfold set_fragments, modify. by rewrite (at_key_found _ _ _ _ E). Qed.

Lemma erase_fragments_run i n b c :
  wrap_int (cindex c) = cindex c -> at_key (fragments c) (cindex c) = Some b ->
  erase_fragments i n c
  = if i =? cindex c
    then (Ret tt, with_fragments (assign (fragments c) i (erase b n)) (cindex c) c)
    else (Undefined, c).
Proof.
  intros Hc E. unfold erase_fragments. cbv [mbind M_bind gets id].
  rewrite Hc, (at_key_found _ _ _ _ E).
  destruct (Z.eqb_spec i (cindex c)) as [->|]; done.
Qed.

Lemma rotate_buffers_wf c : wf_base c -> wf (rotate_buffers c).2.
Proof.
  intros Hc. pose proof Hc as [_ _ _ _ _ Hn Hb Hi Hs]. unfold rotate_buffers, modify.
  rewrite (wf_index c Hc).
  pose proof (subscript_value (fragments c) (cindex c) ([] : frag_buffer)) as Hv.
  assert (0 <= MAX_FRAGMENT_NAMES_PENDING_PER_BUFFER c) as Hn0 by lia.
  pose proof (ok_store_subscript _ _ Hn0 _ _ Hs Hi) as Hs'.
  pose proof (at_key_subscript (fragments c) (cindex c) ([] : frag_buffer) (cindex c)
    (store_sorted _ _ _ Hs)) as Hf. rewrite decide_True in Hf by done.
  destruct (subscript _ _ _) as [buf fs]. simpl in *. subst buf.
  destruct (Z.leb_spec (MAX_FRAGMENT_NAMES_PENDING_PER_BUFFER c)
    (Z.of_nat (length (default [] (at_key (fragments c) (cindex c)))))).
  - set (i' := if cindex c <? MAX_FRAGMENT_BUFFERS c then wrap 32 (cindex c + 1) else 1).
    assert (1 <= i' <= MAX_FRAGMENT_BUFFERS c) as Hi'.
    { unfold i'. destruct (Z.ltb_spec (cindex c) (MAX_FRAGMENT_BUFFERS c)); [|lia].
      rewrite wrap_small by (unfold in_u; lia). lia. }
    assert (wrap_int i' = i') as -> by (unfold wrap_int; rewrite Z.mod_small; lia).
    split; [apply wf_base_fragments; auto using ok_store_erase|].
    unfold has_room, buffer. simpl. rewrite at_key_erase by apply (store_sorted _ _ _ Hs').
    rewrite decide_True by done. simpl. lia.
  - split; [by apply wf_base_fragments|]. unfold has_room, buffer. simpl. rewrite Hf. simpl. lia.
Qed.

(** Replacing the fragments of a name that is there. *)
Lemma ok_store_update c i b n m m' :
  wf_base c -> at_key (fragments c) i = Some b -> at_key b n = Some m ->
  sorted m' -> m' <> [] ->
  ok_store (MAX_FRAGMENT_NAMES_PENDING_PER_BUFFER c) (MAX_FRAGMENT_BUFFERS c)
    (assign (fragments c) i (assign b n m')).
Proof.
  intros [_ _ _ _ _ Hn Hb Hi Hs] E En Hm Hne.
  destruct (store_buffers _ _ _ Hs _ _ E) as (Sb & Lb & Fb).
  apply ok_store_assign; [done|by apply (store_keys _ _ _ Hs i b)| |].
  - split; [by apply sorted_insert_node|]. split.
    + unfold assign. rewrite length_insert_node by done.
      rewrite contains_at_key, En. done.
    + intros n' m1. unfold assign. rewrite at_key_insert by done.
      case_decide; [intros; by simplify_eq|apply Fb].
  - intros n' j bj Hn' Ej Hj. apply (store_disjoint _ _ _ Hs j i bj b n'); [done..|].
    rewrite contains_at_key in Hn' |- *. unfold assign in Hn'.
    rewrite at_key_insert in Hn' by done. case_decide; [|done]. subst. by rewrite En.
Qed.

Lemma emplace_not_nil {K V} `{Less K} (m : list (K * V)) k v : emplace m k v <> [].
Proof. destruct m as [|[k0 v0] m]; simpl; [done|]. unfold emplace. simpl. by repeat case_match. Qed.

(** Changing a buffer without adding a name keeps the room there is. *)
Lemma has_room_assign c i b b' ev :
  wf_base c -> at_key (fragments c) i = Some b -> (length b' <= length b)%nat ->
  has_room c -> has_room (emit ev (with_fragments (assign (fragments c) i b') (cindex c) c)).
Proof.
  intros [_ _ _ _ _ _ _ _ Hs] E Hl. unfold has_room, buffer. simpl.
  unfold assign. rewrite at_key_insert by apply Hs.
  case_decide as Hi; [subst i; rewrite E; simpl; lia|done].
Qed.

Lemma length_assign_found {V} (b : list (Name * V)) n m m' :
  sorted b -> at_key b n = Some m -> length (assign b n m') = length b.
Proof.
  intros Hb En. unfold assign. by rewrite length_insert_node, contains_at_key, En by done.
Qed.

Lemma update_fragments_wf d i b m c :
  wf c -> at_key (fragments c) i = Some b ->
  is_Some (at_key (fragments c) (cindex c)) ->
  at_key b (name (header d)) = Some m ->
  safe (update_fragments d i m c).1 -> wf (update_fragments d i m c).2.
Proof.
  intros [Hc Hroom] E [bc Ec] En. pose proof Hc as [_ _ _ _ _ Hn Hb Hi Hs].
  destruct (store_buffers _ _ _ Hs _ _ E) as (Sb & Lb & Fb).
  destruct (Fb _ _ En) as [Sm _]. set (n := name (header d)) in *.
  set (m' := emplace m (fragment_key d) (media_data d)).
  assert (ok_store (MAX_FRAGMENT_NAMES_PENDING_PER_BUFFER c) (MAX_FRAGMENT_BUFFERS c)
    (assign (fragments c) i (assign b n m'))) as Hok.
  { apply (ok_store_update _ _ _ _ m); auto; [by apply sorted_insert_node|apply emplace_not_nil]. }
  unfold update_fragments. rewrite (run_bind_ret _ _ _ _ _ (set_fragments_run _ _ _ _ _ E)).
  fold n m'. set (c1 := with_fragments _ _ c).
  assert (forall ev, wf (emit ev c1)) as Hc1.
  { intros ev. split; [by apply wf_base_emit, wf_base_fragments|].
    apply (has_room_assign c i b); auto. by rewrite (length_assign_found b n m). }
  destruct (notify_pub_fragment_emits d m' c1 ltac:(apply Hc)) as [ev Eev].
  unfold mbind, M_bind. destruct (notify_pub_fragment d m' c1) as [[complete|e|] c2];
    simpl in Eev; subst c2; [|intros _; apply Hc1|intros []; done].
  destruct complete; [|intros _; apply Hc1]. fold n.
  assert (at_key (fragments (emit ev c1)) i = Some (assign b n m')) as E1.
  { simpl. unfold assign at 1. rewrite at_key_insert by apply Hs. by rewrite decide_True. }
  destruct (decide (i = cindex c)) as [->|Hne].
  - rewrite (erase_fragments_run _ _ (assign b n m')) by (done || apply wf_index, Hc1).
    change (cindex (emit ev c1)) with (cindex c). rewrite Z.eqb_refl. intros _. simpl.
    assert (assign (assign (fragments c) (cindex c) (assign b n m')) (cindex c)
              (erase (assign b n m') n) = assign (fragments c) (cindex c) (erase b n)) as ->.
    { unfold assign. rewrite insert_node_twice. f_equal.
      apply (erase_insert_same _ _ _ n _ m); [done|]. by rewrite find_at_key, En. }
    assert (length (erase b n) <= length b)%nat as Hle.
    { rewrite length_erase. case_match; lia. }
    split; [|by apply (has_room_assign c (cindex c) b _ ev)].
    apply (wf_base_emit ev (with_fragments _ _ c)), wf_base_fragments; [done..|].
    apply ok_store_assign; [done|done| |].
    + split; [by apply sorted_erase|]. split; [lia|]. intros n' m1.
      rewrite at_key_erase by done. case_decide; [done|apply Fb].
    + intros n' j bj Hn' Ej Hj. rewrite contains_at_key in Hn'.
      rewrite at_key_erase in Hn' by done. case_decide; [done|].
      apply (store_disjoint _ _ _ Hs j (cindex c) bj b n'); [done..|].
      by rewrite contains_at_key.
  - rewrite (erase_fragments_run _ _ bc); [|apply wf_index, Hc1|].
    + simpl. rewrite (proj2 (Z.eqb_neq _ _)) by done. intros []; done.
    + simpl. unfold assign at 1. rewrite at_key_insert by apply Hs.
      by rewrite decide_False.
Qed.

(** A name which no buffer holds is added to the current one. *)
Lemma ok_store_new_name c n m :
  wf c -> sorted m -> m <> [] ->
  (forall j bj, at_key (fragments c) j = Some bj -> at_key bj n = None) ->
  ok_store (MAX_FRAGMENT_NAMES_PENDING_PER_BUFFER c) (MAX_FRAGMENT_BUFFERS c)
    (assign (fragments c) (cindex c) (assign (buffer (fragments c) (cindex c)) n m)).
Proof.
  intros [Hc Hroom] Hm Hne Hno. pose proof Hc as [_ _ _ _ _ Hn Hb Hi Hs].
  assert (0 <= MAX_FRAGMENT_NAMES_PENDING_PER_BUFFER c) as Hn0 by lia.
  pose proof (buffer_ok _ _ Hn0 _ (cindex c) Hs) as (Sb & Lb & Fb).
  assert (at_key (buffer (fragments c) (cindex c)) n = None) as En.
  { unfold buffer. destruct (at_key (fragments c) (cindex c)) as [b|] eqn:E; [|done].
    by apply (Hno (cindex c)). }
  apply ok_store_assign; [done|done| |].
  - split; [by apply sorted_insert_node|]. split.
    + unfold assign. rewrite length_insert_node, contains_at_key, En by done. simpl.
      unfold has_room in Hroom. lia.
    + intros n' m1. unfold assign. rewrite at_key_insert by done.
      case_decide; [intros; by simplify_eq|apply Fb].
  - intros n' j bj Hn' Ej Hj. rewrite !contains_at_key in *. unfold assign in Hn'.
    rewrite at_key_insert in Hn' by done. case_decide; subst.
    { by rewrite (Hno j bj Ej) in Hj. }
    unfold buffer in Hn'. destruct (at_key (fragments c) (cindex c)) as [b|] eqn:E; [|done].
    apply (store_disjoint _ _ _ Hs j (cindex c) bj b n'); by rewrite ?contains_at_key.
Qed.

Lemma subscript_assign {K V} `{StrictWeakOrder K} `{!LessTotal K} `{EqDecision K}
    (m : list (K * V)) k d v :
  at_key m k = None ->
  (subscript m k d).1 = d /\ assign (subscript m k d).2 k v = assign m k v.
Proof.
  intros E. unfold subscript. rewrite find_at_key, E. simpl. split; [done|].
  apply insert_node_twice.
Qed.

(** The state after [fragments[cindex]] was evaluated. *)
Lemma current_buffer_wf c :
  wf c ->
  let c1 := with_fragments (subscript (fragments c) (cindex c) []).2 (cindex c) c in
  wf c1 /\ at_key (fragments c1) (cindex c) = Some (buffer (fragments c) (cindex c)) /\
  buffer (fragments c1) (cindex c) = buffer (fragments c) (cindex c).
Proof.
  intros [Hc Hroom] c1. pose proof Hc as [_ _ _ _ _ Hn Hb Hi Hs].
  assert (0 <= MAX_FRAGMENT_NAMES_PENDING_PER_BUFFER c) as Hn0 by lia.
  assert (at_key (fragments c1) (cindex c) = Some (buffer (fragments c) (cindex c))) as E.
  { simpl. rewrite at_key_subscript by apply Hs. by rewrite decide_True. }
  assert (buffer (fragments c1) (cindex c) = buffer (fragments c) (cindex c)) as Eb.
  { unfold buffer at 1. by rewrite E. }
  split; [|done]. split.
  - apply wf_base_fragments; [done..|]. by apply ok_store_subscript.
  - unfold has_room. change (cindex c1) with (cindex c). by rewrite Eb.
Qed.

Lemma handle_pub_fragment_wf d c :
  wf c -> safe (handle_pub_fragment d c).1 -> wf (handle_pub_fragment d c).2.
Proof.
  intros Hc. pose proof (current_buffer_wf c Hc) as (Hc1 & E1 & _).
  unfold handle_pub_fragment. cbv [mbind M_bind gets id].
  rewrite (wf_index c (proj1 Hc)).
  pose proof (subscript_value (fragments c) (cindex c) ([] : frag_buffer)) as Hv.
  destruct (subscript (fragments c) (cindex c) []) as [buf fs] eqn:Es. simpl in *. subst buf.
  change (default [] (at_key (fragments c) (cindex c)))
    with (buffer (fragments c) (cindex c)).
  set (c1 := with_fragments fs (cindex c) c) in *.
  set (buf := buffer (fragments c) (cindex c)) in *. set (n := name (header d)).
  change (modify (with_fragments fs (cindex c)) c) with (Ret tt, c1).
  assert (is_Some (at_key (fragments c1) (cindex c1))) as Hcur by (by exists buf).
  rewrite find_at_key. destruct (at_key buf n) as [m|] eqn:En; simpl.
  - pose proof (update_fragments_wf d (cindex c) buf m c1 Hc1 E1 Hcur En) as Hu.
    destruct (update_fragments d (cindex c) m c1) as [[[]|e|] c2]; simpl in *.
    + intros _. apply rotate_buffers_wf, Hu. done.
    + auto.
    + intros []; done.
  - pose proof (search_buffers_spec fs n (store_sorted _ _ _ (wf_store _ (proj1 Hc1)))) as Hse.
    destruct (search_buffers fs n) as [[i [n' m]]|].
    + destruct Hse as (-> & b & Ei & Em).
      pose proof (update_fragments_wf d i b m c1 Hc1 Ei Hcur Em) as Hu.
      destruct (update_fragments d i m c1) as [[[]|e|] c2]; simpl in *.
      * intros _. apply rotate_buffers_wf, Hu. done.
      * auto.
      * intros []; done.
    + intros _. pose proof (subscript_assign buf n ([] : frag_map)
        (emplace [] (fragment_key d) (media_data d)) En) as [Hv Ha].
      destruct (subscript buf n []) as [m buf']. simpl in Hv, Ha. subst m.
      unfold modify. apply rotate_buffers_wf. rewrite Ha.
      apply wf_base_fragments; [apply Hc1|apply (proj1 Hc1)|].
      assert (buffer (fragments c1) (cindex c1) = buf) as Hbuf.
      { unfold buffer at 1. change (cindex c1) with (cindex c).
        change (fragments c1) with fs. by rewrite E1. }
      pose proof (ok_store_new_name c1 n (emplace [] (fragment_key d) (media_data d)) Hc1) as Hnew.
      rewrite Hbuf in Hnew. apply Hnew; [by apply sorted_insert_node; constructor|done|].
      exact Hse.
Qed.
End reassembly.

(** ** Every operation keeps the invariant *)

Create HintDb client.
#[export] Hint Resolve preserves_ret preserves_throw preserves_undefined : client.

Section operations.
Context {T : Target} {Tr : ITransport} {App : SubscriberApp}.

Lemma enqueue_wf cid sid data : preserves wf (enqueue cid sid data) anything.
Proof. intros c Hc _. split; [by apply wf_with_io|done]. Qed.
Lemma notify_wf e : preserves wf (notify e) anything.
Proof. intros c Hc _. split; [by apply (wf_emit [e])|done]. Qed.
Lemma dequeue_wf : preserves wf dequeue anything.
Proof.
  intros c Hc _. unfold dequeue. destruct (rx c); [done|].
  split; [by apply wf_with_io|done].
Qed.
Lemma lock_sub_wf ns : preserves wf (lock_sub ns) anything.
Proof.
  intros c Hc _. unfold lock_sub.
  pose proof (sorted_subscript (sub_delegates c) ns None (wf_sub_delegates _ (proj1 Hc))) as Hs.
  destruct (subscript _ _ _) as [w m]. split; [|done]. by apply wf_with_sub_delegates.
Qed.
Lemma lock_pub_wf ns : preserves wf (lock_pub ns) anything.
Proof.
  intros c Hc _. unfold lock_pub.
  pose proof (sorted_subscript (pub_delegates c) ns None (wf_pub_delegates _ (proj1 Hc))) as Hs.
  destruct (subscript _ _ _) as [w m]. split; [|done]. by apply wf_with_pub_delegates.
Qed.
Lemma lift_wf {A} (r : result A) : preserves wf (lift r) anything.
Proof. by apply preserves_lift. Qed.
Lemma local_wf {S A} (s : S) (m : M S A) : preserves wf (on_local s m) anything.
Proof. by apply preserves_on_local. Qed.
Lemma gets_wf {A} (f : t -> A) : preserves wf (gets f) (fun a => exists c, wf c /\ a = f c).
Proof. apply preserves_gets. by eauto. Qed.
Lemma ret_wf {A} (a : A) : preserves wf (mret a) anything.
Proof. by apply preserves_ret. Qed.

Lemma assign_sub_wf m ns w :
  sorted m -> preserves wf (modify (with_sub_delegates (assign m ns w))) anything.
Proof.
  intros Hm. apply preserves_modify; [|done]. intros c Hc.
  apply wf_with_sub_delegates; [done|]. by apply sorted_insert_node.
Qed.
Lemma assign_pub_wf m ns w :
  sorted m -> preserves wf (modify (with_pub_delegates (assign m ns w))) anything.
Proof.
  intros Hm. apply preserves_modify; [|done]. intros c Hc.
  apply wf_with_pub_delegates; [done|]. by apply sorted_insert_node.
Qed.

(** The contexts stay pending under the updates of the map. *)
Lemma elem_assign_client {V} (m : list (Namespace * V)) ns v p :
  p ∈ assign m ns v -> p ∈ m \/ p.2 = v.
Proof.
  unfold assign. induction m as [|[k0 v0] m IH]; simpl.
  { rewrite elem_of_cons. intros [->|Hp]; [by right|by apply not_elem_of_nil in Hp]. }
  repeat case_match; rewrite !elem_of_cons; intros [->|Hp]; auto.
  destruct (IH Hp); auto.
Qed.

Lemma subscript_contained {K V} `{Less K} (m : list (K * V)) k d :
  contains_key m k = true -> subscript m k d = (default d (at_key m k), m).
Proof.
  unfold contains_key, subscript, at_key. by destruct (find m k) as [[? ?]|].
Qed.

Lemma state_wf m :
  sorted m -> (forall p, p ∈ m -> sc_state p.2 = Pending) ->
  preserves wf (modify (with_subscribe_state m)) anything.
Proof.
  intros Hm Hp. apply preserves_modify; [|done]. intros c Hc.
  by apply wf_with_subscribe_state.
Qed.

Lemma erase_state_wf ns m :
  sorted m -> (forall p, p ∈ m -> sc_state p.2 = Pending) ->
  preserves wf (modify (with_subscribe_state (erase m ns))) anything.
Proof.
  intros Hm Hp. apply preserves_modify; [|done]. intros c Hc.
  apply wf_with_subscribe_state; [done|by apply sorted_erase|].
  intros p Hin. by apply Hp, (erase_sub _ ns).
Qed.

Lemma assign_state_wf ns m x y z :
  sorted m -> (forall p, p ∈ m -> sc_state p.2 = Pending) ->
  preserves wf (modify (with_subscribe_state
    (assign m ns (mkSubscribeContext Pending x y z)))) anything.
Proof.
  intros Hm Hp. apply preserves_modify; [|done]. intros c Hc.
  apply wf_with_subscribe_state; [done|by apply sorted_insert_node|].
  intros p [Hin| ->]%elem_assign_client; [by apply Hp|done].
Qed.
End operations.

(** [wf_steps] follows the code, one bind at a time. *)
#[export] Hint Resolve enqueue_wf notify_wf dequeue_wf lock_sub_wf lock_pub_wf
  lift_wf local_wf ret_wf assign_sub_wf assign_pub_wf state_wf erase_state_wf
  assign_state_wf : client.
#[export] Hint Resolve wf_sub_delegates wf_pub_delegates wf_subscribe_state wf_pending : client.

Ltac wf_step :=
  first
  [ solve [eauto with client]
  | match goal with
    | H : exists c, wf c /\ _ |- _ => destruct H as (?c & [? ?] & ->)
    | |- forall _ : _, anything _ -> _ => intros ? _
    | |- forall _ : _, (exists _, _) -> _ => intros ? ?
    | |- preserves wf (gets _ ≫= _) _ => apply (preserves_bind wf _ _ _ _ (gets_wf _))
    | |- preserves wf (_ ≫= _) _ => apply (preserves_bind wf _ _ anything)
    | |- preserves wf (match ?x with _ => _ end) _ => destruct x eqn:?
    end ].
Ltac wf_steps := repeat wf_step.

Section operations_wf.
Context {T : Target} {Tr : ITransport} {App : SubscriberApp}.

Lemma publishIntent_wf d ns payload draw :
  preserves wf (publishIntent d ns payload draw) anything.
Proof. unfold publishIntent. wf_steps. Qed.

Lemma publishIntentEnd_wf ns : preserves wf (publishIntentEnd ns) anything.
Proof.
  unfold publishIntentEnd. wf_steps. apply preserves_modify; [|done].
  intros c' Hc'. apply wf_with_pub_delegates; [done|]. apply sorted_erase. auto with client.
Qed.

Lemma subscribe_wf d ns intent draw : preserves wf (subscribe d ns intent draw) anything.
Proof.
  unfold subscribe. wf_steps.
  match goal with E : subscript _ _ _ = _, H : negb _ = false |- _ =>
    apply negb_false_iff in H; rewrite subscript_contained in E by done; injection E as <- <-
  end. wf_steps.
Qed.

Lemma removeSubscribeState_one_wf ns reason :
  preserves wf (removeSubscribeState_one ns reason) anything.
Proof.
  unfold removeSubscribeState_one. wf_steps. apply preserves_modify; [|done].
  intros c' Hc'. apply wf_with_sub_delegates; [done|]. apply sorted_erase. by apply Hc'.
Qed.

Lemma removeSubscribeState_wf all ns reason :
  preserves wf (removeSubscribeState all ns reason) anything.
Proof.
  unfold removeSubscribeState. pose proof removeSubscribeState_one_wf. wf_steps.
  apply preserves_mfor. auto.
Qed.

Lemma unsubscribe_wf ns : preserves wf (unsubscribe ns) anything.
Proof. unfold unsubscribe. wf_steps. Qed.

Lemma publish_fragments_wf d data k r off sid :
  preserves wf (publish_fragments d data k r off sid) anything.
Proof.
  revert d off. induction k as [|k IH]; intros d off; cbn [publish_fragments]; wf_steps.
Qed.

Lemma publishNamedObject_wf n data : preserves wf (publishNamedObject n data) anything.
Proof.
  unfold publishNamedObject. pose proof publish_fragments_wf.
  apply (preserves_bind wf _ _ _ _ (gets_wf _)). intros x (c & Hc & ->). cbv [id].
  rewrite (wf_publish_state _ (proj1 Hc)).
  change (contains_key [] n) with false. cbv iota beta.
  apply (preserves_bind wf _ _ anything).
  - apply preserves_modify; [|done]. intros c' [[] Hr]. by split.
  - wf_steps.
Qed.

Lemma deliver_moving_wf l n data c :
  wf c -> (forall e, e ∈ l -> e ∈ sub_delegates c) ->
  wf (deliver_moving l n data c).2.
Proof.
  intros Hc Hl.
  destruct (deliver_moving_emits l n data c (wf_sub_delegates _ (proj1 Hc)) Hl) as [ev ->].
  by apply wf_emit.
Qed.

Lemma handle_wf msg : preserves wf (handle msg) anything.
Proof.
  unfold handle. pose proof removeSubscribeState_wf.
  assert (forall d, preserves wf (handle_pub_fragment d) anything) as Hf.
  { intros d c Hc Hs. split; [by apply handle_pub_fragment_wf|done]. }
  assert (forall n data, preserves wf
    (sds ← gets sub_delegates; deliver_moving sds n data) anything) as Hd.
  { intros n data c Hc _. split; [|done]. by apply deliver_moving_wf. }
  destruct msg as [|front rest]; [apply ret_wf|].
  destruct (enum_of_u8 front); wf_steps.
Qed.

Lemma on_connection_status_wf st : preserves wf (on_connection_status st) anything.
Proof. unfold on_connection_status. pose proof removeSubscribeState_wf. wf_steps. Qed.

Lemma on_recv_notify_wf : preserves wf on_recv_notify anything.
Proof.
  unfold on_recv_notify. pose proof handle_wf.
  generalize 150%nat. intros n. induction n as [|n IH]; cbn [on_recv_notify_loop]; wf_steps.
  apply preserves_try_catch; [wf_steps|]. intros e k Hk. simplify_eq. wf_steps.
Qed.
End operations_wf.

(** ** What operations leave alone

    A condition that no assignment to the members a client works on can break, nor
    anything it does with what it receives, is kept by all that reacts to
    messages; if sending cannot break it either, by every operation. *)
Record framed (I : t -> Prop) : Prop := {
  framed_sub_delegates v c : I c -> I (with_sub_delegates v c);
  framed_pub_delegates v c : I c -> I (with_pub_delegates v c);
  framed_subscribe_state v c : I c -> I (with_subscribe_state v c);
  framed_publish_state v c : I c -> I (with_publish_state v c);
  framed_fragments v i c : I c -> I (with_fragments v i c);
  framed_received r e c : I c -> I (with_io r (tx c) e c);
}.

(** One step through a monadic program that keeps the condition [HI] is about. *)
Ltac kept_modify HI :=
  apply preserves_modify; [|done]; let c := fresh "c" in let Hc := fresh "Hc" in
  intros c Hc; repeat case_match; first
    [ by apply (framed_sub_delegates _ HI) | by apply (framed_pub_delegates _ HI)
    | by apply (framed_subscribe_state _ HI) | by apply (framed_publish_state _ HI)
    | by apply (framed_fragments _ HI) | by apply (framed_received _ HI) ].
Ltac kept_step HI :=
  match goal with
  | |- preserves _ (mret _) _ => by apply preserves_ret
  | |- preserves _ (lift _) _ => by apply preserves_lift
  | |- preserves _ (gets _) _ => by apply preserves_gets
  | |- preserves _ (on_local _ _) _ => by apply preserves_on_local
  | |- preserves _ undefined _ => apply preserves_undefined
  | |- preserves _ (modify _) _ => kept_modify HI
  | |- preserves _ (mfor _ _) _ => apply preserves_mfor; intros ? _
  | |- preserves _ (mbind _ _) _ =>
      apply (preserves_bind _ _ _ anything); [|intros ? _]
  | |- preserves _ (try_catch _ _) _ =>
      apply preserves_try_catch; [|intros ? ? [= <-]]
  | |- preserves _ (match ?b with _ => _ end) _ => destruct b
  end.
Ltac kept HI := repeat kept_step HI.

Section kept.
Context {T : Target} {Tr : ITransport} {App : SubscriberApp} (I : t -> Prop) (HI : framed I).

Lemma kept_notify e : preserves I (notify e) anything.
Proof. unfold notify. kept HI. Qed.
Lemma kept_lock_sub ns : preserves I (lock_sub ns) anything.
Proof. intros c Hc _. unfold lock_sub. destruct (subscript _ _ _). split; [|done]. by apply HI. Qed.
Lemma kept_lock_pub ns : preserves I (lock_pub ns) anything.
Proof. intros c Hc _. unfold lock_pub. destruct (subscript _ _ _). split; [|done]. by apply HI. Qed.
Lemma kept_dequeue : preserves I dequeue anything.
Proof. intros c Hc _. unfold dequeue. destruct (rx c); split; try done. by apply HI. Qed.
#[local] Hint Resolve kept_notify kept_lock_sub kept_lock_pub kept_dequeue : kept.

Lemma kept_deliver e n data : preserves I (deliver e n data) anything.
Proof. unfold deliver. kept HI; auto with kept. Qed.
#[local] Hint Resolve kept_deliver : kept.

Lemma kept_deliver_moving l n data : preserves I (deliver_moving l n data) anything.
Proof.
  revert data. induction l as [|e l IH]; intros data; cbn [deliver_moving]; kept HI; auto with kept.
Qed.
Lemma kept_notify_pub_fragment d m : preserves I (notify_pub_fragment d m) anything.
Proof. unfold notify_pub_fragment. kept HI; auto with kept. Qed.
Lemma kept_set_fragments i n m : preserves I (set_fragments i n m) anything.
Proof. unfold set_fragments. kept HI. Qed.
Lemma kept_erase_fragments i n : preserves I (erase_fragments i n) anything.
Proof. unfold erase_fragments. kept HI. Qed.
Lemma kept_rotate_buffers : preserves I rotate_buffers anything.
Proof. unfold rotate_buffers. kept HI. Qed.
#[local] Hint Resolve kept_deliver_moving kept_notify_pub_fragment kept_set_fragments
  kept_erase_fragments kept_rotate_buffers : kept.

Lemma kept_update_fragments d i m : preserves I (update_fragments d i m) anything.
Proof. unfold update_fragments. kept HI; auto with kept. Qed.
#[local] Hint Resolve kept_update_fragments : kept.
Lemma kept_handle_pub_fragment d : preserves I (handle_pub_fragment d) anything.
Proof. unfold handle_pub_fragment. kept HI; auto with kept. Qed.
Lemma kept_removeSubscribeState_one ns reason :
  preserves I (removeSubscribeState_one ns reason) anything.
Proof. unfold removeSubscribeState_one. kept HI; auto with kept. Qed.
#[local] Hint Resolve kept_handle_pub_fragment kept_removeSubscribeState_one : kept.
Lemma kept_removeSubscribeState all ns reason :
  preserves I (removeSubscribeState all ns reason) anything.
Proof. unfold removeSubscribeState. kept HI; auto with kept. Qed.
#[local] Hint Resolve kept_removeSubscribeState : kept.
Lemma kept_handle msg : preserves I (handle msg) anything.
Proof. unfold handle. kept HI; auto with kept. Qed.
#[local] Hint Resolve kept_handle : kept.
Lemma kept_on_connection_status st : preserves I (on_connection_status st) anything.
Proof. unfold on_connection_status. kept HI; auto with kept. Qed.

Lemma kept_on_recv_notify : preserves I on_recv_notify anything.
Proof.
  unfold on_recv_notify. generalize 150%nat. intros k.
  induction k as [|k IH]; cbn [on_recv_notify_loop]; kept HI; auto with kept.
Qed.

(** Operations that send. *)
Hypothesis sending : forall r x e c, I c -> I (with_io r x e c).

Lemma kept_enqueue cid sid data : preserves I (enqueue cid sid data) anything.
Proof. intros c Hc _. split; [by apply sending|done]. Qed.
#[local] Hint Resolve kept_enqueue : kept.

Lemma kept_publishIntent d ns payload draw : preserves I (publishIntent d ns payload draw) anything.
Proof. unfold publishIntent. kept HI; auto with kept. Qed.
Lemma kept_publishIntentEnd ns : preserves I (publishIntentEnd ns) anything.
Proof. unfold publishIntentEnd. kept HI; auto with kept. Qed.
Lemma kept_subscribe d ns intent draw : preserves I (subscribe d ns intent draw) anything.
Proof. unfold subscribe. kept HI; auto with kept. Qed.
Lemma kept_unsubscribe ns : preserves I (unsubscribe ns) anything.
Proof. unfold unsubscribe. kept HI; auto with kept. Qed.
Lemma kept_publish_fragments d data k rest off sid :
  preserves I (publish_fragments d data k rest off sid) anything.
Proof.
  revert d off. induction k as [|k IH]; intros d off; cbn [publish_fragments]; kept HI; auto with kept.
Qed.
#[local] Hint Resolve kept_publish_fragments : kept.
Lemma kept_publishNamedObject n data : preserves I (publishNamedObject n data) anything.
Proof. unfold publishNamedObject. kept HI; auto with kept. Qed.
End kept.

(** Receiving sends nothing. *)
Lemma quiet_framed x cid sid :
  framed (fun c => tx c = x /\ transport_context_id c = cid /\ transport_stream_id c = sid).
Proof. by split. Qed.

(** The limits of the reassembly store are never assigned to. *)
Definition limits (c : t) : Z * Z :=
  (MAX_FRAGMENT_NAMES_PENDING_PER_BUFFER c, MAX_FRAGMENT_BUFFERS c).
Lemma limits_framed l : framed (fun c => limits c = l).
Proof. by split. Qed.


(** One message waits. *)
Lemma on_recv_notify_one {T : Target} {App : SubscriberApp} msg c c' :
  rx c = [msg] -> handle msg (with_io [] (tx c) (events c) c) = (Ret tt, c') -> rx c' = [] ->
  on_recv_notify c = (Ret tt, c').
Proof.
  intros Hrx Hm Hrx'. unfold on_recv_notify. change 150%nat with (S (S 148)).
  cbn [on_recv_notify_loop]. cbv [mbind M_bind try_catch dequeue]. rewrite Hrx, Hm.
  cbv [mret M_ret]. by rewrite Hrx'.
Qed.

(** [on_recv_notify] does not throw. *)
Lemma on_recv_notify_returns {T : Target} {App : SubscriberApp} c :
  (on_recv_notify c).1 = Ret tt \/ (on_recv_notify c).1 = Undefined.
Proof.
  unfold on_recv_notify. generalize 150%nat. intros k. revert c.
  induction k as [|k IH]; intros c; cbn [on_recv_notify_loop]; [by left|].
  cbv [mbind M_bind try_catch dequeue]. destruct (rx c) as [|msg r]; [by left|].
  destruct (handle msg _) as [[[]|e|] c']; [apply IH|by left|by right].
Qed.

(** ** Reachable states *)

Section reachable.
Context {T : Target} {Tr : ITransport} {App : SubscriberApp}.

(** The entry points of a client: its API, and the calls of the transport. *)
Inductive operation : M t unit -> Prop :=
  | op_subscribe d ns intent draw : operation (subscribe d ns intent draw)
  | op_unsubscribe ns : operation (unsubscribe ns)
  | op_publishIntent d ns payload draw :
      operation (publishIntent d ns payload draw;; mret tt)
  | op_publishIntentEnd ns : operation (publishIntentEnd ns)
  | op_publishNamedObject n data : operation (publishNamedObject n data)
  | op_removeSubscribeState all ns reason : operation (removeSubscribeState all ns reason)
  | op_handle msg : operation (handle msg)
  | op_on_connection_status st : operation (on_connection_status st)
  | op_on_recv_notify : operation on_recv_notify.

(** One step: an operation whose behaviour is defined, whether it returns or
    throws, or the arrival of data in the transport. *)
Inductive step : t -> t -> Prop :=
  | step_operation m c : operation m -> safe (m c).1 -> step c (m c).2
  | step_arrival data c : step c (with_io (rx c ++ [data]) (tx c) (events c) c).

(** The first client of the process, and one that is made when another is gone:
    it finds the static variables as that one left them. *)
Inductive reachable : t -> Prop :=
  | reachable_init np cid sid : reachable (init np cid sid [] 1)
  | reachable_next c np cid sid :
      reachable c -> reachable (init np cid sid (fragments c) (cindex c))
  | reachable_step c c' : reachable c -> step c c' -> reachable c'.

Lemma operation_wf m : operation m -> preserves wf m anything.
Proof.
  destruct 1; auto using subscribe_wf, unsubscribe_wf, publishIntentEnd_wf,
    publishNamedObject_wf, removeSubscribeState_wf, handle_wf,
    on_connection_status_wf, on_recv_notify_wf.
  pose proof (publishIntent_wf d ns payload draw). wf_steps.
Qed.

Lemma client_wf_init np cid sid : wf (init np cid sid [] 1).
Proof.
  split; [|done]. split; simpl; try done; try constructor; try done.
  - intros p Hp. by apply not_elem_of_nil in Hp.
  - constructor.
Qed.

Lemma client_wf_next c np cid sid :
  wf c -> limits c = (5000, 20) -> wf (init np cid sid (fragments c) (cindex c)).
Proof.
  intros [[] Hroom] [= En Eb]. unfold has_room in Hroom. rewrite En, Eb in *.
  split; [|done]. split; try done; try constructor.
  intros p Hp. by apply not_elem_of_nil in Hp.
Qed.

Lemma operation_limits m l : operation m -> preserves (fun c => limits c = l) m anything.
Proof.
  pose proof (limits_framed l) as HI.
  destruct 1; eauto using kept_subscribe, kept_unsubscribe, kept_publishIntentEnd,
    kept_publishNamedObject, kept_removeSubscribeState, kept_handle,
    kept_on_connection_status, kept_on_recv_notify.
  eapply preserves_bind; [by apply (kept_publishIntent _ HI)|]. intros b _. by apply preserves_ret.
Qed.

Lemma reachable_wf c : reachable c -> wf c /\ limits c = (5000, 20).
Proof.
  induction 1 as [np cid sid|c np cid sid _ [Hc Hl]|c c' _ [Hc Hl] Hst].
  - split; [apply client_wf_init|done].
  - split; [by apply client_wf_next|done].
  - revert Hc Hl. destruct Hst as [m c Hm Hs|data c]; intros Hc Hl.
    + split; [by apply (operation_wf m Hm c Hc)|by apply (operation_limits m (5000, 20) Hm c Hl)].
    + split; [by apply wf_with_io|done].
Qed.
End reachable.

Lemma length_bounded_keys {V} (fs : list (Z * V)) lo hi :
  sorted fs -> (forall p, p ∈ fs -> lo < p.1 <= hi) -> lo <= hi ->
  Z.of_nat (length fs) <= hi - lo.
Proof.
  revert lo. induction fs as [|[i v] fs IH]; intros lo Hs Hk Hle; [simpl; lia|].
  apply sorted_cons_inv in Hs as [Hs Hall].
  pose proof (Hk (i, v) ltac:(by left)) as Hi. simpl in Hi.
  assert (Z.of_nat (length fs) <= hi - i); [|simpl; lia].
  apply IH; [done| |lia]. intros p Hp. specialize (Hall p Hp).
  unfold less, Z_less in Hall. simpl in Hall. specialize (Hk p ltac:(by right)). lia.
Qed.

Lemma buffers_bound c : wf c -> Z.of_nat (length (fragments c)) <= MAX_FRAGMENT_BUFFERS c.
Proof.
  intros [[_ _ _ _ _ Hn Hb _ Hs] _]. rewrite <- (Z.sub_0_r (MAX_FRAGMENT_BUFFERS c)).
  apply length_bounded_keys; [apply Hs| |lia]. intros [i b] Hp.
  apply elem_at_key in Hp; [|apply Hs]. apply (store_keys _ _ _ Hs) in Hp. simpl. lia.
Qed.

(** The number of names whose fragments are held. *)
Definition pending_names (c : t) : nat := sum_list_with (fun p => length p.2) (fragments c).

Lemma pending_names_bound c :
  wf c ->
  Z.of_nat (pending_names c)
  <= MAX_FRAGMENT_NAMES_PENDING_PER_BUFFER c * MAX_FRAGMENT_BUFFERS c.
Proof.
  intros Hw. pose proof (buffers_bound c Hw) as Hl.
  destruct Hw as [[_ _ _ _ _ Hn Hb _ Hs] _]. unfold pending_names.
  assert (forall l, (forall p, p ∈ l -> Z.of_nat (length p.2)
            <= MAX_FRAGMENT_NAMES_PENDING_PER_BUFFER c) ->
    Z.of_nat (sum_list_with (fun p : Z * frag_buffer => length p.2) l)
    <= MAX_FRAGMENT_NAMES_PENDING_PER_BUFFER c * Z.of_nat (length l)) as Hsum.
  { induction l as [|p l IH]; intros Hp; simpl; [lia|].
    pose proof (Hp p ltac:(by left)). specialize (IH (fun q Hq => Hp q ltac:(by right))). lia. }
  assert (Z.of_nat (sum_list_with (fun p => length p.2) (fragments c))
    <= MAX_FRAGMENT_NAMES_PENDING_PER_BUFFER c * Z.of_nat (length (fragments c))) as H1.
  { apply Hsum. intros [i b] Hp. apply elem_at_key in Hp; [|apply Hs].
    by apply (store_buffers _ _ _ Hs) in Hp as (_ & ? & _). }
  nia.
Qed.

(** ** Subscriptions and their end *)

Section lifecycle.
Context {T : Target} {Tr : ITransport} {App : SubscriberApp}.

(** The call the end of a subscription makes, given the map of delegates. *)
Definition ended_events (sds : list (Namespace * weak_ptr)) (reason : SubscribeStatus.t)
    (ns : Namespace) : list Event :=
  match at_key sds ns with
  | Some w => match lock w with Some d => [onSubscriptionEnded d ns reason] | None => [] end
  | None => []
  end.

Lemma removeSubscribeState_one_run ns reason c :
  sorted (sub_delegates c) -> sorted (subscribe_state c) ->
  removeSubscribeState_one ns reason c
  = (Ret tt, emit (ended_events (sub_delegates c) reason ns)
       (with_sub_delegates (erase (sub_delegates c) ns)
          (with_subscribe_state (erase (subscribe_state c) ns) c))).
Proof.
  intros Hs Ht. assert (forall {V} (m : list (Namespace * V)),
      contains_key m ns = false -> erase m ns = m) as Hid.
  { intros V m. unfold contains_key. induction m as [|[k0 v0] m IH]; simpl; [done|].
    destruct (equiv_key ns k0); [done|]. intros E. by rewrite IH. }
  unfold removeSubscribeState_one, ended_events.
  set (c1 := with_subscribe_state (erase (subscribe_state c) ns) c).
  assert ((if contains_key (subscribe_state c) ns
           then modify (with_subscribe_state (erase (subscribe_state c) ns)) else mret tt) c
          = (Ret tt, c1)) as E1.
  { destruct (contains_key (subscribe_state c) ns) eqn:E; [done|].
    unfold c1. rewrite Hid by done. by destruct c. }
  cbv [mbind M_bind gets]. rewrite E1. change (sub_delegates c1) with (sub_delegates c).
  destruct (contains_key (sub_delegates c) ns) eqn:E.
  - unfold lock_sub. change (sub_delegates c1) with (sub_delegates c).
    rewrite subscript_contained by done. unfold contains_key in E. unfold at_key.
    destruct (find (sub_delegates c) ns) as [[k0 w]|]; [|done]. simpl.
    destruct (lock w) as [d|]; [done|]. unfold modify. simpl. by rewrite emit_nil.
  - rewrite Hid by done. unfold contains_key in E. unfold at_key.
    destruct (find (sub_delegates c) ns) as [[k0 w]|]; [done|]. simpl.
    rewrite emit_nil. by destruct c.
Qed.

(** Erasing the keys of a list one after the other. *)
Lemma remove_all_run l reason c :
  sorted (sub_delegates c) -> sorted l -> subscribe_state c = l ->
  exists sds,
    mfor (map fst l) (fun ns => removeSubscribeState_one ns reason) c
    = (Ret tt, emit (flat_map (ended_events (sub_delegates c) reason) (map fst l))
         (with_sub_delegates sds (with_subscribe_state [] c))) /\
    sorted sds /\
    forall k, find sds k = if contains_key l k then None else find (sub_delegates c) k.
Proof.
  revert c. induction l as [|[ns ctx] l IH]; intros c Hs Hl E.
  { exists (sub_delegates c). cbn [map mfor flat_map]. rewrite emit_nil.
    split; [destruct c; simpl in *; by subst|]. by split. }
  pose proof (sorted_cons_inv _ _ _ Hl) as [Hl' Hall].
  cbn [map mfor fst]. rewrite (run_bind_ret _ _ _ _ _
    (removeSubscribeState_one_run ns reason c Hs ltac:(by rewrite E))).
  rewrite E. cbn [erase]. rewrite equiv_key_refl.
  set (c1 := emit _ _).
  destruct (IH c1) as (sds & Er & Hsd & Hf); [by apply sorted_erase|done|done|].
  change (sub_delegates c1) with (erase (sub_delegates c) ns) in *.
  exists sds. rewrite Er. split; [|split; [done|]].
  - assert (flat_map (ended_events (erase (sub_delegates c) ns) reason) (map fst l)
            = flat_map (ended_events (sub_delegates c) reason) (map fst l)) as ->.
    { clear -Hs Hall. induction l as [|[k v] l IH]; [done|]. cbn [map flat_map fst].
      rewrite IH by (intros p Hp; apply Hall; by right). f_equal.
      unfold ended_events, at_key. simpl. rewrite find_erase by done.
      specialize (Hall (k, v) ltac:(by left)). simpl in Hall.
      unfold equiv_key. by rewrite Hall, andb_false_r. }
    cbn [flat_map]. rewrite <- emit_emit. done.
  - intros k. rewrite Hf. simpl. rewrite find_erase by done. unfold contains_key at 2. simpl.
    destruct (equiv_key k ns) eqn:Ek; [|done]. by case_match.
Qed.

End lifecycle.

(** ** Objects delivered to several delegates *)

Section objects.
Context {T : Target} {Tr : ITransport} {App : SubscriberApp}.

(** The live delegates whose namespace contains the name, in map order. *)
Definition receivers (l : list (Namespace * weak_ptr)) (n : Name) : list Z :=
  omap (fun e => if within e.1 n then lock e.2 else None) l.

(** Calls that share one moved-from vector: once a delegate took the data,
    the later ones get an empty vector. *)
Definition moving_calls (ds : list Z) (n : Name) (data : bytes) : list Event :=
  imap (fun i d => onSubscribedObject d n 0 0 false
          (if existsb consumes (take i ds) then [] else data)) ds.
(** Calls that each get a copy. *)
Definition copied_calls (ds : list Z) (n : Name) (data : bytes) : list Event :=
  map (fun d => onSubscribedObject d n 0 0 false data) ds.

Lemma moving_calls_cons d ds n data :
  moving_calls (d :: ds) n data
  = onSubscribedObject d n 0 0 false data
    :: moving_calls ds n (if consumes d then [] else data).
Proof.
  unfold moving_calls. rewrite imap_cons. f_equal. apply imap_ext.
  intros i x _. simpl. by destruct (consumes d); simpl; [case_match|].
Qed.

Definition wf_delegates (c : t) : Prop :=
  sorted (sub_delegates c) /\ forall e, e ∈ sub_delegates c -> wf_namespace e.1.

Lemma deliver_within e n data c :
  wf_delegates c -> wf_name n -> e ∈ sub_delegates c ->
  deliver e n data c
  = (Ret (within e.1 n && entry_consumes e)%bool,
     emit (if within e.1 n then object_events e n data else []) c).
Proof.
  intros [Hs Hw] Hn He. rewrite deliver_run, contains_within by auto.
  destruct (within e.1 n); [done|]. by rewrite emit_nil.
Qed.

Lemma deliver_moving_run l n data c :
  wf_delegates c -> wf_name n -> (forall e, e ∈ l -> e ∈ sub_delegates c) ->
  deliver_moving l n data c = (Ret tt, emit (moving_calls (receivers l n) n data) c).
Proof.
  intros Hc Hn. revert data c Hc. induction l as [|e l IH]; intros data c Hc Hl.
  { cbn. by rewrite emit_nil. }
  cbn [deliver_moving]. rewrite (run_bind_ret _ _ _ _ _
    (deliver_within e n data c Hc Hn (Hl e ltac:(by left)))).
  rewrite IH by (done || (intros e' He'; apply Hl; by right)).
  rewrite emit_emit. do 2 f_equal. unfold receivers, object_events, entry_consumes.
  cbn [omap list_omap]. destruct (within e.1 n); [|done]. simpl.
  destruct (lock e.2) as [d|]; [|done]. by rewrite moving_calls_cons.
Qed.

Lemma deliver_copies_run l n data c :
  wf_delegates c -> wf_name n -> (forall e, e ∈ l -> e ∈ sub_delegates c) ->
  mfor l (fun e => deliver e n data;; mret tt) c
  = (Ret tt, emit (copied_calls (receivers l n) n data) c).
Proof.
  intros Hc Hn. revert c Hc. induction l as [|e l IH]; intros c Hc Hl.
  { cbn. by rewrite emit_nil. }
  cbn [mfor]. unfold mbind, M_bind. rewrite deliver_within by (auto; apply Hl; by left).
  unfold mret, M_ret. rewrite IH by (done || (intros e' He'; apply Hl; by right)).
  rewrite emit_emit. do 2 f_equal. unfold receivers, object_events.
  cbn [omap list_omap]. destruct (within e.1 n); [|done].
  by destruct (lock e.2) as [d|].
Qed.
End objects.

Lemma subscribe_outcome {T : Target} {Tr : ITransport} d ns intent draw c :
  wf c ->
  let c' := (subscribe d ns intent draw c).2 in
  (subscribe d ns intent draw c).1 = Ret tt /\
  tx c' = tx c ++ [mkPacket (transport_context_id c) (transport_stream_id c)
                     (Subscribe_wire (mkSubscribe 1 (create_transaction_id draw) ns intent))] /\
  events c' = events c /\
  (forall k, find (sub_delegates c') k
     = if (equiv_key k ns && negb (contains_key (sub_delegates c) ns))%bool
       then Some (ns, d) else find (sub_delegates c) k) /\
  (forall k, find (subscribe_state c') k
     = if (equiv_key k ns && negb (contains_key (subscribe_state c) ns))%bool
       then Some (ns, mkSubscribeContext Pending (transport_context_id c)
                        (transport_stream_id c) (create_transaction_id draw))
       else find (subscribe_state c) k).
Proof.
  intros [Hw _]. unfold subscribe. cbv [mbind M_bind gets id].
  set (sds := if contains_key (sub_delegates c) ns then sub_delegates c
              else assign (sub_delegates c) ns d).
  assert ((if contains_key (sub_delegates c) ns then mret tt
           else modify (with_sub_delegates (assign (sub_delegates c) ns d))) c
          = (Ret tt, with_sub_delegates sds c)) as ->.
  { unfold sds. destruct (contains_key (sub_delegates c) ns); [|done].
    by rewrite with_sub_delegates_id. }
  rewrite (serialize_wire _ _ (put_Subscribe_wire _)).
  unfold lift. change (subscribe_state (with_sub_delegates sds c)) with (subscribe_state c).
  assert (forall k, find sds k
     = if (equiv_key k ns && negb (contains_key (sub_delegates c) ns))%bool
       then Some (ns, d) else find (sub_delegates c) k) as Hf.
  { intros k. unfold sds, contains_key. destruct (find (sub_delegates c) ns) as [[k0 w]|] eqn:E.
    - by rewrite andb_false_r.
    - unfold assign. rewrite find_insert_node, E by apply Hw. by rewrite andb_true_r. }
  destruct (contains_key (subscribe_state c) ns) eqn:Es; cbn [negb].
  - rewrite subscript_contained by done.
    assert (sc_state (default SubscribeContext_init (at_key (subscribe_state c) ns)) = Pending)
      as Hp.
    { unfold contains_key in Es. unfold at_key.
      destruct (find (subscribe_state c) ns) as [[k0 ctx]|] eqn:E; [|done]. simpl.
      apply (wf_pending c Hw (k0, ctx)). by apply (find_elem _ ns). }
    rewrite decide_False by (rewrite Hp; done).
    split_and!; try done. intros k. by rewrite andb_false_r.
  - split_and!; try done. intros k. simpl. rewrite andb_true_r. unfold assign.
    rewrite find_insert_node by apply Hw. unfold contains_key in Es.
    by destruct (find (subscribe_state c) ns).
Qed.

Lemma handle_object {T : Target} `{!LittleEndian} {Tr : ITransport}
    {App : SubscriberApp} d rest c :
  wf_delegates c -> ok_PublishDatagram d -> offset_and_fin (header d) = 1 ->
  handle (encoded (put_PublishDatagram d) ++ rest) c
  = (Ret tt, emit (moving_calls (receivers (sub_delegates c) (name (header d)))
                     (name (header d)) (media_data d)) c).
Proof.
  intros Hc Hd Ho. destruct (encoded_wire _ _ (put_PublishDatagram_wire d Hd)) as [_ ->].
  pose proof (get_PublishDatagram_wire native_little d Hd rest) as Ed.
  remember (PublishDatagram_wire d ++ rest) as msg eqn:Em.
  assert (exists msg', msg = enum_to_u8 MessageType.Publish :: msg') as [msg' Em']
    by (subst msg; eexists; reflexivity).
  unfold handle. rewrite Em'.
    change (enum_of_u8 (enum_to_u8 MessageType.Publish)) with MessageType.Publish. cbv iota. rewrite <- Em'.
  rewrite (run_bind_ret _ _ _ c d) by (unfold on_local; by rewrite Ed).
  unfold uintVar_eqb. rewrite Ho. simpl Z.eqb. cbv iota.
  apply deliver_moving_run; [done| |done]. apply Hd.
Qed.

Lemma relay_connects {T : Target} {Tr : ITransport} relay cid fs ci k :
  status (k * 2) <> Connecting ->
  exists j, (j <= k)%nat /\
    (forall i, (i < j)%nat -> status (i * 2) = Connecting) /\
    QuicRClient_relay (S k) relay cid fs ci
    = Some (if decide (status (S (j * 2)) = Transport.Ready)
            then Ret (init (match proto relay with Protocol.UDP => true | _ => false end)
                        start (createStream start false) fs ci)
            else Throw runtime_error).
Proof.
  intros Hk. rewrite <- (Nat.add_0_r (k * 2)) in Hk.
  destruct (wait_terminates 2 k 0 Hk) as (j & Hj & E & _ & Hb). rewrite Nat.add_0_r in E.
  exists j. split; [done|]. split.
  { intros i Hi. specialize (Hb i Hi). by rewrite Nat.add_0_r in Hb. }
  unfold QuicRClient_relay, make_transport. rewrite E. simpl. by case_decide.
Qed.

(** * Properties *)

(** A concrete application and client for the witnesses. *)
Definition demo_app : SubscriberApp :=
  {| alive := fun _ => true; consumes := fun _ => false |}.
Definition demo_client : t := init true 0x1000 0x2000 [] 1.
Definition demo_ns : Namespace := mkNamespace (mkName 0x1000 0x2000) 125.

(** C26: in every state a client can reach by its API calls and by what the
    transport delivers, whether it is the first of its process or finds the store
    as an earlier client left it, as long as no step has undefined behaviour,
    every subscription context is still [Pending] (nothing makes it [Ready]), no
    publish context exists, and the reassembly store is bounded: at most
    [MAX_FRAGMENT_BUFFERS] buffers, that is 20, under the indices 1 to 20, each
    with at most [MAX_FRAGMENT_NAMES_PENDING_PER_BUFFER] names, that is 5000, and
    with at most the product of these in all, room for one more name in the current
    buffer, and no name in two buffers. *)
Theorem client_reachable_invariant {T : Target} {Tr : ITransport} {App : SubscriberApp} c :
  reachable c ->
  (forall p, p ∈ subscribe_state c -> sc_state p.2 = Pending) /\
  publish_state c = [] /\
  (MAX_FRAGMENT_NAMES_PENDING_PER_BUFFER c, MAX_FRAGMENT_BUFFERS c) = (5000, 20) /\
  1 <= cindex c <= MAX_FRAGMENT_BUFFERS c /\
  Z.of_nat (length (fragments c)) <= MAX_FRAGMENT_BUFFERS c /\
  (forall i b, (i, b) ∈ fragments c -> 1 <= i <= MAX_FRAGMENT_BUFFERS c /\
     Z.of_nat (length b) <= MAX_FRAGMENT_NAMES_PENDING_PER_BUFFER c) /\
  Z.of_nat (pending_names c)
    <= MAX_FRAGMENT_NAMES_PENDING_PER_BUFFER c * MAX_FRAGMENT_BUFFERS c /\
  has_room c /\ disjoint_buffers (fragments c).
Proof.
  intros Hr. destruct (reachable_wf c Hr) as [Hw Hl]. pose proof Hw as [[] Hroom].
  split_and!; try done; try lia.
  - by apply buffers_bound.
  - intros i b Hib. apply elem_at_key in Hib; [|by apply wf_store0].
    split; [by apply (store_keys _ _ _ wf_store0) in Hib|].
    by apply (store_buffers _ _ _ wf_store0) in Hib as (_ & ? & _).
  - by apply pending_names_bound.
  - by eapply store_disjoint.
Qed.

Lemma client_reachable_invariant_witness :
  let c := (subscribe (T := strict_little) (Tr := FakeTransport) (Some 1) demo_ns
              SubscribeIntent.immediate 5 demo_client).2 in
  (forall p, p ∈ subscribe_state c -> sc_state p.2 = Pending) /\
  publish_state c = [] /\
  (MAX_FRAGMENT_NAMES_PENDING_PER_BUFFER c, MAX_FRAGMENT_BUFFERS c) = (5000, 20) /\
  1 <= cindex c <= MAX_FRAGMENT_BUFFERS c /\
  Z.of_nat (length (fragments c)) <= MAX_FRAGMENT_BUFFERS c /\
  (forall i b, (i, b) ∈ fragments c -> 1 <= i <= MAX_FRAGMENT_BUFFERS c /\
     Z.of_nat (length b) <= MAX_FRAGMENT_NAMES_PENDING_PER_BUFFER c) /\
  Z.of_nat (pending_names c)
    <= MAX_FRAGMENT_NAMES_PENDING_PER_BUFFER c * MAX_FRAGMENT_BUFFERS c /\
  has_room c /\ disjoint_buffers (fragments c).
Proof.
  intros c. apply (client_reachable_invariant (T := strict_little) (Tr := FakeTransport)
    (App := demo_app)).
  apply (reachable_step demo_client).
  - apply (reachable_init true 0x1000 0x2000).
  - apply (step_operation (subscribe (Some 1) demo_ns SubscribeIntent.immediate 5)).
    + constructor.
    + discriminate.
Defined.

(** [subscribe] sends one [Subscribe] message for each call, also when the
    namespace is subscribed already; it registers the delegate and a pending
    context only when the namespace has none, so that a second delegate for an
    equivalent namespace is dropped silently. *)
Theorem subscribe_spec {T : Target} {Tr : ITransport} d ns intent draw c :
  wf c ->
  let c' := (subscribe d ns intent draw c).2 in
  (subscribe d ns intent draw c).1 = Ret tt /\
  tx c' = tx c ++ [mkPacket (transport_context_id c) (transport_stream_id c)
                     (Subscribe_wire (mkSubscribe 1 (create_transaction_id draw) ns intent))] /\
  events c' = events c /\
  (forall k, find (sub_delegates c') k
     = if (equiv_key k ns && negb (contains_key (sub_delegates c) ns))%bool
       then Some (ns, d) else find (sub_delegates c) k) /\
  (forall k, find (subscribe_state c') k
     = if (equiv_key k ns && negb (contains_key (subscribe_state c) ns))%bool
       then Some (ns, mkSubscribeContext Pending (transport_context_id c)
                        (transport_stream_id c) (create_transaction_id draw))
       else find (subscribe_state c) k).
Proof. apply subscribe_outcome. Qed.

Lemma subscribe_spec_witness :
  let c' := (subscribe (T := strict_little) (Tr := FakeTransport) (Some 1) demo_ns
               SubscribeIntent.wait_up 5 demo_client).2 in
  (subscribe (T := strict_little) (Tr := FakeTransport) (Some 1) demo_ns
     SubscribeIntent.wait_up 5 demo_client).1 = Ret tt /\
  tx c' = [] ++ [mkPacket 0x1000 0x2000
            (Subscribe_wire (mkSubscribe 1 (create_transaction_id 5) demo_ns
               SubscribeIntent.wait_up))] /\
  events c' = [] /\
  (forall k, find (sub_delegates c') k
     = if (equiv_key k demo_ns && true)%bool then Some (demo_ns, Some 1) else None) /\
  (forall k, find (subscribe_state c') k
     = if (equiv_key k demo_ns && true)%bool
       then Some (demo_ns, mkSubscribeContext Pending 0x1000 0x2000 (create_transaction_id 5))
       else None).
Proof.
  apply (subscribe_spec (T := strict_little) (Tr := FakeTransport) (Some 1) demo_ns
    SubscribeIntent.wait_up 5 demo_client (client_wf_init true 0x1000 0x2000)).
Defined.

(** When the connection is lost, or the client is destroyed, the delegates
    of the namespaces with a subscription context are told, once each and in
    map order, with the reason [ConnectionClosed]; the contexts are gone and so
    are those delegates.  The delegates without a context (whose [unsubscribe]
    was not answered yet) are neither told nor removed. *)
Theorem disconnect_ends_subscriptions {T : Target} {Tr : ITransport}
    {App : SubscriberApp} c :
  wf c ->
  let c' := (on_connection_status Disconnected c).2 in
  (on_connection_status Disconnected c).1 = Ret tt /\
  destruct_client c = on_connection_status Disconnected c /\
  subscribe_state c' = [] /\
  events c' = events c ++ flat_map (ended_events (sub_delegates c) SubscribeStatus.ConnectionClosed)
                            (map fst (subscribe_state c)) /\
  (forall k, find (sub_delegates c') k
     = if contains_key (subscribe_state c) k then None else find (sub_delegates c) k) /\
  tx c' = tx c.
Proof.
  intros [Hw _]. unfold on_connection_status, destruct_client. rewrite decide_True by done.
  unfold removeSubscribeState. cbv [mbind M_bind gets].
  destruct (remove_all_run (subscribe_state c) SubscribeStatus.ConnectionClosed c
    (wf_sub_delegates _ Hw) (wf_subscribe_state _ Hw) eq_refl) as (sds & -> & _ & Hf).
  by split_and!.
Qed.

Lemma disconnect_ends_subscriptions_witness :
  let c := (subscribe (T := strict_little) (Tr := FakeTransport) (Some 1) demo_ns
              SubscribeIntent.wait_up 5 demo_client).2 in
  let close := on_connection_status (Tr := FakeTransport) (App := demo_app)
                 (Disconnected (ITransport := FakeTransport)) in
  (close c).1 = Ret tt /\ destruct_client (App := demo_app) c = close c /\
  subscribe_state (close c).2 = [] /\
  events (close c).2
  = [] ++ [onSubscriptionEnded 1 demo_ns SubscribeStatus.ConnectionClosed] /\
  (forall k, find (sub_delegates (close c).2) k
     = if contains_key (subscribe_state c) k then None else find (sub_delegates c) k) /\
  tx (close c).2 = tx c.
Proof.
  apply (disconnect_ends_subscriptions (T := strict_little) (Tr := FakeTransport)
    (App := demo_app)
    (subscribe (T := strict_little) (Tr := FakeTransport) (Some 1) demo_ns
       SubscribeIntent.wait_up 5 demo_client).2).
  apply (subscribe_wf (T := strict_little) (Tr := FakeTransport)
    (Some 1) demo_ns SubscribeIntent.wait_up 5 demo_client (client_wf_init true 0x1000 0x2000)).
  discriminate.
Defined.

Section replies.
Context {App : SubscriberApp}.

(** The delegate of a namespace, when it has one that still exists. *)
Definition live_delegate (m : list (Namespace * weak_ptr)) (ns : Namespace) : option Z :=
  match at_key m ns with Some w => lock w | None => None end.

Lemma lock_sub_contained ns c :
  contains_key (sub_delegates c) ns = true ->
  lock_sub ns c = (Ret (live_delegate (sub_delegates c) ns), c).
Proof.
  intros E. unfold lock_sub. rewrite subscript_contained by done.
  rewrite with_sub_delegates_id. unfold contains_key in E. unfold live_delegate, at_key.
  by destruct (find (sub_delegates c) ns) as [[k0 w]|].
Qed.
Lemma lock_pub_contained ns c :
  contains_key (pub_delegates c) ns = true ->
  lock_pub ns c = (Ret (live_delegate (pub_delegates c) ns), c).
Proof.
  intros E. unfold lock_pub. rewrite subscript_contained by done.
  assert (with_pub_delegates (pub_delegates c) c = c) as -> by (by destruct c).
  unfold contains_key in E. unfold live_delegate, at_key.
  by destruct (find (pub_delegates c) ns) as [[k0 w]|].
Qed.
Lemma not_contained_lock (m : list (Namespace * weak_ptr)) ns :
  contains_key m ns = false -> live_delegate m ns = None.
Proof. unfold contains_key, live_delegate, at_key. by destruct (find m ns) as [[k0 w]|]. Qed.
End replies.

(** Replies of the relay reach the delegate registered for their namespace:
    on a little-endian host, a [SubscribeResponse], a [SubscribeEnd] and a
    [PublishIntentResponse] as the server encodes them make exactly the call
    with the namespace and the status they carry, provided the delegate still
    exists; the end of a subscription also drops its context and delegate, and
    nothing else changes. *)
Theorem replies_reach_delegates {T : Target} `{!LittleEndian} {Tr : ITransport}
    {App : SubscriberApp} r e p rest c :
  wf c -> ok_SubscribeResponse r -> ok_SubscribeEnd e -> ok_PublishIntentResponse p ->
  pir_message_type p = MessageType.PublishIntentResponse ->
  handle (encoded (put_SubscribeResponse r) ++ rest) c
    = (Ret tt, emit (match live_delegate (sub_delegates c) (subr_namespace r) with
                     | Some d => [onSubscribeResponse d (subr_namespace r) (subr_response r)]
                     | None => [] end) c) /\
  handle (encoded (put_PublishIntentResponse p) ++ rest) c
    = (Ret tt, emit (match live_delegate (pub_delegates c) (pir_namespace p) with
                     | Some d => [onPublishIntentResponse d (pir_namespace p) (pir_response p)]
                     | None => [] end) c) /\
  handle (encoded (put_SubscribeEnd e) ++ rest) c
    = (Ret tt, emit (ended_events (sub_delegates c) (sube_reason e) (sube_namespace e))
                 (with_sub_delegates (erase (sub_delegates c) (sube_namespace e))
                    (with_subscribe_state (erase (subscribe_state c) (sube_namespace e)) c))).
Proof.
  intros [Hw _] Hr He Hp Ht.
  destruct (encoded_wire _ _ (put_SubscribeResponse_wire r)) as [_ ->].
  destruct (encoded_wire _ _ (put_SubscribeEnd_wire e)) as [_ ->].
  destruct (encoded_wire _ _ (put_PublishIntentResponse_wire p)) as [_ ->].
  pose proof (get_SubscribeResponse_wire native_little r Hr rest) as Er.
  pose proof (get_SubscribeEnd_wire native_little e He rest) as Ee.
  pose proof (get_PublishIntentResponse_wire native_little p Hp rest) as Ep.
  split_and!.
  - remember (SubscribeResponse_wire r ++ rest) as msg eqn:Em.
    assert (exists msg', msg = enum_to_u8 MessageType.SubscribeResponse :: msg') as [msg' Em']
      by (subst msg; eexists; reflexivity).
    unfold handle. rewrite Em'.
    change (enum_of_u8 (enum_to_u8 MessageType.SubscribeResponse)) with MessageType.SubscribeResponse. cbv iota. rewrite <- Em'.
    cbv [mbind M_bind on_local gets]. rewrite Er. cbv [fst].
    destruct (contains_key (sub_delegates c) (subr_namespace r)) eqn:E.
    + rewrite lock_sub_contained by done.
      destruct (live_delegate (sub_delegates c) (subr_namespace r)); [done|]. by rewrite emit_nil.
    + rewrite not_contained_lock by done. by rewrite emit_nil.
  - remember (PublishIntentResponse_wire p ++ rest) as msg eqn:Em.
    assert (exists msg', msg = enum_to_u8 MessageType.PublishIntentResponse :: msg')
      as [msg' Em'] by (subst msg; unfold PublishIntentResponse_wire; rewrite Ht; eexists; reflexivity).
    unfold handle. rewrite Em'.
    change (enum_of_u8 (enum_to_u8 MessageType.PublishIntentResponse)) with MessageType.PublishIntentResponse. cbv iota. rewrite <- Em'.
    cbv [mbind M_bind on_local gets]. rewrite Ep. cbv [fst].
    destruct (contains_key (pub_delegates c) (pir_namespace p)) eqn:E; cbn [negb].
    + rewrite lock_pub_contained by done.
      destruct (live_delegate (pub_delegates c) (pir_namespace p)); [done|]. by rewrite emit_nil.
    + rewrite not_contained_lock by done. by rewrite emit_nil.
  - remember (SubscribeEnd_wire e ++ rest) as msg eqn:Em.
    assert (exists msg', msg = enum_to_u8 MessageType.SubscribeEnd :: msg') as [msg' Em']
      by (subst msg; eexists; reflexivity).
    unfold handle. rewrite Em'.
    change (enum_of_u8 (enum_to_u8 MessageType.SubscribeEnd)) with MessageType.SubscribeEnd. cbv iota. rewrite <- Em'.
    rewrite (run_bind_ret _ _ _ c e) by (unfold on_local; by rewrite Ee).
    by apply removeSubscribeState_one_run; apply Hw.
Qed.

Lemma replies_reach_delegates_witness :
  let c := with_sub_delegates [(demo_ns, Some 7)] demo_client in
  let h := handle (T := strict_little) (App := demo_app) in
  let r := mkSubscribeResponse demo_ns SubscribeStatus.Ok 5 in
  let p := mkPublishIntentResponse MessageType.PublishIntentResponse demo_ns Response.Ok 5 in
  let e := mkSubscribeEnd demo_ns SubscribeStatus.TimeOut in
  h (encoded (put_SubscribeResponse (T := strict_little) r) ++ []) c
    = (Ret tt, emit [onSubscribeResponse 7 demo_ns SubscribeStatus.Ok] c) /\
  h (encoded (put_PublishIntentResponse (T := strict_little) p) ++ []) c = (Ret tt, emit [] c) /\
  h (encoded (put_SubscribeEnd e) ++ []) c
    = (Ret tt, emit [onSubscriptionEnded 7 demo_ns SubscribeStatus.TimeOut] demo_client).
Proof.
  apply (replies_reach_delegates (T := strict_little) (Tr := FakeTransport) (App := demo_app)
    (mkSubscribeResponse demo_ns SubscribeStatus.Ok 5)
    (mkSubscribeEnd demo_ns SubscribeStatus.TimeOut)
    (mkPublishIntentResponse MessageType.PublishIntentResponse demo_ns Response.Ok 5) []
    (with_sub_delegates [(demo_ns, Some 7)] demo_client)).
  - apply wf_with_sub_delegates; [apply client_wf_init|]. apply sorted_cons; [constructor|].
    intros q Hq. by apply not_elem_of_nil in Hq.
  - repeat split; vm_compute; congruence.
  - repeat split; vm_compute; congruence.
  - repeat split; vm_compute; congruence.
  - reflexivity.
Defined.

(** C33: an object that fits one message is handed to every live delegate whose
    namespace contains its name, once each and in map order.  All calls share
    one moved-from vector: the delegates after the first one that takes the
    data get an empty object. *)
Theorem object_delivery {T : Target} `{!LittleEndian} {Tr : ITransport}
    {App : SubscriberApp} d rest c :
  wf_delegates c -> ok_PublishDatagram d -> offset_and_fin (header d) = 1 ->
  handle (encoded (put_PublishDatagram d) ++ rest) c
  = (Ret tt, emit (moving_calls (receivers (sub_delegates c) (name (header d)))
                     (name (header d)) (media_data d)) c).
Proof. apply handle_object. Qed.

Lemma object_delivery_witness :
  let c := with_sub_delegates [(demo_ns, Some 7)] demo_client in
  let d := mkPublishDatagram (mkHeader 0x2000 (mkName 0x1000 0x2001) 0 0 1 0)
             MediaType.RealtimeMedia 3 [1; 2; 3] in
  handle (T := strict_little) (App := demo_app) (encoded (put_PublishDatagram d) ++ []) c
  = (Ret tt, emit [onSubscribedObject 7 (mkName 0x1000 0x2001) 0 0 false [1; 2; 3]] c).
Proof.
  apply (object_delivery (T := strict_little) (Tr := FakeTransport) (App := demo_app)
    (mkPublishDatagram (mkHeader 0x2000 (mkName 0x1000 0x2001) 0 0 1 0)
       MediaType.RealtimeMedia 3 [1; 2; 3]) []
    (with_sub_delegates [(demo_ns, Some 7)] demo_client)).
  - split.
    + apply sorted_cons; [constructor|]. intros q Hq. by apply not_elem_of_nil in Hq.
    + intros q Hq. apply elem_of_cons in Hq as [->|Hq]; [|by apply not_elem_of_nil in Hq].
      repeat split; vm_compute; congruence.
  - repeat split; vm_compute; congruence.
  - reflexivity.
Defined.

(** Connecting ends as soon as the transport answers something else than
    [Connecting] to the loop's question; the client is then ready exactly when
    the next answer is [Ready], and the constructor throws otherwise. *)
Theorem client_connects {T : Target} {Tr : ITransport} relay cid fs ci k :
  status (k * 2) <> Connecting ->
  exists j, (j <= k)%nat /\
    (forall i, (i < j)%nat -> status (i * 2) = Connecting) /\
    QuicRClient_relay (S k) relay cid fs ci
    = Some (if decide (status (S (j * 2)) = Transport.Ready)
            then Ret (init (match proto relay with Protocol.UDP => true | _ => false end)
                        start (createStream start false) fs ci)
            else Throw runtime_error).
Proof. apply relay_connects. Qed.

Lemma client_connects_witness :
  exists j, (j <= 0)%nat /\
    (forall i, (i < j)%nat ->
       status (ITransport := FakeTransport) (i * 2) = Connecting (ITransport := FakeTransport)) /\
    QuicRClient_relay (Tr := FakeTransport) 1 RelayInfo_init 0 [] 1
    = Some (Ret (init true 0x1000 0x2000 [] 1)).
Proof.
  apply (client_connects (T := strict_little) (Tr := FakeTransport) RelayInfo_init 0 [] 1 0).
  discriminate.
Defined.

End QuicRClient.
