(* ===== verification/ClientThreads.v ===== *)
(** * The client's operations, access by access (src/quicr_client.cpp)

    [Client] models an operation as one step.  Here each is a program
    ([Threads.prog]) of its accesses to the members and the static variables,
    with the places where it takes and gives back [mutex], and the code of the
    application runs inside the calls of its delegates ([react]).  The ids of
    the transport are constant once the client is made; the transport
    synchronises its own calls, so that they access none of these locations. *)

From S2P Require Export Threads Client.
#[local] Open Scope Z_scope.

Module ClientThreads.
Import QuicRClient.

(** The shared variables; [Statics] are [fragments] and [cindex]. *)
Inductive loc := Sub_delegates | Pub_delegates | Subscribe_state | Publish_state | Statics.
#[export] Instance loc_eq_dec : EqDecision loc.
Proof. solve_decision. Defined.

Abbreviation code := (prog QuicRClient.t loc).

(** What an application does when one of its delegates is called. *)
Class Reactions := react : Event -> code unit.

(** Delegates that do not call back. *)
Definition passive : Reactions := fun _ => mret tt.

Section client.
Context {T : Target} {Tr : ITransport} {App : SubscriberApp} {R : Reactions}.

Definition call (e : Event) : code unit := io (notify e);; react e.

Definition send (msg : bytes) : code bool :=
  io (c ← gets id; enqueue (QuicRClient.transport_context_id c)
        (QuicRClient.transport_stream_id c) msg).

(** ** Publisher API: no lock *)

Definition publishIntent (d : weak_ptr) (ns : Namespace) (payload : bytes) (draw : Z)
    : code bool :=
  known ← rd Pub_delegates (gets (fun c => contains_key (pub_delegates c) ns));
  (if (known : bool) then mret tt
   else wr Pub_delegates (modify (fun c =>
          with_pub_delegates (assign (pub_delegates c) ns d) c)));;
  sid ← io (gets QuicRClient.transport_stream_id);
  stream_id ← Done (uintVar sid);
  capable ← Done (uintVar 1);
  msg ← Done (serialize (put_PublishIntent
    (mkPublishIntent MessageType.PublishIntent (create_transaction_id draw) ns
       payload stream_id capable)));
  send msg.

Definition publishIntentEnd (ns : Namespace) : code unit :=
  known ← rd Pub_delegates (gets (fun c => contains_key (pub_delegates c) ns));
  if (known : bool) then
    wr Pub_delegates (modify (fun c => with_pub_delegates (erase (pub_delegates c) ns) c));;
    msg ← Done (serialize (put_PublishIntentEnd
      (mkPublishIntentEnd MessageType.PublishIntentEnd ns [])));
    send msg;;
    mret tt
  else mret tt.

(** ** Subscriber API: under the mutex *)

(** [if (subscribe_state.count(ns)) subscribe_state.erase(ns);] *)
Definition drop_state (ns : Namespace) : code unit :=
  has ← rd Subscribe_state (gets (fun c => contains_key (subscribe_state c) ns));
  if (has : bool)
  then wr Subscribe_state (modify (fun c => with_subscribe_state (erase (subscribe_state c) ns) c))
  else mret tt.

Definition subscribe_body (d : weak_ptr) (ns : Namespace) (intent : SubscribeIntent.t)
    (draw : Z) : code unit :=
  known ← rd Sub_delegates (gets (fun c => contains_key (sub_delegates c) ns));
  (if (known : bool) then mret tt
   else wr Sub_delegates (modify (fun c =>
          with_sub_delegates (assign (sub_delegates c) ns d) c)));;
  let transaction_id := create_transaction_id draw in
  msg ← Done (serialize (put_Subscribe (mkSubscribe 1 transaction_id ns intent)));
  has ← rd Subscribe_state (gets (fun c => contains_key (subscribe_state c) ns));
  if negb has then
    wr Subscribe_state (modify (fun c => with_subscribe_state
      (assign (subscribe_state c) ns
         (mkSubscribeContext Pending (QuicRClient.transport_context_id c)
            (QuicRClient.transport_stream_id c) transaction_id)) c));;
    send msg;;
    mret tt
  else
    ctx ← wr Subscribe_state (fun c =>
      let '(ctx, m) := subscript (subscribe_state c) ns SubscribeContext_init in
      (Ret ctx, with_subscribe_state m c));
    if decide (sc_state ctx = QuicRClient.Ready) then mret tt
    else send msg;; mret tt.
Definition subscribe (d : weak_ptr) (ns : Namespace) (intent : SubscribeIntent.t)
    (draw : Z) : code unit :=
  with_lock (subscribe_body d ns intent draw).

Definition removeSubscribeState_body (ns : Namespace) (reason : SubscribeStatus.t) : code unit :=
  drop_state ns;;
  known ← rd Sub_delegates (gets (fun c => contains_key (sub_delegates c) ns));
  if (known : bool) then
    d ← wr Sub_delegates (lock_sub ns);
    (match d with Some d => call (onSubscriptionEnded d ns reason) | None => mret tt end);;
    wr Sub_delegates (modify (fun c => with_sub_delegates (erase (sub_delegates c) ns) c))
  else mret tt.
(** The lock is given up before the function calls itself. *)
Definition removeSubscribeState (all : bool) (ns : Namespace) (reason : SubscribeStatus.t)
    : code unit :=
  if all then
    names ← with_lock (rd Subscribe_state (gets (fun c => map fst (subscribe_state c))));
    prog_for names (fun ns => with_lock (removeSubscribeState_body ns reason))
  else with_lock (removeSubscribeState_body ns reason);; mret tt.

Definition unsubscribe_body (ns : Namespace) : code unit :=
  msg ← Done (serialize (put_Unsubscribe (mkUnsubscribe 1 ns)));
  drop_state ns;;
  send msg;;
  mret tt.
Definition unsubscribe (ns : Namespace) : code unit := with_lock (unsubscribe_body ns).

(** ** Publication of objects: no lock *)

Fixpoint publish_fragments (datagram : PublishDatagram) (data : bytes)
    (frag_num : nat) (frag_remaining_bytes offset stream_id : Z) : code (option Z) :=
  match frag_num with
  | O => mret (Some offset)
  | S frag_num' =>
      offset_and_fin ← Done (uintVar_of_int
        (if ((Z.of_nat frag_num' =? 0) && (frag_remaining_bytes =? 0))%bool
         then wrap_int (Z.shiftl offset 1) + 1
         else wrap_int (Z.shiftl offset 1)));
      frag_data ← Done (slice data offset MAX_TRANSPORT_DATA_SIZE);
      datagram' ← Done (with_media datagram offset_and_fin frag_data);
      msg ← Done (serialize (put_PublishDatagram datagram'));
      offset' ← Done (int_op (offset + MAX_TRANSPORT_DATA_SIZE));
      cid ← io (gets QuicRClient.transport_context_id);
      ok ← io (enqueue cid stream_id msg);
      if (ok : bool)
      then publish_fragments datagram' data frag_num' frag_remaining_bytes offset' stream_id
      else mret None
  end.

Definition publishNamedObject (quicr_name : Name) (data : bytes) : code unit :=
  known ← rd Publish_state (gets (fun c => contains_key (publish_state c) quicr_name));
  context ← (if negb known
    then io (gets (fun c => mkPublishContext Pending (QuicRClient.transport_context_id c)
                              (QuicRClient.transport_stream_id c) 0 0 0))
    else wr Publish_state (fun c =>
      let '(ctx, m) := subscript (publish_state c) quicr_name PublishContext_init in
      (Ret ctx, with_publish_state m c)));
  cid ← io (gets QuicRClient.transport_context_id);
  mid ← Done (uintVar (pc_transport_stream_id context));
  gid ← Done (uintVar (pc_group_id context));
  oid ← Done (uintVar (pc_object_id context));
  let datagram :=
    mkPublishDatagram (mkHeader mid quicr_name gid oid 1 0) MediaType.RealtimeMedia 0 [] in
  let size := Z.of_nat (length data) in
  if size <=? MAX_TRANSPORT_DATA_SIZE then
    datagram' ← Done (with_media datagram 1 data);
    msg ← Done (serialize (put_PublishDatagram datagram'));
    io (enqueue cid (pc_transport_stream_id context) msg);;
    mret tt
  else
    let frag_num := wrap_int (size / MAX_TRANSPORT_DATA_SIZE) in
    let frag_remaining_bytes := wrap_int (size mod MAX_TRANSPORT_DATA_SIZE) in
    r ← publish_fragments datagram data (Z.to_nat frag_num) frag_remaining_bytes 0
          (pc_transport_stream_id context);
    match r with
    | None => mret tt
    | Some offset =>
        if frag_remaining_bytes =? 0 then mret tt
        else
          offset_and_fin ← Done (uintVar_of_int (wrap_int (Z.shiftl offset 1) + 1));
          frag_data ← Done (slice data offset (size - offset));
          datagram' ← Done (with_media datagram offset_and_fin frag_data);
          msg ← Done (serialize (put_PublishDatagram datagram'));
          io (enqueue cid (pc_transport_stream_id context) msg);;
          mret tt
    end.

(** ** Received messages: no lock, except to end a subscription *)

(** The loop over [sub_delegates]; [x] is what the body changes, [fuel] the
    number of entries it may visit. *)
Fixpoint visit {X} (body : Namespace * weak_ptr -> X -> code X) (fuel : nat)
    (it : option (Namespace * weak_ptr)) (x : X) : code unit :=
  match it, fuel with
  | None, _ => mret tt
  | Some _, O => Busy
  | Some entry, S fuel' =>
      x' ← body entry x;
      it' ← rd Sub_delegates (fun c => (next_entry (sub_delegates c) entry.1, c));
      visit body fuel' it' x'
  end.
Definition for_delegates {X} (fuel : nat) (body : Namespace * weak_ptr -> X -> code X) (x : X)
    : code unit :=
  it ← rd Sub_delegates (gets (fun c => head (sub_delegates c)));
  visit body fuel it x.

Definition deliver (entry : Namespace * weak_ptr) (name : Name) (data : bytes) : code bool :=
  inside ← Done (contains entry.1 name);
  if (inside : bool) then
    d ← wr Sub_delegates (lock_sub entry.1);
    match d with
    | Some d => call (onSubscribedObject d name 0 0 false data);; mret (consumes d)
    | None => mret false
    end
  else mret false.

Definition notify_pub_fragment (fuel : nat) (datagram : PublishDatagram) (m : frag_map)
    : code bool :=
  match rbegin m with
  | None => Done Undefined
  | Some (key, _) =>
      if negb (Z.land key 1 =? 1) then mret false
      else
        r ← Done (reassemble m 0 []);
        match r with
        | None => mret false
        | Some reassembled =>
            for_delegates fuel (fun entry _ =>
              deliver entry (name (header datagram)) reassembled;; mret tt) tt;;
            mret true
        end
  end.

Definition update_fragments (fuel : nat) (datagram : PublishDatagram) (i : Z) (m : frag_map)
    : code unit :=
  let n := name (header datagram) in
  let m' := emplace m (fragment_key datagram) (media_data datagram) in
  wr Statics (set_fragments i n m');;
  complete ← notify_pub_fragment fuel datagram m';
  if (complete : bool) then wr Statics (erase_fragments i n) else mret tt.

Definition handle_pub_fragment (fuel : nat) (datagram : PublishDatagram) : code unit :=
  let n := name (header datagram) in
  here ← wr Statics (fun c =>
    let index := wrap_int (cindex c) in
    let '(buf, fs) := subscript (fragments c) index [] in
    (Ret (index, find buf n), with_fragments fs (cindex c) c));
  (match here with
   | (index, Some (_, m)) => update_fragments fuel datagram index m
   | (_, None) =>
       hit ← rd Statics (gets (fun c => search_buffers (fragments c) n));
       match hit with
       | Some (i, (_, m)) => update_fragments fuel datagram i m
       | None =>
           wr Statics (modify (fun c =>
             let index := wrap_int (cindex c) in
             let '(buf, fs) := subscript (fragments c) index [] in
             let '(m, buf') := subscript buf n [] in
             with_fragments
               (assign fs index
                  (assign buf' n (emplace m (fragment_key datagram) (media_data datagram))))
               (cindex c) c))
       end
   end);;
  wr Statics rotate_buffers.

Definition handle (fuel : nat) (msg : bytes) : code unit :=
  match msg with
  | [] => mret tt
  | front :: _ =>
      match (enum_of_u8 front : MessageType.t) with
      | MessageType.SubscribeResponse =>
          response ← Done (get_SubscribeResponse msg).1;
          known ← rd Sub_delegates
            (gets (fun c => contains_key (sub_delegates c) (subr_namespace response)));
          if (known : bool) then
            d ← wr Sub_delegates (lock_sub (subr_namespace response));
            match d with
            | Some d => call (onSubscribeResponse d (subr_namespace response)
                                (subr_response response))
            | None => mret tt
            end
          else mret tt
      | MessageType.SubscribeEnd =>
          subEnd ← Done (get_SubscribeEnd msg).1;
          removeSubscribeState false (sube_namespace subEnd) (sube_reason subEnd)
      | MessageType.Publish =>
          datagram ← Done (get_PublishDatagram msg).1;
          if uintVar_eqb (offset_and_fin (header datagram)) 1 then
            for_delegates fuel (fun entry data =>
              moved ← deliver entry (name (header datagram)) data;
              mret (if (moved : bool) then [] else data)) (media_data datagram)
          else handle_pub_fragment fuel datagram
      | MessageType.PublishIntentResponse =>
          response ← Done (get_PublishIntentResponse msg).1;
          known ← rd Pub_delegates
            (gets (fun c => contains_key (pub_delegates c) (pir_namespace response)));
          if negb known then mret tt
          else
            d ← wr Pub_delegates (lock_pub (pir_namespace response));
            match d with
            | Some d => call (onPublishIntentResponse d (pir_namespace response)
                                (pir_response response))
            | None => mret tt
            end
      | _ => mret tt
      end
  end.

(** ** Transport delegate *)

Definition on_connection_status (st : TransportStatus) : code unit :=
  if decide (st = Disconnected)
  then removeSubscribeState true (mkNamespace (mkName 0 0) 0) SubscribeStatus.ConnectionClosed
  else mret tt.

Fixpoint on_recv_notify_loop (fuel n : nat) : code unit :=
  match n with
  | O => mret tt
  | S n' =>
      data ← io dequeue;
      match data with
      | None => mret tt
      | Some msg =>
          go ← prog_catch (handle fuel msg;; mret true) (fun _ => Some (mret false));
          if (go : bool) then on_recv_notify_loop fuel n' else mret tt
      end
  end.
Definition on_recv_notify (fuel : nat) : code unit := on_recv_notify_loop fuel 150.
End client.

(** * Run alone, a program does what the operation of [Client] does *)

Lemma with_publish_state_id c : with_publish_state (publish_state c) c = c.
Proof. by destruct c. Qed.
Lemma with_pub_delegates_id c : with_pub_delegates (pub_delegates c) c = c.
Proof. by destruct c. Qed.

(** Evaluates both sides, one decision after the other. *)
Ltac alone_step :=
  match goal with
  | |- context [match ?x with _ => _ end] =>
      lazymatch x with context [match _ with _ => _ end] => fail | _ => idtac end;
      destruct x eqn:?; cbn in *; simplify_eq; try done
  end.
Ltac alone := intros ? ?; cbv [mbind mret M_bind M_ret prog_bind prog_ret]; cbn;
  repeat alone_step; try done.

Ltac refine_step :=
  first [ apply refines_ret | apply refines_atomic | apply refines_done
        | eapply refines_bind with anything; [|apply preserves_always|intros ? _]
        | case_match ].

Ltac fold_refines :=
  match goal with |- run _ ?p ?s = Some ((?m ?s).1, _, _) =>
    cut (refines always false p m); [intros H; by apply H|] end.

Ltac straight := repeat first
  [ apply straight_bind; [|intros ?] | done | case_match ].

Section alone.
Context {T : Target} {Tr : ITransport} {App : SubscriberApp}.
#[local] Existing Instance passive.

Lemma alone_publishIntent I d ns payload draw :
  refines I false (publishIntent d ns payload draw)
    (QuicRClient.publishIntent d ns payload draw).
Proof. unfold publishIntent, QuicRClient.publishIntent, send. alone. Qed.

Lemma alone_publishIntentEnd I ns :
  refines I false (publishIntentEnd ns) (QuicRClient.publishIntentEnd ns).
Proof. unfold publishIntentEnd, QuicRClient.publishIntentEnd, send. alone. Qed.

Lemma alone_subscribe_body I d ns intent draw :
  refines I true (subscribe_body d ns intent draw) (QuicRClient.subscribe d ns intent draw).
Proof. unfold subscribe_body, QuicRClient.subscribe, send. alone. Qed.

Lemma alone_remove_body I ns reason :
  refines I true (removeSubscribeState_body ns reason)
    (QuicRClient.removeSubscribeState_one ns reason).
Proof.
  unfold removeSubscribeState_body, QuicRClient.removeSubscribeState_one, drop_state, call.
  alone.
Qed.

Lemma alone_unsubscribe_body I ns :
  refines I true (unsubscribe_body ns) (QuicRClient.unsubscribe ns).
Proof. unfold unsubscribe_body, QuicRClient.unsubscribe, drop_state, send. alone. Qed.

Lemma alone_publish_fragments data k datagram rest offset sid :
  refines always false (publish_fragments datagram data k rest offset sid)
    (QuicRClient.publish_fragments datagram data k rest offset sid).
Proof.
  revert datagram offset. induction k as [|k IH]; intros datagram offset; [by intros s|].
  cbn [publish_fragments QuicRClient.publish_fragments]. repeat refine_step. apply IH.
Qed.

Lemma alone_publishNamedObject n data :
  refines always false (publishNamedObject n data) (QuicRClient.publishNamedObject n data).
Proof.
  intros c _. unfold publishNamedObject, QuicRClient.publishNamedObject.
  rewrite (run_bind_ret (gets id) _ c c c) by done. cbn beta.
  rewrite run_bind. cbn [run atomic gets fst snd].
  destruct (contains_key (publish_state c) n) eqn:E; cbn [negb].
  - destruct (subscript (publish_state c) n PublishContext_init) as [ctx m] eqn:Em.
    rewrite run_bind_ret with (a := tt) (s' := with_publish_state m c) by done.
    rewrite run_bind. cbn [run atomic fst snd]. rewrite Em. cbn [fst snd].
    rewrite run_bind. cbn [run atomic gets fst snd].
    change (QuicRClient.transport_context_id (with_publish_state m c))
      with (QuicRClient.transport_context_id c).
    fold_refines. repeat refine_step. apply alone_publish_fragments.
  - rewrite run_bind_ret with (a := tt) (s' := c)
      by (cbv [modify]; by rewrite with_publish_state_id).
    rewrite !run_bind. cbn [run atomic gets fst snd].
    rewrite run_bind. cbn [run atomic gets fst snd].
    fold_refines. repeat refine_step. apply alone_publish_fragments.
Qed.

(** ** Loops over the delegates *)

(** The loop over a list that does not change. *)
Fixpoint loop {X} (g : Namespace * weak_ptr -> X -> M QuicRClient.t X)
    (l : list (Namespace * weak_ptr)) (x : X) : M QuicRClient.t unit :=
  match l with
  | [] => mret tt
  | e :: l' => x' ← g e x; loop g l' x'
  end.

Section visiting.
Context {X : Type} (m : list (Namespace * weak_ptr)) (J : QuicRClient.t -> Prop).
Context (body : Namespace * weak_ptr -> X -> code X).
Context (g : Namespace * weak_ptr -> X -> M QuicRClient.t X).
Hypothesis Hm : sorted m.
Hypothesis HJ : forall c, J c -> sub_delegates c = m.
Hypothesis Hbody : forall e x, e ∈ m -> refines J false (body e x) (g e x).
Hypothesis Hg : forall e x, e ∈ m -> preserves J (g e x) anything.

Lemma visit_loop pre post fuel x :
  m = pre ++ post -> (length post <= fuel)%nat ->
  refines J false (visit body fuel (head post) x) (loop g post x).
Proof.
  revert pre fuel x. induction post as [|e post IH]; intros pre fuel x Em Hf.
  { destruct fuel; apply refines_ret. }
  destruct fuel as [|fuel]; [cbn in Hf; lia|]. cbn [head visit loop].
  assert (e ∈ m) as He by (rewrite Em; apply elem_of_app; right; by left).
  apply refines_bind with anything; [by apply Hbody|by apply Hg|]. intros x' _ c Hc.
  rewrite run_bind. cbn [run atomic fst snd]. rewrite (HJ c Hc), Em.
  rewrite next_entry_spec by by rewrite <- Em.
  apply (IH (pre ++ [e])); [by rewrite <- app_assoc|cbn in Hf; lia|done].
Qed.

Lemma for_delegates_loop fuel x : (length m <= fuel)%nat ->
  refines J false (for_delegates fuel body x) (loop g m x).
Proof.
  intros Hf c Hc. unfold for_delegates. rewrite run_bind. cbn [run atomic gets fst snd].
  rewrite (HJ c Hc). by apply (visit_loop [] m).
Qed.
End visiting.

(** ** Received messages *)

(** The delegates do not change. *)
Definition delegates_are (m : list (Namespace * weak_ptr)) (c : QuicRClient.t) : Prop :=
  sub_delegates c = m.

Lemma alone_deliver e n data :
  refines always false (deliver e n data) (QuicRClient.deliver e n data).
Proof. unfold deliver, QuicRClient.deliver, call. alone. Qed.

Lemma deliver_delegates_are m e n data :
  sorted m -> e ∈ m ->
  preserves (delegates_are m) (QuicRClient.deliver e n data) anything.
Proof.
  intros Hm He c Hc _. unfold delegates_are in *. split; [|done].
  destruct (deliver_emits e n data c) as [ev ->]; by rewrite ?Hc.
Qed.

Lemma deliver_moving_loop l n data c :
  deliver_moving l n data c
  = loop (fun e data => moved ← QuicRClient.deliver e n data;
            mret (if (moved : bool) then [] else data)) l data c.
Proof.
  revert data c. induction l as [|e l IH]; intros data c; [done|].
  cbn [deliver_moving loop]. unfold mbind, M_bind, mret, M_ret.
  destruct (QuicRClient.deliver e n data c) as [[b|x|] c']; [|done..]. apply IH.
Qed.

Lemma deliver_copies_loop l n data x c :
  mfor l (fun e => QuicRClient.deliver e n data;; mret tt) c
  = loop (fun e _ => QuicRClient.deliver e n data;; mret tt) l x c.
Proof.
  revert x c. induction l as [|e l IH]; intros x c; [done|].
  cbn [mfor loop]. unfold mbind, M_bind, mret, M_ret.
  destruct (QuicRClient.deliver e n data c) as [[b|y|] c']; [|done..]. apply IH.
Qed.

Section reception.
Context (m : list (Namespace * weak_ptr)) (fuel : nat).
Context (Hm : sorted m) (Hfuel : (length m <= fuel)%nat).

Lemma alone_object n data :
  refines (delegates_are m) false
    (for_delegates fuel (fun entry data =>
       moved ← deliver entry n data; mret (if (moved : bool) then [] else data)) data)
    (sds ← gets sub_delegates; deliver_moving sds n data).
Proof.
  intros c Hc. rewrite (run_bind_ret (gets sub_delegates) _ c c m) by (by cbv [gets]; rewrite Hc).
  rewrite deliver_moving_loop. apply (for_delegates_loop m (delegates_are m)); try done.
  - intros e x He. eapply refines_bind; [apply refines_always, alone_deliver| |].
    + by apply deliver_delegates_are.
    + intros b _. apply refines_ret.
  - intros e x He. eapply preserves_bind; [by apply deliver_delegates_are|].
    intros b _. by apply preserves_ret.
Qed.

Lemma alone_copies n data :
  refines (delegates_are m) false
    (for_delegates fuel (fun entry _ => deliver entry n data;; mret tt) tt)
    (sds ← gets sub_delegates;
     mfor sds (fun entry => QuicRClient.deliver entry n data;; mret tt)).
Proof.
  intros c Hc. rewrite (run_bind_ret (gets sub_delegates) _ c c m) by (by cbv [gets]; rewrite Hc).
  rewrite (deliver_copies_loop _ _ _ tt).
  apply (for_delegates_loop m (delegates_are m)); try done.
  - intros e x He. eapply refines_bind; [apply refines_always, alone_deliver| |].
    + by apply deliver_delegates_are.
    + intros b _. apply refines_ret.
  - intros e x He. eapply preserves_bind; [by apply deliver_delegates_are|].
    intros b _. by apply preserves_ret.
Qed.

Lemma alone_notify_pub_fragment d fm :
  refines (delegates_are m) false (notify_pub_fragment fuel d fm)
    (QuicRClient.notify_pub_fragment d fm).
Proof.
  unfold notify_pub_fragment, QuicRClient.notify_pub_fragment.
  destruct (rbegin fm) as [[key y]|]; [|by intros c]. case_match; [apply refines_ret|].
  eapply refines_bind with anything; [apply refines_done|by apply preserves_lift|].
  intros [r|] _; [|apply refines_ret]. intros c Hc.
  rewrite run_bind, alone_copies by done.
  assert (forall (a : M QuicRClient.t (list (Namespace * weak_ptr))) f (g : unit -> M QuicRClient.t bool) s,
    (x ← a; f x ≫= g) s = ((a ≫= f) ≫= g) s) as assoc.
  { intros a f g s. unfold mbind, M_bind. by destruct (a s) as [[?|?|] ?]. }
  rewrite assoc. set (mm := (sds ← gets sub_delegates; mfor sds _) : M QuicRClient.t unit).
  change (mbind _ (gets sub_delegates)) with mm.
  destruct (mm c) as [[[]|e|] c'] eqn:Em;
    [rewrite (run_bind_ret _ _ _ _ _ Em)|rewrite (run_bind_throw _ _ _ _ _ Em)
    |rewrite (run_bind_undefined _ _ _ _ Em)]; done.
Qed.

Lemma delegates_are_fragments A (f : M QuicRClient.t A) :
  (forall c, exists fs i, (f c).2 = with_fragments fs i c) ->
  preserves (delegates_are m) f anything.
Proof. intros H c Hc _. split; [|done]. destruct (H c) as (fs & i & ->). done. Qed.

Lemma set_fragments_are i n fm : preserves (delegates_are m) (set_fragments i n fm) anything.
Proof.
  apply delegates_are_fragments. intros c. unfold set_fragments, modify. cbn.
  destruct (subscript _ _ _). eauto.
Qed.

Lemma notify_are d fm : preserves (delegates_are m) (QuicRClient.notify_pub_fragment d fm) anything.
Proof.
  intros c Hc _. unfold delegates_are in *. split; [|done].
  destruct (notify_pub_fragment_emits d fm c) as [ev ->]; by rewrite ?Hc.
Qed.

Lemma erase_fragments_are i n : preserves (delegates_are m) (erase_fragments i n) anything.
Proof.
  apply delegates_are_fragments. intros c. unfold erase_fragments, mbind, M_bind, gets. cbn.
  destruct (subscript _ _ _). case_match; cbn; [eauto|].
  exists (fragments c), (cindex c). by rewrite with_fragments_id.
Qed.

Lemma alone_update_fragments d i fm :
  refines (delegates_are m) false (update_fragments fuel d i fm)
    (QuicRClient.update_fragments d i fm).
Proof.
  unfold update_fragments, QuicRClient.update_fragments.
  apply refines_bind with anything; [apply refines_atomic|apply set_fragments_are|intros [] _].
  eapply refines_bind; [apply alone_notify_pub_fragment|apply notify_are|intros b _].
  case_match; [apply refines_atomic|apply refines_ret].
Qed.

Lemma update_fragments_are d i fm :
  preserves (delegates_are m) (QuicRClient.update_fragments d i fm) anything.
Proof.
  unfold QuicRClient.update_fragments.
  apply preserves_bind with anything; [apply set_fragments_are|intros [] _].
  eapply preserves_bind; [apply notify_are|intros b _].
  case_match; [apply erase_fragments_are|by apply preserves_ret].
Qed.

Lemma alone_update_then_rotate d i fm :
  refines (delegates_are m) false
    (update_fragments fuel d i fm;; wr Statics rotate_buffers)
    (QuicRClient.update_fragments d i fm;; rotate_buffers).
Proof.
  eapply refines_bind; [apply alone_update_fragments|apply update_fragments_are|].
  intros [] _. apply refines_atomic.
Qed.

Lemma alone_handle_pub_fragment d :
  refines (fun c => delegates_are m c /\ sorted (fragments c)) false
    (handle_pub_fragment fuel d) (QuicRClient.handle_pub_fragment d).
Proof.
  intros c [Hc Hs]. unfold handle_pub_fragment, QuicRClient.handle_pub_fragment.
  rewrite (run_bind_ret (gets id) _ c c c) by done. cbn beta. cbv [id].
  rewrite run_bind. cbn [run atomic fst snd].
  pose proof (subscript_idem (fragments c) (wrap_int (cindex c)) [] Hs) as Hidem.
  destruct (subscript (fragments c) (wrap_int (cindex c)) []) as [buf fs] eqn:E.
  rewrite run_bind_ret with (a := tt) (s' := with_fragments fs (cindex c) c) by done.
  cbn [fst snd] in *.
  assert (delegates_are m (with_fragments fs (cindex c) c)) as Hc' by done.
  destruct (find buf (name (header d))) as [[k fm]|] eqn:Ef.
  { by apply alone_update_then_rotate. }
  rewrite run_bind. rewrite run_bind. cbn [run atomic gets fst snd].
  change (fragments (with_fragments fs (cindex c) c)) with fs.
  destruct (search_buffers fs (name (header d))) as [[i [k fm]]|] eqn:Eb.
  { pose proof (alone_update_then_rotate d i fm _ Hc') as Hr. rewrite run_bind in Hr. exact Hr. }
  cbn [run atomic fst snd modify].
  change (fragments (with_fragments fs (cindex c) c)) with fs.
  change (cindex (with_fragments fs (cindex c) c)) with (cindex c). rewrite Hidem.
  by destruct (subscript buf (name (header d)) []) as [fm buf'].
Qed.
End reception.

(** The bodies under the mutex neither lock nor unlock. *)
Lemma straight_subscribe d ns intent draw : straight (subscribe_body d ns intent draw).
Proof. unfold subscribe_body, send. straight. Qed.
Lemma straight_unsubscribe ns : straight (unsubscribe_body ns).
Proof. unfold unsubscribe_body, drop_state, send. straight. Qed.
Lemma straight_remove ns reason : straight (removeSubscribeState_body ns reason).
Proof. unfold removeSubscribeState_body, drop_state, call. straight. Qed.

Lemma alone_removeSubscribeState all ns reason :
  refines always false (removeSubscribeState all ns reason)
    (QuicRClient.removeSubscribeState all ns reason).
Proof.
  unfold removeSubscribeState, QuicRClient.removeSubscribeState. destruct all.
  - intros c _. rewrite run_bind. cbn [with_lock unlock_after run atomic gets fst snd].
    rewrite (run_bind_ret (gets subscribe_state) _ c c (subscribe_state c)) by done.
    apply (refines_for always); [|done..]. intros x _.
    apply refines_locked; [apply straight_remove|apply alone_remove_body].
  - intros c _. rewrite run_bind, (refines_locked always _ _ (straight_remove ns reason)
      (alone_remove_body always ns reason)) by done.
    by destruct (QuicRClient.removeSubscribeState_one ns reason c) as [[[]|e|] c'].
Qed.

(** A loop over the delegates needs no more fuel than there are delegates. *)
Definition enough (fuel : nat) (c : QuicRClient.t) : Prop :=
  wf c /\ (length (sub_delegates c) <= fuel)%nat.

Lemma alone_handle fuel msg :
  refines (enough fuel) false (handle fuel msg) (QuicRClient.handle msg).
Proof.
  destruct msg as [|front rest]; [by intros c|]. unfold handle, QuicRClient.handle.
  set (msg := front :: rest). destruct (enum_of_u8 front); try by intros c.
  - apply refines_always. change (on_local msg get_SubscribeResponse)
      with (lift (S := QuicRClient.t) (get_SubscribeResponse msg).1).
    generalize (get_SubscribeResponse msg).1. intros r. unfold call. alone.
  - apply refines_always. change (on_local msg get_SubscribeEnd)
      with (lift (S := QuicRClient.t) (get_SubscribeEnd msg).1).
    refine_step; [refine_step|]. apply alone_removeSubscribeState.
  - change (on_local msg get_PublishDatagram)
      with (lift (S := QuicRClient.t) (get_PublishDatagram msg).1).
    eapply refines_bind with anything; [apply refines_done|by apply preserves_lift|].
    intros d _ c [Hw Hf]. pose proof (wf_sub_delegates _ (proj1 Hw)) as Hs. case_match.
    + by apply (alone_object (sub_delegates c)).
    + apply (alone_handle_pub_fragment (sub_delegates c)); [done..|]. split; [done|].
      apply (store_sorted _ _ _ (wf_store _ (proj1 Hw))).
  - apply refines_always. change (on_local msg get_PublishIntentResponse)
      with (lift (S := QuicRClient.t) (get_PublishIntentResponse msg).1).
    generalize (get_PublishIntentResponse msg).1. intros r. unfold call. alone.
Qed.

Lemma alone_on_connection_status st :
  refines always false (on_connection_status st) (QuicRClient.on_connection_status st).
Proof.
  unfold on_connection_status, QuicRClient.on_connection_status.
  case_decide; [apply alone_removeSubscribeState|apply refines_ret].
Qed.

Lemma length_erase_le {V} (m : list (Namespace * V)) ns : (length (erase m ns) <= length m)%nat.
Proof. rewrite length_erase. case_match; lia. Qed.

Lemma rotate_buffers_are m : preserves (delegates_are m) rotate_buffers anything.
Proof.
  apply delegates_are_fragments. intros c. unfold rotate_buffers, modify. cbn.
  destruct (subscript _ _ _). case_match; eauto.
Qed.

Lemma handle_pub_fragment_are m d : sorted m ->
  preserves (delegates_are m) (QuicRClient.handle_pub_fragment d) anything.
Proof.
  intros Hm. unfold QuicRClient.handle_pub_fragment.
  assert (forall fs i, preserves (delegates_are m) (modify (with_fragments fs i)) anything) as Hf.
  { intros fs i. apply delegates_are_fragments. intros c. by exists fs, i. }
  apply preserves_bind with anything; [by apply preserves_gets|intros c _].
  destruct (subscript _ _ _) as [buf fs].
  apply preserves_bind with anything; [apply Hf|intros [] _].
  apply preserves_bind with anything; [|intros [] _; apply rotate_buffers_are].
  destruct (find _ _) as [[? fm]|]; [by apply update_fragments_are|].
  destruct (search_buffers _ _) as [[? [? fm]]|]; [by apply update_fragments_are|].
  destruct (subscript buf _ _). apply Hf.
Qed.

Lemma handle_enough fuel msg : preserves (enough fuel) (QuicRClient.handle msg) anything.
Proof.
  intros c [Hw Hf] Hsafe. split; [|done]. split; [by apply (handle_wf msg c Hw Hsafe)|].
  pose proof (wf_sub_delegates _ (proj1 Hw)) as Hs.
  pose proof (wf_subscribe_state _ (proj1 Hw)) as Ht. revert Hsafe.
  destruct msg as [|front rest]; [done|]. unfold QuicRClient.handle.
  set (msg := front :: rest). unfold mbind, M_bind, on_local.
  destruct (enum_of_u8 front); try done.
  - destruct (get_SubscribeResponse msg).1 as [r| |]; try done. cbn.
    destruct (contains_key _ _) eqn:E; [|done]. rewrite lock_sub_contained by done.
    by destruct (live_delegate _ _).
  - destruct (get_SubscribeEnd msg).1 as [r| |]; try done.
    unfold QuicRClient.removeSubscribeState. rewrite removeSubscribeState_one_run by done.
    intros _. etrans; [apply length_erase_le|done].
  - destruct (get_PublishDatagram msg).1 as [r| |]; try done. case_match; intros Hsafe.
    + unfold gets. destruct (deliver_moving_emits (sub_delegates c) (name (header r))
        (media_data r) c) as [ev E]; [done..|]. by rewrite E.
    + destruct (handle_pub_fragment_are (sub_delegates c) r Hs c) as [-> _]; done.
  - destruct (get_PublishIntentResponse msg).1 as [r| |]; try done. cbn.
    destruct (contains_key _ _) eqn:E; [|done]. cbn. rewrite lock_pub_contained by done.
    by destruct (live_delegate _ _).
Qed.

Lemma alone_on_recv_notify fuel :
  refines (enough fuel) false (on_recv_notify fuel) QuicRClient.on_recv_notify.
Proof.
  unfold on_recv_notify, QuicRClient.on_recv_notify. generalize 150%nat. intros n.
  induction n as [|n IH]; cbn [on_recv_notify_loop QuicRClient.on_recv_notify_loop];
    [apply refines_ret|].
  assert (preserves (enough fuel) dequeue anything) as Hd.
  { intros c [Hw Hf] Hsafe. split; [|done]. split; [by apply dequeue_wf|].
    unfold dequeue. by destruct (rx c). }
  eapply refines_bind; [apply refines_atomic|exact Hd|]. intros [msg|] _; [|apply refines_ret].
  assert (preserves (enough fuel) (QuicRClient.handle msg;; mret true) anything) as Hh.
  { eapply preserves_bind; [apply handle_enough|]. intros [] _. by apply preserves_ret. }
  eapply refines_bind with anything.
  - apply refines_catch; [|exact Hh|].
    + eapply refines_bind; [apply alone_handle|apply handle_enough|].
      intros [] _. apply refines_ret.
    + intros e. apply refines_ret.
  - apply preserves_try_catch; [exact Hh|]. intros e k [= <-]. by apply preserves_ret.
  - intros [] _; [exact IH|apply refines_ret].
Qed.
End alone.

(** ** Threads that make calls *)

Section calls.
Context {T : Target} {Tr : ITransport} {App : SubscriberApp}.

(** What a program must not do outside the mutex: the bodies of the calls under
    it, with the operations they carry out. *)
Inductive locked_call : forall A : Type, code A -> M QuicRClient.t A -> Prop :=
  | locked_subscribe d ns intent draw :
      locked_call unit (subscribe_body d ns intent draw)
        (QuicRClient.subscribe d ns intent draw)
  | locked_unsubscribe ns :
      locked_call unit (unsubscribe_body ns) (QuicRClient.unsubscribe ns)
  | locked_remove ns reason :
      locked_call unit (removeSubscribeState_body (R := passive) ns reason)
        (QuicRClient.removeSubscribeState false ns reason)
  | locked_names :
      locked_call _ (rd Subscribe_state (gets (fun c => map fst (subscribe_state c))))
        (gets (fun c => map fst (subscribe_state c))).

Lemma locked_straight A p m : locked_call A p m -> straight p.
Proof.
  destruct 1; auto using straight_subscribe, straight_unsubscribe.
  - apply straight_remove.
  - done.
Qed.

Lemma locked_alone A p m : locked_call A p m -> refines always true p m.
Proof.
  destruct 1; auto using alone_subscribe_body, alone_unsubscribe_body.
  - apply alone_remove_body.
  - apply refines_atomic.
Qed.

(** None of them throws, or is undefined. *)
Lemma locked_returns A p m c : locked_call A p m -> wf c -> exists a, (m c).1 = Ret a.
Proof.
  intros H Hw. destruct H.
  - exists tt. by apply subscribe_outcome.
  - exists tt. unfold QuicRClient.unsubscribe. rewrite (serialize_wire _ _ (put_Unsubscribe_wire _)).
    cbv [mbind M_bind lift gets]. by destruct (contains_key _ _).
  - exists tt. unfold QuicRClient.removeSubscribeState.
    by rewrite removeSubscribeState_one_run by apply Hw.
  - by eexists.
Qed.

Lemma locked_wf A p m : locked_call A p m -> preserves wf m anything.
Proof.
  destruct 1; auto using subscribe_wf, unsubscribe_wf, removeSubscribeState_wf.
  by apply preserves_gets.
Qed.

Lemma locked_keeps_wf A p m c : locked_call A p m -> wf c -> wf (m c).2.
Proof.
  intros H Hw. apply (locked_wf _ _ _ H _ Hw).
  by destruct (locked_returns _ _ _ c H Hw) as [a ->].
Qed.

Lemma caller_removeSubscribeState all ns reason :
  caller locked_call (removeSubscribeState (R := passive) all ns reason).
Proof.
  assert (forall ns (k : code unit), caller locked_call k ->
    caller locked_call (with_lock (removeSubscribeState_body (R := passive) ns reason) ≫= fun _ => k)) as Hone.
  { intros. by eapply caller_call; [apply locked_remove|]. }
  destruct all; cbn [removeSubscribeState].
  - eapply caller_call; [apply locked_names|]. intros l.
    induction l as [|x l IH]; [apply caller_end|]. by apply Hone.
  - apply Hone, caller_end.
Qed.

(** What the transport's thread does when a subscription ends. *)
Lemma caller_SubscribeEnd fuel front rest :
  (enum_of_u8 front : MessageType.t) = MessageType.SubscribeEnd ->
  caller locked_call (handle (R := passive) fuel (front :: rest)).
Proof.
  intros E. unfold handle. rewrite E.
  destruct (get_SubscribeEnd (front :: rest)).1 as [m|e|];
    [apply caller_removeSubscribeState|apply caller_end..].
Qed.

Lemma caller_on_connection_status st : caller locked_call (on_connection_status (R := passive) st).
Proof.
  unfold on_connection_status. case_decide; [apply caller_removeSubscribeState|apply caller_end].
Qed.

End calls.

(** ** Who may access what *)

(** The maps of subscriptions belong to the mutex; one thread announces, one
    receives; [publish_state] is only read.  It stays empty, as nothing is put
    into it, and [publishNamedObject] writes it only if it holds the name. *)
Definition unpublished (c : QuicRClient.t) : Prop := publish_state c = [].

Definition policy (announcer receiver : nat) (l : loc) : sharing :=
  match l with
  | Sub_delegates | Subscribe_state => Guarded
  | Pub_delegates => Private announcer
  | Publish_state => Constant
  | Statics => Private receiver
  end.

Section unpublished.
Context {Tr : ITransport} {App : SubscriberApp}.

Lemma unpublished_enqueue cid sid data c :
  unpublished c -> unpublished (enqueue cid sid data c).2.
Proof. done. Qed.
Lemma unpublished_lock_sub ns c : unpublished c -> unpublished (lock_sub ns c).2.
Proof. unfold lock_sub. by destruct (subscript _ _ _). Qed.
Lemma unpublished_lock_pub ns c : unpublished c -> unpublished (lock_pub ns c).2.
Proof. unfold lock_pub. by destruct (subscript _ _ _). Qed.
Lemma unpublished_dequeue c : unpublished c -> unpublished (dequeue c).2.
Proof. unfold dequeue. by destruct (rx c). Qed.
Lemma unpublished_set_fragments i n m c : unpublished c -> unpublished (set_fragments i n m c).2.
Proof. unfold set_fragments, modify. cbn. by destruct (subscript _ _ _). Qed.
Lemma unpublished_erase_fragments i n c : unpublished c -> unpublished (erase_fragments i n c).2.
Proof.
  unfold erase_fragments, mbind, M_bind, gets. cbn. destruct (subscript _ _ _). by case_match.
Qed.
Lemma unpublished_rotate_buffers c : unpublished c -> unpublished (rotate_buffers c).2.
Proof. unfold rotate_buffers, modify. cbn. destruct (subscript _ _ _). by case_match. Qed.
Lemma unpublished_subscript ns c :
  unpublished c ->
  unpublished (let '(ctx, m) := subscript (subscribe_state c) ns SubscribeContext_init in
               (Ret ctx : result SubscribeContext, with_subscribe_state m c)).2.
Proof. by destruct (subscript _ _ _). Qed.
Lemma unpublished_current n c :
  unpublished c ->
  unpublished (let index := wrap_int (cindex c) in
               let '(buf, fs) := subscript (fragments c) index [] in
               (Ret (index, find buf n) : result (Z * option (Name * frag_map)),
                with_fragments fs (cindex c) c)).2.
Proof. cbv zeta. by destruct (subscript _ _ _). Qed.
Lemma unpublished_first_fragment n key data c :
  unpublished c ->
  unpublished (let index := wrap_int (cindex c) in
               let '(buf, fs) := subscript (fragments c) index [] in
               let '(m, buf') := subscript buf n [] in
               with_fragments (assign fs index (assign buf' n (emplace m key data))) (cindex c) c).
Proof. cbv zeta. destruct (subscript _ _ _). by destruct (subscript _ _ _). Qed.
End unpublished.

Create HintDb unpublished.
#[export] Hint Resolve unpublished_enqueue unpublished_lock_sub unpublished_lock_pub
  unpublished_dequeue unpublished_set_fragments unpublished_erase_fragments
  unpublished_rotate_buffers unpublished_subscript unpublished_current
  unpublished_first_fragment : unpublished.

(** Every access leaves [publish_state] empty. *)
Ltac keeps_unpublished :=
  intros ? ?; cbv beta delta [modify]; cbn [snd]; first [by eauto with unpublished | done].

Section users.
Context {T : Target} {Tr : ITransport} {App : SubscriberApp} {R : Reactions}.

(** The calls that keep to it. *)
Inductive api (announces : bool) : forall A, code A -> Prop :=
  | api_subscribe d ns intent draw : api announces unit (subscribe d ns intent draw)
  | api_unsubscribe ns : api announces unit (unsubscribe ns)
  | api_removeSubscribeState all ns reason :
      api announces unit (removeSubscribeState all ns reason)
  | api_publishNamedObject n data : api announces unit (publishNamedObject n data)
  | api_publishIntent d ns payload draw :
      announces = true -> api announces bool (publishIntent d ns payload draw)
  | api_publishIntentEnd ns : announces = true -> api announces unit (publishIntentEnd ns).

(** A thread that uses the client through them. *)
Inductive user (announces : bool) : code unit -> Prop :=
  | user_end r : user announces (Done r)
  | user_last p : api announces unit p -> user announces p
  | user_call A (p : code A) f :
      api announces A p -> (forall a, user announces (f a)) -> user announces (p ≫= f).

Context (announcer receiver i : nat).
Abbreviation allowed := (allowed (policy announcer receiver) i).

Ltac follow := repeat first
  [ done | apply follows_bind; [|intros ?]
  | apply follows_atomic; [split; repeat constructor; cbv [may_read may_write policy]; done
      |keeps_unpublished]
  | case_match ].

Lemma follows_publish_fragments h data k d rest offset sid :
  follows unpublished False allowed h h (publish_fragments d data k rest offset sid).
Proof.
  revert d offset. induction k as [|k IH]; intros d offset; [done|].
  cbn [publish_fragments]. follow.
Qed.

Lemma follows_publishNamedObject h n data :
  follows unpublished False allowed h h (publishNamedObject n data).
Proof.
  apply follows_access; [split; repeat constructor|]. intros c Hc. split; [done|].
  unfold gets. cbn [fst]. rewrite Hc. cbn [contains_key find negb]. follow; apply follows_publish_fragments.
Qed.

Lemma follows_send h msg : follows unpublished False allowed h h (send msg).
Proof. unfold send. follow. Qed.

Lemma follows_subscribe d ns intent draw :
  follows unpublished False allowed false false (subscribe d ns intent draw).
Proof.
  apply follows_with_lock. unfold subscribe_body. pose proof follows_send. follow; auto.
Qed.

Lemma follows_drop_state ns : follows unpublished False allowed true true (drop_state ns).
Proof. unfold drop_state. follow. Qed.

Lemma follows_unsubscribe ns : follows unpublished False allowed false false (unsubscribe ns).
Proof.
  apply follows_with_lock. unfold unsubscribe_body.
  pose proof follows_send. pose proof follows_drop_state. follow; auto.
Qed.

(** What delegates do when a subscription ends runs under the mutex. *)
Hypothesis ended_follows : forall d ns reason,
  follows unpublished False allowed true true (react (onSubscriptionEnded d ns reason)).

Lemma follows_remove_body ns reason :
  follows unpublished False allowed true true (removeSubscribeState_body ns reason).
Proof.
  unfold removeSubscribeState_body, call. pose proof follows_drop_state.
  pose proof ended_follows. follow; auto.
Qed.

Lemma follows_removeSubscribeState all ns reason :
  follows unpublished False allowed false false (removeSubscribeState all ns reason).
Proof.
  assert (forall ns, follows unpublished False allowed false false
    (with_lock (removeSubscribeState_body ns reason))) as H.
  { intros ns'. apply follows_with_lock, follows_remove_body. }
  unfold removeSubscribeState. destruct all.
  - apply follows_bind; [apply follows_with_lock; follow|]. intros l. by apply follows_for.
  - by apply follows_bind.
Qed.

Lemma follows_publishIntent d ns payload draw : i = announcer ->
  follows unpublished False allowed false false (publishIntent d ns payload draw).
Proof. intros Hi. unfold publishIntent. pose proof follows_send. follow; auto. Qed.

Lemma follows_publishIntentEnd ns : i = announcer ->
  follows unpublished False allowed false false (publishIntentEnd ns).
Proof. intros Hi. unfold publishIntentEnd. pose proof follows_send. follow; auto. Qed.

Lemma follows_api A p : api (bool_decide (i = announcer)) A p -> follows unpublished False allowed false false p.
Proof.
  destruct 1; auto using follows_subscribe, follows_unsubscribe, follows_publishNamedObject,
    follows_removeSubscribeState.
  - by eapply follows_publishIntent, bool_decide_eq_true_1.
  - by eapply follows_publishIntentEnd, bool_decide_eq_true_1.
Qed.

Lemma follows_user p : user (bool_decide (i = announcer)) p -> follows unpublished False allowed false false p.
Proof.
  induction 1; [done|by apply follows_api|]. apply follows_bind; [by apply follows_api|done].
Qed.
End users.

(** ** Once the subscriptions are made

    The thread that receives owns the maps it looks at without the mutex; the
    others unsubscribe and publish. *)
Definition settled (receiver : nat) (l : loc) : sharing :=
  match l with
  | Sub_delegates | Pub_delegates | Statics => Private receiver
  | Subscribe_state => Guarded
  | Publish_state => Constant
  end.

Section receiving.
Context {T : Target} {Tr : ITransport} {App : SubscriberApp} {R : Reactions}.
Context (receiver : nat).
Abbreviation follows_as i := (follows unpublished True (allowed (settled receiver) i)).

(** The callbacks of the transport, one after the other. *)
Inductive receives (fuel : nat) : code unit -> Prop :=
  | receives_end r : receives fuel (Done r)
  | receives_data p : receives fuel p -> receives fuel (on_recv_notify fuel;; p)
  | receives_status st p : receives fuel p -> receives fuel (on_connection_status st;; p).

(** A thread that unsubscribes and publishes. *)
Inductive publishes : code unit -> Prop :=
  | publishes_end r : publishes (Done r)
  | publishes_unsubscribe ns p : publishes p -> publishes (unsubscribe ns;; p)
  | publishes_object n data p : publishes p -> publishes (publishNamedObject n data;; p).

Ltac follow := repeat first
  [ done | apply follows_bind; [|intros ?]
  | apply follows_atomic; [split; repeat constructor; cbv [may_read may_write settled]; done
      |keeps_unpublished]
  | case_match ].

Lemma publish_fragments_as i h data k d rest offset sid :
  follows_as i h h (publish_fragments d data k rest offset sid).
Proof.
  revert d offset. induction k as [|k IH]; intros d offset; [done|].
  cbn [publish_fragments]. follow.
Qed.

Lemma publishNamedObject_as i h n data : follows_as i h h (publishNamedObject n data).
Proof.
  apply follows_access; [split; repeat constructor|]. intros c Hc. split; [done|].
  unfold gets. cbn [fst]. rewrite Hc. cbn [contains_key find negb]. follow; apply publish_fragments_as.
Qed.

Lemma unsubscribe_as i ns : follows_as i false false (unsubscribe ns).
Proof.
  apply follows_with_lock. unfold unsubscribe_body, drop_state, send. follow.
Qed.

Lemma publishes_as i p : publishes p -> follows_as i false false p.
Proof.
  induction 1; [done|..]; (apply follows_bind; [|done]).
  - apply unsubscribe_as.
  - apply publishNamedObject_as.
Qed.

(** What delegates do runs on the receiving thread, under the mutex when a
    subscription ends. *)
Definition ends (e : Event) : bool :=
  match e with onSubscriptionEnded _ _ _ => true | _ => false end.
Hypothesis react_as : forall e, follows_as receiver (ends e) (ends e) (react e).

Lemma visit_as {X} (body : Namespace * weak_ptr -> X -> code X) fuel it x :
  (forall e x, follows_as receiver false false (body e x)) ->
  follows_as receiver false false (visit body fuel it x).
Proof.
  intros Hb. revert it x. induction fuel as [|fuel IH]; intros [e|] x; [done..| |done].
  cbn [visit]. apply follows_bind; [apply Hb|]. intros y. apply follows_bind; [follow|].
  intros it. apply IH.
Qed.

Lemma for_delegates_as {X} (body : Namespace * weak_ptr -> X -> code X) fuel x :
  (forall e x, follows_as receiver false false (body e x)) ->
  follows_as receiver false false (for_delegates fuel body x).
Proof.
  intros Hb. apply follows_bind; [follow|]. intros it. by apply visit_as.
Qed.

Lemma deliver_as e n data : follows_as receiver false false (deliver e n data).
Proof.
  unfold deliver. follow. apply (react_as (onSubscribedObject _ _ _ _ _ _)).
Qed.

Lemma handle_pub_fragment_as fuel d :
  follows_as receiver false false (handle_pub_fragment fuel d).
Proof.
  assert (forall m, follows_as receiver false false (notify_pub_fragment fuel d m)) as Hn.
  { intros m. unfold notify_pub_fragment. follow. apply visit_as. intros e _.
    apply follows_bind; [apply deliver_as|done]. }
  assert (forall i m, follows_as receiver false false (update_fragments fuel d i m)) as Hu.
  { intros i m. unfold update_fragments. follow. }
  unfold handle_pub_fragment. follow.
Qed.

Lemma removeSubscribeState_as all ns reason :
  follows_as receiver false false (removeSubscribeState all ns reason).
Proof.
  assert (forall ns, follows_as receiver false false
    (with_lock (removeSubscribeState_body ns reason))) as Hone.
  { intros ns'. apply follows_with_lock. unfold removeSubscribeState_body, drop_state. follow.
    apply (react_as (onSubscriptionEnded _ _ _)). }
  unfold removeSubscribeState. destruct all.
  - apply follows_bind; [apply follows_with_lock; follow|]. intros l. by apply follows_for.
  - by apply follows_bind.
Qed.

Lemma handle_as fuel msg : follows_as receiver false false (handle fuel msg).
Proof.
  unfold handle. destruct msg as [|front rest]; [done|].
  destruct (enum_of_u8 front); try done.
  - follow. apply (react_as (onSubscribeResponse _ _ _)).
  - apply follows_bind; [done|]. intros m. apply removeSubscribeState_as.
  - apply follows_bind; [done|]. intros d. case_match.
    + apply for_delegates_as. intros e x. apply follows_bind; [apply deliver_as|done].
    + apply handle_pub_fragment_as.
  - follow. apply (react_as (onPublishIntentResponse _ _ _)).
Qed.

Lemma on_connection_status_as st :
  follows_as receiver false false (on_connection_status st).
Proof. unfold on_connection_status. case_match; [apply removeSubscribeState_as|done]. Qed.

Lemma on_recv_notify_as fuel : follows_as receiver false false (on_recv_notify fuel).
Proof.
  unfold on_recv_notify. generalize 150%nat. intros n. induction n as [|n IH]; [done|].
  cbn [on_recv_notify_loop]. apply follows_bind; [follow|]. intros [msg|]; [|done].
  apply follows_bind; [|intros []; [exact IH|done]]. apply follows_catch.
  - apply follows_bind; [apply handle_as|done].
  - by intros e k [= <-].
Qed.

Lemma receives_as fuel p : receives fuel p -> follows_as receiver false false p.
Proof.
  induction 1; [done|..]; (apply follows_bind; [|done]).
  - apply on_recv_notify_as.
  - apply on_connection_status_as.
Qed.
End receiving.

(** ** What received messages make the receiving thread do *)

Section messages.
Context {T : Target} `{!LittleEndian} {Tr : ITransport} {App : SubscriberApp} {R : Reactions}.

Lemma handle_object_code fuel d rest :
  ok_PublishDatagram d -> offset_and_fin (header d) = 1 ->
  handle fuel (encoded (put_PublishDatagram d) ++ rest)
  = for_delegates fuel (fun entry data =>
      moved ← deliver entry (name (header d)) data;
      mret (if (moved : bool) then [] else data)) (media_data d).
Proof.
  intros Hd Ho. destruct (encoded_wire _ _ (put_PublishDatagram_wire d Hd)) as [_ ->].
  pose proof (get_PublishDatagram_wire native_little d Hd rest) as Ed.
  remember (PublishDatagram_wire d ++ rest) as msg eqn:Em.
  assert (exists msg', msg = enum_to_u8 MessageType.Publish :: msg') as [msg' Em']
    by (subst msg; eexists; reflexivity).
  unfold handle. rewrite Em'.
  change (enum_of_u8 (enum_to_u8 MessageType.Publish)) with MessageType.Publish.
  cbv iota. rewrite <- Em', Ed. cbn [fst]. unfold mbind at 1, prog_bind. cbn [prog_bind_def].
  unfold uintVar_eqb. by rewrite Ho.
Qed.

Lemma handle_end_code fuel e rest :
  ok_SubscribeEnd e ->
  handle fuel (encoded (put_SubscribeEnd e) ++ rest)
  = removeSubscribeState false (sube_namespace e) (sube_reason e).
Proof.
  intros He. destruct (encoded_wire _ _ (put_SubscribeEnd_wire e)) as [_ ->].
  pose proof (get_SubscribeEnd_wire native_little e He rest) as Ee.
  remember (SubscribeEnd_wire e ++ rest) as msg eqn:Em.
  assert (exists msg', msg = enum_to_u8 MessageType.SubscribeEnd :: msg') as [msg' Em']
    by (subst msg; eexists; reflexivity).
  unfold handle. rewrite Em'.
  change (enum_of_u8 (enum_to_u8 MessageType.SubscribeEnd)) with MessageType.SubscribeEnd.
  cbv iota. by rewrite <- Em', Ee.
Qed.

(** The end of a subscription, up to the call of its delegate. *)
Lemma ended_reaches_delegate ns reason d k c :
  live_delegate (sub_delegates c) ns = Some d ->
  react (onSubscriptionEnded d ns reason) = Lock k ->
  exists c', run true (unlock_after (removeSubscribeState_body ns reason)) c
             = Some (Undefined, c', true).
Proof.
  intros Hl Hr. destruct (contains_key (sub_delegates c) ns) eqn:E;
    [|by rewrite not_contained_lock in Hl].
  unfold removeSubscribeState_body, drop_state, call. cbv [mbind prog_bind mret prog_ret].
  cbn -[lock_sub react].
  destruct (contains_key (subscribe_state c) ns); cbn -[lock_sub react]; rewrite E;
    cbn -[lock_sub react]; rewrite lock_sub_contained by done; cbn -[lock_sub react];
    rewrite Hl; cbn -[react]; rewrite Hr; cbn; eauto.
Qed.

(** *** Deliveries to delegates that call back *)

Context (answer : Event -> M QuicRClient.t unit).

(** The calls of an object, each with what its delegate does. *)
Definition answered (calls : list Event) : M QuicRClient.t unit :=
  mfor calls (fun e => notify e;; answer e).

Context (m : list (Namespace * weak_ptr)) (Hm : sorted m).
Context (Hwf : forall e, e ∈ m -> wf_namespace e.1).
Hypothesis Hanswer : forall e, refines (delegates_are m) false (react e) (answer e).
Hypothesis Hkeep : forall e, preserves (delegates_are m) (answer e) anything.

(** Publishing leaves the delegates alone. *)
Lemma send_are A (f : M QuicRClient.t A) :
  (forall c, sub_delegates (f c).2 = sub_delegates c) -> preserves (delegates_are m) f anything.
Proof. intros Hf c Hc _. split; [|done]. unfold delegates_are. by rewrite Hf. Qed.

Lemma publish_fragments_are d data k r off sid :
  preserves (delegates_are m) (QuicRClient.publish_fragments d data k r off sid) anything.
Proof.
  revert d off. induction k as [|k IH]; intros d off; cbn [QuicRClient.publish_fragments];
    repeat first [apply IH | by apply send_are | apply preserves_bind with anything; [|intros ? _] | case_match].
Qed.

Lemma publishNamedObject_are n data :
  preserves (delegates_are m) (QuicRClient.publishNamedObject n data) anything.
Proof.
  unfold QuicRClient.publishNamedObject. pose proof publish_fragments_are.
  repeat first [by apply send_are | done | apply preserves_bind with anything; [|intros ? _]
    | case_match].
Qed.

(** A delivery with the answer of the delegate. *)
Definition deliver_answered (n : Name) (e : Namespace * weak_ptr) (data : bytes)
    : M QuicRClient.t bytes :=
  if within e.1 n then
    match lock e.2 with
    | Some d => answered [onSubscribedObject d n 0 0 false data];;
                mret (if consumes d then [] else data)
    | None => mret data
    end
  else mret data.

Lemma answered_are calls : preserves (delegates_are m) (answered calls) anything.
Proof.
  apply preserves_mfor. intros e _. apply preserves_bind with anything; [|intros [] _; apply Hkeep].
  intros c Hc _. by split.
Qed.

Lemma deliver_answered_are n e data : preserves (delegates_are m) (deliver_answered n e data) anything.
Proof.
  unfold deliver_answered. case_match; [|by apply preserves_ret].
  case_match; [|by apply preserves_ret].
  apply preserves_bind with anything; [apply answered_are|intros [] _; by apply preserves_ret].
Qed.

Lemma call_refines e : refines (delegates_are m) false (call e) (notify e;; answer e).
Proof.
  apply refines_bind with anything; [apply refines_atomic| |intros [] _; apply Hanswer].
  intros c Hc _. by split.
Qed.

Lemma deliver_refines n e data : wf_name n -> e ∈ m ->
  refines (delegates_are m) false
    (moved ← deliver e n data; mret (if (moved : bool) then [] else data))
    (deliver_answered n e data).
Proof.
  intros Hn He c Hc. unfold deliver, deliver_answered. rewrite run_bind.
  rewrite contains_within by auto. unfold mbind at 1, prog_bind at 1. cbn [prog_bind_def].
  destruct (within e.1 n); [|done]. rewrite run_bind. cbn [run atomic].
  rewrite lock_sub_elem by by rewrite Hc. cbn [fst snd].
  destruct (lock e.2) as [d|]; [|done].
  set (ev := onSubscribedObject d n 0 0 false data).
  rewrite run_bind, call_refines by done. unfold answered, mfor. 
  destruct ((notify ev;; answer ev) c) as [[[]|x|] c'] eqn:E; cbn [fst snd].
  - rewrite (run_bind_ret _ _ c c' tt) by by rewrite (run_bind_ret _ _ _ _ _ E).
    by destruct (consumes d).
  - by rewrite (run_bind_throw _ _ c c' x) by by rewrite (run_bind_throw _ _ _ _ _ E).
  - by rewrite (run_bind_undefined _ _ c c') by by rewrite (run_bind_undefined _ _ _ _ E).
Qed.

Lemma loop_answered n l data c :
  loop (deliver_answered n) l data c = answered (moving_calls (receivers l n) n data) c.
Proof.
  revert data c. induction l as [|e l IH]; intros data c; [done|].
  cbn [loop]. unfold deliver_answered, receivers. cbn [omap list_omap].
  destruct (within e.1 n); [|by rewrite (run_bind_ret _ _ c c data)].
  destruct (lock e.2) as [d|]; [|by rewrite (run_bind_ret _ _ c c data)].
  rewrite moving_calls_cons. unfold answered. cbn [mfor].
  set (ev := onSubscribedObject d n 0 0 false data). unfold mbind, M_bind, mret, M_ret.
  destruct (notify ev c) as [[[]|x|] c1]; [|done..].
  destruct (answer ev c1) as [[[]|x|] c2]; [|done..]. apply IH.
Qed.
End messages.

(** * Properties *)

Definition demo_datagram : PublishDatagram :=
  mkPublishDatagram (mkHeader 0x2000 (mkName 0x1000 0x2001) 0 0 1 0)
    MediaType.RealtimeMedia 3 [1; 2; 3].

(** The entry points of a client: each program and the operation of [Client]. *)
Inductive entry_point {T : Target} {Tr : ITransport} {App : SubscriberApp} {R : Reactions}
    (fuel : nat) : code unit -> M QuicRClient.t unit -> Prop :=
  | entry_subscribe d ns intent draw :
      entry_point fuel (subscribe d ns intent draw) (QuicRClient.subscribe d ns intent draw)
  | entry_unsubscribe ns : entry_point fuel (unsubscribe ns) (QuicRClient.unsubscribe ns)
  | entry_publishIntent d ns payload draw :
      entry_point fuel (publishIntent d ns payload draw;; mret tt)
        (QuicRClient.publishIntent d ns payload draw;; mret tt)
  | entry_publishIntentEnd ns :
      entry_point fuel (publishIntentEnd ns) (QuicRClient.publishIntentEnd ns)
  | entry_publishNamedObject n data :
      entry_point fuel (publishNamedObject n data) (QuicRClient.publishNamedObject n data)
  | entry_removeSubscribeState all ns reason :
      entry_point fuel (removeSubscribeState all ns reason)
        (QuicRClient.removeSubscribeState all ns reason)
  | entry_handle msg : entry_point fuel (handle fuel msg) (QuicRClient.handle msg)
  | entry_on_connection_status st :
      entry_point fuel (on_connection_status st) (QuicRClient.on_connection_status st)
  | entry_on_recv_notify :
      entry_point fuel (on_recv_notify fuel) QuicRClient.on_recv_notify.

(** C15: One thread whose delegates do not call back cannot tell the accesses from
    one step: each entry point, run access by access, ends with the result, the
    state and the mutex of the operation of [Client], which the other theorems
    are about.  Loops over the delegates need as much fuel as there are
    delegates. *)
Theorem calls_run_alone {T : Target} {Tr : ITransport} {App : SubscriberApp} fuel p m c :
  entry_point (R := passive) fuel p m -> wf c -> (length (sub_delegates c) <= fuel)%nat ->
  run false p c = Some ((m c).1, (m c).2, false).
Proof.
  intros H Hw Hf. cut (refines (enough fuel) false p m); [intros Hr; by apply Hr|].
  destruct H; [apply refines_always..|apply alone_handle|apply refines_always
              |apply alone_on_recv_notify].
  - apply refines_locked; [apply straight_subscribe|apply alone_subscribe_body].
  - apply refines_locked; [apply straight_unsubscribe|apply alone_unsubscribe_body].
  - refine_step; [apply alone_publishIntent|refine_step].
  - apply alone_publishIntentEnd.
  - apply alone_publishNamedObject.
  - apply alone_removeSubscribeState.
  - apply alone_on_connection_status.
Qed.

Lemma calls_run_alone_witness :
  let Tr := FakeTransport in let App := demo_app in let T := strict_little in
  let c := with_sub_delegates [(demo_ns, Some 7)] demo_client in
  let msg := encoded (put_PublishDatagram demo_datagram) in
  run false (handle (R := passive) 1 msg) c
  = Some ((QuicRClient.handle msg c).1, (QuicRClient.handle msg c).2, false).
Proof.
  intros Tr App T c msg. apply (calls_run_alone 1).
  - apply entry_handle.
  - apply wf_with_sub_delegates; [apply client_wf_init|apply sorted_singleton].
  - cbn. lia.
Defined.

(** C9: Calls under the mutex are atomic: for any number of threads that subscribe,
    unsubscribe and end subscriptions, with delegates that do not call the client
    back, every moment of every interleaving at
    which the mutex is free is one that whole calls of the operations of
    [Client] lead to, made one after the other in an order that keeps the order
    of each thread; and the client's invariant holds then. *)
Theorem calls_linearizable {T : Target} {Tr : ITransport} {App : SubscriberApp} c0 ps c :
  wf c0 -> Forall (caller locked_call) ps -> rtc moves (spawn c0 ps) c -> owner c = None ->
  rtc (call_step locked_call) (c0, ps) (memory c, threads c) /\ wf (memory c).
Proof.
  apply calls_serializable.
  - apply locked_straight.
  - intros A p m H. by apply refines_always, locked_alone.
  - apply locked_keeps_wf.
Qed.

(** The second thread ends the subscription between the two calls of the first. *)
Definition demo_callers : list (code unit) :=
  [with_lock (subscribe_body (T := strict_little) (Tr := FakeTransport) (Some 7) demo_ns
     SubscribeIntent.immediate 5) ≫= fun _ =>
   with_lock (unsubscribe_body (Tr := FakeTransport) demo_ns) ≫= fun _ => mret tt;
   removeSubscribeState (App := demo_app) (R := passive) false demo_ns SubscribeStatus.TimeOut].
Definition demo_calls : list nat := [0; 0; 0; 0; 0; 0; 0; 1; 1; 1; 1; 1; 1; 1; 1; 0; 0; 0; 0]%nat.

Lemma calls_linearizable_witness :
  let c := default (spawn demo_client demo_callers) (exec demo_calls (spawn demo_client demo_callers)) in
  owner c = None /\
  rtc (call_step (locked_call (T := strict_little) (Tr := FakeTransport) (App := demo_app)))
    (demo_client, demo_callers) (memory c, threads c) /\ wf (memory c).
Proof.
  intros c. split; [vm_compute; reflexivity|].
  apply (calls_linearizable (T := strict_little) (Tr := FakeTransport) (App := demo_app)
    demo_client demo_callers c).
  - apply client_wf_init.
  - repeat constructor.
    + eapply caller_call; [apply locked_subscribe|]. intros _.
      eapply caller_call; [apply locked_unsubscribe|]. intros _. apply caller_end.
    + apply caller_removeSubscribeState.
  - apply exec_reaches. vm_compute. reflexivity.
  - vm_compute. reflexivity.
Defined.

(** C12: Threads that share a client can be kept safe: any number that subscribe,
    unsubscribe, end subscriptions and publish objects, with one that announces,
    never race and never lock the mutex twice, whatever the interleaving; no
    schedule goes on for ever, and none is stuck before all threads have ended and
    the mutex is free.  What delegates do when a subscription ends must keep to the
    same rules on every thread: it runs under the mutex, so that it may not lock
    it, and it may publish objects but not announce, as any thread may run it.
    The map of publications is empty at the start, as in every state a client
    reaches; the write that [publishNamedObject] makes to it when it holds the name
    is then never reached. *)
Theorem threads_safe {T : Target} {Tr : ITransport} {App : SubscriberApp} {R : Reactions}
    announcer c0 ps c :
  publish_state c0 = [] ->
  (forall i d ns reason, follows unpublished False (allowed (policy announcer announcer) i) true true
     (react (onSubscriptionEnded d ns reason))) ->
  (forall i p, ps !! i = Some p -> user (bool_decide (i = announcer)) p) ->
  rtc moves (spawn c0 ps) c ->
  ~ racy c /\ ~ relocks c /\ Acc (flip moves) c /\
  ((exists c', moves c c') \/ (owner c = None /\ Forall is_done (threads c))).
Proof.
  intros H0 HR Hps Hr.
  assert (disciplined unpublished False (allowed (policy announcer announcer)) c) as Hd.
  { eapply disciplined_reachable; [|exact Hr]. apply disciplined_start; [done|].
    intros i p Hp. by apply follows_user, Hps. }
  split_and!; [by eapply no_race|by eapply no_relock|apply schedules_end|].
  eapply progress; [exact Hd|by eapply never_busy].
Qed.

(** A delegate that publishes a farewell when its subscription ends. *)
Definition demo_farewell : Reactions := fun e =>
  match e with
  | onSubscriptionEnded _ _ _ =>
      publishNamedObject (Tr := FakeTransport) (mkName 0x1000 0x2001) [9]
  | _ => mret tt
  end.
Definition demo_users : list (code unit) :=
  [publishIntent (T := strict_little) (Tr := FakeTransport) (Some 3) demo_ns [] 4 ≫= (fun _ =>
     publishNamedObject (Tr := FakeTransport) (mkName 0x1000 0x2002) [1; 2]);
   subscribe (T := strict_little) (Tr := FakeTransport) (Some 7) demo_ns
     SubscribeIntent.immediate 5;
   on_connection_status (Tr := FakeTransport) (App := demo_app) (R := demo_farewell)
     Disconnected].

Lemma threads_safe_witness :
  let c := default (spawn demo_client demo_users)
    (exec [0; 1; 0; 1; 1; 0; 1; 1; 1; 0; 1; 2; 2; 2; 2; 0; 2]%nat (spawn demo_client demo_users)) in
  ~ racy c /\ ~ relocks c /\ Acc (flip moves) c /\
  ((exists c', moves c c') \/ (owner c = None /\ Forall is_done (threads c))).
Proof.
  intros c. apply (threads_safe (T := strict_little) (Tr := FakeTransport) (App := demo_app)
    (R := demo_farewell) 0 demo_client demo_users c).
  - reflexivity.
  - intros i d ns reason. apply follows_publishNamedObject.
  - intros [|[|[|i]]] p Hp; [apply (inj Some) in Hp as <-..|done].
    + apply user_call; [by apply api_publishIntent|]. intros _.
      apply user_last, api_publishNamedObject.
    + apply user_last, api_subscribe.
    + apply user_last, api_removeSubscribeState.
  - apply exec_reaches. vm_compute. reflexivity.
Defined.

(** C13: Once the subscriptions are made, receiving is safe: a thread that takes the
    transport's callbacks, whatever the messages, and any number of others that
    unsubscribe and publish objects, never race and never lock the mutex twice,
    whatever the interleaving, when delegates keep to the rules of the receiving
    thread, which runs them, and the map of publications is empty at the start, as
    in every state a client reaches. *)
Theorem delivery_safe_once_subscribed {T : Target} {Tr : ITransport} {App : SubscriberApp}
    {R : Reactions} receiver fuel c0 ps c :
  publish_state c0 = [] ->
  (forall e, follows unpublished True (allowed (settled receiver) receiver) (ends e) (ends e) (react e)) ->
  (forall i p, ps !! i = Some p -> if decide (i = receiver) then receives fuel p else publishes p) ->
  rtc moves (spawn c0 ps) c ->
  ~ racy c /\ ~ relocks c.
Proof.
  intros H0 HR Hps Hr.
  assert (disciplined unpublished True (allowed (settled receiver)) c) as Hd.
  { eapply disciplined_reachable; [|exact Hr]. apply disciplined_start; [done|].
    intros i p Hp. apply Hps in Hp. case_decide as Hi; [subst i|].
    - by eapply receives_as.
    - by apply publishes_as. }
  split; [by eapply no_race|by eapply no_relock].
Qed.

(** The first thread receives an object and then the end of the subscription; the
    second unsubscribes and publishes meanwhile. *)
Definition demo_settled {T : Target} : QuicRClient.t :=
  with_io [encoded (put_PublishDatagram demo_datagram);
           encoded (put_SubscribeEnd (mkSubscribeEnd demo_ns SubscribeStatus.TimeOut))] [] []
    (with_sub_delegates [(demo_ns, Some 7)] demo_client).
Definition demo_settled_users {T : Target} : list (code unit) :=
  [on_recv_notify (App := demo_app) (R := demo_farewell) 1;; mret tt;
   unsubscribe (Tr := FakeTransport) demo_ns;;
   publishNamedObject (Tr := FakeTransport) (mkName 0x1000 0x2002) [1; 2];; mret tt].

Lemma delivery_safe_once_subscribed_witness :
  let T := strict_little in
  let c := default (spawn demo_settled demo_settled_users)
    (exec [0; 0; 1; 0; 1; 0; 1; 0; 1; 1; 1; 1; 0; 0; 0; 0; 0; 0; 0; 0; 1]%nat
       (spawn demo_settled demo_settled_users)) in
  length (events (memory c)) = 2%nat /\ ~ racy c /\ ~ relocks c.
Proof.
  intros T c. split; [vm_compute; reflexivity|].
  apply (delivery_safe_once_subscribed (T := strict_little) (Tr := FakeTransport)
    (App := demo_app) (R := demo_farewell) 0 1 demo_settled demo_settled_users c).
  - reflexivity.
  - intros [d ns r|d ns r|d n p ex rel data|d ns r]; try done. apply publishNamedObject_as.
  - intros [|[|i]] p Hp; [apply (inj Some) in Hp as <-..|done].
    + apply receives_data, receives_end.
    + apply publishes_unsubscribe, publishes_object, publishes_end.
  - apply exec_reaches. vm_compute. reflexivity.
Defined.

(** C14: A delegate that calls the client from [onSubscribedObject] is served: when
    what each delegate does, access by access, is what [answer] says, with the
    map of delegates left alone, an object that fits one message makes the calls
    of the live delegates whose namespace contains its name, in map order, and
    between one call and the next the whole answer of the delegate takes effect. *)
Theorem reentrant_delivery {T : Target} `{!LittleEndian} {Tr : ITransport}
    {App : SubscriberApp} {R : Reactions} fuel d rest c (answer : Event -> M QuicRClient.t unit) :
  wf_delegates c -> (length (sub_delegates c) <= fuel)%nat ->
  ok_PublishDatagram d -> offset_and_fin (header d) = 1 ->
  (forall e, refines (delegates_are (sub_delegates c)) false (react e) (answer e)) ->
  (forall e, preserves (delegates_are (sub_delegates c)) (answer e) anything) ->
  let after := answered answer (moving_calls (receivers (sub_delegates c) (name (header d)))
                                  (name (header d)) (media_data d)) c in
  run false (handle fuel (encoded (put_PublishDatagram d) ++ rest)) c
  = Some (after.1, after.2, false).
Proof.
  intros [Hs Hw] Hf Hd Ho Ha Hk. cbv zeta. rewrite handle_object_code by done.
  rewrite <- loop_answered. apply (for_delegates_loop (sub_delegates c)
    (delegates_are (sub_delegates c))); try done.
  - intros e x He. apply deliver_refines; auto. apply Hd.
  - intros e x _. by apply deliver_answered_are.
Qed.

(** A delegate that answers each object with another one. *)
Definition demo_echo (e : Event) : option (Name * bytes) :=
  match e with
  | onSubscribedObject _ n _ _ _ data => Some (mkName 0x1000 0x3000, data ++ [0xFF])
  | _ => None
  end.
Definition demo_echo_code {T : Target} {Tr : ITransport} : Reactions := fun e =>
  match demo_echo e with Some (n, data) => publishNamedObject n data | None => mret tt end.
Definition demo_echo_answer {T : Target} {Tr : ITransport} (e : Event) : M QuicRClient.t unit :=
  match demo_echo e with
  | Some (n, data) => QuicRClient.publishNamedObject n data
  | None => mret tt
  end.

Lemma reentrant_delivery_witness :
  let T := strict_little in let Tr := FakeTransport in let App := demo_app in
  let c := with_sub_delegates [(demo_ns, Some 7)] demo_client in
  run false (handle (R := demo_echo_code) 1 (encoded (put_PublishDatagram demo_datagram) ++ [])) c
  = Some (Ret tt,
      with_io [] [mkPacket 0x1000 0x2000 (encoded (put_PublishDatagram
        (mkPublishDatagram (mkHeader 0x2000 (mkName 0x1000 0x3000) 0 0 1 0)
           MediaType.RealtimeMedia 4 [1; 2; 3; 0xFF])))]
        [onSubscribedObject 7 (mkName 0x1000 0x2001) 0 0 false [1; 2; 3]] c, false).
Proof.
  intros T Tr App c.
  rewrite (reentrant_delivery (R := demo_echo_code) 1 demo_datagram [] c demo_echo_answer).
  - vm_compute. reflexivity.
  - split; [apply sorted_singleton|]. intros q Hq.
    apply elem_of_cons in Hq as [->|Hq]; [|by apply not_elem_of_nil in Hq].
    repeat split; vm_compute; congruence.
  - cbn. lia.
  - repeat split; vm_compute; congruence.
  - reflexivity.
  - intros e. unfold react, demo_echo_code, demo_echo_answer.
    destruct (demo_echo e) as [[n data]|]; [|apply refines_ret].
    apply refines_always, alone_publishNamedObject.
  - intros e. unfold demo_echo_answer. destruct (demo_echo e) as [[n data]|];
      [apply publishNamedObject_are|by apply preserves_ret].
Defined.

(** C10: Delivery does not take the mutex: while the receiving thread is about to look
    at the delegates for an object, a thread that subscribes to a new namespace
    can reach its write of the same map, from any state of the client. *)
Theorem delivery_races_with_subscribe {T : Target} `{!LittleEndian} {Tr : ITransport}
    {App : SubscriberApp} {R : Reactions} fuel d rest c w ns intent draw :
  ok_PublishDatagram d -> offset_and_fin (header d) = 1 ->
  contains_key (sub_delegates c) ns = false ->
  exists c', rtc moves (spawn c [handle fuel (encoded (put_PublishDatagram d) ++ rest);
                                 subscribe w ns intent draw]) c' /\ racy c'.
Proof.
  intros Hd Ho Hn. rewrite handle_object_code by done.
  eexists. split.
  - eapply rtc_l; [by exists 1%nat|]. eapply rtc_l; [by exists 1%nat|]. apply rtc_refl.
  - cbn. exists 1%nat, 0%nat. rewrite Hn. cbn. do 4 eexists. exists Sub_delegates.
    split_and!; try done; by left.
Qed.

Lemma delivery_races_with_subscribe_witness :
  let T := strict_little in let Tr := FakeTransport in let App := demo_app in
  exists c', rtc moves (spawn demo_client
    [handle (R := passive) 1 (encoded (put_PublishDatagram demo_datagram) ++ []);
     subscribe (Some 7) demo_ns SubscribeIntent.immediate 5]) c' /\ racy c'.
Proof.
  intros T Tr App. apply (delivery_races_with_subscribe (R := passive)).
  - repeat split; vm_compute; congruence.
  - reflexivity.
  - reflexivity.
Defined.

(** C11: The end of a subscription is told under the mutex: a delegate that then
    subscribes again, or makes another call that locks, locks the mutex its
    thread holds, which is undefined, if the lock is the first thing it does: when
    the relay ends the subscription, and when the connection of a client with
    this one subscription is lost. *)
Theorem resubscribe_when_ended_undefined {T : Target} `{!LittleEndian} {Tr : ITransport}
    {App : SubscriberApp} {R : Reactions} fuel e rest c d k ctx k' :
  ok_SubscribeEnd e ->
  live_delegate (sub_delegates c) (sube_namespace e) = Some d ->
  react (onSubscriptionEnded d (sube_namespace e) (sube_reason e)) = Lock k ->
  react (onSubscriptionEnded d (sube_namespace e) SubscribeStatus.ConnectionClosed) = Lock k' ->
  (exists c', run false (handle fuel (encoded (put_SubscribeEnd e) ++ rest)) c
              = Some (Undefined, c', true)) /\
  (subscribe_state c = [(sube_namespace e, ctx)] ->
   exists c', run false (on_connection_status Disconnected) c = Some (Undefined, c', true)).
Proof.
  intros He Hl Hk Hk'. split.
  - rewrite handle_end_code by done. unfold removeSubscribeState. rewrite run_bind.
    destruct (ended_reaches_delegate _ _ _ _ c Hl Hk) as [c' E]. exists c'.
    cbn [with_lock run]. by rewrite E.
  - intros Es. unfold on_connection_status. rewrite decide_True by done.
    unfold removeSubscribeState. rewrite run_bind. cbn [with_lock unlock_after run atomic gets fst snd].
    rewrite Es. cbn [map fst prog_for]. rewrite run_bind.
    destruct (ended_reaches_delegate _ _ _ _ c Hl Hk') as [c' E]. exists c'.
    cbn [with_lock run]. by rewrite E.
Qed.

(** A delegate that subscribes again when its subscription has ended. *)
Definition demo_resubscribe : Reactions := fun e =>
  match e with
  | onSubscriptionEnded d ns _ =>
      subscribe (T := strict_little) (Tr := FakeTransport) (Some d) ns SubscribeIntent.immediate 5
  | _ => mret tt
  end.

Lemma resubscribe_when_ended_undefined_witness :
  let T := strict_little in let Tr := FakeTransport in let App := demo_app in
  let e := mkSubscribeEnd demo_ns SubscribeStatus.TimeOut in
  let c := (QuicRClient.subscribe (Some 7) demo_ns SubscribeIntent.immediate 5 demo_client).2 in
  (exists c', run false (handle (R := demo_resubscribe) 1 (encoded (put_SubscribeEnd e) ++ [])) c
              = Some (Undefined, c', true)) /\
  (subscribe_state c = [(demo_ns, mkSubscribeContext Pending 0x1000 0x2000 5)] ->
   exists c', run false (on_connection_status (R := demo_resubscribe) Disconnected) c
              = Some (Undefined, c', true)).
Proof.
  intros T Tr App e c.
  apply (resubscribe_when_ended_undefined (R := demo_resubscribe) 1 e [] c 7
    (unlock_after (subscribe_body (Some 7) demo_ns SubscribeIntent.immediate 5))
    (mkSubscribeContext Pending 0x1000 0x2000 5)
    (unlock_after (subscribe_body (Some 7) demo_ns SubscribeIntent.immediate 5))).
  - repeat split; vm_compute; congruence.
  - reflexivity.
  - reflexivity.
  - reflexivity.
Defined.
End ClientThreads.
