(* ===== verification/Fragments.v ===== *)
(** * Fragmentation and reassembly of objects (src/quicr_client.cpp)

    The specification of [publishNamedObject] as a list of packets, and of the
    reassembly in [handle_pub_fragment] and [notify_pub_fragment] as a function
    of the set of fragments received.  The main theorem joins the two: the
    packets of a published object, received in any order and with repetitions,
    make one delivery of the object, when the last missing one arrives. *)

From S2P Require Export Client.
Import QuicRClient.

(** * Specification *)

(** The fragments of an object cut in chunks: offset and final bit, data. *)
Fixpoint frag_list (off : Z) (chunks : list bytes) : list (Z * bytes) :=
  match chunks with
  | [] => []
  | [c] => [(2 * off + 1, c)]
  | c :: chunks' => (2 * off, c) :: frag_list (off + Z.of_nat (length c)) chunks'
  end.

(** [k] whole chunks, and what is left. *)
Fixpoint chunks_of (k : nat) (data : bytes) : list bytes :=
  match k with
  | O => match data with [] => [] | _ => [data] end
  | S k' => take 1200 data :: chunks_of k' (drop 1200 data)
  end.

Definition object_fragments (data : bytes) : list (Z * bytes) :=
  if Z.of_nat (length data) <=? MAX_TRANSPORT_DATA_SIZE then [(1, data)]
  else frag_list 0 (chunks_of (Nat.div (length data) 1200) data).

(** The message that carries a fragment. *)
Definition to_datagram (n : Name) (stream_id : Z) (f : Z * bytes) : PublishDatagram :=
  mkPublishDatagram (mkHeader stream_id n 0 0 f.1 0) MediaType.RealtimeMedia
    (Z.of_nat (length f.2)) f.2.
Definition to_packet (n : Name) (context_id stream_id : Z) (f : Z * bytes) : Packet :=
  mkPacket context_id stream_id (PublishDatagram_wire (to_datagram n stream_id f)).

(** Packets handed to the transport until it refuses one. *)
Fixpoint send `{ITransport} (ps : list Packet) (x : list Packet) : list Packet * bool :=
  match ps with
  | [] => (x, true)
  | p :: ps' => if enqueue_none x p then send ps' (x ++ [p]) else (x ++ [p], false)
  end.

Lemma send_app `{ITransport} ps qs x :
  send (ps ++ qs) x = if (send ps x).2 then send qs (send ps x).1 else send ps x.
Proof.
  revert x. induction ps as [|p ps IH]; intros x; simpl; [done|].
  destruct (enqueue_none x p); [apply IH|done].
Qed.

Lemma send_all `{ITransport} ps x :
  (forall x p, enqueue_none x p = true) -> send ps x = (x ++ ps, true).
Proof.
  intros Ha. revert x. induction ps as [|p ps IH]; intros x; simpl.
  - by rewrite app_nil_r.
  - by rewrite Ha, IH, <- app_assoc.
Qed.

(** * The fragments of an object *)

Lemma frag_list_cons off c1 c2 chunks :
  frag_list off (c1 :: c2 :: chunks)
  = (2 * off, c1) :: frag_list (off + Z.of_nat (length c1)) (c2 :: chunks).
Proof. done. Qed.

Definition nonempty (chunks : list bytes) : Prop := Forall (fun c => c <> []) chunks.
Definition bytes_in (chunks : list bytes) : Z := Z.of_nat (length (concat chunks)).

Lemma bytes_in_cons c chunks :
  bytes_in (c :: chunks) = Z.of_nat (length c) + bytes_in chunks.
Proof. unfold bytes_in. simpl. rewrite length_app. lia. Qed.

Lemma nonempty_length c : c <> [] -> 0 < Z.of_nat (length (c : bytes)).
Proof. destruct c; simpl; [done|lia]. Qed.

(** Where a fragment sits. *)
Lemma frag_list_key off chunks p :
  nonempty chunks -> p ∈ frag_list off chunks ->
  off <= Z.shiftr p.1 1 < off + bytes_in chunks /\
  (p.1 = 2 * Z.shiftr p.1 1 \/ p.1 = 2 * Z.shiftr p.1 1 + 1) /\
  exists c, c ∈ chunks /\ p.2 = c.
Proof.
  intros Hne. revert off. induction Hne as [|c chunks Hc Hne IH]; intros off Hp.
  { by apply not_elem_of_nil in Hp. }
  pose proof (nonempty_length c Hc). rewrite bytes_in_cons.
  assert (0 <= bytes_in chunks) by (unfold bytes_in; lia).
  rewrite Z.shiftr_div_pow2 by done. change (2 ^ 1) with 2.
  destruct chunks as [|c2 chunks].
  - apply elem_of_cons in Hp as [->|Hp]; [|by apply not_elem_of_nil in Hp].
    simpl. split_and!; [lia|lia|lia|]. exists c. split; [by left|done].
  - rewrite frag_list_cons in Hp. apply elem_of_cons in Hp as [->|Hp].
    + simpl. split_and!; [lia|lia|lia|]. exists c. split; [by left|done].
    + destruct (IH _ Hp) as (Hk & Hb & c' & Hin & E).
      rewrite Z.shiftr_div_pow2 in Hk, Hb by done. change (2 ^ 1) with 2 in *.
      split_and!; [lia|lia|lia|]. exists c'. split; [by right|done].
Qed.

Lemma sorted_frag_list off chunks : nonempty chunks -> sorted (frag_list off chunks).
Proof.
  intros Hne. revert off. induction Hne as [|c chunks Hc Hne IH]; intros off; [constructor|].
  destruct chunks as [|c2 chunks].
  { apply sorted_cons; [constructor|]. intros p Hp. by apply not_elem_of_nil in Hp. }
  rewrite frag_list_cons. apply sorted_cons; [apply IH|]. intros p Hp.
  pose proof (nonempty_length c Hc).
  apply frag_list_key in Hp as ([Hp _] & Hb & _); [|done].
  unfold less, Z_less. apply Z.ltb_lt. lia.
Qed.

(** ** Which sets of fragments are complete *)

Definition odd_last (m : frag_map) : bool :=
  match rbegin m with Some (key, _) => Z.land key 1 =? 1 | None => false end.

Lemma odd_last_one k d : odd_last [(k, d)] = (Z.land k 1 =? 1).
Proof. done. Qed.
Lemma land_1_odd x : Z.land (2 * x + 1) 1 = 1.
Proof. rewrite (land_ones_mod _ 1 1) by done. change (2 ^ 1) with 2. lia. Qed.
Lemma land_1_even x : Z.land (2 * x) 1 = 0.
Proof. rewrite (land_ones_mod _ 1 1) by done. change (2 ^ 1) with 2. lia. Qed.

Lemma half_even x : Z.shiftr (2 * x) 1 = x.
Proof. rewrite Z.shiftr_div_pow2 by done. change (2 ^ 1) with 2. lia. Qed.
Lemma half_odd x : Z.shiftr (2 * x + 1) 1 = x.
Proof. rewrite Z.shiftr_div_pow2 by done. change (2 ^ 1) with 2. lia. Qed.

(** One round of the loop over the fragments; nothing overflows. *)
Lemma reassemble_step k d m off acc :
  0 <= off < 2 ^ 30 -> 0 <= Z.shiftr k 1 < 2 ^ 30 ->
  reassemble ((k, d) :: m) off acc
  = if Z.shiftr k 1 =? off
    then reassemble m (wrap_int (off + Z.of_nat (length d))) (acc ++ d) else Ret None.
Proof.
  intros Ho Hk. cbn [reassemble].
  unfold int_op. rewrite (proj2 (Z.leb_le _ _)), (proj2 (Z.ltb_lt _ _)) by lia.
  cbn [andb]. cbv [mbind result_bind].
  destruct (Z.eqb_spec (Z.shiftr k 1) off), (Z.eqb_spec (Z.shiftr k 1 - off) 0); lia || done.
Qed.

(** The keys of the fragments of an object are offsets in it. *)
Lemma frag_list_offset off chunks p :
  nonempty chunks -> 0 <= off -> off + bytes_in chunks < 2 ^ 30 ->
  p ∈ frag_list off chunks -> off <= Z.shiftr p.1 1 < 2 ^ 30.
Proof.
  intros Hne Ho Hb Hin. apply frag_list_key in Hin as ([? ?] & ? & _); [|done].
  rewrite Z.shiftr_div_pow2 by done. change (2 ^ 1) with 2. lia.
Qed.

(** What is left of a sorted subset when its first fragment is taken away. *)
Lemma sorted_subset_tail k d (m rest : frag_map) :
  sorted ((k, d) :: m) -> (forall p, p ∈ (k, d) :: m -> p ∈ (k, d) :: rest) ->
  forall p, p ∈ m -> p ∈ rest.
Proof.
  intros Hs Hsub p Hp. apply sorted_cons_inv in Hs as [_ Hall].
  specialize (Hsub p ltac:(by right)). apply elem_of_cons in Hsub as [->|]; [|done].
  specialize (Hall _ Hp). unfold less, Z_less in Hall. simpl in Hall. lia.
Qed.

(** The check of [notify_pub_fragment] on some of the fragments of an object:
    it reassembles the object when all are there, and otherwise answers that
    the set is incomplete, without overflow. *)
Lemma assembled_spec chunks off m acc :
  nonempty chunks -> 0 <= off -> off + bytes_in chunks < 2 ^ 30 ->
  sorted m -> (forall p, p ∈ m -> p ∈ frag_list off chunks) -> m <> [] ->
  (if odd_last m then reassemble m off acc else Ret None)
  = if decide (m = frag_list off chunks)
    then Ret (Some (acc ++ concat chunks)) else Ret None.
Proof.
  intros Hne. revert off m acc. induction Hne as [|c chunks Hc Hne IH];
    intros off m acc Ho Hb Hs Hsub Hm.
  { destruct m as [|p m]; [done|]. destruct (not_elem_of_nil p). apply Hsub. by left. }
  pose proof (nonempty_length c Hc). pose proof Hb as Hb'. rewrite bytes_in_cons in Hb.
  assert (0 <= bytes_in chunks) by (unfold bytes_in; lia).
  destruct m as [|[k d] m]; [done|]. pose proof (sorted_cons_inv _ _ _ Hs) as [Hs' _].
  pose proof (Hsub (k, d) ltac:(by left)) as Hhead.
  assert (off <= Z.shiftr k 1 < 2 ^ 30) as Hk
    by (apply (frag_list_offset off (c :: chunks) (k, d)); [by constructor|done..]).
  destruct chunks as [|c2 chunks].
  - (* one chunk left *)
    simpl in Hhead. apply elem_of_cons in Hhead as [E|Hn]; [|by apply not_elem_of_nil in Hn].
    simplify_eq. pose proof (sorted_subset_tail _ _ m [] Hs Hsub) as Htail.
    destruct m as [|p m]; [|destruct (not_elem_of_nil p); apply Htail; by left].
    rewrite odd_last_one, land_1_odd. simpl Z.eqb. cbv iota. cbn [frag_list].
    rewrite decide_True, reassemble_step, half_odd, Z.eqb_refl by (done || lia).
    cbn [reassemble concat]. by rewrite app_nil_r.
  - rewrite frag_list_cons in *. apply elem_of_cons in Hhead as [E|Hin].
    + simplify_eq. pose proof (sorted_subset_tail _ _ m _ Hs Hsub) as Htail.
      destruct m as [|p m].
      { rewrite odd_last_one, land_1_even. simpl Z.eqb. cbv iota.
        rewrite decide_False; [done|]. by destruct chunks. }
      assert (odd_last ((2 * off, c) :: p :: m) = odd_last (p :: m)) as -> by done.
      rewrite reassemble_step, half_even, Z.eqb_refl by lia.
      assert (wrap_int (off + Z.of_nat (length c)) = off + Z.of_nat (length c)) as ->.
      { unfold wrap_int. rewrite Z.mod_small; lia. }
      rewrite (IH (off + Z.of_nat (length c)) (p :: m) (acc ++ c)) by (done || lia).
      rewrite <- app_assoc. cbn [concat].
      destruct (decide (p :: m = _)) as [Ed|Ed]; [rewrite decide_True by (by rewrite Ed); done|].
      rewrite decide_False; [done|]. intros E. apply Ed. congruence.
    + apply frag_list_offset in Hin; [|done|lia..]. simpl in Hin.
      rewrite reassemble_step, (proj2 (Z.eqb_neq _ _)) by lia. rewrite decide_False.
      { by destruct (odd_last _). }
      intros E. injection E as -> _ _. rewrite half_even in Hin. lia.
Qed.

(** ** The map of the fragments received *)

(** The fragments in the order they came, stored by [emplace]. *)
Definition received_map (l : list (Z * bytes)) : frag_map :=
  fold_left (fun m p => emplace m p.1 p.2) l [].

Lemma received_map_snoc l p :
  received_map (l ++ [p]) = emplace (received_map l) p.1 p.2.
Proof. unfold received_map. by rewrite fold_left_app. Qed.

Lemma sorted_received_map l : sorted (received_map l).
Proof.
  induction l as [|p l IH] using rev_ind; [constructor|].
  rewrite received_map_snoc. by apply sorted_insert_node.
Qed.

Section received.
Context (full : list (Z * bytes)) (Hfull : sorted full).

(** It holds the fragments that came, in the order of their offsets. *)
Lemma elem_received_map l p :
  (forall q, q ∈ l -> q ∈ full) -> p ∈ received_map l <-> p ∈ l.
Proof.
  intros Hl. revert p. induction l as [|q l IH] using rev_ind; intros p; [done|].
  assert (forall p, p ∈ received_map l <-> p ∈ l) as IH'.
  { apply IH. intros x Hx. apply Hl, elem_of_app. by left. }
  assert (q ∈ full) as Hq by (apply Hl, elem_of_app; right; by left).
  rewrite received_map_snoc, elem_of_app, elem_of_cons, elem_of_nil.
  pose proof (sorted_received_map l) as Hs. destruct p as [k v], q as [k' v']. simpl.
  assert ((k, v) ∈ emplace (received_map l) k' v'
    <-> at_key (emplace (received_map l) k' v') k = Some v) as ->.
  { split; [apply elem_at_key; by apply sorted_insert_node|apply at_key_elem]. }
  unfold emplace. rewrite at_key_insert by done.
  assert (forall k v, at_key (received_map l) k = Some v <-> (k, v) ∈ l) as Hat.
  { intros k0 v0. rewrite <- IH'. split; [apply at_key_elem|by apply elem_at_key]. }
  destruct (decide (k = k')) as [->|Hne].
  - destruct (at_key (received_map l) k') as [v0|] eqn:E; simpl.
    + apply Hat in E as Hin.
      assert (v0 = v') as ->.
      { assert ((k', v0) ∈ full) as H0 by (apply Hl, elem_of_app; by left).
        apply elem_at_key in H0, Hq; try done. congruence. }
      split; intros Hv; simplify_eq; [by left|].
      destruct Hv as [Hv|[Hv|[]]]; [|congruence]. apply Hat in Hv. congruence.
    + split; [intros; simplify_eq; by right; left|].
      intros [Hv|[Hv|[]]]; [|congruence]. apply Hat in Hv. congruence.
  - rewrite Hat. split; [by left|]. intros [?|[?|[]]]; [done|]. simplify_eq.
Qed.

(** It is the whole object when every fragment came. *)
Lemma received_map_full l :
  (forall q, q ∈ l -> q ∈ full) ->
  received_map l = full <-> (forall q, q ∈ full -> q ∈ l).
Proof.
  intros Hl. split.
  - intros E q Hq. rewrite <- (elem_received_map l) by done. by rewrite E.
  - intros Hc. apply sorted_ext; [apply sorted_received_map|done|]. intros p.
    rewrite elem_received_map by done. split; auto.
Qed.
End received.

(** * A fragment arrives *)

Section arrival.
Context {T : Target} {Tr : ITransport} {App : SubscriberApp}.
Context (n : Name) (Hn : wf_name n).

(** A client that holds no fragment of [n]. *)
Record unseen (r : t) : Prop := {
  unseen_wf : wf r;
  unseen_fresh j b : at_key (fragments r) j = Some b -> at_key b n = None;
}.

(** The receiver: a client that holds no fragment of [n] and can take the name
    without turning to the next buffer. *)
Record receiver (r : t) : Prop := {
  receiver_wf : wf r;
  receiver_delegates : wf_delegates r;
  receiver_fresh j b : at_key (fragments r) j = Some b -> at_key b n = None;
  receiver_room : Z.of_nat (length (buffer (fragments r) (cindex r))) + 1
                  < MAX_FRAGMENT_NAMES_PENDING_PER_BUFFER r;
}.

Lemma receiver_unseen r : receiver r -> unseen r.
Proof. by intros []. Qed.

(** Its store once [fragments[cindex]] was evaluated. *)
Definition touched (r : t) : list (Z * frag_buffer) :=
  (subscript (fragments r) (cindex r) []).2.
(** Its state with the fragments [m] of [n]. *)
Definition holding (r : t) (m : frag_map) : t :=
  with_fragments (assign (touched r) (cindex r)
    (assign (buffer (fragments r) (cindex r)) n m)) (cindex r) r.

Lemma touched_spec r :
  unseen r ->
  sorted (touched r) /\ at_key (touched r) (cindex r) = Some (buffer (fragments r) (cindex r)).
Proof.
  intros [Hw _]. pose proof (wf_store _ (proj1 Hw)) as Hs. unfold touched. split.
  - apply sorted_subscript, Hs.
  - rewrite at_key_subscript by apply Hs. by rewrite decide_True.
Qed.

Lemma buffer_sorted r : unseen r -> sorted (buffer (fragments r) (cindex r)).
Proof.
  intros [Hw _]. pose proof (wf_store _ (proj1 Hw)) as Hs.
  pose proof (wf_max_names _ (proj1 Hw)).
  apply (buffer_ok (MAX_FRAGMENT_NAMES_PENDING_PER_BUFFER r) (MAX_FRAGMENT_BUFFERS r));
    [lia|done].
Qed.

Lemma buffer_fresh r : unseen r -> at_key (buffer (fragments r) (cindex r)) n = None.
Proof.
  intros [_ Hf]. unfold buffer.
  destruct (at_key (fragments r) (cindex r)) as [b|] eqn:E; [by apply (Hf (cindex r))|done].
Qed.

(** No turn while there is room. *)
Lemma rotate_buffers_stays c buf :
  wrap_int (cindex c) = cindex c -> at_key (fragments c) (cindex c) = Some buf ->
  Z.of_nat (length buf) < MAX_FRAGMENT_NAMES_PENDING_PER_BUFFER c ->
  rotate_buffers c = (Ret tt, c).
Proof.
  intros Hi E Hl. unfold rotate_buffers, modify. rewrite Hi, (at_key_found _ _ _ _ E).
  rewrite (proj2 (Z.leb_gt _ _)) by done. by rewrite with_fragments_id.
Qed.

Lemma touched_fresh r i b :
  unseen r -> at_key (touched r) i = Some b -> at_key b n = None.
Proof.
  intros Hr. pose proof Hr as [Hw Hf]. unfold touched.
  rewrite at_key_subscript by apply (wf_store _ (proj1 Hw)).
  case_decide; [|apply Hf]. intros E. simplify_eq. by apply buffer_fresh.
Qed.

Lemma search_none r : unseen r -> search_buffers (touched r) n = None.
Proof.
  intros Hr. pose proof (search_buffers_spec (touched r) n (proj1 (touched_spec r Hr))) as Hs.
  destruct (search_buffers (touched r) n) as [[i [n' m]]|]; [|done].
  destruct Hs as (-> & b & Ei & Em). by rewrite (touched_fresh r i b Hr Ei) in Em.
Qed.

(** The store while the fragments [m] of [n] are held. *)
Lemma held_current r m :
  unseen r ->
  at_key (fragments (holding r m)) (cindex r)
    = Some (assign (buffer (fragments r) (cindex r)) n m) /\
  at_key (assign (buffer (fragments r) (cindex r)) n m) n = Some m /\
  length (assign (buffer (fragments r) (cindex r)) n m)
    = S (length (buffer (fragments r) (cindex r))).
Proof.
  intros Hr. pose proof (touched_spec r Hr) as [Hs E]. pose proof (buffer_sorted r Hr) as Hb.
  pose proof (buffer_fresh r Hr) as Hf.
  simpl. unfold assign. rewrite !at_key_insert, !decide_True by done.
  split_and!; [done|done|]. by rewrite length_insert_node, contains_at_key, Hf by done.
Qed.

Lemma holding_current r m :
  receiver r ->
  at_key (fragments (holding r m)) (cindex r)
    = Some (assign (buffer (fragments r) (cindex r)) n m) /\
  at_key (assign (buffer (fragments r) (cindex r)) n m) n = Some m /\
  Z.of_nat (length (assign (buffer (fragments r) (cindex r)) n m))
    < MAX_FRAGMENT_NAMES_PENDING_PER_BUFFER r.
Proof.
  intros Hr. pose proof (held_current r m (receiver_unseen r Hr)) as (H1 & H2 & Hl).
  pose proof (receiver_room r Hr). split_and!; [done..|]. rewrite Hl. lia.
Qed.

Lemma unseen_index r : unseen r -> wrap_int (cindex r) = cindex r.
Proof. intros Hr. apply wf_index, (unseen_wf r Hr). Qed.
Lemma receiver_index r : receiver r -> wrap_int (cindex r) = cindex r.
Proof. intros Hr. by apply unseen_index, receiver_unseen. Qed.

(** The first fragment of a name is stored, and the buffers may turn. *)
Lemma fragment_stored r d :
  unseen r -> name (header d) = n ->
  handle_pub_fragment d r = rotate_buffers (holding r [(fragment_key d, media_data d)]).
Proof.
  intros Hr Hd. pose proof (buffer_fresh r Hr) as Hfresh. pose proof (search_none r Hr) as Hno.
  unfold handle_pub_fragment. rewrite Hd. cbv [mbind M_bind gets id].
  rewrite (unseen_index r Hr).
  pose proof (subscript_value (fragments r) (cindex r) ([] : frag_buffer)) as Hv.
  unfold holding, touched in *. destruct (subscript (fragments r) (cindex r) []) as [buf fs].
  simpl in Hv, Hno. subst buf. cbn [snd] in *.
  change (default [] (at_key (fragments r) (cindex r))) with (buffer (fragments r) (cindex r)).
  rewrite find_at_key, Hfresh. cbn [fmap option_fmap option_map].
  unfold modify at 1. cbv iota beta. rewrite Hno.
  pose proof (subscript_assign (buffer (fragments r) (cindex r)) n ([] : frag_map)
    (emplace [] (fragment_key d) (media_data d)) Hfresh) as [Hv Ha].
  destruct (subscript (buffer (fragments r) (cindex r)) n []) as [m buf']. simpl in Hv, Ha.
  subst m. rewrite Ha. unfold modify. cbv iota beta. by rewrite with_fragments_twice.
Qed.

Lemma first_fragment r d :
  receiver r -> name (header d) = n ->
  handle_pub_fragment d r
  = (Ret tt, holding r [(fragment_key d, media_data d)]).
Proof.
  intros Hr Hd. pose proof (holding_current r [(fragment_key d, media_data d)] Hr) as (Ec & _ & Hl).
  rewrite (fragment_stored r d (receiver_unseen r Hr) Hd).
  eapply rotate_buffers_stays; [exact (receiver_index r Hr)|exact Ec|exact Hl].
Qed.

(** The update of the name's map, and its removal when it is complete. *)
Lemma update_held r d m :
  receiver r -> name (header d) = n ->
  let m' := emplace m (fragment_key d) (media_data d) in
  m' <> [] ->
  update_fragments d (cindex r) m (holding r m)
  = match (if odd_last m' then reassemble m' 0 [] else Ret None) with
    | Ret None => (Ret tt, holding r m')
    | Ret (Some data) =>
        (Ret tt, emit (copied_calls (receivers (sub_delegates r) n) n data)
                   (with_fragments (touched r) (cindex r) r))
    | Throw e => (Throw e, holding r m')
    | Undefined => (Undefined, holding r m')
    end.
Proof.
  intros Hr Hd m' Hm'. pose proof (touched_spec r (receiver_unseen r Hr)) as [Hs E].
  pose proof (holding_current r m Hr) as (Ec & _ & _).
  pose proof (holding_current r m' Hr) as (Ec' & _ & _).
  set (buf := buffer (fragments r) (cindex r)) in *.
  unfold update_fragments. rewrite Hd.
  rewrite (run_bind_ret _ _ _ _ _ (set_fragments_run _ _ _ _ _ Ec)). fold m'.
  assert (with_fragments (assign (fragments (holding r m)) (cindex r)
            (assign (assign buf n m) n m')) (cindex (holding r m)) (holding r m)
          = holding r m') as ->.
  { unfold holding. simpl. unfold assign. by rewrite !insert_node_twice. }
  unfold notify_pub_fragment, odd_last. cbv [mbind M_bind].
  destruct (rbegin m') as [[key x]|] eqn:Eb.
  2: { exfalso. apply Hm'. unfold rbegin in Eb. by apply last_None in Eb. }
  destruct (Z.land key 1 =? 1); [|done]. cbn [negb]. unfold lift at 1.
  destruct (reassemble m' 0 []) as [[data|]|e|]; [|done..]. cbv [gets].
  pose proof (deliver_copies_run (sub_delegates (holding r m')) n data (holding r m')
    (receiver_delegates r Hr) Hn ltac:(done)) as Hdel. rewrite Hd.
  change (sub_delegates (holding r m')) with (sub_delegates r) in *.
  cbv [mbind M_bind] in Hdel. rewrite Hdel. cbv [mret M_ret].
  rewrite (erase_fragments_run _ _ (assign buf n m')); [|apply (receiver_index r Hr)|exact Ec'].
  simpl. rewrite Z.eqb_refl. unfold holding, emit, with_fragments, with_io. simpl.
  do 2 f_equal. fold buf. unfold assign. rewrite insert_node_twice.
  rewrite erase_insert_fresh; [|by apply buffer_sorted, receiver_unseen|].
  - apply (insert_node_id _ _ _ (cindex r)); [done|]. by rewrite find_at_key, E.
  - rewrite find_at_key. unfold buf. by rewrite (buffer_fresh r (receiver_unseen r Hr)).
Qed.

(** A further fragment of a name that is held. *)
Lemma next_fragment r d m :
  receiver r -> name (header d) = n ->
  let m' := emplace m (fragment_key d) (media_data d) in
  m' <> [] ->
  handle_pub_fragment d (holding r m)
  = match (if odd_last m' then reassemble m' 0 [] else Ret None) with
    | Ret None => (Ret tt, holding r m')
    | Ret (Some data) =>
        (Ret tt, emit (copied_calls (receivers (sub_delegates r) n) n data)
                   (with_fragments (touched r) (cindex r) r))
    | Throw e => (Throw e, holding r m')
    | Undefined => (Undefined, holding r m')
    end.
Proof.
  intros Hr Hd m' Hm'. pose proof (touched_spec r (receiver_unseen r Hr)) as [Hs E].
  pose proof (holding_current r m Hr) as (Ec & En & _).
  pose proof (holding_current r m' Hr) as (Ec' & _ & Hl').
  unfold handle_pub_fragment. rewrite Hd. cbv [mbind M_bind gets id].
  change (cindex (holding r m)) with (cindex r). rewrite (receiver_index r Hr).
  rewrite (at_key_found _ _ _ _ Ec).
  change (modify (with_fragments (fragments (holding r m)) (cindex r)) (holding r m))
    with (Ret tt, holding r m). cbv iota beta.
  rewrite find_at_key, En. cbn [fmap option_fmap option_map].
  rewrite update_held by done. fold m'.
  destruct (if odd_last m' then reassemble m' 0 [] else Ret None) as [[data|]|e|]; [| |done..].
  - eapply rotate_buffers_stays; [exact (receiver_index r Hr)|exact E|].
    pose proof (receiver_room r Hr). simpl. lia.
  - eapply rotate_buffers_stays; [exact (receiver_index r Hr)|exact Ec'|exact Hl'].
Qed.

(** ** All the fragments of an object *)

Context (chunks : list bytes) (Hchunks : nonempty chunks)
  (Htwo : (2 <= length chunks)%nat) (Hsize : bytes_in chunks < 2 ^ 30) (stream_id : Z).
Local Abbreviation full := (frag_list 0 chunks).
Local Abbreviation arrive :=
  (fun f => handle_pub_fragment (to_datagram n stream_id f)).

Lemma fragment_key_full p : p ∈ full -> fragment_key (to_datagram n stream_id p) = p.1.
Proof.
  intros Hp. apply frag_list_key in Hp as (Hk & Hb & _); [|done].
  unfold fragment_key, wrap_int. simpl. rewrite Z.mod_small; lia.
Qed.

Lemma assembled_full l :
  (forall q, q ∈ l -> q ∈ full) -> received_map l <> [] ->
  (if odd_last (received_map l) then reassemble (received_map l) 0 [] else Ret None)
  = if decide (received_map l = full) then Ret (Some (concat chunks)) else Ret None.
Proof.
  intros Hl Hne. apply (assembled_spec chunks 0 (received_map l) []); try done.
  - apply sorted_received_map.
  - intros p Hp. apply Hl. exact (proj1 (elem_received_map full (sorted_frag_list _ _ Hchunks) l p Hl) Hp).
Qed.

Lemma received_snoc_not_nil l p : received_map (l ++ [p]) <> [].
Proof. rewrite received_map_snoc. apply emplace_not_nil. Qed.

(** As long as one fragment is missing, nothing is delivered. *)
Lemma arrivals_incomplete r l :
  receiver r -> (forall q, q ∈ l -> q ∈ full) -> (exists q, q ∈ full /\ q ∉ l) -> l <> [] ->
  mfor l arrive r = (Ret tt, holding r (received_map l)).
Proof.
  intros Hr. induction l as [|p l IH] using rev_ind; intros Hl Hmiss Hne; [done|].
  assert (forall q, q ∈ l -> q ∈ full) as Hl' by (intros q Hq; apply Hl, elem_of_app; by left).
  assert (p ∈ full) as Hp by (apply Hl, elem_of_app; right; by left).
  rewrite mfor_app, received_map_snoc. destruct (decide (l = [])) as [->|Hl0].
  - rewrite (run_bind_ret _ _ _ r tt) by done. cbn [mfor].
    rewrite (run_bind_ret _ _ _ _ _ (first_fragment r (to_datagram n stream_id p) Hr eq_refl)).
    rewrite fragment_key_full by done. done.
  - rewrite (run_bind_ret _ _ _ (holding r (received_map l)) tt).
    2: { apply IH; [done| |done]. destruct Hmiss as (q & Hq & Hnq). exists q.
         split; [done|]. intros Hin. apply Hnq, elem_of_app. by left. }
    cbn [mfor]. rewrite (run_bind_ret _ _ _ (holding r (received_map (l ++ [p]))) tt);
      [by rewrite received_map_snoc|].
    rewrite next_fragment; [|done|done|apply emplace_not_nil].
    rewrite fragment_key_full by done. cbn [media_data to_datagram].
    rewrite <- received_map_snoc, assembled_full by (done || apply received_snoc_not_nil).
    rewrite decide_False; [done|]. intros E.
    destruct Hmiss as (q & Hq & Hnq). apply Hnq.
    exact (proj1 (received_map_full full (sorted_frag_list _ _ Hchunks) _ Hl) E q Hq).
Qed.

(** The last missing fragment delivers the object and frees the name. *)
Lemma arrivals_complete r l p :
  receiver r -> (forall q, q ∈ l -> q ∈ full) -> p ∈ full -> p ∉ l ->
  (forall q, q ∈ full -> q ∈ l ++ [p]) ->
  mfor (l ++ [p]) arrive r
  = (Ret tt, emit (copied_calls (receivers (sub_delegates r) n) n (concat chunks))
               (with_fragments (touched r) (cindex r) r)).
Proof.
  intros Hr Hl Hp Hnp Hall. assert (l <> []) as Hne.
  { intros ->. destruct chunks as [|c1 [|c2 cs]]; simpl in Htwo; [lia..|].
    pose proof (sorted_frag_list 0 _ Hchunks) as Hs. rewrite frag_list_cons in Hs, Hall.
    apply sorted_cons_inv in Hs as [_ Hs].
    assert (exists x, x ∈ frag_list (0 + Z.of_nat (length c1)) (c2 :: cs)) as [x Hx].
    { destruct cs; eexists; by left. }
    pose proof (Hall _ ltac:(by left)) as H1. pose proof (Hall x ltac:(by right)) as H2.
    apply elem_of_cons in H1 as [<-|H1]; [|by apply not_elem_of_nil in H1].
    apply elem_of_cons in H2 as [->|H2]; [|by apply not_elem_of_nil in H2].
    specialize (Hs _ Hx). by rewrite less_irrefl in Hs. }
  rewrite mfor_app, (run_bind_ret _ _ _ (holding r (received_map l)) tt).
  2: { apply arrivals_incomplete; [done|done| |done]. by exists p. }
  cbn [mfor]. erewrite run_bind_ret; [done|].
  rewrite next_fragment; [|done|done|apply emplace_not_nil].
  rewrite fragment_key_full by done. cbn [media_data to_datagram].
  rewrite <- received_map_snoc, assembled_full.
  - rewrite decide_True; [done|].
    apply (received_map_full full (sorted_frag_list _ _ Hchunks)); [|done].
    intros q Hq. apply elem_of_app in Hq as [Hq|Hq]; [by apply Hl|].
    apply elem_of_cons in Hq as [->|Hq]; [done|by apply not_elem_of_nil in Hq].
  - intros q Hq. apply elem_of_app in Hq as [Hq|Hq]; [by apply Hl|].
    apply elem_of_cons in Hq as [->|Hq]; [done|by apply not_elem_of_nil in Hq].
  - apply received_snoc_not_nil.
Qed.
End arrival.

(** * The chunks of an object *)

Lemma concat_chunks_of k data : concat (chunks_of k data) = data.
Proof.
  revert data. induction k as [|k IH]; intros data; cbn [chunks_of].
  - destruct data; [done|]. simpl. by rewrite app_nil_r.
  - cbn [concat]. by rewrite IH, take_drop.
Qed.

Lemma nonempty_chunks_of k data :
  (1200 * k <= length data)%nat -> nonempty (chunks_of k data).
Proof.
  revert data. induction k as [|k IH]; intros data Hk; cbn [chunks_of].
  - destruct data; [constructor|]. by repeat constructor.
  - constructor.
    + intros E. apply (f_equal length) in E. rewrite length_take in E. simpl length in E. lia.
    + apply IH. rewrite length_drop. lia.
Qed.

Lemma length_chunks_of k data :
  length (chunks_of k data) = (k + if decide (length data <= 1200 * k)%nat then 0 else 1)%nat.
Proof.
  revert data. induction k as [|k IH]; intros data; cbn [chunks_of].
  - destruct data; [by rewrite decide_True by (simpl; lia)|].
    by rewrite decide_False by (simpl; lia).
  - cbn [length]. rewrite IH, length_drop. do 2 case_decide; lia.
Qed.

Section chunks.
Context (data : bytes) (Hdata : 1200 < Z.of_nat (length data) < 2 ^ 30).
Local Abbreviation chunks := (chunks_of (length data / 1200) data).

Lemma object_chunks :
  nonempty chunks /\ (2 <= length chunks)%nat /\ bytes_in chunks < 2 ^ 30 /\
  concat chunks = data /\ object_fragments data = frag_list 0 chunks.
Proof.
  pose proof (Nat.div_mod_eq (length data) 1200) as E.
  pose proof (Nat.mod_upper_bound (length data) 1200 ltac:(lia)) as Hm.
  split_and!.
  - apply nonempty_chunks_of. lia.
  - rewrite length_chunks_of. case_decide; lia.
  - unfold bytes_in. rewrite concat_chunks_of. lia.
  - apply concat_chunks_of.
  - unfold object_fragments, MAX_TRANSPORT_DATA_SIZE.
    by rewrite (proj2 (Z.leb_gt _ _)) by lia.
Qed.
End chunks.

(** * Publication *)

Section publication.
Context {T : Target} {Tr : ITransport}.
Context (n : Name) (Hn : wf_name n) (stream_id : Z) (Hsid : is_field stream_id).

(** The messages that carry fragments of at most 1200 bytes are encodable. *)
Lemma ok_to_datagram f :
  is_field f.1 -> Z.of_nat (length f.2) <= 1200 ->
  ok_PublishDatagram (to_datagram n stream_id f).
Proof.
  intros Hf Hl. split; [|split; [|split]].
  - split_and!; [done|done|by split|by split|done|by split].
  - split; [by split|done].
  - done.
  - unfold is_payload. simpl. lia.
Qed.

(** The message is built by [with_media] from any earlier one. *)
Definition carrier (d : PublishDatagram) : Prop :=
  media_id (header d) = stream_id /\ name (header d) = n /\ group_id (header d) = 0 /\
  object_id (header d) = 0 /\ flags (header d) = 0 /\
  media_type d = MediaType.RealtimeMedia.

Lemma with_media_run d key data :
  carrier d -> Z.of_nat (length data) < 2 ^ 61 ->
  with_media d key data = Ret (to_datagram n stream_id (key, data)).
Proof.
  intros (E1 & E2 & E3 & E4 & E5 & E6) Hl. unfold with_media.
  rewrite uintVar_ret by lia. cbv [mbind result_bind mret result_ret].
  by rewrite E1, E2, E3, E4, E5, E6.
Qed.

Lemma carrier_to_datagram f : carrier (to_datagram n stream_id f).
Proof. by repeat split. Qed.

Lemma serialize_datagram f :
  is_field f.1 -> Z.of_nat (length f.2) <= 1200 ->
  serialize (put_PublishDatagram (to_datagram n stream_id f))
  = Ret (PublishDatagram_wire (to_datagram n stream_id f)).
Proof. intros. by apply serialize_wire, put_PublishDatagram_wire, ok_to_datagram. Qed.

Lemma uintVar_of_int_run x : 0 <= x < 2 ^ 31 -> uintVar_of_int x = Ret x.
Proof.
  intros Hx. unfold uintVar_of_int. rewrite wrap_small by (unfold in_u; lia).
  apply uintVar_ret. lia.
Qed.

Lemma shiftl_int off : 0 <= off < 2 ^ 30 -> wrap_int (Z.shiftl off 1) = 2 * off.
Proof.
  intros. rewrite Z.shiftl_mul_pow2 by done. unfold wrap_int. rewrite Z.mod_small; lia.
Qed.

(** The whole blocks of [publishNamedObject], before what is left. *)
Fixpoint whole_frags (off : Z) (k : nat) (rem : Z) (data : bytes) : list (Z * bytes) :=
  match k with
  | O => []
  | S k' =>
      ((if ((Z.of_nat k' =? 0) && (rem =? 0))%bool then 2 * off + 1 else 2 * off),
       take 1200 data)
      :: whole_frags (off + 1200) k' rem (drop 1200 data)
  end.

Lemma frag_list_whole off k rem data :
  (0 < k)%nat -> 0 <= rem < 1200 -> Z.of_nat (length data) = 1200 * Z.of_nat k + rem ->
  frag_list off (chunks_of k data)
  = whole_frags off k rem data
    ++ (if rem =? 0 then [] else [(2 * (off + 1200 * Z.of_nat k) + 1, drop (1200 * k) data)]).
Proof.
  revert off data. induction k as [|k IH]; intros off data Hk Hr Hl; [lia|].
  cbn [chunks_of whole_frags]. set (data' := drop 1200 data).
  assert (Z.of_nat (length data') = 1200 * Z.of_nat k + rem) as Hl'.
  { unfold data'. rewrite length_drop. lia. }
  assert (length (take 1200 data) = 1200%nat) as Ht by (rewrite length_take; lia).
  destruct k as [|k].
  - cbn [whole_frags]. destruct (Z.eqb_spec rem 0) as [Hrem|Hrem].
    + by rewrite (nil_length_inv data') by lia.
    + assert (chunks_of 0 data' = [data']) as E0.
      { destruct data'; [simpl in Hl'; lia|done]. }
      rewrite E0, frag_list_cons, Ht, andb_false_r. cbn [frag_list app].
      replace (off + 1200 * Z.of_nat 1) with (off + Z.of_nat 1200) by lia.
      by replace (1200 * 1)%nat with 1200%nat by lia.
  - cbn [app]. rewrite (proj2 (Z.eqb_neq (Z.of_nat (S k)) 0)) by lia. cbn [andb].
    assert (exists c cs, chunks_of (S k) data' = c :: cs) as (c & cs & Ec) by by eexists _, _.
    rewrite Ec, frag_list_cons, <- Ec, Ht.
    rewrite (IH (off + Z.of_nat 1200) data') by (done || lia).
    change (Z.of_nat 1200) with 1200. do 3 f_equal.
    unfold data'. rewrite drop_drop.
    replace (off + 1200 + 1200 * Z.of_nat (S k)) with (off + 1200 * Z.of_nat (S (S k))) by lia.
    by replace (1200 + 1200 * S k)%nat with (1200 * S (S k))%nat by lia.
Qed.

Lemma slice_run data off len :
  0 <= off -> 0 <= len -> off + len <= Z.of_nat (length data) ->
  slice data off len = Ret (take (Z.to_nat len) (drop (Z.to_nat off) data)).
Proof.
  intros. unfold slice. by rewrite (proj2 (Z.leb_le _ _)), (proj2 (Z.leb_le _ _)) by lia.
Qed.

Lemma enqueue_run cid sid data c :
  enqueue cid sid data c
  = (Ret (enqueue_none (tx c) (mkPacket cid sid data)),
     with_io (rx c) (tx c ++ [mkPacket cid sid data]) (events c) c).
Proof. done. Qed.

Lemma publish_fragments_run data k rem d off c :
  carrier d -> 0 <= off -> 0 <= rem < 1200 ->
  Z.of_nat (length data) = off + 1200 * Z.of_nat k + rem ->
  Z.of_nat (length data) < 2 ^ 30 ->
  publish_fragments d data k rem off stream_id c
  = let '(x, ok) :=
      send (map (to_packet n (transport_context_id c) stream_id)
              (whole_frags off k rem (drop (Z.to_nat off) data))) (tx c) in
    (Ret (if ok then Some (off + 1200 * Z.of_nat k) else None),
     with_io (rx c) x (events c) c).
Proof.
  revert d off c. induction k as [|k IH]; intros d off c Hd Ho Hr Hl Hs.
  { cbn. rewrite Z.add_0_r. by destruct c. }
  cbn [publish_fragments whole_frags map send].
  set (key := if ((Z.of_nat k =? 0) && (rem =? 0))%bool then 2 * off + 1 else 2 * off).
  set (f := (key, take 1200 (drop (Z.to_nat off) data))).
  assert (0 <= key < 2 ^ 31) as Hkey by (unfold key; case_match; lia).
  assert ((if ((Z.of_nat k =? 0) && (rem =? 0))%bool then wrap_int (Z.shiftl off 1) + 1
           else wrap_int (Z.shiftl off 1)) = key) as ->.
  { unfold key. rewrite shiftl_int by lia. done. }
  rewrite uintVar_of_int_run, run_bind_lift by done.
  rewrite slice_run, run_bind_lift by (unfold MAX_TRANSPORT_DATA_SIZE; lia).
  change (Z.to_nat MAX_TRANSPORT_DATA_SIZE) with 1200%nat.
  assert (length f.2 = 1200%nat) as Hf by (simpl; rewrite length_take, length_drop; lia).
  rewrite with_media_run, run_bind_lift by (done || (simpl in Hf; lia)). fold f.
  rewrite serialize_datagram, run_bind_lift by (lia || (unfold is_field; simpl; lia)).
  unfold int_op. unfold MAX_TRANSPORT_DATA_SIZE at 1 2.
  rewrite (proj2 (Z.leb_le _ _)), (proj2 (Z.ltb_lt _ _)) by lia. cbn [andb].
  rewrite run_bind_lift. rewrite (run_bind_ret _ _ _ c (transport_context_id c)) by done.
  rewrite (run_bind_ret _ _ _ _ _ (enqueue_run _ _ _ _)).
  change (mkPacket (transport_context_id c) stream_id
            (PublishDatagram_wire (to_datagram n stream_id f)))
    with (to_packet n (transport_context_id c) stream_id f).
  destruct (enqueue_none (tx c) _); [|done].
  unfold MAX_TRANSPORT_DATA_SIZE.
  rewrite IH by (apply carrier_to_datagram || lia). cbn [transport_context_id tx rx events with_io].
  rewrite drop_drop. replace (Z.to_nat off + 1200)%nat with (Z.to_nat (off + 1200)) by lia.
  destruct (send _ _) as [x ok]. do 2 f_equal.
  destruct ok; [f_equal; lia|done].
Qed.

(** The packets of an object. *)
Definition object_packets (context_id : Z) (data : bytes) : list Packet :=
  map (to_packet n context_id stream_id) (object_fragments data).

Lemma publishNamedObject_run data c :
  publish_state c = [] -> transport_stream_id c = stream_id ->
  Z.of_nat (length data) < 2 ^ 30 ->
  publishNamedObject n data c
  = (Ret tt, with_io (rx c) (send (object_packets (transport_context_id c) data) (tx c)).1
               (events c) c).
Proof.
  intros Hp Hst Hs. unfold publishNamedObject.
  rewrite (run_bind_ret _ _ _ c c) by done. rewrite Hp, Hst.
  change (contains_key [] n) with false. cbv iota beta. cbn [negb].
  rewrite (run_bind_ret _ _ _ c tt) by (unfold modify; rewrite <- Hp; by destruct c).
  cbn [pc_transport_stream_id pc_group_id pc_object_id].
  rewrite (uintVar_ret stream_id), (uintVar_ret 0), !run_bind_lift
    by (unfold is_field in Hsid; lia).
  set (d0 := mkPublishDatagram _ _ _ _).
  assert (carrier d0) as Hd0 by (by repeat split).
  unfold object_packets, object_fragments. destruct (Z.leb_spec (Z.of_nat (length data))
    MAX_TRANSPORT_DATA_SIZE) as [Hle|Hgt]; unfold MAX_TRANSPORT_DATA_SIZE in *.
  - rewrite with_media_run, run_bind_lift by (done || lia).
    rewrite serialize_datagram, run_bind_lift by (done || (unfold is_field; simpl; lia)).
    rewrite (run_bind_ret _ _ _ _ _ (enqueue_run _ _ _ _)). cbn [map send].
    by case_match.
  - assert (wrap_int (Z.of_nat (length data) / 1200)
            = Z.of_nat (length data / 1200)) as ->.
    { rewrite Nat2Z.inj_div. unfold wrap_int. rewrite Z.mod_small; lia. }
    assert (wrap_int (Z.of_nat (length data) mod 1200)
            = Z.of_nat (length data mod 1200)) as ->.
    { rewrite Nat2Z.inj_mod. unfold wrap_int. rewrite Z.mod_small; lia. }
    rewrite Nat2Z.id.
    pose proof (Nat.div_mod_eq (length data) 1200) as E.
    pose proof (Nat.mod_upper_bound (length data) 1200 ltac:(lia)) as Hm.
    set (k := (length data / 1200)%nat) in *. set (rem := (length data mod 1200)%nat) in *.
    rewrite (frag_list_whole 0 k (Z.of_nat rem)) by lia. rewrite map_app, send_app.
    unfold mbind, M_bind. rewrite publish_fragments_run by (done || lia).
    change (Z.to_nat 0) with 0%nat. rewrite drop_0.
    destruct (send (map _ (whole_frags 0 k (Z.of_nat rem) data)) (tx c)) as [x ok].
    cbn [fst snd]. destruct ok; [|done].
    destruct (Z.eqb_spec (Z.of_nat rem) 0) as [E0|E0]; [done|].
    set (off := 0 + 1200 * Z.of_nat k).
    rewrite shiftl_int, uintVar_of_int_run by lia. unfold lift at 1. cbv iota beta.
    rewrite slice_run by lia. unfold lift at 1. cbv iota beta.
    rewrite with_media_run by (done || (rewrite length_take, length_drop; lia)).
    unfold lift at 1. cbv iota beta.
    rewrite take_ge by (rewrite length_drop; lia).
    replace (Z.to_nat off) with (1200 * k)%nat by lia.
    rewrite serialize_datagram by (unfold is_field; simpl; rewrite ?length_drop; lia).
    unfold lift. cbv iota beta. rewrite enqueue_run. cbn [map send].
    by case_match.
Qed.
End publication.

(** * From packets to arrivals *)

Lemma map_snd_frag_list off chunks : map snd (frag_list off chunks) = chunks.
Proof.
  revert off. induction chunks as [|c chunks IH]; intros off; [done|].
  destruct chunks as [|c2 chunks]; [done|]. rewrite frag_list_cons, map_cons.
  f_equal. apply IH.
Qed.

(** Every chunk fits a message. *)
Lemma chunk_length k l c :
  (length l < 1200 * S k)%nat -> c ∈ chunks_of k l -> (length c <= 1200)%nat.
Proof.
  revert l. induction k as [|k IH]; intros l Hl; cbn [chunks_of].
  - destruct l; intros Hc; [by apply not_elem_of_nil in Hc|].
    apply elem_of_cons in Hc as [->|Hc]; [lia|by apply not_elem_of_nil in Hc].
  - intros Hc. apply elem_of_cons in Hc as [->|Hc]; [rewrite length_take; lia|].
    apply (IH (drop 1200 l)); [rewrite length_drop; lia|done].
Qed.

Section packets.
Context {T : Target} {Hle : LittleEndian} {Tr : ITransport} {App : SubscriberApp}.
Context (n : Name) (Hn : wf_name n) (stream_id : Z) (Hsid : is_field stream_id).
Context (data : bytes) (Hdata : 1200 < Z.of_nat (length data) < 2 ^ 30).

Lemma object_fragment_ok f :
  f ∈ object_fragments data ->
  ok_PublishDatagram (to_datagram n stream_id f) /\ f.1 <> 1.
Proof.
  destruct (object_chunks data Hdata) as (Hne & Htwo & Hb & _ & ->). intros Hf.
  pose proof (frag_list_key _ _ _ Hne Hf) as (Hk & Hkey & c & Hc & Ec).
  pose proof (chunk_length (length data / 1200) data c) as Hlen.
  pose proof (Nat.div_mod_eq (length data) 1200) as E.
  pose proof (Nat.mod_upper_bound (length data) 1200 ltac:(lia)) as Hm.
  specialize (Hlen ltac:(lia) Hc). split.
  - apply ok_to_datagram; [done|done|unfold is_field; lia|rewrite Ec; lia].
  - (* the fragment at offset 0 is not the last one *)
    destruct (chunks_of (length data / 1200) data) as [|c1 [|c2 cs]]; simpl in Htwo; [lia..|].
    rewrite frag_list_cons in Hf. apply elem_of_cons in Hf as [->|Hf]; [done|].
    inversion_clear Hne as [|? ? Hc1 Hne']. pose proof (nonempty_length c1 Hc1).
    apply frag_list_key in Hf as ([Hoff _] & _); [|done].
    intros E1. rewrite E1 in Hoff. change (Z.shiftr 1 1) with 0 in Hoff. lia.
Qed.

Lemma handle_fragment f c :
  f ∈ object_fragments data ->
  handle (PublishDatagram_wire (to_datagram n stream_id f)) c
  = handle_pub_fragment (to_datagram n stream_id f) c.
Proof.
  intros Hf. destruct (object_fragment_ok f Hf) as [Hok Hne].
  pose proof (get_PublishDatagram_wire native_little _ Hok []) as E.
  rewrite app_nil_r in E. set (d := to_datagram n stream_id f) in *.
  remember (PublishDatagram_wire d) as msg eqn:Em.
  assert (exists msg', msg = enum_to_u8 MessageType.Publish :: msg') as [msg' Em']
    by (subst msg; eexists; reflexivity).
  unfold handle. rewrite Em'.
  change (enum_of_u8 (enum_to_u8 MessageType.Publish)) with MessageType.Publish.
  cbv iota. rewrite <- Em'.
  rewrite (run_bind_ret _ _ _ c d) by (unfold on_local; by rewrite E).
  unfold uintVar_eqb. by rewrite (proj2 (Z.eqb_neq _ _)).
Qed.

(** The messages of an object. *)
Definition message_of (f : Z * bytes) : bytes :=
  PublishDatagram_wire (to_datagram n stream_id f).
Definition object_messages : list bytes := map message_of (object_fragments data).

Lemma handle_fragments l c :
  (forall f, f ∈ l -> f ∈ object_fragments data) ->
  mfor (map message_of l) handle c
  = mfor l (fun f => handle_pub_fragment (to_datagram n stream_id f)) c.
Proof.
  revert c. induction l as [|f l IH]; intros c Hl; [done|]. cbn [map mfor].
  unfold mbind, M_bind, message_of at 1. rewrite handle_fragment by (apply Hl; by left).
  destruct (handle_pub_fragment _ c) as [[[]|e|] c']; [|done..].
  apply IH. intros f' Hf'. apply Hl. by right.
Qed.

(** They tell the fragments apart. *)
Lemma message_of_inj f g :
  f ∈ object_fragments data -> g ∈ object_fragments data -> message_of f = message_of g -> f = g.
Proof.
  unfold message_of. intros Hf Hg E.
  pose proof (get_PublishDatagram_wire native_little _ (proj1 (object_fragment_ok f Hf)) []) as Ef.
  pose proof (get_PublishDatagram_wire native_little _ (proj1 (object_fragment_ok g Hg)) []) as Eg.
  rewrite E in Ef. rewrite Ef in Eg. injection Eg. destruct f, g. simpl. congruence.
Qed.

Lemma messages_of ms :
  (forall x, x ∈ ms -> x ∈ object_messages) ->
  exists l, ms = map message_of l /\ forall f, f ∈ l -> f ∈ object_fragments data.
Proof.
  induction ms as [|x ms IH]; intros Hms.
  { exists []. split; [done|]. intros f Hf. by apply not_elem_of_nil in Hf. }
  destruct IH as (l & -> & Hl). { intros y Hy. apply Hms. by right. }
  pose proof (Hms x ltac:(by left)) as Hx. apply list_elem_of_fmap in Hx as (f & -> & Hf).
  exists (f :: l). split; [done|].
  intros g Hg. apply elem_of_cons in Hg as [->|Hg]; auto.
Qed.

Lemma elem_messages f l :
  f ∈ object_fragments data -> (forall g, g ∈ l -> g ∈ object_fragments data) ->
  message_of f ∈ map message_of l <-> f ∈ l.
Proof.
  intros Hf Hl. split.
  - intros Hin. apply list_elem_of_fmap in Hin as (g & E & Hg).
    apply message_of_inj in E as ->; auto.
  - intros Hin. by apply list_elem_of_fmap_2.
Qed.

(** The messages of an object, in any order and with repetitions, make one
    delivery, when the last one that was missing is handled. *)
Lemma messages_arrive r order last :
  receiver n r ->
  (forall x, x ∈ order -> x ∈ object_messages) -> last ∈ object_messages -> last ∉ order ->
  (forall x, x ∈ object_messages -> x ∈ order ++ [last]) ->
  (exists b, mfor order handle r = (Ret tt, with_fragments b (cindex r) r)) /\
  mfor (order ++ [last]) handle r
  = (Ret tt, emit (copied_calls (receivers (sub_delegates r) n) n data)
               (with_fragments (touched r) (cindex r) r)).
Proof.
  intros Hr Hord Hlast Hnew Hall.
  destruct (messages_of order Hord) as (l & -> & Hl).
  apply list_elem_of_fmap in Hlast as (f & -> & Hf).
  assert (forall g, g ∈ l ++ [f] -> g ∈ object_fragments data) as Hlf.
  { intros g [Hg|Hg]%elem_of_app; [auto|]. by apply list_elem_of_singleton in Hg as ->. }
  destruct (object_chunks data Hdata) as (Hne & Htwo & Hb & Hcat & Hobj).
  assert (f ∉ l) as Hfl by (intros Hin; by apply Hnew, elem_messages).
  split.
  - rewrite (handle_fragments l r Hl). destruct (decide (l = [])) as [->|Hne0].
    { exists (fragments r). by rewrite with_fragments_id. }
    eexists. rewrite (arrivals_incomplete n Hn _ Hne Htwo Hb stream_id r l);
      [reflexivity|done| | |done].
    + intros q Hq. rewrite <- Hobj. by apply Hl.
    + exists f. by rewrite <- Hobj.
  - change ([message_of f]) with (map message_of [f]) in *. rewrite <- map_app in *.
    rewrite (handle_fragments _ r Hlf).
    rewrite (arrivals_complete n Hn _ Hne Htwo Hb stream_id r l f); rewrite <- ?Hobj, ?Hcat; auto.
    intros q Hq. apply (elem_messages q (l ++ [f]) Hq Hlf), Hall. by apply list_elem_of_fmap_2.
Qed.

Lemma object_packets_messages cid q :
  q ∈ object_packets n stream_id cid data ->
  q = mkPacket cid stream_id (pkt_data q) /\ pkt_data q ∈ object_messages.
Proof.
  intros Hq. unfold object_packets in Hq. apply list_elem_of_fmap in Hq as (f & -> & Hf).
  split; [done|]. by apply (list_elem_of_fmap_2 message_of).
Qed.
Lemma object_messages_packets cid x :
  x ∈ object_messages -> mkPacket cid stream_id x ∈ object_packets n stream_id cid data.
Proof.
  intros Hx. apply list_elem_of_fmap in Hx as (f & -> & Hf).
  by apply (list_elem_of_fmap_2 (to_packet n cid stream_id)).
Qed.
End packets.

(** * A buffer that is full

    Fragments of one name after the other, none of them known yet, fill the
    current buffer; the last name that fits turns the buffers. *)

Section filling.
Context {T : Target} {Tr : ITransport} {App : SubscriberApp}.
Implicit Types (c : t) (d : PublishDatagram) (ds : list PublishDatagram).
Local Abbreviation named d := (name (header d)).
Local Abbreviation alone d := [(fragment_key d, media_data d)].
Local Abbreviation current c := (buffer (fragments c) (cindex c)).

(** [fs] holds each of [ds] under its name in buffer [i], with what [c] held there;
    names that neither has are nowhere. *)
Record stored c ds (i : Z) (fs : list (Z * frag_buffer)) : Prop := {
  stored_new d : d ∈ ds -> at_key (buffer fs i) (named d) = Some (alone d);
  stored_old n m : at_key (buffer (fragments c) i) n = Some m -> at_key (buffer fs i) n = Some m;
  stored_length : length (buffer fs i) = (length ds + length (buffer (fragments c) i))%nat;
  stored_fresh n : n ∉ map (fun d => named d) ds ->
    (forall j b, at_key (fragments c) j = Some b -> at_key b n = None) ->
    forall j b, at_key fs j = Some b -> at_key b n = None;
}.

Lemma stored_one c d :
  unseen (named d) c -> stored c [d] (cindex c) (fragments (holding (named d) c (alone d))).
Proof.
  intros Hc. pose proof (held_current (named d) c (alone d) Hc) as (E & En & El).
  pose proof (touched_spec (named d) c Hc) as [Hs Et]. pose proof (buffer_sorted (named d) c Hc) as Hb.
  assert (buffer (fragments (holding (named d) c (alone d))) (cindex c)
    = assign (current c) (named d) (alone d)) as Eb by (unfold buffer at 1; by rewrite E).
  split; rewrite ?Eb.
  - intros d' ->%list_elem_of_singleton. done.
  - intros n m Hn. unfold assign. rewrite at_key_insert by done.
    case_decide; [subst n|done]. pose proof (buffer_fresh (named d) c Hc). congruence.
  - rewrite El. done.
  - intros n Hn Hfresh j b. simpl. unfold assign. rewrite at_key_insert by done. case_decide.
    + intros [= <-]. rewrite at_key_insert by done. rewrite decide_False.
      * unfold buffer. destruct (at_key (fragments c) (cindex c)) as [b'|] eqn:Eb'; [|done].
        by apply (Hfresh (cindex c)).
      * intros ->. apply Hn. by left.
    + unfold touched. rewrite at_key_subscript by apply (wf_store _ (proj1 (unseen_wf _ _ Hc))).
      rewrite decide_False by done. apply Hfresh.
Qed.

(** As long as there is room the buffers do not turn. *)
Lemma filling ds c :
  wf c -> NoDup (map (fun d => named d) ds) -> (forall d, d ∈ ds -> unseen (named d) c) ->
  Z.of_nat (length ds + length (current c)) < MAX_FRAGMENT_NAMES_PENDING_PER_BUFFER c ->
  exists fs, mfor ds handle_pub_fragment c = (Ret tt, with_fragments fs (cindex c) c) /\
    wf (with_fragments fs (cindex c) c) /\ stored c ds (cindex c) fs.
Proof.
  revert c. induction ds as [|d ds IH]; intros c Hw Hnd Hnew Hl.
  { exists (fragments c). rewrite with_fragments_id. split_and!; [done..|].
    split; [intros d Hd; by apply not_elem_of_nil in Hd|done..|auto]. }
  cbn [map] in Hnd. inversion_clear Hnd as [|? ? Hd Hnd']. cbn [length] in Hl.
  pose proof (Hnew d ltac:(by left)) as Hc. pose proof (stored_one c d Hc) as [N1 O1 L1 F1].
  pose proof (held_current (named d) c (alone d) Hc) as (E & _ & El).
  set (c1 := holding (named d) c (alone d)) in *.
  assert (handle_pub_fragment d c = (Ret tt, c1)) as E1.
  { rewrite (fragment_stored (named d) c d Hc eq_refl).
    apply (rotate_buffers_stays c1 (assign (current c) (named d) (alone d)));
      [apply (unseen_index (named d) c Hc)|exact E|]. rewrite El. cbn. lia. }
  assert (wf c1) as Hw1.
  { pose proof (handle_pub_fragment_wf d c Hw) as H. rewrite E1 in H. by apply H. }
  destruct (IH c1 Hw1 Hnd') as (fs & Efs & Hwfs & [N2 O2 L2 F2]).
  - intros d' Hd'. split; [done|]. apply F1; [|apply Hnew; by right].
    intros En%list_elem_of_singleton. apply Hd. rewrite <- En.
    by apply (list_elem_of_fmap_2 (fun d => named d)).
  - change (cindex c1) with (cindex c). rewrite L1. cbn [length].
    change (MAX_FRAGMENT_NAMES_PENDING_PER_BUFFER c1) with (MAX_FRAGMENT_NAMES_PENDING_PER_BUFFER c).
    lia.
  - change (cindex c1) with (cindex c) in *. exists fs. cbn [mfor].
    rewrite (run_bind_ret _ _ _ _ _ E1). split; [exact Efs|]. split; [exact Hwfs|].
    split.
    + intros d' [->|Hd']%elem_of_cons; [|by apply N2]. apply O2, N1. by left.
    + intros n m Hn. by apply O2, O1.
    + rewrite L2, L1. cbn [length]. lia.
    + intros n Hn Hfresh. cbn [map] in Hn. apply not_elem_of_cons in Hn as [Hn1 Hn2].
      apply F2; [done|]. apply F1; [|done]. by intros ->%list_elem_of_singleton.
Qed.

(** The next buffer is not the one that is full. *)
Lemma turning c n m :
  unseen n c -> 1 < MAX_FRAGMENT_BUFFERS c ->
  MAX_FRAGMENT_NAMES_PENDING_PER_BUFFER c = Z.of_nat (S (length (current c))) ->
  exists k, k <> cindex c /\
    rotate_buffers (holding n c m)
    = (Ret tt, with_fragments (erase (fragments (holding n c m)) k) k c).
Proof.
  intros Hc Hb Hmax. pose proof (held_current n c m Hc) as (E & _ & El).
  destruct (unseen_wf _ _ Hc) as [[? ? ? ? ? ? ? Hi ?] _].
  set (k := if cindex c <? MAX_FRAGMENT_BUFFERS c then wrap 32 (cindex c + 1) else 1).
  exists k. assert (1 <= k <= MAX_FRAGMENT_BUFFERS c /\ k <> cindex c) as [Hk Hne].
  { unfold k, wrap. destruct (Z.ltb_spec (cindex c) (MAX_FRAGMENT_BUFFERS c)); [|lia].
    rewrite Z.mod_small; lia. }
  split; [done|]. unfold rotate_buffers, modify. change (cindex (holding n c m)) with (cindex c).
  rewrite (unseen_index n c Hc), (at_key_found _ _ _ _ E).
  change (MAX_FRAGMENT_BUFFERS (holding n c m)) with (MAX_FRAGMENT_BUFFERS c).
  rewrite (proj2 (Z.leb_le _ _)) by (rewrite El; cbn; lia). cbv zeta. fold k.
  assert (wrap_int k = k) as Ek by (unfold wrap_int; rewrite Z.mod_small; lia).
  by rewrite Ek.
Qed.

(** As many new names as fit: all are held, in a buffer that is current no more. *)
Lemma full_buffer ds c :
  wf c -> NoDup (map (fun d => named d) ds) -> (forall d, d ∈ ds -> unseen (named d) c) -> ds <> [] ->
  1 < MAX_FRAGMENT_BUFFERS c ->
  Z.of_nat (length ds + length (current c)) = MAX_FRAGMENT_NAMES_PENDING_PER_BUFFER c ->
  exists fs k, mfor ds handle_pub_fragment c = (Ret tt, with_fragments fs k c) /\
    wf (with_fragments fs k c) /\ k <> cindex c /\
    exists b, at_key fs (cindex c) = Some b /\
      forall d, d ∈ ds -> at_key b (named d) = Some (alone d).
Proof.
  destruct ds as [|d ds _] using rev_ind; [done|]. intros Hw Hnd Hnew _ Hb Hl.
  rewrite map_app in Hnd. apply list.NoDup_app in Hnd as (Hnd & Hd & _). rewrite length_app in Hl.
  cbn [length] in Hl.
  destruct (filling ds c Hw Hnd) as (fs & E & Hwfs & [N O L F]);
    [intros d' Hd'; apply Hnew, elem_of_app; by left|lia|].
  set (c1 := with_fragments fs (cindex c) c) in *.
  assert (unseen (named d) c1) as Hc1.
  { split; [done|]. apply F; [|apply Hnew, elem_of_app; right; by left].
    intros Hin. apply (Hd _ Hin). by left. }
  destruct (turning c1 (named d) (alone d) Hc1 Hb) as (k & Hk & Et).
  { change (MAX_FRAGMENT_NAMES_PENDING_PER_BUFFER c1) with (MAX_FRAGMENT_NAMES_PENDING_PER_BUFFER c).
    change (current c1) with (buffer fs (cindex c)). rewrite L. lia. }
  pose proof (fragment_stored (named d) c1 d Hc1 eq_refl) as Es. rewrite Et in Es.
  pose proof (handle_pub_fragment_wf d c1 Hwfs) as Hw2. rewrite Es in Hw2.
  pose proof (held_current (named d) c1 (alone d) Hc1) as (E1 & _ & _).
  pose proof (stored_one c1 d Hc1) as [N1 O1 _ _].
  change (cindex c1) with (cindex c) in *.
  eexists _, k. split; [|split; [by apply Hw2|split; [done|]]].
  - rewrite mfor_app, (run_bind_ret _ _ _ _ _ E). cbn [mfor].
    by rewrite (run_bind_ret _ _ _ _ _ Es).
  - eexists. split.
    + rewrite at_key_erase; [by rewrite decide_False; [exact E1|]|].
      apply sorted_insert_node, (touched_spec (named d) c1 Hc1).
    + unfold buffer in N1, O1 at 2. rewrite E1 in N1, O1. cbn [default from_option] in N1, O1.
      intros d' [Hd'|Hd']%elem_of_app; [by apply O1, N|by apply N1].
Qed.
End filling.

(** The last fragment of an object that is held in another buffer than the current one. *)
Lemma stale_completion {T : Target} {Tr : ITransport}
    {App : SubscriberApp} d c i b m :
  wf c -> wf_delegates c -> wf_name (name (header d)) ->
  at_key (fragments c) i = Some b -> i <> cindex c ->
  at_key b (name (header d)) = Some m ->
  let m' := emplace m (fragment_key d) (media_data d) in
  forall data, odd_last m' = true -> reassemble m' 0 [] = Ret (Some data) ->
  exists fs, handle_pub_fragment d c
    = (Undefined, emit (copied_calls (receivers (sub_delegates c) (name (header d)))
                          (name (header d)) data) (with_fragments fs (cindex c) c)).
Proof.
  intros Hw Hd Hn Ei Hi Em m' data Hodd Hre. set (n := name (header d)) in *.
  pose proof (current_buffer_wf c Hw) as (Hw1 & E1 & _). pose proof Hw as [Hb _].
  pose proof (wf_store _ Hb) as Hs. unfold handle_pub_fragment. cbv [mbind M_bind gets id].
  rewrite (wf_index c Hb).
  assert (at_key (subscript (fragments c) (cindex c) []).2 i = Some b) as Ei1.
  { rewrite at_key_subscript by apply Hs. by rewrite decide_False. }
  pose proof (subscript_value (fragments c) (cindex c) ([] : frag_buffer)) as Hv.
  destruct (subscript (fragments c) (cindex c) []) as [buf fs]. simpl in *. subst buf.
  set (c1 := with_fragments fs (cindex c) c) in *.
  change (modify (with_fragments fs (cindex c)) c) with (Ret tt, c1). cbv iota beta.
  change (default [] (at_key (fragments c) (cindex c))) with (buffer (fragments c) (cindex c)).
  assert (forall j bj, at_key fs j = Some bj -> contains_key bj n = true -> j = i) as Huniq.
  { intros j bj Ej Hj. apply (store_disjoint _ _ _ (wf_store _ (proj1 Hw1)) j i bj b n);
      [done..|]. rewrite contains_at_key. fold n in Em. by rewrite Em. }
  fold n. rewrite find_at_key.
  destruct (at_key (buffer (fragments c) (cindex c)) n) as [m0|] eqn:E0.
  { exfalso. apply Hi. symmetry. apply (Huniq _ _ E1). by rewrite contains_at_key, E0. }
  simpl. pose proof (search_buffers_spec fs n (store_sorted _ _ _ (wf_store _ (proj1 Hw1)))) as Hse.
  destruct (search_buffers fs n) as [[j [n' mj]]|].
  2: { by rewrite (Hse i b Ei1) in Em. }
  destruct Hse as (-> & bj & Ej & Emj).
  assert (j = i) as -> by (apply (Huniq j bj Ej); by rewrite contains_at_key, Emj).
  assert (bj = b) as -> by congruence. assert (mj = m) as -> by congruence.
  unfold update_fragments. fold n m'.
  rewrite (run_bind_ret _ _ _ _ _ (set_fragments_run i n m' b c1 Ei1)).
  set (c2 := with_fragments _ _ c1). unfold notify_pub_fragment. unfold odd_last in Hodd.
  destruct (rbegin m') as [[key x]|]; [|done]. rewrite Hodd, Hre. cbn [negb].
  unfold lift at 1. cbv [mbind M_bind gets].
  pose proof (deliver_copies_run (sub_delegates c2) n data c2 Hd Hn ltac:(done)) as Hdel.
  cbv [mbind M_bind] in Hdel. fold n. rewrite Hdel. cbv [mret M_ret].
  rewrite (erase_fragments_run _ _ (buffer (fragments c) (cindex c))).
  - simpl. rewrite (proj2 (Z.eqb_neq _ _)) by done. eexists. reflexivity.
  - exact (wf_index c Hb).
  - simpl. unfold assign at 1.
    rewrite at_key_insert by apply (wf_store _ (proj1 Hw1)). by rewrite decide_False.
Qed.

(** * Properties *)

(** A publisher and a receiver for the witnesses. *)
Definition demo_name : Name := mkName 0x1000 0x2001.
Definition demo_data : bytes := repeat 7 (Z.to_nat 1300).
Definition demo_first : Packet :=
  to_packet demo_name 0x1000 0x2000 (0, repeat 7 (Z.to_nat 1200)).
Definition demo_second : Packet :=
  to_packet demo_name 0x1000 0x2000 (2401, repeat 7 (Z.to_nat 100)).
Definition demo_receiver : t := with_sub_delegates [(demo_ns, Some 7)] demo_client.

Lemma demo_delegates : wf_delegates demo_receiver.
Proof.
  split.
  - apply sorted_cons; [constructor|]. intros q Hq. by apply not_elem_of_nil in Hq.
  - intros q Hq. apply elem_of_cons in Hq as [->|Hq]; [|by apply not_elem_of_nil in Hq].
    repeat split; vm_compute; congruence.
Qed.

Lemma two_packets (a b : Packet) :
  (forall q, q ∈ [b] -> q ∈ [a; b]) /\ a ∈ [a; b] /\ (forall q, q ∈ [a; b] -> q ∈ [b] ++ [a]).
Proof. split_and!; [|by left|]; intros q; cbn [app]; rewrite !elem_of_cons; tauto. Qed.

Lemma demo_receiver_ok : receiver demo_name demo_receiver.
Proof.
  split; [|apply demo_delegates|done|done].
  apply wf_with_sub_delegates; [apply client_wf_init|]. apply demo_delegates.
Qed.

(** C3: an object of more than 1200 bytes (and less than 2^30) is published, by a
    client whose transport refuses no packet, as packets from which another
    reassembles it, on a little-endian host, if it holds no fragment of the name
    and its current buffer has room for the name without turning to the next one
    (fewer than 4999 names pending).  Whatever the order of the packets and
    however often they are repeated, nothing is delivered until the last missing
    packet arrives, and then the object is handed, complete and unchanged, exactly
    once to each live delegate whose namespace contains the name; the reassembly
    store is left without the name. *)
Theorem published_object_is_reassembled {T : Target} `{!LittleEndian} {Tr : ITransport}
    {App : SubscriberApp} n data c r order last :
  wf_name n -> 1200 < Z.of_nat (length data) < 2 ^ 30 ->
  publish_state c = [] -> is_field (transport_stream_id c) ->
  (forall x p, enqueue_none x p = true) ->
  receiver n r ->
  let sent := drop (length (tx c)) (tx (publishNamedObject n data c).2) in
  (forall q, q ∈ order -> q ∈ sent) -> last ∈ sent -> last ∉ order ->
  (forall q, q ∈ sent -> q ∈ order ++ [last]) ->
  (publishNamedObject n data c).1 = Ret tt /\
  (exists b, mfor (map pkt_data order) handle r
     = (Ret tt, with_fragments b (cindex r) r)) /\
  mfor (map pkt_data (order ++ [last])) handle r
  = (Ret tt, emit (copied_calls (receivers (sub_delegates r) n) n data)
               (with_fragments (touched r) (cindex r) r)).
Proof.
  intros Hn Hdata Hp Hsid Hacc Hr. cbv zeta.
  rewrite (publishNamedObject_run n Hn _ Hsid data c Hp eq_refl) by lia.
  rewrite (send_all _ _ Hacc). cbn [fst snd tx with_io]. rewrite drop_app_length.
  intros Hord Hlast Hnew Hall. split; [done|].
  set (sid := transport_stream_id c) in *. set (cid := transport_context_id c) in *.
  rewrite map_app. apply (messages_arrive n Hn sid Hsid data Hdata r); [done|..].
  - intros x Hx. apply list_elem_of_fmap in Hx as (q & -> & Hq).
    by eapply object_packets_messages, Hord.
  - by eapply object_packets_messages.
  - intros Hx. apply Hnew. apply list_elem_of_fmap in Hx as (q & E & Hq).
    destruct (object_packets_messages n sid data cid q (Hord q Hq)) as [-> _].
    destruct (object_packets_messages n sid data cid last Hlast) as [Hl' _].
    rewrite Hl', E. simpl. by destruct (object_packets_messages n sid data cid q (Hord q Hq)) as [<- _].
  - intros x Hx. change [pkt_data last] with (map pkt_data [last]). rewrite <- map_app.
    change x with (pkt_data (mkPacket cid sid x)).
    apply list_elem_of_fmap_2, Hall. by apply object_messages_packets.
Qed.

Lemma published_object_is_reassembled_witness :
  let publish := publishNamedObject (Tr := FakeTransport) demo_name
                   demo_data demo_client in
  let receive := handle (T := strict_little) (App := demo_app) in
  publish.1 = Ret tt /\
  (exists b, mfor (map pkt_data [demo_second]) receive demo_receiver
     = (Ret tt, with_fragments b 1 demo_receiver)) /\
  mfor (map pkt_data ([demo_second] ++ [demo_first])) receive demo_receiver
  = (Ret tt, emit [onSubscribedObject 7 demo_name 0 0 false demo_data]
               (with_fragments (touched demo_receiver) 1 demo_receiver)).
Proof.
  assert (drop (length (tx demo_client)) (tx (publishNamedObject
    (Tr := FakeTransport) demo_name demo_data demo_client).2) = [demo_first; demo_second]) as E.
  { vm_compute. reflexivity. }
  apply (published_object_is_reassembled (T := strict_little) (Tr := FakeTransport)
    (App := demo_app) demo_name demo_data demo_client demo_receiver [demo_second] demo_first).
  - repeat split; vm_compute; congruence.
  - vm_compute. split; reflexivity.
  - reflexivity.
  - split; vm_compute; congruence.
  - reflexivity.
  - apply demo_receiver_ok.
  - rewrite E. apply (proj1 (two_packets demo_first demo_second)).
  - rewrite E. apply (proj1 (proj2 (two_packets demo_first demo_second))).
  - intros Hq. apply list_elem_of_singleton in Hq. revert Hq. vm_compute. discriminate.
  - rewrite E. apply (proj2 (proj2 (two_packets demo_first demo_second))).
Defined.

(** [publishNamedObject] never fails on an object below 2^30 bytes, and
    sends its packets in order until the transport refuses one: their payloads
    are the object cut in pieces of at most 1200 bytes. *)
Theorem publish_named_object_spec {Tr : ITransport} n data c :
  wf_name n -> publish_state c = [] -> is_field (transport_stream_id c) ->
  Z.of_nat (length data) < 2 ^ 30 ->
  publishNamedObject n data c
  = (Ret tt,
     with_io (rx c)
       (send (object_packets n (transport_stream_id c) (transport_context_id c) data) (tx c)).1
       (events c) c) /\
  concat (map snd (object_fragments data)) = data /\
  (forall f, f ∈ object_fragments data -> (length f.2 <= 1200)%nat).
Proof.
  intros Hn Hp Hsid Hl. split; [by apply publishNamedObject_run|].
  destruct (Z.leb_spec (Z.of_nat (length data)) MAX_TRANSPORT_DATA_SIZE) as [Hle|Hgt].
  - assert (object_fragments data = [(1, data)]) as ->.
    { unfold object_fragments. by rewrite (proj2 (Z.leb_le _ _)). }
    unfold MAX_TRANSPORT_DATA_SIZE in Hle. split; [apply app_nil_r|].
    intros f Hf. apply elem_of_cons in Hf as [->|Hf]; [simpl; lia|by apply not_elem_of_nil in Hf].
  - unfold MAX_TRANSPORT_DATA_SIZE in Hgt.
    destruct (object_chunks data ltac:(lia)) as (Hne & _ & _ & Hcat & ->).
    rewrite map_snd_frag_list. split; [done|]. intros f Hf.
    apply frag_list_key in Hf as (_ & _ & ch & Hch & ->); [|done].
    apply (chunk_length (length data / 1200) data); [|done].
    pose proof (Nat.div_mod_eq (length data) 1200).
    pose proof (Nat.mod_upper_bound (length data) 1200 ltac:(lia)). lia.
Qed.

Lemma publish_named_object_spec_witness :
  publishNamedObject (Tr := FakeTransport) demo_name demo_data demo_client
  = (Ret tt,
     with_io [] (send (H := FakeTransport) (object_packets demo_name 0x2000 0x1000 demo_data) []).1
       [] demo_client) /\
  concat (map snd (object_fragments demo_data)) = demo_data /\
  (forall f, f ∈ object_fragments demo_data -> (length f.2 <= 1200)%nat).
Proof.
  apply (publish_named_object_spec (Tr := FakeTransport) demo_name demo_data
    demo_client).
  - repeat split; vm_compute; congruence.
  - reflexivity.
  - split; vm_compute; congruence.
  - vm_compute. reflexivity.
Defined.

(** C34: an object that is waiting in another buffer than the current one cannot be
    completed.  Any client into whose current buffer no more than the given
    names fit (5000 for a new client), fragments of which come one after the
    other, takes them without a delivery and turns to the next buffer; the fragment
    that then completes one of these objects makes the code call the delegates
    with the object, and after that erase an iterator of the old buffer from the new
    one, which is undefined behaviour. *)
Theorem completion_in_old_buffer_undefined {T : Target} {Tr : ITransport} {App : SubscriberApp}
    c ds d0 d data :
  wf c -> wf_delegates c -> 1 < MAX_FRAGMENT_BUFFERS c ->
  NoDup (map (fun d => name (header d)) ds) ->
  (forall d, d ∈ ds -> forall j b, at_key (fragments c) j = Some b ->
     at_key b (name (header d)) = None) ->
  Z.of_nat (length ds + length (buffer (fragments c) (cindex c)))
    = MAX_FRAGMENT_NAMES_PENDING_PER_BUFFER c ->
  d0 ∈ ds -> name (header d) = name (header d0) -> wf_name (name (header d)) ->
  let m := emplace [(fragment_key d0, media_data d0)] (fragment_key d) (media_data d) in
  odd_last m = true -> reassemble m 0 [] = Ret (Some data) ->
  exists c', mfor ds handle_pub_fragment c = (Ret tt, c') /\ events c' = events c /\
    (handle_pub_fragment d c').1 = Undefined /\
    events (handle_pub_fragment d c').2
    = events c ++ copied_calls (receivers (sub_delegates c) (name (header d))) (name (header d)) data.
Proof.
  intros Hw Hdel Hb Hnd Hnew Hl H0 En Hn m Hodd Hre.
  destruct (full_buffer ds c) as (fs & k & E & Hwf & Hk & b & Eb & Hin); [done|done| | |done|done|].
  { intros d' Hd'. split; [done|]. by apply Hnew. }
  { intros ->. by apply not_elem_of_nil in H0. }
  exists (with_fragments fs k c). split; [exact E|]. split; [done|].
  destruct (stale_completion d (with_fragments fs k c) (cindex c) b [(fragment_key d0, media_data d0)]) with (data := data)
    as [fs' Ed]; [done..|exact Eb|by apply not_eq_sym|by rewrite En; apply Hin|exact Hodd|exact Hre|].
  by rewrite Ed.
Qed.

(** 5000 names, and the end of the object of the first of them. *)
Definition demo_firsts : list PublishDatagram :=
  map (fun i => to_datagram (mkName 0x1000 (0x2001 + Z.of_nat i)) 0x2000 (0, repeat 7 (Z.to_nat 1200)))
    (seq 0 5000).
Definition demo_rest : PublishDatagram :=
  to_datagram demo_name 0x2000 (2401, repeat 7 (Z.to_nat 100)).

Lemma demo_firsts_NoDup : NoDup (map (fun d => name (header d)) demo_firsts).
Proof.
  unfold demo_firsts. rewrite map_map. apply NoDup_fmap_2_strong; [|apply NoDup_seq].
  intros i j _ _ [= E]. lia.
Qed.

Definition demo_start : PublishDatagram :=
  to_datagram demo_name 0x2000 (0, repeat 7 (Z.to_nat 1200)).
Lemma demo_start_in : demo_start ∈ demo_firsts.
Proof. unfold demo_firsts. apply list_elem_of_fmap. exists 0%nat. split; [done|]. apply elem_of_seq. lia. Qed.
Lemma demo_firsts_fill :
  Z.of_nat (length demo_firsts + length (buffer (fragments demo_receiver) (cindex demo_receiver)))
  = MAX_FRAGMENT_NAMES_PENDING_PER_BUFFER demo_receiver.
Proof. unfold demo_firsts. by rewrite length_map, length_seq. Qed.

Lemma completion_in_old_buffer_undefined_witness :
  exists c', mfor demo_firsts (handle_pub_fragment (T := strict_little) (App := demo_app))
      demo_receiver = (Ret tt, c') /\ events c' = [] /\
    (handle_pub_fragment (T := strict_little) (App := demo_app) demo_rest c').1 = Undefined /\
    events (handle_pub_fragment (T := strict_little) (App := demo_app) demo_rest c').2
    = [onSubscribedObject 7 demo_name 0 0 false demo_data].
Proof.
  apply (completion_in_old_buffer_undefined (T := strict_little) (Tr := FakeTransport)
    (App := demo_app) demo_receiver demo_firsts demo_start demo_rest demo_data).
  - apply demo_receiver_ok.
  - apply demo_delegates.
  - reflexivity.
  - apply demo_firsts_NoDup.
  - intros d _ j b Hb. discriminate Hb.
  - apply demo_firsts_fill.
  - apply demo_start_in.
  - reflexivity.
  - repeat split; vm_compute; congruence.
  - reflexivity.
  - vm_compute. reflexivity.
Defined.
