(* ===== verification/Process.v ===== *)
(** * Several clients in one process (src/quicr_client.cpp, the static variables)

    The reassembly buffers, [fragments], and the index of the current one,
    [cindex], are static: the clients of a process share them.  A process keeps
    its clients with these two left out, and lends them to the client that runs.
    The theorems say who delivers an object that comes to several clients. *)

From S2P Require Export Fragments.


Module Process.
Import QuicRClient.

Record t := mk {
  clients : list QuicRClient.t;
  fragments : list (Z * frag_buffer);
  cindex : Z;
}.

(** A client without the static variables. *)
Definition members (c : QuicRClient.t) : QuicRClient.t := with_fragments [] 0 c.

(** A process that has made its clients; [cindex] starts at 1. *)
Definition init (cs : list QuicRClient.t) : t := mk (map members cs) [] 1.

(** What client [i] sees. *)
Definition view (y : t) (c : QuicRClient.t) : QuicRClient.t :=
  with_fragments (fragments y) (cindex y) c.

(** An operation of client [i]. *)
Definition at_client {A} (i : nat) (m : M QuicRClient.t A) (y : t) : option (result A * t) :=
  c ← clients y !! i;
  let '(r, c') := m (view y c) in
  Some (r, mk (<[i := members c']> (clients y)) (QuicRClient.fragments c') (QuicRClient.cindex c')).

(** Messages that come to clients of the process, one after the other; an
    exception ends the handling of its message only.  [None]: undefined
    behaviour, or no such client. *)
Fixpoint receive {T : Target} {Tr : ITransport} {App : SubscriberApp}
    (arrivals : list (nat * bytes)) (y : t) : option t :=
  match arrivals with
  | [] => Some y
  | (i, msg) :: arrivals' =>
      match at_client i (handle msg) y with
      | None | Some (Undefined, _) => None
      | Some (_, y') => receive arrivals' y'
      end
  end.

(** ** One reassembly for all *)

(** The clients that complete a set of the messages [full], when the ones in
    [held] came before. *)
Fixpoint rounds (full held : list bytes) (arrivals : list (nat * bytes)) : list nat :=
  match arrivals with
  | [] => []
  | (i, x) :: arrivals' =>
      if decide (Forall (fun m => m ∈ held ++ [x]) full) then i :: rounds full [] arrivals'
      else rounds full (held ++ [x]) arrivals'
  end.

(** The calls that client [i] makes when the clients in [ds] deliver. *)
Definition delivered_by (i : nat) (ds : list nat) (calls : list Event) : list Event :=
  flat_map (fun j => if decide (j = i) then calls else []) ds.

Lemma delivered_by_cons i j ds calls :
  delivered_by i (j :: ds) calls
  = (if decide (j = i) then calls else []) ++ delivered_by i ds calls.
Proof. done. Qed.

Lemma members_emit ev c : members (emit ev c) = emit ev (members c).
Proof. done. Qed.

(** ** Receivers that share the buffers *)

Section sharing.
Context {T : Target} `{!LittleEndian} {Tr : ITransport} {App : SubscriberApp}.
Context (n : Name) (Hn : wf_name n).

Lemma receiver_emit ev r : receiver n r -> receiver n (emit ev r).
Proof. intros [Hw Hd Hf Hr]. split; [by apply wf_emit|done..]. Qed.

(** After a round the current buffer exists; else nothing has changed. *)
Lemma touched_fragments r fs i : touched (with_fragments fs i r) = (subscript fs i []).2.
Proof. done. Qed.

Lemma touched_twice r : receiver n r ->
  touched (with_fragments (touched r) (QuicRClient.cindex r) r) = touched r.
Proof.
  intros Hr. rewrite touched_fragments. unfold touched at 1 2.
  by rewrite subscript_idem by apply (wf_store _ (proj1 (receiver_wf _ _ Hr))).
Qed.

Lemma buffer_touched r : receiver n r ->
  buffer (touched r) (QuicRClient.cindex r)
  = buffer (QuicRClient.fragments r) (QuicRClient.cindex r).
Proof.
  intros Hr. unfold buffer at 1. by rewrite (proj2 (touched_spec n r (receiver_unseen n r Hr))).
Qed.

Lemma receiver_touched r : receiver n r ->
  receiver n (with_fragments (touched r) (QuicRClient.cindex r) r).
Proof.
  intros Hr. pose proof Hr as [[Hw Hroom] Hd Hf Hl]. split; [|done| |].
  - split.
    + apply wf_base_fragments; [done|apply Hw|].
      pose proof (wf_max_names _ Hw). apply ok_store_subscript; [lia|apply Hw..].
    + red. change (Z.of_nat (length (buffer (touched r) (QuicRClient.cindex r)))
        < MAX_FRAGMENT_NAMES_PENDING_PER_BUFFER r). by rewrite buffer_touched.
  - intros j b. by apply touched_fresh, receiver_unseen.
  - change (Z.of_nat (length (buffer (touched r) (QuicRClient.cindex r))) + 1
      < MAX_FRAGMENT_NAMES_PENDING_PER_BUFFER r). by rewrite buffer_touched.
Qed.

Context (stream_id : Z) (Hsid : is_field stream_id).
Context (data : bytes) (Hdata : 1200 < Z.of_nat (length data) < 2 ^ 30).
Local Abbreviation full := (object_messages n stream_id data).
Local Abbreviation calls c := (copied_calls (receivers (sub_delegates c) n) n data).

(** The buffers while the messages [l] are held. *)
Definition held_buffers (fs : list (Z * frag_buffer)) (i : Z) (l : list (Z * bytes))
    : list (Z * frag_buffer) :=
  if decide (l = []) then fs
  else QuicRClient.fragments (holding n (with_fragments fs i demo_client) (received_map l)).

Lemma holding_held r l : l <> [] ->
  holding n r (received_map l)
  = with_fragments (held_buffers (QuicRClient.fragments r) (QuicRClient.cindex r) l)
      (QuicRClient.cindex r) r.
Proof. intros Hl. unfold held_buffers. by rewrite decide_False. Qed.

Lemma held_view r l :
  with_fragments (held_buffers (QuicRClient.fragments r) (QuicRClient.cindex r) l)
    (QuicRClient.cindex r) r
  = if decide (l = []) then r else holding n r (received_map l).
Proof.
  case_decide as E; [|by rewrite holding_held].
  subst l. unfold held_buffers. by rewrite decide_True, with_fragments_id by done.
Qed.

(** One more message, at a client that sees the ones in [l]. *)
Lemma one_more r l f :
  receiver n r -> (forall g, g ∈ l ++ [f] -> g ∈ object_fragments data) ->
  (exists g, g ∈ object_fragments data /\ g ∉ l) ->
  handle (message_of n stream_id f)
    (with_fragments (held_buffers (QuicRClient.fragments r) (QuicRClient.cindex r) l)
       (QuicRClient.cindex r) r)
  = (Ret tt,
     if decide (Forall (fun g => g ∈ l ++ [f]) (object_fragments data))
     then emit (calls r) (with_fragments (touched r) (QuicRClient.cindex r) r)
     else with_fragments (held_buffers (QuicRClient.fragments r) (QuicRClient.cindex r) (l ++ [f]))
            (QuicRClient.cindex r) r).
Proof.
  intros Hr Hl Hmiss. destruct (object_chunks data Hdata) as (Hne & Htwo & Hb & Ec & Ef).
  assert (forall g, g ∈ l -> g ∈ object_fragments data) as Hl'.
  { intros g Hg. apply Hl, elem_of_app. by left. }
  assert (f ∈ object_fragments data) as Hf by (apply Hl, elem_of_app; right; by left).
  rewrite held_view. unfold message_of.
  rewrite (handle_fragment n Hn stream_id Hsid data Hdata) by done.
  rewrite Ef in *. set (chunks := chunks_of _ _) in *.
  set (arrive := fun f => handle_pub_fragment (to_datagram n stream_id f)).
  change (handle_pub_fragment (to_datagram n stream_id f)) with (arrive f).
  assert (mfor l arrive r
          = (Ret tt, if decide (l = []) then r else holding n r (received_map l))) as E1.
  { case_decide as E; [by subst l|].
    by apply (arrivals_incomplete n Hn chunks Hne Htwo Hb stream_id). }
  assert (forall c', mfor (l ++ [f]) arrive r = (Ret tt, c') ->
    arrive f (if decide (l = []) then r else holding n r (received_map l)) = (Ret tt, c')) as Hlast.
  { intros c'. rewrite mfor_app, (run_bind_ret _ _ _ _ _ E1). cbn [mfor].
    unfold mbind, M_bind. destruct (arrive f _) as [[[]|e|] c2]; by intros [= <-]. }
  apply Hlast. destruct (decide (Forall _ _)) as [Hall|Hall].
  - rewrite list.Forall_forall in Hall. rewrite <- Ec.
    apply (arrivals_complete n Hn chunks Hne Htwo Hb stream_id); try done.
    intros Hin. destruct Hmiss as (g & Hg & Hng). apply Hng.
    apply Hall in Hg. apply elem_of_app in Hg as [Hg|Hg]; [done|].
    by apply list_elem_of_singleton in Hg as ->.
  - rewrite <- holding_held by (by destruct l).
    apply (arrivals_incomplete n Hn chunks Hne Htwo Hb stream_id); [done|done| |by destruct l].
    apply not_Forall_Exists in Hall; [|intros x; apply _].
    apply list.Exists_exists in Hall as (g & Hg & Hng). by exists g.
Qed.

(** A process whose clients are without static variables, and are ready to
    receive [n]. *)
Definition ready (fs : list (Z * frag_buffer)) (k : Z) (cs : list QuicRClient.t) : Prop :=
  Forall (fun c => members c = c /\ receiver n (with_fragments fs k c)) cs.

Definition with_calls (ds : list nat) (cs : list QuicRClient.t) : list QuicRClient.t :=
  imap (fun i c => emit (delivered_by i ds (calls c)) c) cs.

Lemma with_calls_nil cs : with_calls [] cs = cs.
Proof.
  unfold with_calls. rewrite <- (list_fmap_id cs) at 2. rewrite <- (imap_const id).
  apply imap_ext. intros i c _. apply emit_nil.
Qed.

Lemma with_calls_cons i ds cs c : cs !! i = Some c ->
  with_calls (i :: ds) cs = with_calls ds (<[i := emit (calls c) c]> cs).
Proof.
  intros Hc. apply list_eq. intros j. unfold with_calls. rewrite !list_lookup_imap.
  destruct (decide (j = i)) as [->|Hj].
  - rewrite Hc, list_lookup_insert_eq by by eapply lookup_lt_Some. cbn [fmap option_fmap option_map].
    rewrite delivered_by_cons, decide_True by done. by rewrite <- emit_emit.
  - rewrite list_lookup_insert_ne by done. destruct (cs !! j) as [c'|]; [|done].
    cbn [fmap option_fmap option_map]. by rewrite delivered_by_cons, decide_False by done.
Qed.

Lemma ready_lookup fs k cs i c : ready fs k cs -> cs !! i = Some c ->
  members c = c /\ receiver n (with_fragments fs k c).
Proof. intros Hr. apply (Forall_lookup_1 _ _ _ _ Hr). Qed.

Lemma ready_touched fs k cs i c : ready fs k cs -> cs !! i = Some c ->
  ready (subscript fs k []).2 k (<[i := emit (calls c) c]> cs).
Proof.
  intros Hr Hc. assert (ready (subscript fs k []).2 k cs) as Hr'.
  { eapply list.Forall_impl; [exact Hr|]. intros x [Hm Hx]. split; [done|].
    apply (receiver_touched _ Hx). }
  apply Forall_insert; [done|]. destruct (ready_lookup _ _ _ _ _ Hr' Hc) as [Hm Hx].
  split; [by rewrite members_emit, Hm|]. by apply (receiver_emit (calls c)) in Hx.
Qed.

Lemma rounds_step l f (s : list (nat * (Z * bytes))) i :
  (forall g, g ∈ l ++ [f] -> g ∈ object_fragments data) ->
  rounds full (map (message_of n stream_id) l)
    ((i, message_of n stream_id f) :: map (fun p => (p.1, message_of n stream_id p.2)) s)
  = (if decide (Forall (fun g => g ∈ l ++ [f]) (object_fragments data))
     then i :: rounds full [] (map (fun p => (p.1, message_of n stream_id p.2)) s)
     else rounds full (map (message_of n stream_id) (l ++ [f]))
            (map (fun p => (p.1, message_of n stream_id p.2)) s)).
Proof.
  intros Hl. cbn [rounds].
  change [message_of n stream_id f] with (map (message_of n stream_id) [f]). rewrite <- map_app.
  assert (Forall (fun m => m ∈ map (message_of n stream_id) (l ++ [f])) full
    <-> Forall (fun g => g ∈ l ++ [f]) (object_fragments data)) as Hiff.
  { rewrite !list.Forall_forall. unfold object_messages. split.
    - intros Hx g Hg. apply (elem_messages n Hn stream_id Hsid data Hdata); [done..|].
      by apply Hx, list_elem_of_fmap_2.
    - intros Hg x Hx. apply list_elem_of_fmap in Hx as (g & -> & Hx).
      by apply list_elem_of_fmap_2, Hg. }
  by rewrite (decide_ext _ _ _ _ Hiff).
Qed.

(** The clients deliver in rounds. *)
Lemma receive_rounds (s : list (nat * (Z * bytes))) fs k cs l :
  ready fs k cs ->
  (forall g, g ∈ l -> g ∈ object_fragments data) ->
  (exists g, g ∈ object_fragments data /\ g ∉ l) ->
  (forall p, p ∈ s -> (p.1 < length cs)%nat /\ p.2 ∈ object_fragments data) ->
  let arrivals := map (fun p => (p.1, message_of n stream_id p.2)) s in
  exists fs', receive arrivals (mk cs (held_buffers fs k l) k)
    = Some (mk (with_calls (rounds full (map (message_of n stream_id) l) arrivals) cs) fs' k).
Proof.
  revert fs cs l. induction s as [|[i f] s IH]; intros fs cs l Hr Hl Hmiss Hs; cbv zeta.
  { eexists. cbn. by rewrite with_calls_nil. }
  pose proof (Hs (i, f) ltac:(by left)) as [Hi Hf]. cbn [fst snd] in Hi, Hf.
  destruct (lookup_lt_is_Some_2 cs i Hi) as [c Hc].
  pose proof (ready_lookup _ _ _ _ _ Hr Hc) as [Hm Hx].
  assert (forall g, g ∈ l ++ [f] -> g ∈ object_fragments data) as Hl'.
  { intros g [Hg|Hg]%elem_of_app; [by apply Hl|]. by apply list_elem_of_singleton in Hg as ->. }
  assert (forall p, p ∈ s -> (p.1 < length cs)%nat /\ p.2 ∈ object_fragments data) as Hs'.
  { intros p Hp. apply Hs. by right. }
  cbn [map]. rewrite rounds_step by done. cbn [receive fst snd]. unfold at_client.
  cbn [clients]. rewrite Hc. cbv [mbind option_bind].
  change (view _ c) with (with_fragments (held_buffers fs k l) k (with_fragments fs k c)).
  pose proof (one_more (with_fragments fs k c) l f Hx Hl' Hmiss) as E.
  change (QuicRClient.fragments (with_fragments fs k c)) with fs in E.
  change (QuicRClient.cindex (with_fragments fs k c)) with k in E. rewrite E. clear E.
  destruct (decide (Forall _ _)) as [Hall|Hall]; cbn [clients].
  - change (members _) with (emit (calls c) (members c)). rewrite Hm.
    destruct (IH (subscript fs k []).2 (<[i := emit (calls c) c]> cs) []) as [fs' E'].
    + by apply ready_touched.
    + intros g Hg. by apply not_elem_of_nil in Hg.
    + exists f. split; [done|]. apply not_elem_of_nil.
    + intros p Hp. rewrite length_insert. by apply Hs'.
    + exists fs'. rewrite (with_calls_cons i _ cs c Hc). exact E'.
  - change (members _) with (members c). rewrite Hm, list_insert_id by done.
    apply (IH fs cs (l ++ [f])); [done|done| |done].
    apply not_Forall_Exists in Hall; [|intros x; apply _].
    apply list.Exists_exists in Hall as (g & Hg & Hng). by exists g.
Qed.

(** An object of several messages has one besides any given one. *)
Lemma another_message m : exists x, x ∈ full /\ x <> m.
Proof.
  destruct (object_chunks data Hdata) as (Hne & Htwo & _ & _ & Ef).
  assert (exists f g, f ∈ object_fragments data /\ g ∈ object_fragments data /\ f <> g)
    as (f & g & Hf & Hg & Hfg).
  { rewrite Ef. destruct (chunks_of _ _) as [|c1 [|c2 cs]]; [cbn in Htwo; lia..|].
    pose proof (sorted_frag_list 0 _ Hne) as Hs. rewrite frag_list_cons in Hs |- *.
    destruct (frag_list _ (c2 :: cs)) as [|g l] eqn:E; [by destruct cs|].
    exists (2 * 0, c1), g. split_and!; [by left|right; by left|].
    apply sorted_cons_inv in Hs as [_ Hs]. specialize (Hs g ltac:(by left)).
    intros <-. by rewrite less_irrefl in Hs. }
  destruct (decide (message_of n stream_id f = m)) as [<-|Hm].
  - exists (message_of n stream_id g). split; [by apply list_elem_of_fmap_2|]. intros E.
    by apply Hfg, (message_of_inj n Hn stream_id Hsid data Hdata).
  - exists (message_of n stream_id f). split; [by apply list_elem_of_fmap_2|done].
Qed.

(** Each message at client 0, and then at client 1. *)
Definition to_both (order : list bytes) : list (nat * bytes) :=
  flat_map (fun x => [(0%nat, x); (1%nat, x)]) order.

Lemma rounds_to_both held order last :
  last ∈ full -> last ∉ held ++ order -> (forall x, x ∈ full -> x ∈ held ++ order ++ [last]) ->
  rounds full held (to_both (order ++ [last])) = [0%nat].
Proof.
  intros Hl. revert held. induction order as [|y order IH]; intros held Hn1 Hall; cbn.
  - rewrite decide_True by (by apply list.Forall_forall).
    rewrite decide_False; [done|]. intros Hf. destruct (another_message last) as (x & Hx & Hne).
    rewrite list.Forall_forall in Hf. by apply Hf, list_elem_of_singleton in Hx.
  - rewrite elem_of_app, elem_of_cons in Hn1.
    rewrite !decide_False; rewrite ?list.Forall_forall.
    2, 3: intros Hf; specialize (Hf last Hl);
      rewrite !elem_of_app, !list_elem_of_singleton in Hf; tauto.
    apply IH.
    + rewrite !elem_of_app, !list_elem_of_singleton. tauto.
    + intros x Hx. specialize (Hall x Hx). cbn [app] in Hall.
      rewrite elem_of_app, elem_of_cons in Hall.
      rewrite !elem_of_app, !list_elem_of_singleton in *. tauto.
Qed.
End sharing.

Lemma process_reassembly {T : Target} `{!LittleEndian} {Tr : ITransport}
    {App : SubscriberApp} n data stream_id fs k cs arrivals :
  wf_name n -> 1200 < Z.of_nat (length data) < 2 ^ 30 -> is_field stream_id ->
  ready n fs k cs ->
  (forall p, p ∈ arrivals ->
     (p.1 < length cs)%nat /\ p.2 ∈ object_messages n stream_id data) ->
  exists fs', receive arrivals (mk cs fs k)
    = Some (mk (with_calls n data (rounds (object_messages n stream_id data) [] arrivals) cs)
              fs' k).
Proof.
  intros Hn Hd Hs Hr Ha.
  assert (exists s, arrivals = map (fun p => (p.1, message_of n stream_id p.2)) s /\
    forall p, p ∈ s -> (p.1 < length cs)%nat /\ p.2 ∈ object_fragments data) as (s & -> & Hsf).
  { clear -Ha. induction arrivals as [|[i x] l IH].
    { exists []. split; [done|]. intros p Hp. by apply not_elem_of_nil in Hp. }
    destruct IH as (s & -> & Hs). { intros p Hp. apply Ha. by right. }
    destruct (Ha (i, x) ltac:(by left)) as [Hi Hx].
    apply list_elem_of_fmap in Hx as (f & Ex & Hf). cbn in Ex. subst x.
    exists ((i, f) :: s). split; [done|]. intros p [->|Hp]%elem_of_cons; auto. }
  destruct (another_message n Hn stream_id Hs data Hd []) as (x & Hx & _).
  apply list_elem_of_fmap in Hx as (f & _ & Hf).
  apply (receive_rounds n Hn stream_id Hs data Hd s fs k cs []); [done| | |done].
  - intros g Hg. by apply not_elem_of_nil in Hg.
  - exists f. split; [done|]. apply not_elem_of_nil.
Qed.

(** * Properties *)

(** Two clients that subscribed to one namespace. *)
Definition demo_member (d : Z) : QuicRClient.t :=
  members (with_sub_delegates [(demo_ns, Some d)] demo_client).

Lemma demo_members_ready : ready demo_name [] 1 [demo_member 7; demo_member 8].
Proof.
  assert (forall d, receiver demo_name (with_sub_delegates [(demo_ns, Some d)] demo_client)) as H.
  { intros d. split; [|split; [apply sorted_singleton|]|done|done].
    - apply wf_with_sub_delegates; [apply client_wf_init|apply sorted_singleton].
    - intros q Hq. apply list_elem_of_singleton in Hq as ->. repeat split; vm_compute; congruence. }
  constructor; [split; [done|apply (H 7)]|]. constructor; [split; [done|apply (H 8)]|constructor].
Qed.

(** C21: The clients of a process reassemble jointly: on a little-endian host, when
    the messages of an object of more than 1200 and less than 2^30 bytes come to
    several clients, in any order and with any repetitions, they behave as one
    reassembler, if at the start their common store holds no fragment of the
    name and its current buffer has room for the name without turning to the next
    one (fewer than 4999 names pending).  Rounds follow each other, each ends with the
    message that completes the set of those that came to any client since the
    round before, and the client that this message came to calls its live
    delegates with the object, and no other client does. *)
Theorem process_reassembles_jointly {T : Target} `{!LittleEndian} {Tr : ITransport}
    {App : SubscriberApp} n data stream_id fs k cs arrivals :
  wf_name n -> 1200 < Z.of_nat (length data) < 2 ^ 30 -> is_field stream_id ->
  ready n fs k cs ->
  (forall p, p ∈ arrivals ->
     (p.1 < length cs)%nat /\ p.2 ∈ object_messages n stream_id data) ->
  exists fs', receive arrivals (mk cs fs k)
    = Some (mk (with_calls n data (rounds (object_messages n stream_id data) [] arrivals) cs)
              fs' k).
Proof. intros. by apply process_reassembly. Qed.

(** The first message comes to one client, the second to the other. *)
Lemma process_reassembles_jointly_witness :
  let T := strict_little in let Tr := FakeTransport in let App := demo_app in
  exists fs', receive [(0%nat, pkt_data demo_first); (1%nat, pkt_data demo_second)]
      (mk [demo_member 7; demo_member 8] [] 1)
    = Some (mk [demo_member 7;
                emit [onSubscribedObject 8 demo_name 0 0 false demo_data] (demo_member 8)] fs' 1).
Proof.
  intros T Tr App.
  destruct (process_reassembles_jointly (Tr := FakeTransport) demo_name demo_data 0x2000 [] 1
    [demo_member 7; demo_member 8]
    [(0%nat, pkt_data demo_first); (1%nat, pkt_data demo_second)]) as [fs' E].
  - repeat split; vm_compute; congruence.
  - vm_compute. split; reflexivity.
  - split; vm_compute; congruence.
  - apply demo_members_ready.
  - intros p Hp. rewrite !elem_of_cons, elem_of_nil in Hp.
    destruct Hp as [->|[->|[]]]; split; cbn; try lia; vm_compute; [left|right; left].
  - exists fs'. etransitivity; [exact E|]. vm_compute. reflexivity.
Defined.

(** C22: Two clients of one process that subscribed to the same objects, on a
    little-endian host: when their common store holds no fragment of a name and its
    current buffer has room for the name without turning to the next one (fewer
    than 4999 names pending), and each message of an object of more than 1200 and
    less than 2^30 bytes comes to the first client and then to the second, the
    last one for the first time, then the first client delivers the object once,
    and the second never does, although it got every message. *)
Theorem second_client_starves {T : Target} `{!LittleEndian} {Tr : ITransport}
    {App : SubscriberApp} n data stream_id fs k c0 c1 order last :
  wf_name n -> 1200 < Z.of_nat (length data) < 2 ^ 30 -> is_field stream_id ->
  ready n fs k [c0; c1] ->
  (forall x, x ∈ order -> x ∈ object_messages n stream_id data) ->
  last ∈ object_messages n stream_id data -> last ∉ order ->
  (forall x, x ∈ object_messages n stream_id data -> x ∈ order ++ [last]) ->
  exists fs', receive (to_both (order ++ [last])) (mk [c0; c1] fs k)
    = Some (mk [emit (copied_calls (receivers (sub_delegates c0) n) n data) c0; c1] fs' k).
Proof.
  intros Hn Hd Hs Hr Ho Hl Hnew Hall.
  destruct (process_reassembly n data stream_id fs k [c0; c1] (to_both (order ++ [last])))
    as [fs' E]; [done..| |].
  - intros p Hp. apply list_elem_of_In, in_flat_map in Hp as (x & Hx & Hp).
    apply list_elem_of_In in Hx.
    assert (x ∈ object_messages n stream_id data) as Hx'.
    { apply elem_of_app in Hx as [Hx|Hx]; [by apply Ho|]. by apply list_elem_of_singleton in Hx as ->. }
    destruct Hp as [<-|[<-|[]]]; cbn; split; (done || lia).
  - exists fs'. rewrite E, (rounds_to_both n Hn stream_id Hs data Hd) by done.
    unfold with_calls. cbn. by rewrite !app_nil_r, emit_nil.
Qed.

Lemma second_client_starves_witness :
  let T := strict_little in let Tr := FakeTransport in let App := demo_app in
  exists fs', receive (to_both ([pkt_data demo_second] ++ [pkt_data demo_first]))
      (mk [demo_member 7; demo_member 8] [] 1)
    = Some (mk [emit [onSubscribedObject 7 demo_name 0 0 false demo_data] (demo_member 7);
                demo_member 8] fs' 1).
Proof.
  intros T Tr App.
  assert (object_messages demo_name 0x2000 demo_data = [pkt_data demo_first; pkt_data demo_second])
    as E by (vm_compute; reflexivity).
  change [onSubscribedObject 7 demo_name 0 0 false demo_data]
    with (copied_calls [7] demo_name demo_data).
  assert ([7] = receivers (sub_delegates (demo_member 7)) demo_name) as -> by (vm_compute; reflexivity).
  apply (second_client_starves (Tr := FakeTransport) demo_name demo_data 0x2000 [] 1
    (demo_member 7) (demo_member 8) [pkt_data demo_second] (pkt_data demo_first)); rewrite ?E.
  - repeat split; vm_compute; congruence.
  - vm_compute. split; reflexivity.
  - split; vm_compute; congruence.
  - apply demo_members_ready.
  - intros x Hx. rewrite !elem_of_cons, elem_of_nil in *. tauto.
  - left.
  - intros Hx. apply list_elem_of_singleton in Hx. discriminate Hx.
  - intros x Hx. cbn. rewrite !elem_of_cons, elem_of_nil in *. tauto.
Defined.
End Process.
