(* ===== verification/Server.v ===== *)
(** * quicr::QuicRServer (include/quicr/quicr_server.h, src/quicr_server.cpp)

    The server calls its application through [ServerDelegate], whose methods may
    call the server's public operations back while a handler runs: a delegate is
    an interface of operations on the world, the server's state together with
    the application's.  The laws of that interface say what a delegate that
    uses the public operations only leaves alone.  Each handler is one step; for
    the mutex and several threads see [ServerThreads]. *)

From S2P Require Export Transport.

Module QuicRServer.

(** [Context::State] *)
Inductive State := Unknown | Pending | Ready.
#[export] Instance State_eq_dec : EqDecision State.
Proof. solve_decision. Defined.

Record SubscribeContext := mkSubscribeContext {
  sc_state : State;
  sc_transport_context_id : Z;
  sc_transport_stream_id : Z;
  sc_transaction_id : Z;
  sc_subscriber_id : Z;
}.
Definition SubscribeContext_init : SubscribeContext :=
  mkSubscribeContext Unknown 0 0 0 0.

Record PublishContext := mkPublishContext {
  pc_state : State;
  pc_transport_context_id : Z;
  pc_transport_stream_id : Z;
  pc_group_id : Z;
  pc_object_id : Z;
  pc_offset : Z;
}.
Definition PublishContext_init : PublishContext := mkPublishContext Unknown 0 0 0 0 0.

Record PublishIntentContext := mkPublishIntentContext {
  pic_state : State;
  pic_transport_context_id : Z;
  pic_transport_stream_id : Z;
  pic_transaction_id : Z;
}.
Definition PublishIntentContext_init : PublishIntentContext :=
  mkPublishIntentContext Unknown 0 0 0.

(** context id -> subscription *)
Abbreviation contexts := (list (Z * SubscribeContext)).

(** [rx] holds the data waiting in the transport, with its context and stream. *)
Record t := mk {
  subscribe_state : list (Namespace * contexts);
  subscribe_id_state : list (Z * SubscribeContext);
  publish_state : list (Name * PublishContext);
  publish_namespaces : list (Namespace * PublishIntentContext);
  running : bool;
  subscriber_id : Z;
  rx : list (Z * Z * bytes);
  tx : list Packet;
}.

Definition init : t := mk [] [] [] [] false 0 [] [].

(** ** Assignments to the members *)

Definition with_subscribe_state (v : list (Namespace * contexts)) (s : t) : t :=
  mk v (subscribe_id_state s) (publish_state s) (publish_namespaces s) (running s)
    (subscriber_id s) (rx s) (tx s).
Definition with_subscribe_id_state (v : list (Z * SubscribeContext)) (s : t) : t :=
  mk (subscribe_state s) v (publish_state s) (publish_namespaces s) (running s)
    (subscriber_id s) (rx s) (tx s).
Definition with_publish_state (v : list (Name * PublishContext)) (s : t) : t :=
  mk (subscribe_state s) (subscribe_id_state s) v (publish_namespaces s) (running s)
    (subscriber_id s) (rx s) (tx s).
Definition with_publish_namespaces (v : list (Namespace * PublishIntentContext)) (s : t) : t :=
  mk (subscribe_state s) (subscribe_id_state s) (publish_state s) v (running s)
    (subscriber_id s) (rx s) (tx s).
Definition with_subscriber_id (v : Z) (s : t) : t :=
  mk (subscribe_state s) (subscribe_id_state s) (publish_state s) (publish_namespaces s)
    (running s) v (rx s) (tx s).
Definition with_rx (v : list (Z * Z * bytes)) (s : t) : t :=
  mk (subscribe_state s) (subscribe_id_state s) (publish_state s) (publish_namespaces s)
    (running s) (subscriber_id s) v (tx s).
Definition with_tx (v : list Packet) (s : t) : t :=
  mk (subscribe_state s) (subscribe_id_state s) (publish_state s) (publish_namespaces s)
    (running s) (subscriber_id s) (rx s) v.
Definition with_running (v : bool) (s : t) : t :=
  mk (subscribe_state s) (subscribe_id_state s) (publish_state s) (publish_namespaces s)
    v (subscriber_id s) (rx s) (tx s).

(** ** Transport calls *)

(** [transport->enqueue(...)], whose result the server ignores. *)
Definition enqueue (context_id stream_id : Z) (data : bytes) : M t unit :=
  modify (fun s => with_tx (tx s ++ [mkPacket context_id stream_id data]) s).

Fixpoint dequeue_from (context_id stream_id : Z) (q : list (Z * Z * bytes))
    : option (bytes * list (Z * Z * bytes)) :=
  match q with
  | [] => None
  | (c, i, data) :: q' =>
      if ((c =? context_id) && (i =? stream_id))%bool then Some (data, q')
      else
        match dequeue_from context_id stream_id q' with
        | Some (d, r) => Some (d, (c, i, data) :: r)
        | None => None
        end
  end.
Definition dequeue (context_id stream_id : Z) : M t (option bytes) := fun s =>
  match dequeue_from context_id stream_id (rx s) with
  | None => (Ret None, s)
  | Some (d, q) => (Ret (Some d), with_rx q s)
  end.

Section api.
Context {T : Target} {Tr : ITransport}.

Definition is_transport_ready (n : nat) : bool := bool_decide (status n = Transport.Ready).

(** [run()]: [None] while the transport is connecting. *)
Definition run (fuel n : nat) (s : t) : option (bool * t) :=
  n' ← wait_while_connecting 1 fuel n;
  Some (bool_decide (status n' = Transport.Ready), with_running true s).

(** [t_relay], filled by the constructor. *)
Definition t_relay (relayInfo : RelayInfo) : chars * Z * Protocol.t :=
  (hostname relayInfo, port relayInfo,
   match proto relayInfo with Protocol.UDP => Protocol.UDP | _ => Protocol.QUIC end).

(** ** Public operations *)

Definition publishIntentResponse (ns : Namespace) (result : PublishIntentResult)
    : M t unit :=
  pns ← gets publish_namespaces;
  if negb (contains_key pns ns) then mret tt
  else
    let '(context, m) := subscript pns ns PublishIntentContext_init in
    modify (with_publish_namespaces m);;
    msg ← lift (serialize (put_PublishIntentResponse
      (mkPublishIntentResponse MessageType.PublishIntentResponse ns (pir_status result)
         (pic_transaction_id context))));
    modify (with_publish_namespaces (assign m ns
      (mkPublishIntentContext Ready (pic_transport_context_id context)
         (pic_transport_stream_id context) (pic_transaction_id context))));;
    enqueue (pic_transport_context_id context) (pic_transport_stream_id context) msg.

(** The three operations that write to a subscriber by its id. *)
Definition to_subscriber (subscriber_id : Z) (writer : Buf unit) : M t unit :=
  ids ← gets subscribe_id_state;
  if negb (contains_key ids subscriber_id) then mret tt
  else
    let '(context, m) := subscript ids subscriber_id SubscribeContext_init in
    modify (with_subscribe_id_state m);;
    msg ← lift (serialize writer);
    enqueue (sc_transport_context_id context) (sc_transport_stream_id context) msg.

Definition subscribeResponse (subscriber_id : Z) (ns : Namespace)
    (result : SubscribeResult) : M t unit :=
  to_subscriber subscriber_id
    (put_SubscribeResponse (mkSubscribeResponse ns (sr_status result) subscriber_id)).
Definition subscriptionEnded (subscriber_id : Z) (ns : Namespace)
    (reason : SubscribeStatus.t) : M t unit :=
  to_subscriber subscriber_id (put_SubscribeEnd (mkSubscribeEnd ns reason)).
Definition sendNamedObject (subscriber_id : Z) (use_reliable_transport : bool)
    (datagram : PublishDatagram) : M t unit :=
  to_subscriber subscriber_id (put_PublishDatagram datagram).
End api.

(** ** The delegate *)

Section world.
Context {A : Type}.

(** The server's state and the application's. *)
Definition world : Type := (t * A).
Definition on_server {B} (m : M t B) : M world B := fun w =>
  let '(r, s) := m w.1 in (r, (s, w.2)).
Definition on_app {B} (m : M A B) : M world B := fun w =>
  let '(r, a) := m w.2 in (r, (w.1, a)).
End world.
Arguments world : clear implicits.

Class ServerDelegate (A : Type) := {
  onPublishIntent (ns : Namespace) (origin_url : chars) (use_reliable_transport : bool)
    (auth_token : chars) (e2e_token : bytes) : M (world A) unit;
  onPublishIntentEnd (ns : Namespace) (auth_token : chars) (e2e_token : bytes)
    : M (world A) unit;
  onPublisherObject (context_id stream_id : Z) (use_reliable_transport : bool)
    (datagram : PublishDatagram) : M (world A) unit;
  onSubscribe (ns : Namespace) (subscriber_id context_id stream_id : Z)
    (intent : SubscribeIntent.t) (origin_url : chars) (use_reliable_transport : bool)
    (auth_token : chars) (data : bytes) : M (world A) unit;
  onUnsubscribe (ns : Namespace) (subscriber_id : Z) (auth_token : chars)
    : M (world A) unit;
}.

(** The implementations [ServerDelegate] itself gives for two of them. *)
Definition default_onSubscribe {A} : M (world A) unit := mret tt.
Definition default_onUnsubscribe {A} : M (world A) unit := mret tt.

(** The members of the objects a handler declares without initialising. *)
Definition uninit_Subscribe : Subscribe :=
  mkSubscribe 0 0 (mkNamespace (mkName 0 0) 0) SubscribeIntent.immediate.
Definition uninit_Unsubscribe : Unsubscribe :=
  mkUnsubscribe 0 (mkNamespace (mkName 0 0) 0).

Section handlers.
Context {T : Target} {A : Type} {D : ServerDelegate A}.

(** ** Message handlers *)

Definition handle_subscribe (context_id streamId : Z) (msg : bytes) : M (world A) unit :=
  subscribe ← on_local msg (get_Subscribe uninit_Subscribe);
  let ns := sub_namespace subscribe in
  on_server (modify (fun s =>
    let '(ctxs, st) := subscript (subscribe_state s) ns [] in
    if contains_key ctxs context_id then with_subscribe_state st s
    else
      let context := mkSubscribeContext Unknown context_id streamId 0 (subscriber_id s) in
      with_subscribe_id_state
        (assign (subscribe_id_state s) (sc_subscriber_id context) context)
        (with_subscribe_state (assign st ns (assign ctxs context_id context))
           (with_subscriber_id (wrap 64 (subscriber_id s + 1)) s))));;
  context ← on_server (fun s =>
    let '(ctxs, st) := subscript (subscribe_state s) ns [] in
    let '(context, ctxs') := subscript ctxs context_id SubscribeContext_init in
    (Ret context, with_subscribe_state (assign st ns ctxs') s));
  onSubscribe ns (sc_subscriber_id context) context_id streamId (sub_intent subscribe)
    [] false [] [].

Definition handle_unsubscribe (context_id streamId : Z) (msg : bytes) : M (world A) unit :=
  unsub ← on_local msg (get_Unsubscribe uninit_Unsubscribe);
  let ns := unsub_namespace unsub in
  ctxs ← on_server (fun s =>
    let '(ctxs, st) := subscript (subscribe_state s) ns [] in
    (Ret ctxs, with_subscribe_state st s));
  if negb (contains_key ctxs context_id) then mret tt
  else
    let context := (subscript ctxs context_id SubscribeContext_init).1 in
    onUnsubscribe ns (sc_subscriber_id context) [];;
    on_server (modify (fun s =>
      let '(ctxs, st) := subscript (subscribe_state s) ns [] in
      let context := (subscript ctxs context_id SubscribeContext_init).1 in
      let ids := erase (subscribe_id_state s) (sc_subscriber_id context) in
      let ctxs' := erase ctxs context_id in
      let st' := assign st ns ctxs' in
      with_subscribe_id_state ids
        (with_subscribe_state
           (if 0 <? Z.of_nat (length ctxs') then erase st' ns else st') s))).

(** [std::find_if] with [contains] *)
Fixpoint find_publish_namespace (l : list (Namespace * PublishIntentContext)) (n : Name)
    : result (option (Namespace * PublishIntentContext)) :=
  match l with
  | [] => Ret None
  | ns :: l' =>
      inside ← contains ns.1 n;
      if (inside : bool) then Ret (Some ns) else find_publish_namespace l' n
  end.

Definition handle_publish (context_id streamId : Z) (msg : bytes) : M (world A) unit :=
  datagram ← on_local msg get_PublishDatagram;
  let n := name (header datagram) in
  w ← gets id;
  publish_namespace ← lift (find_publish_namespace (publish_namespaces w.1) n);
  match publish_namespace with
  | None => mret tt
  | Some _ =>
      context ← on_server (fun s =>
        if negb (contains_key (publish_state s) n) then
          let context := mkPublishContext Unknown context_id streamId 0 0 0 in
          (Ret context, with_publish_state (assign (publish_state s) n context) s)
        else
          let '(context, m) := subscript (publish_state s) n PublishContext_init in
          (Ret context, with_publish_state m s));
      onPublisherObject (pc_transport_context_id context) (pc_transport_stream_id context)
        false datagram
  end.

Definition handle_publish_intent (context_id streamId : Z) (msg : bytes)
    : M (world A) unit :=
  intent ← on_local msg get_PublishIntent;
  let ns := pi_namespace intent in
  on_server (modify (fun s =>
    if negb (contains_key (publish_namespaces s) ns) then
      with_publish_namespaces
        (assign (publish_namespaces s) ns
           (mkPublishIntentContext Pending context_id streamId (pi_transaction_id intent))) s
    else s));;
  onPublishIntent ns [] false [] (pi_payload intent).

(** The loop over [publish_state]. *)
Fixpoint erase_contained (ns : Namespace) (l : list (Name * PublishContext))
    : result (list (Name * PublishContext)) :=
  match l with
  | [] => Ret []
  | it :: l' =>
      inside ← contains ns it.1;
      rest ← erase_contained ns l';
      mret (if (inside : bool) then rest else it :: rest)
  end.

Definition handle_publish_intent_end (context_id streamId : Z) (msg : bytes)
    : M (world A) unit :=
  intent_end ← on_local msg get_PublishIntentEnd;
  let ns := pie_namespace intent_end in
  w ← gets id;
  if negb (contains_key (publish_namespaces w.1) ns) then mret tt
  else
    on_server (modify (with_publish_namespaces (erase (publish_namespaces w.1) ns)));;
    ps ← lift (erase_contained ns (publish_state w.1));
    on_server (modify (with_publish_state ps));;
    onPublishIntentEnd ns [] (pie_payload intent_end).

(** ** Transport delegate *)

(** The loop over [subscribe_state]; [entries] are the keys still to visit.
    Erasing the entry the loop stands on is undefined. *)
Fixpoint disconnect_loop (entries : list Namespace) (context_id : Z)
    (namespaces_to_remove : list Namespace) : M (world A) unit :=
  match entries with
  | [] => mret tt
  | ns :: entries' =>
      ctxs ← gets (fun w : world A => default [] (at_key (subscribe_state w.1) ns));
      to_remove ←
        (if contains_key ctxs context_id then
           let context := (subscript ctxs context_id SubscribeContext_init).1 in
           onUnsubscribe ns (sc_subscriber_id context) [];;
           on_server (modify (fun s =>
             with_subscribe_id_state
               (erase (subscribe_id_state s) (sc_subscriber_id context)) s));;
           mret (if Z.of_nat (length ctxs) =? 0
                 then namespaces_to_remove ++ [ns] else namespaces_to_remove)
         else mret namespaces_to_remove);
      mfor to_remove (fun ns' => on_server (modify (fun s =>
        with_subscribe_state (erase (subscribe_state s) ns') s)));;
      here ← gets (fun w : world A => contains_key (subscribe_state w.1) ns);
      if (here : bool) then disconnect_loop entries' context_id to_remove else undefined
  end.

Definition on_connection_status {Tr : ITransport} (context_id : Z) (st : TransportStatus)
    : M (world A) unit :=
  if decide (st = Disconnected) then
    keys ← gets (fun w : world A => map fst (subscribe_state w.1));
    disconnect_loop keys context_id []
  else mret tt.

(** The body of the [try] block. *)
Definition dispatch (context_id streamId : Z) (data : bytes) : M (world A) unit :=
  match data with
  | [] => undefined
  | front :: _ =>
      match (enum_of_u8 front : MessageType.t) with
      | MessageType.Subscribe => handle_subscribe context_id streamId data
      | MessageType.Publish => handle_publish context_id streamId data
      | MessageType.Unsubscribe => handle_unsubscribe context_id streamId data
      | MessageType.PublishIntent => handle_publish_intent context_id streamId data
      | MessageType.PublishIntentEnd => handle_publish_intent_end context_id streamId data
      | _ => mret tt
      end
  end.

(** [for (int i = 0; i < 150; i++)]: both [catch] clauses continue. *)
Fixpoint on_recv_notify_loop (n : nat) (context_id streamId : Z) : M (world A) unit :=
  match n with
  | O => mret tt
  | S n' =>
      data ← on_server (dequeue context_id streamId);
      match data with
      | None => mret tt
      | Some data =>
          try_catch (dispatch context_id streamId data) (fun _ => Some (mret tt));;
          on_recv_notify_loop n' context_id streamId
      end
  end.
Definition on_recv_notify (context_id streamId : Z) : M (world A) unit :=
  on_recv_notify_loop 150 context_id streamId.
End handlers.

(** ** The two searches through the publishers *)

Lemma existsb_list_find {X} (f : X -> bool) l :
  existsb f l = match list_find (fun x => f x = true) l with Some _ => true | None => false end.
Proof.
  induction l as [|x l IH]; [done|]. simpl. rewrite IH.
  destruct (f x); [by rewrite decide_True|rewrite decide_False by done].
  by destruct (list_find _ l) as [[? ?]|].
Qed.

Section publishers.
Context {T : Target}.

Lemma erase_contained_sub ns l l' p :
  erase_contained ns l = Ret l' -> p ∈ l' -> p ∈ l.
Proof.
  revert l'. induction l as [|it l IH]; intros l'; cbn [erase_contained].
  { intros E. by simplify_eq. }
  cbv [mbind result_bind mret result_ret].
  destruct (contains ns it.1) as [[]|e|]; [..|done|done];
    destruct (erase_contained ns l) as [rest|e|]; try done; intros E; simplify_eq.
  - intros Hp. right. by apply (IH l').
  - rewrite !elem_of_cons. intros [->|Hp]; [by left|]. right. by apply (IH rest).
Qed.

Lemma sorted_erase_contained ns l l' :
  erase_contained ns l = Ret l' -> sorted l -> sorted l'.
Proof.
  revert l'. induction l as [|[k v] l IH]; intros l'; cbn [erase_contained].
  { intros E. by simplify_eq. }
  cbv [mbind result_bind mret result_ret].
  destruct (contains ns (k, v).1) as [[]|e|]; [..|done|done];
    destruct (erase_contained ns l) as [rest|e|] eqn:Er; try done; intros E Hs; simplify_eq;
    apply sorted_cons_inv in Hs as [Hs Hall]; [by apply IH|].
  apply sorted_cons; [by apply IH|]. intros p Hp. apply Hall.
  by apply (erase_contained_sub ns l rest).
Qed.

(** With namespaces as the constructors make them, both are plain. *)
Lemma erase_contained_filter ns l :
  wf_namespace ns -> (forall p, p ∈ l -> wf_name p.1) ->
  erase_contained ns l = Ret (List.filter (fun p => negb (within ns p.1)) l).
Proof.
  intros Hns. induction l as [|[k v] l IH]; intros Hl; [done|].
  cbn [erase_contained]. rewrite contains_within by (by auto; apply (Hl (k, v)); left).
  cbv [mbind result_bind mret result_ret]. rewrite IH by (intros p Hp; apply Hl; by right).
  cbn [List.filter fst]. by destruct (within ns k).
Qed.

Lemma find_publish_namespace_spec l n :
  wf_name n -> (forall p, p ∈ l -> wf_namespace p.1) ->
  find_publish_namespace l n
  = Ret (snd <$> list_find (fun p => within p.1 n = true) l).
Proof.
  intros Hn. induction l as [|[k v] l IH]; intros Hl; [done|].
  cbn [find_publish_namespace list_find]. cbn [fst].
  rewrite contains_within by (by auto; apply (Hl (k, v)); left).
  cbv [mbind result_bind]. rewrite IH by (intros p Hp; apply Hl; by right).
  destruct (within k n); [by rewrite decide_True|rewrite decide_False by done].
  by destruct (list_find _ l) as [[? ?]|].
Qed.
End publishers.

(** * What the public operations leave alone *)

(** The registration of a publisher, without its progress. *)
Definition registration (p : Namespace * PublishIntentContext) : Namespace * Z * Z * Z :=
  (p.1, pic_transport_context_id p.2, pic_transport_stream_id p.2, pic_transaction_id p.2).

(** Only the progress of publishers and the packets sent may differ. *)
Record frame (s s' : t) : Prop := {
  frame_subscribe_state : subscribe_state s' = subscribe_state s;
  frame_subscribe_id_state : subscribe_id_state s' = subscribe_id_state s;
  frame_publish_state : publish_state s' = publish_state s;
  frame_publish_namespaces :
    map registration (publish_namespaces s') = map registration (publish_namespaces s);
  frame_publish_sorted : sorted (publish_namespaces s) -> sorted (publish_namespaces s');
  frame_running : running s' = running s;
  frame_subscriber_id : subscriber_id s' = subscriber_id s;
  frame_rx : rx s' = rx s;
  frame_tx : exists sent, tx s' = tx s ++ sent;
}.

#[export] Instance frame_preorder : PreOrder frame.
Proof.
  split.
  - intros s. split; try done. exists []. by rewrite app_nil_r.
  - intros s1 s2 s3 [] []. split; try congruence; [auto|].
    destruct frame_tx0 as [l1 E1], frame_tx1 as [l2 E2]. exists (l1 ++ l2).
    by rewrite E2, E1, app_assoc.
Qed.

Lemma frame_with_tx s sent : frame s (with_tx (tx s ++ sent) s).
Proof. split; try done. by exists sent. Qed.

Lemma map_assign_found {V B} (f : Namespace * V -> B) m k k0 v v' :
  sorted m -> find m k = Some (k0, v) -> f (k0, v') = f (k0, v) ->
  map f (assign m k v') = map f m.
Proof.
  intros Hs Hf E. induction m as [|[k1 v1] m IH]; [done|].
  pose proof (sorted_cons_inv _ _ _ Hs) as [Hs' Hall]. simpl in Hf. unfold assign. simpl.
  unfold equiv_key in Hf. destruct (less k k1) eqn:E1; simpl in Hf.
  - exfalso. apply find_elem in Hf as Hin. apply find_key_equiv in Hf.
    specialize (Hall _ Hin). simpl in Hall.
    rewrite <- (less_equiv_r k k0 k1 Hf) in Hall. by rewrite (less_asym _ _ Hall) in E1.
  - destruct (less k1 k) eqn:E2; simpl in Hf |- *.
    + f_equal. by apply IH.
    + simplify_eq. by rewrite E.
Qed.

Lemma subscript_contains {K V} `{Less K} (m : list (K * V)) k d :
  contains_key m k = true ->
  exists k0 v, find m k = Some (k0, v) /\ subscript m k d = (v, m).
Proof.
  unfold contains_key, subscript. destruct (find m k) as [[k0 v]|]; [|done]. by eauto.
Qed.

Section api_frame.
Context {T : Target}.

(** The messages of the server reach the connection their subscriber id or
    their namespace stands for, and nothing happens when it is unknown. *)
Lemma to_subscriber_run i writer w s :
  appends writer w ->
  to_subscriber i writer s
  = (Ret tt, match at_key (subscribe_id_state s) i with
             | Some ctx => with_tx (tx s ++ [mkPacket (sc_transport_context_id ctx)
                                               (sc_transport_stream_id ctx) w]) s
             | None => s end).
Proof.
  intros Hw. unfold to_subscriber. cbv [mbind M_bind gets].
  destruct (contains_key (subscribe_id_state s) i) eqn:E.
  - destruct (subscript_contains (subscribe_id_state s) i SubscribeContext_init E)
      as (k0 & v & Ef & ->).
    unfold at_key. rewrite Ef. simpl. unfold lift, modify. rewrite (serialize_wire _ _ Hw).
    cbn. by destruct s.
  - unfold contains_key in E. unfold at_key.
    by destruct (find (subscribe_id_state s) i) as [[? ?]|].
Qed.

Lemma to_subscriber_frame i writer s : frame s (to_subscriber i writer s).2.
Proof.
  unfold to_subscriber. cbv [mbind M_bind gets].
  destruct (contains_key (subscribe_id_state s) i) eqn:E; [|reflexivity].
  destruct (subscript_contains (subscribe_id_state s) i SubscribeContext_init E)
    as (k0 & v & Ef & ->). simpl. unfold modify, lift.
  assert (with_subscribe_id_state (subscribe_id_state s) s = s) as -> by (by destruct s).
  destruct (serialize writer); [apply frame_with_tx|reflexivity..].
Qed.

Lemma subscribeResponse_frame i ns r s : frame s (subscribeResponse i ns r s).2.
Proof. apply to_subscriber_frame. Qed.
Lemma subscriptionEnded_frame i ns r s : frame s (subscriptionEnded i ns r s).2.
Proof. apply to_subscriber_frame. Qed.
Lemma sendNamedObject_frame i b d s : frame s (sendNamedObject i b d s).2.
Proof. apply to_subscriber_frame. Qed.

Lemma publishIntentResponse_run ns r s :
  publishIntentResponse ns r s
  = (Ret tt,
     match find (publish_namespaces s) ns with
     | Some (_, v) =>
         with_tx (tx s ++ [mkPacket (pic_transport_context_id v) (pic_transport_stream_id v)
                     (PublishIntentResponse_wire
                        (mkPublishIntentResponse MessageType.PublishIntentResponse ns
                           (pir_status r) (pic_transaction_id v)))])
           (with_publish_namespaces (assign (publish_namespaces s) ns
              (mkPublishIntentContext Ready (pic_transport_context_id v)
                 (pic_transport_stream_id v) (pic_transaction_id v))) s)
     | None => s
     end).
Proof.
  unfold publishIntentResponse. cbv [mbind M_bind gets].
  destruct (contains_key (publish_namespaces s) ns) eqn:E.
  - destruct (subscript_contains (publish_namespaces s) ns PublishIntentContext_init E)
      as (k0 & v & Ef & ->). rewrite Ef. cbn [negb]. unfold modify, lift, enqueue.
    by rewrite (serialize_wire _ _ (put_PublishIntentResponse_wire _)).
  - unfold contains_key in E. by destruct (find (publish_namespaces s) ns) as [[? ?]|].
Qed.

Lemma publishIntentResponse_frame ns r s :
  sorted (publish_namespaces s) -> frame s (publishIntentResponse ns r s).2.
Proof.
  intros Hs. rewrite publishIntentResponse_run. cbn [snd].
  destruct (find (publish_namespaces s) ns) as [[k0 v]|] eqn:Ef; [|reflexivity].
  split; try done; simpl.
  - by apply (map_assign_found _ _ _ k0 v).
  - intros _. by apply sorted_insert_node.
  - by eexists.
Qed.
End api_frame.

(** ** Laws of a delegate

    A delegate whose methods call the public operations and change the
    application's own state satisfies them. *)
Class LawfulDelegate (A : Type) `{ServerDelegate A} : Prop := {
  onPublishIntent_frame ns url b tok e w : sorted (publish_namespaces w.1) ->
    frame w.1 (onPublishIntent ns url b tok e w).2.1;
  onPublishIntentEnd_frame ns tok e w : sorted (publish_namespaces w.1) ->
    frame w.1 (onPublishIntentEnd ns tok e w).2.1;
  onPublisherObject_frame cid sid b d w : sorted (publish_namespaces w.1) ->
    frame w.1 (onPublisherObject cid sid b d w).2.1;
  onSubscribe_frame ns i cid sid int url b tok d w : sorted (publish_namespaces w.1) ->
    frame w.1 (onSubscribe ns i cid sid int url b tok d w).2.1;
  onUnsubscribe_frame ns i tok w : sorted (publish_namespaces w.1) ->
    frame w.1 (onUnsubscribe ns i tok w).2.1;
}.

(** * The subscriptions of a server *)

(** The subscription of a connection to a namespace. *)
Definition subscription (st : list (Namespace * contexts)) (ns : Namespace) (cid : Z)
    : option SubscribeContext :=
  match find st ns with Some (_, ctxs) => at_key ctxs cid | None => None end.

Definition inner_sorted (st : list (Namespace * contexts)) : Prop :=
  forall p, p ∈ st -> sorted p.2.

Section subscriptions.
Implicit Types (st : list (Namespace * contexts)) (ns : Namespace).

Lemma subscription_equiv st a b cid :
  equiv_key a b = true -> subscription st a cid = subscription st b cid.
Proof. intros E. unfold subscription. by rewrite (find_proper st a b E). Qed.

Lemma contexts_sorted st ns : inner_sorted st -> sorted (subscript st ns []).1.
Proof.
  intros Hi. unfold subscript. destruct (find st ns) as [[k0 v]|] eqn:E; [|constructor].
  by apply (Hi (k0, v)), (find_elem st ns).
Qed.

Lemma contexts_subscription st ns cid :
  at_key (subscript st ns []).1 cid = subscription st ns cid.
Proof. unfold subscript, subscription. by destruct (find st ns) as [[? ?]|]. Qed.

Lemma inner_sorted_subscript st ns :
  sorted st -> inner_sorted st -> inner_sorted (subscript st ns []).2.
Proof.
  intros Hs Hi p Hp. destruct (elem_subscript st ns [] p Hs Hp) as [Hp'|[-> _]];
    [by apply Hi|simpl; constructor].
Qed.

Lemma inner_sorted_assign st ns ctxs :
  sorted st -> inner_sorted st -> sorted ctxs -> inner_sorted (assign st ns ctxs).
Proof.
  intros Hs Hi Hc p Hp.
  destruct (elem_assign st ns ctxs p Hs Hp) as [[-> _]|[Hp' _]]; [done|by apply Hi].
Qed.

Lemma inner_sorted_erase st ns :
  inner_sorted st -> inner_sorted (erase st ns).
Proof. intros Hi p Hp. by apply Hi, (erase_sub st ns). Qed.

(** Evaluating [subscribe_state[ns]] subscribes nobody. *)
Lemma subscription_subscript st ns ns' cid :
  sorted st -> subscription (subscript st ns []).2 ns' cid = subscription st ns' cid.
Proof.
  intros Hs. unfold subscription. rewrite find_subscript by done. unfold contains_key.
  destruct (equiv_key ns' ns) eqn:E; [|done].
  rewrite (find_proper st ns' ns E). by destruct (find st ns) as [[? ?]|].
Qed.

(** The contexts of one namespace are replaced. *)
Lemma subscription_assign st ns ctxs ns' cid :
  sorted st ->
  subscription (assign st ns ctxs) ns' cid
  = if equiv_key ns' ns then at_key ctxs cid else subscription st ns' cid.
Proof.
  intros Hs. unfold subscription, assign. rewrite find_insert_node by done.
  destruct (equiv_key ns' ns); [|done]. by destruct (find st ns) as [[? ?]|].
Qed.

Lemma subscription_erase st ns ns' cid :
  sorted st ->
  subscription (erase st ns) ns' cid
  = if equiv_key ns' ns then None else subscription st ns' cid.
Proof. intros Hs. unfold subscription. rewrite find_erase by done. by destruct (equiv_key ns' ns). Qed.
End subscriptions.

(** ** The invariant *)

Record wf (s : t) : Prop := {
  wf_subscribe_state : sorted (subscribe_state s);
  wf_contexts : inner_sorted (subscribe_state s);
  wf_subscribe_id_state : sorted (subscribe_id_state s);
  wf_publish_state : sorted (publish_state s);
  wf_publish_namespaces : sorted (publish_namespaces s);
  wf_counter : 0 <= subscriber_id s < 2 ^ 64;
  (* a context is kept under its connection, with an id given out *)
  wf_subscription ns cid ctx : subscription (subscribe_state s) ns cid = Some ctx ->
    sc_transport_context_id ctx = cid /\ 0 <= sc_subscriber_id ctx < subscriber_id s;
  (* ids tell subscriptions apart *)
  wf_distinct a b i j x y :
    subscription (subscribe_state s) a i = Some x ->
    subscription (subscribe_state s) b j = Some y ->
    sc_subscriber_id x = sc_subscriber_id y -> equiv_key a b = true /\ i = j;
  (* the index by id *)
  wf_ids i ctx : at_key (subscribe_id_state s) i = Some ctx ->
    sc_subscriber_id ctx = i /\ 0 <= i < subscriber_id s;
  wf_agree ns cid ctx ctx' : subscription (subscribe_state s) ns cid = Some ctx ->
    at_key (subscribe_id_state s) (sc_subscriber_id ctx) = Some ctx' -> ctx' = ctx;
}.

(** The part of it that needs no bound on the counter. *)
Record tidy (s : t) : Prop := {
  tidy_subscribe_state : sorted (subscribe_state s);
  tidy_contexts : inner_sorted (subscribe_state s);
  tidy_publish_namespaces : sorted (publish_namespaces s);
}.

Lemma wf_tidy s : wf s -> tidy s.
Proof. intros []. by split. Qed.

Lemma tidy_frame s s' : tidy s -> frame s s' -> tidy s'.
Proof. intros [] [E _ _ _ Hp _ _ _ _]. split; rewrite ?E; auto. Qed.

Lemma server_wf_init : wf init.
Proof. split; try constructor; try done; intros p Hp; by apply not_elem_of_nil in Hp. Qed.

Lemma wf_frame s s' : wf s -> frame s s' -> wf s'.
Proof.
  intros [] [E1 E2 E3 _ Hp _ E7 _ _].
  split; rewrite ?E1, ?E2, ?E3, ?E7; auto.
Qed.

(** ** A new subscription *)

Definition new_context (s : t) (cid sid : Z) : SubscribeContext :=
  mkSubscribeContext Unknown cid sid 0 (subscriber_id s).

(** The state with one more subscription. *)
Definition subscribed (s : t) (ns : Namespace) (cid sid : Z) : t :=
  with_subscribe_id_state
    (assign (subscribe_id_state s) (subscriber_id s) (new_context s cid sid))
    (with_subscribe_state
       (assign (subscript (subscribe_state s) ns []).2 ns
          (assign (subscript (subscribe_state s) ns []).1 cid (new_context s cid sid)))
       (with_subscriber_id (wrap 64 (subscriber_id s + 1)) s)).

Lemma subscribed_subscription s ns cid sid ns' cid' :
  wf s ->
  subscription (subscribe_state (subscribed s ns cid sid)) ns' cid'
  = if (equiv_key ns' ns && bool_decide (cid' = cid))%bool
    then Some (new_context s cid sid) else subscription (subscribe_state s) ns' cid'.
Proof.
  intros []. simpl. rewrite subscription_assign by (by apply sorted_subscript).
  destruct (equiv_key ns' ns) eqn:E; simpl.
  - unfold assign at 1. rewrite at_key_insert by (by apply contexts_sorted).
    destruct (decide (cid' = cid)) as [->|Hne].
    + by rewrite bool_decide_true.
    + rewrite bool_decide_false by done. rewrite contexts_subscription.
      symmetry. by apply subscription_equiv.
  - by apply subscription_subscript.
Qed.

Lemma subscribed_wf s ns cid sid :
  wf s -> subscriber_id s + 1 < 2 ^ 64 ->
  subscription (subscribe_state s) ns cid = None -> wf (subscribed s ns cid sid).
Proof.
  intros Hw Hc Hnew. pose proof (subscribed_subscription s ns cid sid) as Hsub.
  pose proof Hw as [? ? ? ? ? ? Hcx Hdist Hids Hagree].
  assert (subscriber_id (subscribed s ns cid sid) = subscriber_id s + 1) as Hid.
  { simpl. rewrite wrap_small by (unfold in_u; lia). done. }
  assert (forall i, at_key (subscribe_id_state (subscribed s ns cid sid)) i
    = if decide (i = subscriber_id s) then Some (new_context s cid sid)
      else at_key (subscribe_id_state s) i) as Hat.
  { intros i. simpl. unfold assign. by rewrite at_key_insert. }
  split.
  - simpl. apply sorted_insert_node. by apply sorted_subscript.
  - simpl. apply inner_sorted_assign; [by apply sorted_subscript|by apply inner_sorted_subscript|].
    apply sorted_insert_node. by apply contexts_sorted.
  - simpl. by apply sorted_insert_node.
  - done.
  - done.
  - rewrite Hid. lia.
  - intros ns' cid' ctx. rewrite Hsub, Hid by done.
    destruct (equiv_key ns' ns && bool_decide (cid' = cid))%bool eqn:E.
    + apply andb_true_iff in E as [_ ->%bool_decide_eq_true]. intros. simplify_eq. simpl. lia.
    + intros Hx. apply Hcx in Hx. lia.
  - intros a b i j x y. rewrite !Hsub by done.
    destruct (equiv_key a ns && bool_decide (i = cid))%bool eqn:Ea,
      (equiv_key b ns && bool_decide (j = cid))%bool eqn:Eb; intros Hx Hy Hxy; simplify_eq.
    + apply andb_true_iff in Ea as [Ea ->%bool_decide_eq_true].
      apply andb_true_iff in Eb as [Eb ->%bool_decide_eq_true].
      split; [|done]. by rewrite (equiv_key_l a ns b Ea), equiv_key_sym.
    + apply Hcx in Hy. simpl in Hxy. lia.
    + apply Hcx in Hx. simpl in Hxy. lia.
    + by apply (Hdist a b i j x y).
  - intros i ctx. rewrite Hat, Hid. case_decide.
    + intros. simplify_eq. simpl. lia.
    + intros Hi. apply Hids in Hi. lia.
  - intros ns' cid' ctx ctx'. rewrite Hsub, Hat by done.
    destruct (equiv_key ns' ns && bool_decide (cid' = cid))%bool.
    + intros ? Hx. simplify_eq. simpl in Hx. rewrite decide_True in Hx by done. by simplify_eq.
    + intros Hx. pose proof (Hcx _ _ _ Hx) as [_ ?]. rewrite decide_False by lia. by apply (Hagree ns' cid').
Qed.

(** ** The end of subscriptions *)

(** The updates of [handle_unsubscribe], after the callback. *)
Definition unsubscribed (s : t) (ns : Namespace) (cid : Z) : t :=
  let '(ctxs, st) := subscript (subscribe_state s) ns [] in
  let context := (subscript ctxs cid SubscribeContext_init).1 in
  let ids := erase (subscribe_id_state s) (sc_subscriber_id context) in
  let ctxs' := erase ctxs cid in
  let st' := assign st ns ctxs' in
  with_subscribe_id_state ids
    (with_subscribe_state (if 0 <? Z.of_nat (length ctxs') then erase st' ns else st') s).

(** Whichever branch is taken, nobody is subscribed to the namespace after. *)
Lemma unsubscribed_subscription s ns cid ns' cid' :
  wf s ->
  subscription (subscribe_state (unsubscribed s ns cid)) ns' cid'
  = if equiv_key ns' ns then None else subscription (subscribe_state s) ns' cid'.
Proof.
  intros []. unfold unsubscribed.
  pose proof (subscription_subscript (subscribe_state s) ns ns' cid' wf_subscribe_state0) as Hsub.
  pose proof (sorted_subscript (subscribe_state s) ns [] wf_subscribe_state0) as Hs.
  destruct (subscript (subscribe_state s) ns []) as [ctxs st]. simpl in *.
  destruct (Z.ltb_spec 0 (Z.of_nat (length (erase ctxs cid)))).
  - rewrite subscription_erase by (by apply sorted_insert_node).
    destruct (equiv_key ns' ns) eqn:E; [done|].
    rewrite subscription_assign by done. by rewrite E.
  - rewrite subscription_assign by done.
    destruct (equiv_key ns' ns); [|done].
    by rewrite (nil_length_inv (erase ctxs cid)) by lia.
Qed.

Lemma unsubscribed_wf s ns cid : wf s -> wf (unsubscribed s ns cid).
Proof.
  intros Hw. pose proof (unsubscribed_subscription s ns cid) as Hsub.
  pose proof Hw as [Hst Hin Hid ? ? ? Hcx Hdist Hids Hagree].
  assert (subscriber_id (unsubscribed s ns cid) = subscriber_id s /\
    publish_state (unsubscribed s ns cid) = publish_state s /\
    publish_namespaces (unsubscribed s ns cid) = publish_namespaces s /\
    sorted (subscribe_state (unsubscribed s ns cid)) /\
    inner_sorted (subscribe_state (unsubscribed s ns cid)) /\
    (exists i, subscribe_id_state (unsubscribed s ns cid) = erase (subscribe_id_state s) i))
    as (Ec & Ep & En & Hs' & Hi' & i0 & Ei).
  { unfold unsubscribed.
    pose proof (sorted_subscript (subscribe_state s) ns [] Hst) as Hs.
    pose proof (inner_sorted_subscript (subscribe_state s) ns Hst Hin) as Hi.
    pose proof (contexts_sorted (subscribe_state s) ns Hin) as Hc.
    destruct (subscript (subscribe_state s) ns []) as [ctxs st]. simpl in *.
    assert (sorted (assign st ns (erase ctxs cid))) by (by apply sorted_insert_node).
    assert (inner_sorted (assign st ns (erase ctxs cid))).
    { apply inner_sorted_assign; [done..|]. by apply sorted_erase. }
    split_and!; try done; [case_match; [by apply sorted_erase|done]
      |case_match; [by apply inner_sorted_erase|done]|by eexists]. }
  split; rewrite ?Ec, ?Ep, ?En, ?Ei; try done.
  - by apply sorted_erase.
  - intros ns' cid' ctx. rewrite Hsub by done. destruct (equiv_key ns' ns); [done|]. apply Hcx.
  - intros a b i j x y. rewrite !Hsub by done.
    destruct (equiv_key a ns); [done|]. destruct (equiv_key b ns); [done|]. apply Hdist.
  - intros i ctx. rewrite at_key_erase by done. case_decide; [done|]. apply Hids.
  - intros ns' cid' ctx ctx'. rewrite Hsub by done. destruct (equiv_key ns' ns); [done|].
    rewrite at_key_erase by done. case_decide; [done|]. apply Hagree.
Qed.

Lemma unsubscribed_ids s ns cid ctx :
  subscription (subscribe_state s) ns cid = Some ctx ->
  subscribe_id_state (unsubscribed s ns cid)
  = erase (subscribe_id_state s) (sc_subscriber_id ctx).
Proof.
  intros Hsub. rewrite <- contexts_subscription in Hsub. unfold unsubscribed.
  destruct (subscript (subscribe_state s) ns []) as [ctxs st]. simpl in *.
  by rewrite (at_key_found ctxs cid ctx).
Qed.

(** Evaluating [subscribe_state[ns]] changes nothing when it is there. *)
Lemma subscribed_unchanged s ns cid ctx :
  subscription (subscribe_state s) ns cid = Some ctx ->
  with_subscribe_state (subscript (subscribe_state s) ns []).2 s = s.
Proof.
  unfold subscription, subscript. destruct (find (subscribe_state s) ns) as [[k0 v]|]; [|done].
  by destruct s.
Qed.

Lemma erase_id_wf s i :
  wf s -> wf (with_subscribe_id_state (erase (subscribe_id_state s) i) s).
Proof.
  intros []. split; simpl; auto.
  - by apply sorted_erase.
  - intros j ctx. rewrite at_key_erase by done. case_decide; [done|auto].
  - intros ns' cid' ctx ctx' Hx. rewrite at_key_erase by done. case_decide; [done|eauto].
Qed.

Lemma subscript_state_wf s ns :
  wf s -> wf (with_subscribe_state (subscript (subscribe_state s) ns []).2 s).
Proof.
  intros []. split; simpl; auto.
  - by apply sorted_subscript.
  - by apply inner_sorted_subscript.
  - intros ns' cid' ctx. rewrite subscription_subscript by done. eauto.
  - intros a b i j x y. rewrite !subscription_subscript by done. eauto.
  - intros ns' cid' ctx ctx'. rewrite subscription_subscript by done. eauto.
Qed.

(** ** The life of subscriber ids *)

(** Ids are only ever given out, and an id below the counter is never given
    another context. *)
Record evolves (s s' : t) : Prop := {
  evolves_counter : subscriber_id s <= subscriber_id s';
  evolves_ids i ctx : i < subscriber_id s ->
    at_key (subscribe_id_state s') i = Some ctx -> at_key (subscribe_id_state s) i = Some ctx;
}.

#[export] Instance evolves_preorder : PreOrder evolves.
Proof.
  split; [intros s; split; [lia|auto]|].
  intros s1 s2 s3 [H1 H2] [H3 H4]. split; [lia|]. intros i ctx Hi Hx.
  apply H2; [done|]. apply H4; [lia|done].
Qed.

Lemma evolves_frame s s' : frame s s' -> evolves s s'.
Proof. intros [_ E _ _ _ _ Ec _ _]. split; [lia|]. intros i ctx _. by rewrite E. Qed.

Lemma evolves_subscribed s ns cid sid :
  wf s -> subscriber_id s + 1 < 2 ^ 64 -> evolves s (subscribed s ns cid sid).
Proof.
  intros [] Hc. split.
  - simpl. rewrite wrap_small by (unfold in_u; lia). lia.
  - intros i ctx Hi. simpl. unfold assign at 1. rewrite at_key_insert by done.
    by rewrite decide_False by lia.
Qed.

Lemma evolves_erased s i s' :
  wf s -> subscriber_id s' = subscriber_id s ->
  subscribe_id_state s' = erase (subscribe_id_state s) i -> evolves s s'.
Proof.
  intros [] Ec Ei. split; [lia|]. intros j ctx Hj. rewrite Ei, at_key_erase by done.
  by case_decide.
Qed.

Lemma evolves_unsubscribed s ns cid : wf s -> evolves s (unsubscribed s ns cid).
Proof.
  intros Hw. unfold unsubscribed. destruct (subscript (subscribe_state s) ns []) as [ctxs st].
  by eapply evolves_erased.
Qed.

(** ** What the handlers do *)

Section handlers_run.
Context {T : Target} {A : Type} {D : ServerDelegate A}.
Implicit Types (s : t) (a : A).

Lemma handle_subscribe_tidy cid sid msg s a m :
  tidy s -> (get_Subscribe uninit_Subscribe msg).1 = Ret m ->
  handle_subscribe cid sid msg (s, a)
  = match subscription (subscribe_state s) (sub_namespace m) cid with
    | Some ctx =>
        onSubscribe (sub_namespace m) (sc_subscriber_id ctx) cid sid (sub_intent m)
          [] false [] [] (s, a)
    | None =>
        onSubscribe (sub_namespace m) (subscriber_id s) cid sid (sub_intent m)
          [] false [] [] (subscribed s (sub_namespace m) cid sid, a)
    end.
Proof.
  intros [wf_subscribe_state0 wf_contexts0 _] Hm. unfold handle_subscribe. set (ns := sub_namespace m).
  rewrite (run_bind_ret _ _ _ (s, a) m) by (unfold on_local; by rewrite Hm). fold ns.
  cbv [mbind M_bind on_server modify]. cbn [fst snd].
  pose proof (contexts_subscription (subscribe_state s) ns cid) as Hcs.
  pose proof (contexts_sorted (subscribe_state s) ns wf_contexts0) as Hcsort.
  pose proof (sorted_subscript (subscribe_state s) ns [] wf_subscribe_state0) as Hssort.
  pose proof (find_subscript_same (subscribe_state s) ns [] wf_subscribe_state0) as Hfs.
  unfold subscribed. 
  destruct (subscript (subscribe_state s) ns []) as [ctxs st] eqn:Esub. cbn [fst snd] in *.
  rewrite contains_at_key, Hcs.
  destruct (subscription (subscribe_state s) ns cid) as [ctx|] eqn:Ectx.
  - rewrite bool_decide_true by eauto. cbn [subscribe_state with_subscribe_state].
    assert (st = subscribe_state s /\ exists k0, find (subscribe_state s) ns = Some (k0, ctxs))
      as [-> [k0 Ef]].
    { unfold subscript in Esub. unfold subscription in Ectx.
      destruct (find (subscribe_state s) ns) as [[k0 v]|]; [|done]. simplify_eq. by eauto. }
    rewrite Esub. rewrite (at_key_found ctxs cid ctx) by done.
    unfold assign. rewrite (insert_node_id _ _ _ k0) by done.
    by destruct s.
  - rewrite bool_decide_false by (by intros []). cbn.
    set (ctx := mkSubscribeContext Unknown cid sid 0 (subscriber_id s)).
    set (s' := assign st ns (assign ctxs cid ctx)).
    assert (sorted s') as Hs' by (by apply sorted_insert_node).
    assert (exists k0, find s' ns = Some (k0, assign ctxs cid ctx)) as [k0 Ef].
    { unfold s', assign. rewrite find_insert_node_same by done.
      destruct (find st ns) as [[k0 v]|]; by eauto. }
    rewrite (subscript_found s' ns [] k0 _ Ef).
    assert (at_key (assign ctxs cid ctx) cid = Some ctx) as Ea.
    { unfold assign. rewrite at_key_insert by done. by rewrite decide_True. }
    rewrite (at_key_found _ _ _ _ Ea). unfold assign at 1.
    rewrite (insert_node_id _ _ _ k0) by done. done.
Qed.

Lemma handle_unsubscribe_tidy cid sid msg s a m :
  tidy s -> (get_Unsubscribe uninit_Unsubscribe msg).1 = Ret m ->
  let ns := unsub_namespace m in
  let s1 := with_subscribe_state (subscript (subscribe_state s) ns []).2 s in
  handle_unsubscribe cid sid msg (s, a)
  = match subscription (subscribe_state s) ns cid with
    | Some ctx =>
        (onUnsubscribe ns (sc_subscriber_id ctx) [];;
         on_server (modify (fun s => unsubscribed s ns cid))) (s1, a)
    | None => (Ret tt, (s1, a))
    end.
Proof.
  intros [wf_subscribe_state0 wf_contexts0 _] Hm ns s1. unfold handle_unsubscribe, s1.
  rewrite (run_bind_ret _ _ _ (s, a) m) by (unfold on_local; by rewrite Hm). fold ns.
  pose proof (contexts_subscription (subscribe_state s) ns cid) as Hcs.
  unfold mbind at 1, M_bind at 1. unfold on_server at 1. cbn [fst snd].
  destruct (subscript (subscribe_state s) ns []) as [ctxs st] eqn:Esub. cbn [fst snd] in *.
  rewrite contains_at_key, Hcs.
  destruct (subscription (subscribe_state s) ns cid) as [ctx|] eqn:Ectx.
  - rewrite bool_decide_true by eauto. cbn [negb].
    by rewrite (at_key_found ctxs cid ctx) by done.
  - by rewrite bool_decide_false by (by intros []).
Qed.

(** The subscriptions of a connection, in the order of the map. *)
Definition targets (st : list (Namespace * contexts)) (cid : Z)
    : list (Namespace * SubscribeContext) :=
  omap (fun p => (fun ctx => (p.1, ctx)) <$> at_key p.2 cid) st.

(** What the end of a connection does for one of its subscriptions. *)
Definition drop_subscription (p : Namespace * SubscribeContext) : M (world A) unit :=
  onUnsubscribe p.1 (sc_subscriber_id p.2) [];;
  on_server (modify (fun s => with_subscribe_id_state
    (erase (subscribe_id_state s) (sc_subscriber_id p.2)) s)).

Lemma drop_subscription_run p w :
  drop_subscription p w
  = match onUnsubscribe p.1 (sc_subscriber_id p.2) [] w with
    | (Ret _, w1) =>
        (Ret tt, (with_subscribe_id_state
           (erase (subscribe_id_state w1.1) (sc_subscriber_id p.2)) w1.1, w1.2))
    | (Throw e, w1) => (Throw e, w1)
    | (Undefined, w1) => (Undefined, w1)
    end.
Proof.
  unfold drop_subscription, mbind, M_bind.
  by destruct (onUnsubscribe p.1 (sc_subscriber_id p.2) [] w) as [[[]|e|] w1].
Qed.

Section lawful.
Context {L : LawfulDelegate A}.

Lemma drop_subscription_state p w :
  wf w.1 -> subscribe_state (drop_subscription p w).2.1 = subscribe_state w.1 /\
  wf (drop_subscription p w).2.1 /\ evolves w.1 (drop_subscription p w).2.1.
Proof.
  intros Hw. rewrite drop_subscription_run.
  pose proof (onUnsubscribe_frame p.1 (sc_subscriber_id p.2) [] w
    (wf_publish_namespaces _ Hw)) as Hf.
  destruct (onUnsubscribe p.1 (sc_subscriber_id p.2) [] w) as [[[]|e|] [s1 a1]];
    simpl in *; pose proof (wf_frame _ _ Hw Hf) as Hw1; pose proof Hf as [E _ _ _ _ _ _ _ _].
  - split; [done|]. split; [by apply erase_id_wf|].
    transitivity s1; [by apply evolves_frame|]. by eapply evolves_erased.
  - split; [done|]. split; [done|]. by apply evolves_frame.
  - split; [done|]. split; [done|]. by apply evolves_frame.
Qed.

Lemma drop_subscription_tidy p w :
  tidy w.1 -> subscribe_state (drop_subscription p w).2.1 = subscribe_state w.1 /\
  tidy (drop_subscription p w).2.1.
Proof.
  intros Hw. rewrite drop_subscription_run.
  pose proof (onUnsubscribe_frame p.1 (sc_subscriber_id p.2) [] w
    (tidy_publish_namespaces _ Hw)) as Hf.
  destruct (onUnsubscribe p.1 (sc_subscriber_id p.2) [] w) as [[[]|e|] [s1 a1]];
    simpl in *; (split; [apply Hf|]); apply (tidy_frame _ _ Hw) in Hf as []; by split.
Qed.

(** The loop over the map is a loop over the connection's subscriptions. *)
Lemma disconnect_loop_run l cid w :
  tidy w.1 -> (forall p, p ∈ l -> p ∈ subscribe_state w.1) ->
  disconnect_loop (map fst l) cid [] w = mfor (targets l cid) drop_subscription w.
Proof.
  revert w. induction l as [|[ns ctxs] l IH]; intros w Hw Hl; [done|].
  pose proof (Hl (ns, ctxs) ltac:(by left)) as Hin.
  assert (forall w' : world A, subscribe_state w'.1 = subscribe_state w.1 ->
    contains_key (subscribe_state w'.1) ns = true) as Hhere.
  { intros w' ->. unfold contains_key. by rewrite (find_in _ ns ctxs) by (done || apply Hw). }
  assert (forall w' : world A, tidy w'.1 -> subscribe_state w'.1 = subscribe_state w.1 ->
    disconnect_loop (map fst l) cid [] w' = mfor (targets l cid) drop_subscription w') as IH'.
  { intros w' Hw' E. apply IH; [done|]. intros p Hp. rewrite E. apply Hl. by right. }
  cbn [map fst disconnect_loop].
  assert (default [] (at_key (subscribe_state w.1) ns) = ctxs) as Ec.
  { unfold at_key. by rewrite (find_in _ ns ctxs) by (done || apply Hw). }
  rewrite (run_bind_ret _ _ w w ctxs) by (unfold gets; by rewrite Ec).
  unfold targets. cbn [omap list_omap]. cbn [fst snd].
  rewrite contains_at_key. destruct (at_key ctxs cid) as [ctx|] eqn:Ectx.
  - rewrite bool_decide_true by eauto. rewrite (at_key_found ctxs cid ctx) by done.
    cbn [fst fmap option_fmap option_map mfor].
    pose proof (drop_subscription_tidy (ns, ctx) w Hw) as (Ed & Hwd).
    cbv [mbind M_bind] in *. rewrite drop_subscription_run in *. cbn [fst snd] in *.
    destruct (onUnsubscribe ns (sc_subscriber_id ctx) [] w) as [[[]|e|] w1]; [|done..].
    unfold on_server, modify in *. cbn [fst snd] in *.
    assert ((Z.of_nat (length ctxs) =? 0) = false) as ->.
    { apply Z.eqb_neq. destruct ctxs; [done|]. simpl. lia. }
    cbv [mret M_ret gets mfor]. cbn [fst snd].
    match goal with |- context [contains_key (subscribe_state ?x) ns] =>
      pose proof (Hhere (x, w1.2) Ed) as Hh end.
    cbn [fst] in Hh. rewrite Hh. by apply IH'.
  - rewrite bool_decide_false by (by intros []). cbn [fmap option_fmap option_map].
    cbv [mbind M_bind mret M_ret gets mfor]. rewrite Hhere by done. by apply IH'.
Qed.

Lemma drop_subscriptions_state l w :
  wf w.1 -> subscribe_state (mfor l drop_subscription w).2.1 = subscribe_state w.1 /\
  wf (mfor l drop_subscription w).2.1 /\ evolves w.1 (mfor l drop_subscription w).2.1.
Proof.
  revert w. induction l as [|p l IH]; intros w Hw; [done|]. cbn [mfor].
  pose proof (drop_subscription_state p w Hw) as (E & Hw1 & Hv).
  unfold mbind, M_bind. destruct (drop_subscription p w) as [[[]|e|] w1]; [|done..].
  cbn [fst snd] in *. destruct (IH w1 Hw1) as (E' & Hw' & Hv').
  rewrite E', E. split_and!; [done|done|by transitivity w1.1].
Qed.

(** ** Every handler keeps the invariant *)

(** [n] bounds the subscriptions made on the way. *)
Record progress (n : Z) (w w' : world A) : Prop := {
  progress_wf : wf w'.1;
  progress_evolves : evolves w.1 w'.1;
  progress_counter : subscriber_id w'.1 <= subscriber_id w.1 + n;
  progress_rx : rx w'.1 = rx w.1;
}.

Lemma progress_refl n w : wf w.1 -> 0 <= n -> progress n w w.
Proof. intros Hw Hn. split; [done|done|lia|done]. Qed.

Lemma progress_trans n m k w1 w2 w3 :
  progress n w1 w2 -> progress m w2 w3 -> n + m <= k -> progress k w1 w3.
Proof.
  intros [_ E1 C1 R1] [Hw E2 C2 R2] ?.
  split; [done|by transitivity w2.1|lia|congruence].
Qed.

Lemma progress_frame n w w' : wf w.1 -> 0 <= n -> frame w.1 w'.1 -> progress n w w'.
Proof.
  intros Hw Hn Hf. split; [by eapply wf_frame|by apply evolves_frame|..].
  - rewrite (frame_subscriber_id _ _ Hf). lia.
  - apply Hf.
Qed.

Lemma progress_same w w' :
  wf w'.1 -> subscriber_id w'.1 = subscriber_id w.1 ->
  subscribe_id_state w'.1 = subscribe_id_state w.1 -> rx w'.1 = rx w.1 ->
  progress 0 w w'.
Proof.
  intros Hw Ec Ei Er. split; [done| |lia|done]. split; [lia|]. intros i ctx _. by rewrite Ei.
Qed.

(** Reading the message changes nothing when it fails. *)
Lemma progress_read {X B} (b : X) (m : M X B) (f : B -> M (world A) unit) n w :
  wf w.1 -> 0 <= n -> (forall x, (m b).1 = Ret x -> progress n w (f x w).2) ->
  progress n w ((on_local b m ≫= f) w).2.
Proof.
  intros Hw Hn Hf. unfold mbind, M_bind, on_local.
  destruct (m b).1 as [x|e|]; [by apply Hf|by apply progress_refl..].
Qed.

Lemma handle_subscribe_progress cid sid msg w :
  wf w.1 -> subscriber_id w.1 + 1 < 2 ^ 64 ->
  progress 1 w (handle_subscribe cid sid msg w).2.
Proof.
  intros Hw Hc. destruct w as [s a]. cbn [fst] in *.
  destruct (get_Subscribe uninit_Subscribe msg).1 as [m|e|] eqn:Em.
  2-3: unfold handle_subscribe, mbind, M_bind, on_local; rewrite Em;
    apply progress_refl; [done|lia].
  rewrite (handle_subscribe_tidy cid sid msg s a m) by (done || by apply wf_tidy).
  destruct (subscription (subscribe_state s) (sub_namespace m) cid) as [ctx|] eqn:Es.
  { apply progress_frame; [done|lia|]. apply onSubscribe_frame, wf_publish_namespaces, Hw. }
  assert (wf (subscribed s (sub_namespace m) cid sid)) as Hw' by (by apply subscribed_wf).
  apply (progress_trans 1 0 1 _ (subscribed s (sub_namespace m) cid sid, a)); [| |lia].
  - split; cbn [fst]; [done|by apply evolves_subscribed| |done]. simpl.
    rewrite wrap_small by (unfold in_u; destruct (wf_counter _ Hw); lia). lia.
  - apply progress_frame; [done|lia|]. apply onSubscribe_frame, wf_publish_namespaces, Hw'.
Qed.

Lemma progress_unsubscribed s a ns cid :
  wf s -> progress 0 (s, a) (unsubscribed s ns cid, a).
Proof.
  intros Hw. split; cbn [fst]; [by apply unsubscribed_wf|by apply evolves_unsubscribed|..];
    unfold unsubscribed; destruct (subscript (subscribe_state s) ns []); simpl; [lia|done].
Qed.

Lemma handle_unsubscribe_progress cid sid msg w :
  wf w.1 -> progress 0 w (handle_unsubscribe cid sid msg w).2.
Proof.
  intros Hw. destruct w as [s a]. cbn [fst] in *.
  destruct (get_Unsubscribe uninit_Unsubscribe msg).1 as [m|e|] eqn:Em.
  2-3: unfold handle_unsubscribe, mbind, M_bind, on_local; rewrite Em;
    apply progress_refl; [done|lia].
  rewrite (handle_unsubscribe_tidy cid sid msg s a m) by (done || by apply wf_tidy).
  set (s1 := with_subscribe_state _ s).
  assert (wf s1) as Hw1 by (by apply subscript_state_wf).
  assert (progress 0 (s, a) (s1, a)) as H1 by (by apply progress_same).
  destruct (subscription _ _ _) as [ctx|]; [|done].
  apply (progress_trans 0 0 0 _ (s1, a)); [done| |lia].
  pose proof (onUnsubscribe_frame (unsub_namespace m) (sc_subscriber_id ctx) [] (s1, a)
    (wf_publish_namespaces _ Hw1)) as Hf.
  unfold mbind, M_bind.
  destruct (onUnsubscribe _ _ _ (s1, a)) as [[[]|e|] [s2 a2]]; cbn [fst snd] in *;
    (apply (progress_frame 0 (s1, a) (s2, a2)) in Hf as H2; [|done..]); [|done..].
  eapply progress_trans; [exact H2|apply progress_unsubscribed, H2|lia].
Qed.

(** The two maps of publishers may change freely. *)
Lemma progress_publish_state s a ps :
  wf s -> sorted ps -> progress 0 (s, a) (with_publish_state ps s, a).
Proof. intros [] Hp. apply progress_same; [by split|done..]. Qed.
Lemma progress_publish_namespaces s a pns :
  wf s -> sorted pns -> progress 0 (s, a) (with_publish_namespaces pns s, a).
Proof. intros [] Hp. apply progress_same; [by split|done..]. Qed.

Lemma handle_publish_progress cid sid msg w :
  wf w.1 -> progress 0 w (handle_publish cid sid msg w).2.
Proof.
  intros Hw. destruct w as [s a]. cbn [fst] in *.
  apply progress_read; [done|lia|]. intros d _. cbv [mbind M_bind gets lift]. cbn [fst snd id].
  destruct (find_publish_namespace (publish_namespaces s) (name (header d)))
    as [[p|]|e|]; [|by apply progress_refl..].
  unfold on_server. cbn [fst snd].
  pose proof (wf_publish_namespaces _ Hw). pose proof (wf_publish_state _ Hw) as Hps.
  set (n := name (header d)).
  pose proof (sorted_subscript (publish_state s) n PublishContext_init Hps) as Hss.
  assert (forall ps pc, sorted ps ->
    progress 0 (s, a) (onPublisherObject (pc_transport_context_id pc)
      (pc_transport_stream_id pc) false d (with_publish_state ps s, a)).2) as Hcall.
  { intros ps pc Hs. pose proof (progress_publish_state s a ps Hw Hs) as H1.
    apply (progress_trans 0 0 0 _ _ _ H1); [|done].
    apply progress_frame; [by apply H1|lia|]. by apply onPublisherObject_frame. }
  destruct (contains_key (publish_state s) n); cbn [negb].
  - destruct (subscript (publish_state s) n PublishContext_init) as [pc ps]. by apply Hcall.
  - apply Hcall. by apply sorted_insert_node.
Qed.

Lemma handle_publish_intent_progress cid sid msg w :
  wf w.1 -> progress 0 w (handle_publish_intent cid sid msg w).2.
Proof.
  intros Hw. destruct w as [s a]. cbn [fst] in *.
  apply progress_read; [done|lia|]. intros d _.
  cbv [mbind M_bind on_server modify]. cbn [fst snd].
  set (s1 := if negb _ then _ else s).
  assert (progress 0 (s, a) (s1, a)) as H1.
  { unfold s1. destruct (negb _); [|by apply progress_refl].
    apply progress_publish_namespaces; [done|].
    apply sorted_insert_node, wf_publish_namespaces, Hw. }
  apply (progress_trans 0 0 0 _ _ _ H1); [|done].
  apply progress_frame; [apply H1|lia|]. apply onPublishIntent_frame.
  apply wf_publish_namespaces, H1.
Qed.

Lemma handle_publish_intent_end_progress cid sid msg w :
  wf w.1 -> progress 0 w (handle_publish_intent_end cid sid msg w).2.
Proof.
  intros Hw. destruct w as [s a]. cbn [fst] in *.
  apply progress_read; [done|lia|]. intros d _.
  cbv [mbind M_bind on_server modify gets lift]. cbn [fst snd id].
  destruct (negb _); [by apply progress_refl|]. cbn [fst snd].
  set (pns := erase (publish_namespaces s) _).
  assert (progress 0 (s, a) (with_publish_namespaces pns s, a)) as H1.
  { apply progress_publish_namespaces; [done|]. apply sorted_erase, wf_publish_namespaces, Hw. }
  destruct (erase_contained _ (publish_state s)) as [ps|e|] eqn:E; [|done..]. cbn [fst snd].
  apply (progress_trans 0 0 0 _ _ _ H1); [|done].
  assert (sorted ps) as Hps by (apply sorted_erase_contained in E; [done|apply Hw]).
  pose proof (progress_publish_state _ a ps (progress_wf _ _ _ H1) Hps) as H2.
  apply (progress_trans 0 0 0 _ _ _ H2); [|done].
  apply progress_frame; [apply H2|lia|]. apply onPublishIntentEnd_frame.
  apply wf_publish_namespaces, H2.
Qed.

(** The end of a connection ends its subscriptions one by one. *)
Lemma on_connection_status_run {Tr : ITransport} cid st w :
  tidy w.1 ->
  on_connection_status cid st w
  = if decide (st = Disconnected)
    then mfor (targets (subscribe_state w.1) cid) drop_subscription w else (Ret tt, w).
Proof.
  intros Hw. unfold on_connection_status. case_decide; [|done].
  rewrite (run_bind_ret _ _ w w (map fst (subscribe_state w.1))) by done.
  by apply disconnect_loop_run.
Qed.

Lemma drop_subscriptions_counters l w :
  wf w.1 -> subscriber_id (mfor l drop_subscription w).2.1 = subscriber_id w.1 /\
  rx (mfor l drop_subscription w).2.1 = rx w.1.
Proof.
  revert w. induction l as [|p l IH]; intros w Hw; [done|]. cbn [mfor].
  pose proof (drop_subscription_state p w Hw) as (_ & Hw1 & _).
  pose proof (onUnsubscribe_frame p.1 (sc_subscriber_id p.2) [] w
    (wf_publish_namespaces _ Hw)) as Hf.
  unfold mbind, M_bind. rewrite drop_subscription_run in *.
  destruct (onUnsubscribe _ _ _ w) as [[[]|e|] w1]; cbn [fst snd] in *;
    apply frame_rx in Hf as Hr; apply frame_subscriber_id in Hf; [|done..].
  match goal with |- context [mfor l drop_subscription ?w'] =>
    destruct (IH w' Hw1) as [-> ->] end. done.
Qed.

Lemma on_connection_status_progress {Tr : ITransport} cid st w :
  wf w.1 -> progress 0 w (on_connection_status cid st w).2.
Proof.
  intros Hw. rewrite on_connection_status_run by by apply wf_tidy.
  case_decide; [|by apply progress_refl].
  pose proof (drop_subscriptions_state (targets (subscribe_state w.1) cid) w Hw)
    as (_ & Hw' & He).
  destruct (drop_subscriptions_counters (targets (subscribe_state w.1) cid) w Hw) as [Ec Er].
  split; [done|done|lia|done].
Qed.

Lemma dispatch_progress cid sid data w :
  wf w.1 -> subscriber_id w.1 + 1 < 2 ^ 64 -> progress 1 w (dispatch cid sid data w).2.
Proof.
  intros Hw Hc. assert (forall w', progress 0 w w' -> progress 1 w w') as Hweak.
  { intros w' [? ? ?]. split; [done|done|lia|done]. }
  destruct data as [|x data]; [by apply progress_refl|]. unfold dispatch.
  destruct (enum_of_u8 x : MessageType.t); try (by apply progress_refl).
  - by apply handle_subscribe_progress.
  - apply Hweak. by apply handle_unsubscribe_progress.
  - apply Hweak. by apply handle_publish_progress.
  - apply Hweak. by apply handle_publish_intent_progress.
  - apply Hweak. by apply handle_publish_intent_end_progress.
Qed.

(** What is left in the transport after [n] calls of [dequeue]. *)
Fixpoint unread (n : nat) (cid sid : Z) (q : list (Z * Z * bytes)) : list (Z * Z * bytes) :=
  match n with
  | O => q
  | S n' =>
      match dequeue_from cid sid q with
      | Some (_, q') => unread n' cid sid q'
      | None => q
      end
  end.

(** The messages may be anything: their exceptions are caught. *)
Lemma on_recv_notify_loop_step n cid sid s a :
  on_recv_notify_loop (S n) cid sid (s, a)
  = match dequeue_from cid sid (rx s) with
    | Some (data, q) =>
        (try_catch (dispatch cid sid data) (fun _ => Some (mret tt));;
         on_recv_notify_loop n cid sid) (with_rx q s, a)
    | None => (Ret tt, (s, a))
    end.
Proof.
  cbn [on_recv_notify_loop]. unfold mbind at 1, M_bind at 1. unfold on_server, dequeue.
  cbn [fst snd]. by destruct (dequeue_from cid sid (rx s)) as [[data q]|].
Qed.

Lemma on_recv_notify_loop_run n cid sid w :
  wf w.1 -> subscriber_id w.1 + Z.of_nat n < 2 ^ 64 ->
  let r := on_recv_notify_loop n cid sid w in
  (r.1 = Undefined \/ r.1 = Ret tt /\ rx r.2.1 = unread n cid sid (rx w.1)) /\
  wf r.2.1 /\ evolves w.1 r.2.1.
Proof.
  revert w. induction n as [|n IH]; intros w Hw Hc r; [by split; [right|]|].
  destruct w as [s a]. subst r. cbn [unread fst snd] in *.
  rewrite on_recv_notify_loop_step.
  destruct (dequeue_from cid sid (rx s)) as [[data q]|]; [|by split; [right|]].
  assert (wf (with_rx q s)) as Hw1 by (destruct Hw; by split).
  assert (evolves s (with_rx q s)) as He1 by (split; [simpl; lia|auto]).
  pose proof (dispatch_progress cid sid data (with_rx q s, a) Hw1) as H2.
  unfold mbind, M_bind, try_catch.
  destruct (dispatch cid sid data (with_rx q s, a)) as [[[]|e|] w2]; cbn [fst snd mret M_ret] in *;
    (destruct H2 as [Hw2 He2 Hc2 Hr2]; [cbn; lia|]; cbn in Hc2, Hr2).
  1-2: destruct (IH w2) as (Hr3 & Hw3 & He3); [done|lia|]; rewrite Hr2 in Hr3;
    split_and!; [done|done|etransitivity; [exact He1|]; by transitivity w2.1].
  split_and!; [by left|done|etransitivity; [exact He1|done]].
Qed.

End lawful.
End handlers_run.

(** ** The subscriptions of a connection *)

Lemma targets_spec st cid :
  sorted st ->
  forall ns ctx, subscription st ns cid = Some ctx <->
    exists ns0, equiv_key ns ns0 = true /\ (ns0, ctx) ∈ targets st cid.
Proof.
  intros Hs ns ctx. unfold targets, subscription. setoid_rewrite list_elem_of_omap. split.
  - destruct (find st ns) as [[k ctxs]|] eqn:Ef; [|done]. intros Hc.
    exists k. split; [by apply (find_key_equiv st ns k ctxs)|].
    exists (k, ctxs). split; [by apply (find_elem st ns)|]. simpl. by rewrite Hc.
  - intros (ns0 & E & [k ctxs] & Hin & Hc). simpl in Hc.
    destruct (at_key ctxs cid) as [ctx0|] eqn:Ek; [|done]. simpl in Hc. simplify_eq.
    rewrite (find_proper st ns ns0 E), (find_in st ns0 ctxs Hs Hin). done.
Qed.

Section drops.
Context {T : Target} {A : Type} {D : ServerDelegate A} {L : LawfulDelegate A}.

Lemma drop_subscriptions_ids l (w : world A) :
  wf w.1 -> (mfor l drop_subscription w).1 = Ret tt ->
  forall i, at_key (subscribe_id_state (mfor l drop_subscription w).2.1) i
    = if decide (i ∈ map (fun p => sc_subscriber_id p.2) l) then None
      else at_key (subscribe_id_state w.1) i.
Proof.
  revert w. induction l as [|p l IH]; intros w Hw.
  { intros _ i. rewrite decide_False; [done|]. apply not_elem_of_nil. }
  cbn [mfor map]. pose proof (drop_subscription_state p w Hw) as (_ & Hw1 & _).
  pose proof (onUnsubscribe_frame p.1 (sc_subscriber_id p.2) [] w
    (wf_publish_namespaces _ Hw)) as Hf.
  unfold mbind, M_bind. rewrite drop_subscription_run in *.
  destruct (onUnsubscribe _ _ _ w) as [[[]|e|] w1]; cbn [fst snd] in *; [|done..].
  intros Hr i. rewrite IH by done. cbn [fst subscribe_id_state with_subscribe_id_state].
  rewrite at_key_erase by (rewrite (frame_subscribe_id_state _ _ Hf); apply Hw).
  rewrite (frame_subscribe_id_state _ _ Hf).
  destruct (decide (i ∈ map _ l)) as [Hi|Hi].
  - rewrite decide_True; [done|]. by right.
  - destruct (decide (i = sc_subscriber_id p.2)) as [->|Hne].
    + rewrite decide_True; [done|]. by left.
    + rewrite decide_False; [done|]. by intros [?|?]%elem_of_cons.
Qed.
End drops.

(** * Runs of a server *)

Section runs.
Context {T : Target} {Tr : ITransport} {A : Type} {D : ServerDelegate A}.

(** Callbacks of the transport, calls of the application, and changes of the
    transport's and the application's own state. *)
Inductive step : world A -> world A -> Prop :=
  | step_on_recv_notify cid sid w w' :
      subscriber_id w.1 + 150 < 2 ^ 64 -> on_recv_notify cid sid w = (Ret tt, w') ->
      step w w'
  | step_on_connection_status cid st w w' :
      on_connection_status cid st w = (Ret tt, w') -> step w w'
  | step_publishIntentResponse ns r w : step w (on_server (publishIntentResponse ns r) w).2
  | step_subscribeResponse i ns r w : step w (on_server (subscribeResponse i ns r) w).2
  | step_subscriptionEnded i ns r w : step w (on_server (subscriptionEnded i ns r) w).2
  | step_sendNamedObject i b d w : step w (on_server (sendNamedObject i b d) w).2
  | step_run fuel n b w s' : run fuel n w.1 = Some (b, s') -> step w (s', w.2)
  | step_arrival data w : step w (with_rx (rx w.1 ++ [data]) w.1, w.2)
  | step_application a w : step w (w.1, a).

Inductive steps : world A -> world A -> Prop :=
  | steps_refl w : steps w w
  | steps_step w w1 w2 : step w w1 -> steps w1 w2 -> steps w w2.

Context {L : LawfulDelegate A}.

Lemma step_wf w w' : step w w' -> wf w.1 -> wf w'.1 /\ evolves w.1 w'.1.
Proof.
  assert (forall s s', wf s -> frame s s' -> wf s' /\ evolves s s') as Hf.
  { intros s s' Hw Hfr. split; [by eapply wf_frame|by apply evolves_frame]. }
  assert (forall (m : M t unit) s (a : A), wf s -> frame s (m s).2 ->
    wf (on_server m (s, a)).2.1 /\ evolves s (on_server m (s, a)).2.1) as Hm.
  { intros m s a Hw Hfr. unfold on_server. cbn [fst]. destruct (m s). by apply Hf. }
  destruct 1 as [cid sid w w' Hc E|cid st w w' E|ns r w|i ns r w|i ns r w|i b d w
    |fuel n b w s' E|data w|a w]; intros Hw.
  - pose proof (on_recv_notify_loop_run 150 cid sid w Hw Hc) as (_ & H1 & H2).
    unfold on_recv_notify in E. by rewrite E in H1, H2.
  - pose proof (on_connection_status_progress cid st w Hw) as []. by rewrite E in *.
  - destruct w. by apply Hm, publishIntentResponse_frame, Hw.
  - destruct w. by apply Hm, subscribeResponse_frame.
  - destruct w. by apply Hm, subscriptionEnded_frame.
  - destruct w. by apply Hm, sendNamedObject_frame.
  - unfold run in E. destruct (wait_while_connecting 1 fuel n); [|done].
    cbn in E. simplify_eq. split; [destruct Hw; by split|split; [simpl; lia|auto]].
  - cbn [fst]. split; [destruct Hw; by split|split; [simpl; lia|auto]].
  - done.
Qed.

Lemma steps_wf w w' : steps w w' -> wf w.1 -> wf w'.1 /\ evolves w.1 w'.1.
Proof.
  induction 1 as [w|w w1 w2 H1 _ IH]; intros Hw; [done|].
  destruct (step_wf w w1 H1 Hw) as [Hw1 He1]. destruct (IH Hw1) as [Hw2 He2].
  split; [done|by transitivity w1.1].
Qed.
End runs.

(** ** Messages without effect *)

Definition throws {B} (r : result B) : bool := match r with Throw _ => true | _ => false end.

(** The reader of the message throws, or no handler is meant for its type. *)
Definition ignored {T : Target} (data : bytes) : bool :=
  match data with
  | [] => false
  | front :: _ =>
      match (enum_of_u8 front : MessageType.t) with
      | MessageType.Subscribe => throws (get_Subscribe uninit_Subscribe data).1
      | MessageType.Publish => throws (get_PublishDatagram data).1
      | MessageType.Unsubscribe => throws (get_Unsubscribe uninit_Unsubscribe data).1
      | MessageType.PublishIntent => throws (get_PublishIntent data).1
      | MessageType.PublishIntentEnd => throws (get_PublishIntentEnd data).1
      | _ => true
      end
  end.

Lemma ignored_dispatch {T : Target} {A} {D : ServerDelegate A} cid sid data (w : world A) :
  ignored data = true ->
  try_catch (dispatch cid sid data) (fun _ => Some (mret tt)) w = (Ret tt, w).
Proof.
  unfold ignored, dispatch, try_catch. destruct data as [|x data]; [done|].
  assert (forall X B (b : X) (m : M X B) (f : B -> M (world A) unit),
    throws (m b).1 = true -> exists e, (on_local b m ≫= f) w = (Throw e, w)) as Hread.
  { intros X B b m f. unfold mbind, M_bind, on_local. destruct (m b).1; try done. by eexists. }
  destruct (enum_of_u8 x : MessageType.t); try done; intros Ht;
    (edestruct Hread as [e E]; [exact Ht|]);
    unfold handle_subscribe, handle_publish, handle_unsubscribe, handle_publish_intent,
      handle_publish_intent_end; by rewrite E.
Qed.

Lemma dequeue_from_spec cid sid q :
  let mine p := ((p.1.1 =? cid) && (p.1.2 =? sid))%bool : bool in
  match dequeue_from cid sid q with
  | None => List.filter mine q = []
  | Some (d, q') => List.filter mine q = (cid, sid, d) :: List.filter mine q' /\
      List.filter (fun p => negb (mine p)) q = List.filter (fun p => negb (mine p)) q'
  end.
Proof.
  intros mine. induction q as [|[[c i] data] q IH]; [done|]. cbn [dequeue_from List.filter].
  assert (mine (c, i, data) = ((c =? cid) && (i =? sid))%bool) as -> by done.
  destruct ((c =? cid) && (i =? sid))%bool eqn:E; cbn [negb].
  - apply andb_true_iff in E as [->%Z.eqb_eq ->%Z.eqb_eq]. done.
  - destruct (dequeue_from cid sid q) as [[d q']|]; [|done].
    destruct IH as [-> ->]. cbn [List.filter]. unfold mine. cbn [fst snd]. by rewrite E.
Qed.

(** At most [n] messages of the stream are gone, and none of the others. *)
Lemma unread_spec n cid sid q :
  let mine p := ((p.1.1 =? cid) && (p.1.2 =? sid))%bool : bool in
  List.filter mine (unread n cid sid q) = drop n (List.filter mine q) /\
  List.filter (fun p => negb (mine p)) (unread n cid sid q)
  = List.filter (fun p => negb (mine p)) q.
Proof.
  intros mine. revert q. induction n as [|n IH]; intros q; [done|]. cbn [unread].
  pose proof (dequeue_from_spec cid sid q) as Hq. cbv zeta in Hq. fold mine in Hq.
  destruct (dequeue_from cid sid q) as [[d q']|].
  - destruct (IH q') as [-> ->]. by destruct Hq as [-> ->].
  - by rewrite Hq.
Qed.

(** * A delegate for the examples

    It notes the calls it gets and answers those it can answer. *)

Inductive Call :=
  | Call_onPublishIntent (ns : Namespace) (payload : bytes)
  | Call_onPublishIntentEnd (ns : Namespace) (payload : bytes)
  | Call_onPublisherObject (context_id stream_id : Z) (datagram : PublishDatagram)
  | Call_onSubscribe (ns : Namespace) (subscriber_id context_id stream_id : Z)
  | Call_onUnsubscribe (ns : Namespace) (subscriber_id : Z).

Definition note (c : Call) : M (world (list Call)) unit := on_app (modify (fun l => l ++ [c])).

Lemma frame_note c (m : M t unit) w :
  frame w.1 (m w.1).2 -> frame w.1 ((note c;; on_server m) w).2.1.
Proof.
  intros Hm. cbv [note on_app on_server mbind M_bind modify]. cbn [fst snd].
  by destruct (m w.1).
Qed.

#[export] Instance Recorder {T : Target} : ServerDelegate (list Call) :=
  {| onPublishIntent ns _ _ _ payload :=
       note (Call_onPublishIntent ns payload);;
       on_server (publishIntentResponse ns
         (mkPublishIntentResult Response.Ok RelayInfo_init (mkName 0 0)));
     onPublishIntentEnd ns _ payload :=
       note (Call_onPublishIntentEnd ns payload);; on_server (mret tt);
     onPublisherObject cid sid _ d :=
       note (Call_onPublisherObject cid sid d);; on_server (mret tt);
     onSubscribe ns i cid sid _ _ _ _ _ :=
       note (Call_onSubscribe ns i cid sid);;
       on_server (subscribeResponse i ns
         (mkSubscribeResult SubscribeStatus.Ok [] None RelayInfo_init));
     onUnsubscribe ns i _ :=
       note (Call_onUnsubscribe ns i);;
       on_server (subscriptionEnded i ns SubscribeStatus.Ok) |}.

#[export] Instance Recorder_lawful {T : Target} : LawfulDelegate (list Call).
Proof.
  split; intros; apply frame_note.
  - by apply publishIntentResponse_frame.
  - done.
  - done.
  - apply subscribeResponse_frame.
  - apply subscriptionEnded_frame.
Qed.

Definition demo_ns : Namespace := mkNamespace (mkName 0x1000 0x2000) 125.
(** A server with one subscription, of connection 7. *)
Definition demo_server : t := subscribed init demo_ns 7 9.

Lemma demo_server_wf : wf demo_server.
Proof. apply subscribed_wf; [apply server_wf_init|done|done]. Qed.

(** The same with another subscriber, of connection 8. *)
Definition demo_crowd : t := subscribed demo_server demo_ns 8 9.

Lemma demo_crowd_wf : wf demo_crowd.
Proof. apply subscribed_wf; [apply demo_server_wf|done|done]. Qed.

(** A server to which connection 3 has announced that namespace, and an object
    of it. *)
Definition demo_announced : t :=
  with_publish_namespaces [(demo_ns, mkPublishIntentContext Pending 3 4 42)] init.
Definition demo_object : PublishDatagram :=
  mkPublishDatagram (mkHeader 0x2000 (mkName 0x1000 0x2001) 0 0 1 0)
    MediaType.RealtimeMedia 3 [1; 2; 3].

Lemma demo_announced_wf : wf demo_announced.
Proof. destruct server_wf_init. split; try done. apply sorted_singleton. Qed.

(** A subscribe message. *)
Lemma demo_announced_namespaces p :
  p ∈ publish_namespaces demo_announced -> wf_namespace p.1.
Proof.
  intros Hp. apply elem_of_cons in Hp as [->|Hp]; [|by apply not_elem_of_nil in Hp].
  repeat split; vm_compute; congruence.
Qed.

Definition demo_subscribe : Subscribe := mkSubscribe 0 42 demo_ns SubscribeIntent.immediate.

Lemma ok_demo_subscribe : ok_Subscribe demo_subscribe.
Proof. repeat split; vm_compute; congruence. Qed.

(** A fresh server to which that message has come. *)
Definition demo_arrived : world (list Call) :=
  (with_rx [(7, 9, encoded (put_Subscribe (T := strict_little) demo_subscribe))] init, []).

(** * Properties *)

Lemma dispatch_typed {T : Target} {A} {D : ServerDelegate A} t0 cid sid msg rest :
  msg = enum_to_u8 t0 :: rest -> wf_enum t0 ->
  dispatch cid sid msg
  = match t0 with
    | MessageType.Subscribe => handle_subscribe cid sid msg
    | MessageType.Publish => handle_publish cid sid msg
    | MessageType.Unsubscribe => handle_unsubscribe cid sid msg
    | MessageType.PublishIntent => handle_publish_intent cid sid msg
    | MessageType.PublishIntentEnd => handle_publish_intent_end cid sid msg
    | _ => mret tt
    end.
Proof. intros -> Ht. unfold dispatch. by rewrite (enum_roundtrip t0). Qed.

(** C25: whatever the peers send and the application does, as long as no step has
    undefined behaviour and the counter of ids does not reach 2^64, the server's
    tables agree with each other: a context is kept under its own connection, ids tell
    subscriptions apart and are below the counter, and the table of ids holds
    the context of the subscription whose id it is. *)
Theorem server_reachable_invariant {T : Target} {Tr : ITransport} {A} {D : ServerDelegate A}
    {L : LawfulDelegate A} a w :
  steps (init, a) w -> wf w.1.
Proof. intros Hs. by apply (steps_wf _ _ Hs), server_wf_init. Qed.

Lemma server_reachable_invariant_witness :
  wf (on_recv_notify (T := strict_little) (D := Recorder (T := strict_little)) 7 9 demo_arrived).2.1.
Proof.
  apply (server_reachable_invariant (T := strict_little) (Tr := FakeTransport)
    (L := Recorder_lawful (T := strict_little)) []).
  apply (steps_step _ demo_arrived).
  { apply (step_arrival (7, 9, encoded (put_Subscribe (T := strict_little) demo_subscribe)) (init, [])). }
  eapply steps_step; [|apply steps_refl].
  apply step_on_recv_notify with 7 9; [done|]. vm_compute. reflexivity.
Defined.

(** C30: a subscriber id belongs to one subscription for ever: once a connection
    has subscribed, then after any further run the messages sent to its id go
    to that connection and its stream, or nowhere. *)
Theorem subscriber_id_never_reused {T : Target} {Tr : ITransport} {A} {D : ServerDelegate A}
    {L : LawfulDelegate A} a w w' ns cid ctx i :
  steps (init, a) w -> steps w w' ->
  subscription (subscribe_state w.1) ns cid = Some ctx -> i = sc_subscriber_id ctx ->
  let to data := mkPacket cid (sc_transport_stream_id ctx) data in
  (forall ns' r, subscribeResponse i ns' r w'.1 = (Ret tt, w'.1) \/
     subscribeResponse i ns' r w'.1
     = (Ret tt, with_tx (tx w'.1 ++ [to (SubscribeResponse_wire
                  (mkSubscribeResponse ns' (sr_status r) i))]) w'.1)) /\
  (forall b d, ok_PublishDatagram d -> sendNamedObject i b d w'.1 = (Ret tt, w'.1) \/
     sendNamedObject i b d w'.1
     = (Ret tt, with_tx (tx w'.1 ++ [to (PublishDatagram_wire d)]) w'.1)).
Proof.
  intros H1 H2 Hsub -> to. destruct (steps_wf _ _ H1 server_wf_init) as [Hw _].
  destruct (steps_wf _ _ H2 Hw) as [_ [_ He]].
  destruct (wf_subscription _ Hw _ _ _ Hsub) as [Hcid Hi].
  assert (forall writer wire, appends writer wire ->
    to_subscriber (sc_subscriber_id ctx) writer w'.1 = (Ret tt, w'.1) \/
    to_subscriber (sc_subscriber_id ctx) writer w'.1
    = (Ret tt, with_tx (tx w'.1 ++ [to wire]) w'.1)) as Hto.
  { intros writer wire Ha. rewrite (to_subscriber_run _ _ wire) by done.
    destruct (at_key (subscribe_id_state w'.1) _) as [ctx'|] eqn:E; [right|by left].
    apply He in E; [|lia]. apply (wf_agree _ Hw _ _ _ _ Hsub) in E as ->.
    by rewrite Hcid. }
  split; intros.
  - apply Hto. apply put_SubscribeResponse_wire.
  - by apply Hto, put_PublishDatagram_wire.
Qed.

Lemma subscriber_id_never_reused_witness :
  let after := on_recv_notify (T := strict_little) (D := Recorder (T := strict_little)) 7 9
                 demo_arrived in
  let to data := mkPacket 7 9 data in
  (forall ns' r, subscribeResponse (T := strict_little) 0 ns' r after.2.1 = (Ret tt, after.2.1) \/
     subscribeResponse (T := strict_little) 0 ns' r after.2.1
     = (Ret tt, with_tx (tx after.2.1 ++ [to (SubscribeResponse_wire
                  (mkSubscribeResponse ns' (sr_status r) 0))]) after.2.1)) /\
  (forall b d, ok_PublishDatagram d ->
     sendNamedObject 0 b d after.2.1 = (Ret tt, after.2.1) \/
     sendNamedObject 0 b d after.2.1
     = (Ret tt, with_tx (tx after.2.1 ++ [to (PublishDatagram_wire d)]) after.2.1)).
Proof.
  intros after.
  assert (steps (T := strict_little) (Tr := FakeTransport)
            (D := Recorder (T := strict_little)) (init, []) after.2) as Hs.
  { apply (steps_step _ demo_arrived).
    { apply (step_arrival (7, 9, encoded (put_Subscribe (T := strict_little) demo_subscribe))
        (init, [])). }
    eapply steps_step; [|apply steps_refl].
    apply step_on_recv_notify with 7 9; [done|]. vm_compute. reflexivity. }
  apply (subscriber_id_never_reused (T := strict_little) (Tr := FakeTransport)
    (L := Recorder_lawful (T := strict_little)) [] after.2 after.2 demo_ns 7
    (mkSubscribeContext Unknown 7 9 0 0) 0).
  - exact Hs.
  - apply steps_refl.
  - vm_compute. reflexivity.
  - reflexivity.
Defined.

(** A subscribe message from a connection that has no subscription to the
    namespace makes one, with the counter as its id, and nothing else; a repeat
    changes nothing and is reported to the delegate with the first id, whatever
    stream it came on. *)
Theorem subscribe_handler_spec {T : Target} `{!LittleEndian} {A} {D : ServerDelegate A}
    m rest cid sid s a :
  wf s -> ok_Subscribe m -> subscriber_id s + 1 < 2 ^ 64 ->
  let ns := sub_namespace m in
  let received := dispatch cid sid (encoded (put_Subscribe m) ++ rest) (s, a) in
  let call i := onSubscribe ns i cid sid (sub_intent m) [] false [] [] in
  match subscription (subscribe_state s) ns cid with
  | Some ctx => received = call (sc_subscriber_id ctx) (s, a)
  | None => exists s', received = call (subscriber_id s) (s', a) /\ wf s' /\
      subscriber_id s' = subscriber_id s + 1 /\
      (forall ns' cid', subscription (subscribe_state s') ns' cid'
         = if (equiv_key ns' ns && bool_decide (cid' = cid))%bool
           then Some (new_context s cid sid) else subscription (subscribe_state s) ns' cid') /\
      (forall i, at_key (subscribe_id_state s') i
         = if decide (i = subscriber_id s)
           then Some (new_context s cid sid) else at_key (subscribe_id_state s) i) /\
      publish_namespaces s' = publish_namespaces s /\ tx s' = tx s
  end.
Proof.
  intros Hw Hm Hc ns received call. subst received.
  destruct (encoded_wire _ _ (put_Subscribe_wire m)) as [_ ->].
  rewrite (dispatch_typed MessageType.Subscribe _ _ _
    (drop 1 (Subscribe_wire m) ++ rest)) by done.
  set (m' := mkSubscribe 0 (sub_transaction_id m) ns (sub_intent m)).
  rewrite (handle_subscribe_tidy cid sid _ s a m') by
    (done || (by apply wf_tidy) || by rewrite (get_Subscribe_wire native_little uninit_Subscribe m Hm rest)).
  change (sub_namespace m') with ns. change (sub_intent m') with (sub_intent m).
  destruct (subscription (subscribe_state s) ns cid) as [ctx|] eqn:E; [done|].
  exists (subscribed s ns cid sid). split_and!; try done.
  - by apply subscribed_wf.
  - simpl. rewrite wrap_small; [done|]. unfold in_u. destruct (wf_counter _ Hw). lia.
  - intros. by apply subscribed_subscription.
  - intros i. simpl. unfold assign. rewrite at_key_insert by apply Hw. done.
Qed.

Lemma subscribe_handler_spec_witness :
  dispatch (T := strict_little) (D := Recorder (T := strict_little)) 7 11
    (encoded (put_Subscribe (T := strict_little) demo_subscribe) ++ []) (demo_server, [])
  = onSubscribe (ServerDelegate := Recorder (T := strict_little)) demo_ns 0 7 11
      SubscribeIntent.immediate [] false [] [] (demo_server, []).
Proof.
  apply (subscribe_handler_spec (T := strict_little) (D := Recorder (T := strict_little))
    demo_subscribe [] 7 11 demo_server []).
  - apply demo_server_wf.
  - apply ok_demo_subscribe.
  - reflexivity.
Defined.

(** An unsubscribe message from a subscriber tells the delegate the id and
    then takes that id out of the table of ids, but ends the subscriptions of
    every connection to the namespace: the others keep their ids without a
    subscription.  From anyone else it has no effect. *)
Theorem unsubscribe_drops_namespace {T : Target} `{!LittleEndian} {A} {D : ServerDelegate A}
    u rest cid sid s a :
  wf s -> ok_Unsubscribe u ->
  let ns := unsub_namespace u in
  let received := dispatch cid sid (encoded (put_Unsubscribe u) ++ rest) (s, a) in
  match subscription (subscribe_state s) ns cid with
  | Some ctx => forall s1 a1,
      onUnsubscribe ns (sc_subscriber_id ctx) [] (s, a) = (Ret tt, (s1, a1)) ->
      frame s s1 ->
      exists s', received = (Ret tt, (s', a1)) /\
        (forall ns' cid', subscription (subscribe_state s') ns' cid'
           = if equiv_key ns' ns then None else subscription (subscribe_state s) ns' cid') /\
        (forall i, at_key (subscribe_id_state s') i
           = if decide (i = sc_subscriber_id ctx) then None else at_key (subscribe_id_state s) i)
  | None => exists s', received = (Ret tt, (s', a)) /\
        (forall ns' cid', subscription (subscribe_state s') ns' cid'
           = subscription (subscribe_state s) ns' cid') /\
        subscribe_id_state s' = subscribe_id_state s /\ tx s' = tx s
  end.
Proof.
  intros Hw Hu ns received. subst received.
  destruct (encoded_wire _ _ (put_Unsubscribe_wire u)) as [_ ->].
  rewrite (dispatch_typed MessageType.Unsubscribe _ _ _
    (drop 1 (Unsubscribe_wire u) ++ rest)) by done.
  rewrite (handle_unsubscribe_tidy cid sid _ s a (mkUnsubscribe 0 ns)) by
    (done || (by apply wf_tidy) || by rewrite (get_Unsubscribe_wire native_little uninit_Unsubscribe u Hu rest)).
  cbn [unsub_namespace].
  destruct (subscription (subscribe_state s) ns cid) as [ctx|] eqn:E.
  - intros s1 a1 Hcall Hf. rewrite (subscribed_unchanged s ns cid ctx E).
    rewrite (run_bind_ret _ _ _ _ _ Hcall). unfold on_server, modify. cbn [fst snd].
    pose proof (wf_frame _ _ Hw Hf) as Hw1. pose proof Hf as [Es Ei _ _ _ _ _ _ _].
    eexists. split; [reflexivity|]. split.
    + intros. rewrite unsubscribed_subscription by done. by rewrite Es.
    + intros i. rewrite (unsubscribed_ids s1 ns cid ctx) by congruence.
      rewrite at_key_erase by apply Hw1. by rewrite Ei.
  - eexists. split; [reflexivity|]. split_and!; [|done..].
    intros. apply subscription_subscript, Hw.
Qed.

Lemma unsubscribe_drops_namespace_witness :
  let u := mkUnsubscribe 0 demo_ns in
  let after := onUnsubscribe (ServerDelegate := Recorder (T := strict_little)) demo_ns 0 []
                 (demo_crowd, []) in
  exists s', dispatch (T := strict_little) (D := Recorder (T := strict_little)) 7 9
      (encoded (put_Unsubscribe u) ++ []) (demo_crowd, []) = (Ret tt, (s', after.2.2)) /\
    (forall ns' cid', subscription (subscribe_state s') ns' cid'
       = if equiv_key ns' demo_ns then None
         else subscription (subscribe_state demo_crowd) ns' cid') /\
    (forall i, at_key (subscribe_id_state s') i
       = if decide (i = 0) then None else at_key (subscribe_id_state demo_crowd) i).
Proof.
  intros u after.
  apply (unsubscribe_drops_namespace (T := strict_little) (D := Recorder (T := strict_little))
    u [] 7 9 demo_crowd []) with after.2.1.
  - apply demo_crowd_wf.
  - repeat split; vm_compute; congruence.
  - reflexivity.
  - apply (onUnsubscribe_frame (LawfulDelegate := Recorder_lawful (T := strict_little))
      demo_ns 0 [] (demo_crowd, [])), wf_publish_namespaces, demo_crowd_wf.
Defined.

(** C31: when a connection ends, the delegate hears of each of its subscriptions,
    in the order of the map, and the ids of these are taken out of the table of
    ids, so that an answer to one of them is dropped; the ids of others stay.
    The table of subscriptions itself is left as it was. *)
Theorem disconnect_spec {T : Target} {Tr : ITransport} {A} {D : ServerDelegate A}
    {L : LawfulDelegate A} cid s a s' a' :
  wf s -> on_connection_status cid Disconnected (s, a) = (Ret tt, (s', a')) ->
  let mine i := exists ns ctx, subscription (subscribe_state s) ns cid = Some ctx /\
                  sc_subscriber_id ctx = i in
  on_connection_status cid Disconnected (s, a)
    = mfor (targets (subscribe_state s) cid) drop_subscription (s, a) /\
  (forall ns ctx, subscription (subscribe_state s) ns cid = Some ctx <->
     exists ns0, equiv_key ns ns0 = true /\ (ns0, ctx) ∈ targets (subscribe_state s) cid) /\
  subscribe_state s' = subscribe_state s /\
  (forall i, mine i -> at_key (subscribe_id_state s') i = None /\
     forall ns r, subscribeResponse i ns r s' = (Ret tt, s')) /\
  (forall i, ~ mine i -> at_key (subscribe_id_state s') i = at_key (subscribe_id_state s) i).
Proof.
  intros Hw Hrun mine. pose proof (on_connection_status_run cid Disconnected (s, a) (wf_tidy _ Hw)) as Er.
  rewrite decide_True in Er by done. cbn [fst] in Er.
  pose proof (targets_spec (subscribe_state s) cid (wf_subscribe_state _ Hw)) as Ht.
  pose proof (drop_subscriptions_ids (targets (subscribe_state s) cid) (s, a) Hw) as Hids.
  pose proof (drop_subscriptions_state (targets (subscribe_state s) cid) (s, a) Hw)
    as (Hst & _ & _).
  rewrite <- Er, Hrun in Hids, Hst. cbn [fst snd] in *.
  assert (forall i, mine i <-> i ∈ map (fun p => sc_subscriber_id p.2)
                                  (targets (subscribe_state s) cid)) as Hmine.
  { intros i. rewrite list_elem_of_In, in_map_iff. setoid_rewrite <- list_elem_of_In. split.
    - intros (ns & ctx & Hs & Hi). apply Ht in Hs as (ns0 & _ & Hin). by exists (ns0, ctx).
    - intros ([ns ctx] & Hi & Hin). exists ns, ctx. split; [|done]. apply Ht.
      exists ns. split; [apply equiv_key_refl|done]. }
  split_and!; [done|done|done|..].
  - intros i Hi. assert (at_key (subscribe_id_state s') i = None) as Hn.
    { rewrite Hids by done. rewrite decide_True by (by apply Hmine). done. }
    split; [done|]. intros ns r. unfold subscribeResponse.
    rewrite (to_subscriber_run _ _ _ _ (put_SubscribeResponse_wire _)). by rewrite Hn.
  - intros i Hi. rewrite Hids by done. rewrite decide_False; [done|]. by rewrite <- Hmine.
Qed.

Lemma disconnect_spec_witness :
  let after := on_connection_status (Tr := FakeTransport) (D := Recorder (T := strict_little)) 7
                 FakeDisconnected (demo_crowd, []) in
  at_key (subscribe_id_state after.2.1) 0 = None /\
  forall ns r, subscribeResponse (T := strict_little) 0 ns r after.2.1 = (Ret tt, after.2.1).
Proof.
  intros after.
  apply (disconnect_spec (T := strict_little) (Tr := FakeTransport)
    (L := Recorder_lawful (T := strict_little)) 7 demo_crowd [] after.2.1 after.2.2).
  - apply demo_crowd_wf.
  - vm_compute. reflexivity.
  - exists demo_ns, (mkSubscribeContext Unknown 7 9 0 0). by split.
Defined.

(** What becomes of an object, whether or not its name is announced. *)
Lemma handle_publish_run {T : Target} `{!LittleEndian} {A} {D : ServerDelegate A}
    d rest cid sid s a :
  wf s -> ok_PublishDatagram d ->
  (forall p, p ∈ publish_namespaces s -> wf_namespace p.1) ->
  let n := name (header d) in
  let announced := existsb (fun p => within p.1 n) (publish_namespaces s) in
  let first := default (mkPublishContext Unknown cid sid 0 0 0) (at_key (publish_state s) n) in
  let received := handle_publish cid sid (PublishDatagram_wire d ++ rest) (s, a) in
  (announced = true ->
    exists ps, received = onPublisherObject (pc_transport_context_id first)
                            (pc_transport_stream_id first) false d (with_publish_state ps s, a) /\ sorted ps /\
      forall n', at_key ps n' = if decide (n' = n) then Some first else at_key (publish_state s) n')
  /\ (announced = false -> received = (Ret tt, (s, a))).
Proof.
  intros Hw Hd Hns n announced first received. subst received.
  unfold handle_publish.
  rewrite (run_bind_ret _ _ _ (s, a) d) by
    (unfold on_local; by rewrite (get_PublishDatagram_wire native_little d Hd rest)).
  fold n. cbv [mbind M_bind gets lift]. cbn [fst snd id].
  rewrite find_publish_namespace_spec by (done || apply Hd).
  subst announced. rewrite (existsb_list_find (fun p => within p.1 n)).
  destruct (list_find _ (publish_namespaces s)) as [[j p]|]; (split; intros ?); try done.
  cbn [fmap option_fmap option_map].
  unfold on_server. cbn [fst snd]. rewrite contains_at_key. subst first.
  destruct (at_key (publish_state s) n) as [pc|] eqn:En.
  - rewrite bool_decide_true by done. cbn [negb]. rewrite (at_key_found _ _ _ _ En).
    eexists. split; [reflexivity|]. split; [apply Hw|]. intros n'. by destruct (decide (n' = n)) as [->|].
  - rewrite bool_decide_false by (by intros []). cbn [negb].
    eexists. split; [reflexivity|]. split; [apply sorted_insert_node, Hw|]. intros n'. unfold assign.
    by rewrite at_key_insert by apply Hw.
Qed.

(** An object is handed to the delegate exactly when a publisher has
    announced a namespace that contains its name, and the connection and stream
    the delegate sees are those of the first object of that name. *)
Theorem publish_routing_spec {T : Target} `{!LittleEndian} {A} {D : ServerDelegate A}
    d rest cid sid s a :
  wf s -> ok_PublishDatagram d ->
  (forall p, p ∈ publish_namespaces s -> wf_namespace p.1) ->
  let n := name (header d) in
  let announced := existsb (fun p => within p.1 n) (publish_namespaces s) in
  let first := default (mkPublishContext Unknown cid sid 0 0 0) (at_key (publish_state s) n) in
  let received := dispatch cid sid (encoded (put_PublishDatagram d) ++ rest) (s, a) in
  if announced then
    exists ps, received = onPublisherObject (pc_transport_context_id first)
                            (pc_transport_stream_id first) false d (with_publish_state ps s, a) /\
      forall n', at_key ps n' = if decide (n' = n) then Some first else at_key (publish_state s) n'
  else received = (Ret tt, (s, a)).
Proof.
  intros Hw Hd Hns n announced first received. subst received.
  destruct (encoded_wire _ _ (put_PublishDatagram_wire d Hd)) as [_ ->].
  rewrite (dispatch_typed MessageType.Publish _ _ _
    (drop 1 (PublishDatagram_wire d) ++ rest)) by done.
  destruct (handle_publish_run d rest cid sid s a Hw Hd Hns) as [H1 H2].
  fold n in H1, H2. fold announced in H1, H2.
  destruct announced; [|by apply H2].
  destruct (H1 eq_refl) as (ps & E & _ & Hps). by exists ps.
Qed.

Lemma publish_routing_spec_witness :
  exists ps, dispatch (T := strict_little) (D := Recorder (T := strict_little)) 3 4
      (encoded (put_PublishDatagram demo_object) ++ []) (demo_announced, [])
    = onPublisherObject (ServerDelegate := Recorder (T := strict_little)) 3 4 false demo_object
        (with_publish_state ps demo_announced, []) /\
    forall n', at_key ps n' = if decide (n' = mkName 0x1000 0x2001)
      then Some (mkPublishContext Unknown 3 4 0 0 0) else None.
Proof.
  apply (publish_routing_spec (T := strict_little) (D := Recorder (T := strict_little))
    demo_object [] 3 4 demo_announced []).
  - apply demo_announced_wf.
  - repeat split; vm_compute; congruence.
  - apply demo_announced_namespaces.
Defined.

(** The first intent for a namespace registers the connection, the stream
    and the transaction it came with; the delegate hears of every intent, and
    an answer it gives goes to the registered publisher under the registered
    transaction and makes the registration ready. *)
Theorem publish_intent_spec {T : Target} `{!LittleEndian} {A} {D : ServerDelegate A}
    i rest cid sid s a :
  wf s -> ok_PublishIntent i -> pi_message_type i = MessageType.PublishIntent ->
  let ns := pi_namespace i in
  let ctx := default (mkPublishIntentContext Pending cid sid (pi_transaction_id i))
               (at_key (publish_namespaces s) ns) in
  exists s', dispatch cid sid (encoded (put_PublishIntent i) ++ rest) (s, a)
      = onPublishIntent ns [] false [] (pi_payload i) (s', a) /\
    (forall ns', at_key (publish_namespaces s') ns'
       = if equiv_key ns' ns then Some ctx else at_key (publish_namespaces s) ns') /\
    subscribe_state s' = subscribe_state s /\ publish_state s' = publish_state s /\
    forall r, exists s'', publishIntentResponse ns r s' = (Ret tt, s'') /\
      tx s'' = tx s' ++ [mkPacket (pic_transport_context_id ctx) (pic_transport_stream_id ctx)
        (PublishIntentResponse_wire (mkPublishIntentResponse MessageType.PublishIntentResponse ns
           (pir_status r) (pic_transaction_id ctx)))] /\
      at_key (publish_namespaces s'') ns
        = Some (mkPublishIntentContext Ready (pic_transport_context_id ctx)
                  (pic_transport_stream_id ctx) (pic_transaction_id ctx)).
Proof.
  intros Hw Hi Ht ns ctx. pose proof (wf_publish_namespaces _ Hw) as Hps.
  destruct (encoded_wire _ _ (put_PublishIntent_wire i Hi)) as [_ ->].
  rewrite (dispatch_typed MessageType.PublishIntent _ _ _
    (drop 1 (PublishIntent_wire i) ++ rest)) by
    (done || by unfold PublishIntent_wire; rewrite Ht).
  unfold handle_publish_intent.
  rewrite (run_bind_ret _ _ _ (s, a) i) by
    (unfold on_local; by rewrite (get_PublishIntent_wire native_little i Hi rest)).
  fold ns. cbv [mbind M_bind on_server modify]. cbn [fst snd].
  set (s' := if negb _ then _ else s).
  assert (forall ns', at_key (publish_namespaces s') ns'
    = if equiv_key ns' ns then Some ctx else at_key (publish_namespaces s) ns') as Hat.
  { intros ns'. subst s' ctx. unfold at_key, contains_key.
    destruct (find (publish_namespaces s) ns) as [[k0 v]|] eqn:E; cbn [negb].
    - destruct (equiv_key ns' ns) eqn:E'; [|done]. by rewrite (find_proper _ _ _ E'), E.
    - simpl. unfold assign. rewrite find_insert_node, E by done. by destruct (equiv_key ns' ns). }
  exists s'. split; [done|]. split; [done|].
  split; [by unfold s'; destruct (negb _)|]. split; [by unfold s'; destruct (negb _)|].
  intros r. pose proof (Hat ns) as Hn. rewrite equiv_key_refl in Hn.
  rewrite publishIntentResponse_run. unfold at_key in Hn.
  destruct (find (publish_namespaces s') ns) as [[k0 v]|] eqn:E; [|done]. simpl in Hn. simplify_eq.
  eexists. split; [reflexivity|]. split; [done|]. simpl. unfold at_key, assign.
  assert (sorted (publish_namespaces s')) as Hs'.
  { unfold s'. destruct (negb _); [by apply sorted_insert_node|done]. }
  rewrite find_insert_node_same, E by done. done.
Qed.

Lemma publish_intent_spec_witness :
  let i := mkPublishIntent MessageType.PublishIntent 43 demo_ns [1; 2] 0 0 in
  let ctx := mkPublishIntentContext Pending 3 4 42 in
  exists s', dispatch (T := strict_little) (D := Recorder (T := strict_little)) 5 6
      (encoded (put_PublishIntent (T := strict_little) i) ++ []) (demo_announced, [])
      = onPublishIntent (ServerDelegate := Recorder (T := strict_little))
          demo_ns [] false [] [1; 2] (s', []) /\
    (forall ns', at_key (publish_namespaces s') ns'
       = if equiv_key ns' demo_ns then Some ctx else at_key (publish_namespaces demo_announced) ns') /\
    subscribe_state s' = [] /\ publish_state s' = [] /\
    forall r, exists s'', publishIntentResponse (T := strict_little) demo_ns r s' = (Ret tt, s'') /\
      tx s'' = tx s' ++ [mkPacket 3 4
        (PublishIntentResponse_wire (mkPublishIntentResponse MessageType.PublishIntentResponse
           demo_ns (pir_status r) 42))] /\
      at_key (publish_namespaces s'') demo_ns = Some (mkPublishIntentContext Ready 3 4 42).
Proof.
  intros i ctx.
  apply (publish_intent_spec (T := strict_little) (D := Recorder (T := strict_little))
    i [] 5 6 demo_announced []).
  - apply demo_announced_wf.
  - repeat split; vm_compute; congruence.
  - reflexivity.
Defined.

(** The end of an intent removes the registration and forgets the first
    publishers of exactly the names in the namespace, before the delegate hears
    of it; for a namespace nobody has announced it has no effect. *)
Theorem publish_intent_end_spec {T : Target} `{!LittleEndian} {A} {D : ServerDelegate A}
    e rest cid sid s a :
  wf s -> ok_PublishIntentEnd e -> pie_message_type e = MessageType.PublishIntentEnd ->
  (forall p, p ∈ publish_state s -> wf_name p.1) ->
  let ns := pie_namespace e in
  let received := dispatch cid sid (encoded (put_PublishIntentEnd e) ++ rest) (s, a) in
  if contains_key (publish_namespaces s) ns then
    exists s', received = onPublishIntentEnd ns [] (pie_payload e) (s', a) /\
      (forall ns', at_key (publish_namespaces s') ns'
         = if equiv_key ns' ns then None else at_key (publish_namespaces s) ns') /\
      (forall n, at_key (publish_state s') n
         = if within ns n then None else at_key (publish_state s) n) /\
      subscribe_state s' = subscribe_state s /\
      subscribe_id_state s' = subscribe_id_state s /\ tx s' = tx s
  else received = (Ret tt, (s, a)).
Proof.
  intros Hw He Ht Hn ns received. subst received.
  destruct (encoded_wire _ _ (put_PublishIntentEnd_wire e He)) as [_ ->].
  rewrite (dispatch_typed MessageType.PublishIntentEnd _ _ _
    (drop 1 (PublishIntentEnd_wire e) ++ rest)) by
    (done || by unfold PublishIntentEnd_wire; rewrite Ht).
  unfold handle_publish_intent_end.
  rewrite (run_bind_ret _ _ _ (s, a) e) by
    (unfold on_local; by rewrite (get_PublishIntentEnd_wire native_little e He rest)).
  fold ns. cbv [mbind M_bind on_server modify gets lift]. cbn [fst snd id].
  destruct (contains_key (publish_namespaces s) ns); cbn [negb]; [|done].
  rewrite erase_contained_filter by (done || apply He). cbn [fst snd].
  eexists. split; [reflexivity|]. split_and!; [..|done|done|done].
  - intros ns'. simpl. unfold at_key. rewrite find_erase by apply Hw.
    by destruct (equiv_key ns' ns).
  - intros n. simpl.
    rewrite (at_key_filter (fun n => negb (within ns n))) by apply Hw. by destruct (within ns n).
Qed.

Lemma publish_intent_end_spec_witness :
  let e := mkPublishIntentEnd MessageType.PublishIntentEnd demo_ns [1] in
  exists s', dispatch (T := strict_little) (D := Recorder (T := strict_little)) 5 6
      (encoded (put_PublishIntentEnd e) ++ []) (demo_announced, [])
      = onPublishIntentEnd (ServerDelegate := Recorder (T := strict_little)) demo_ns [] [1] (s', []) /\
    (forall ns', at_key (publish_namespaces s') ns'
       = if equiv_key ns' demo_ns then None else at_key (publish_namespaces demo_announced) ns') /\
    (forall n, at_key (publish_state s') n = if within demo_ns n then None else None) /\
    subscribe_state s' = [] /\ subscribe_id_state s' = [] /\ tx s' = [].
Proof.
  intros e.
  apply (publish_intent_end_spec (T := strict_little) (D := Recorder (T := strict_little))
    e [] 5 6 demo_announced []).
  - apply demo_announced_wf.
  - repeat split; vm_compute; congruence.
  - reflexivity.
  - intros p Hp. by apply not_elem_of_nil in Hp.
Defined.

(** C32: one notification either has undefined behaviour, or takes at most the first
    150 messages of its stream out of the transport, in order, and leaves the data
    of other streams alone; no exception leaves it, for any application that only
    calls the public operations of the server; and a message that cannot be read, or is of a type a
    server does not expect, has no effect at all. *)
Theorem on_recv_notify_spec {T : Target} {A} {D : ServerDelegate A} {L : LawfulDelegate A}
    cid sid w :
  wf w.1 -> subscriber_id w.1 + 150 < 2 ^ 64 ->
  let r := on_recv_notify cid sid w in
  let mine p := ((p.1.1 =? cid) && (p.1.2 =? sid))%bool : bool in
  (r.1 = Undefined \/ r.1 = Ret tt /\
     List.filter mine (rx r.2.1) = drop 150 (List.filter mine (rx w.1)) /\
     List.filter (fun p => negb (mine p)) (rx r.2.1)
     = List.filter (fun p => negb (mine p)) (rx w.1)) /\
  wf r.2.1 /\
  (forall data w', ignored data = true ->
     try_catch (dispatch cid sid data) (fun _ => Some (mret tt)) w' = (Ret tt, w')).
Proof.
  intros Hw Hc r mine.
  pose proof (on_recv_notify_loop_run 150 cid sid w Hw Hc) as (Hr & Hw' & _).
  split_and!; [|done|intros; by apply ignored_dispatch].
  destruct Hr as [Hr|[Hr Hx]]; [by left|right]. split; [done|].
  subst r mine. unfold on_recv_notify. rewrite Hx. apply unread_spec.
Qed.

Lemma on_recv_notify_spec_witness :
  let w := (with_rx [(7, 9, [255]); (8, 9, [1]); (7, 9, [1; 2])] init, []) in
  let r := on_recv_notify (T := strict_little) (D := Recorder (T := strict_little)) 7 9 w in
  r = (Ret tt, (with_rx [(8, 9, [1])] init, [])) /\ wf r.2.1.
Proof.
  intros w r. split; [vm_compute; reflexivity|].
  apply (on_recv_notify_spec (T := strict_little) (L := Recorder_lawful (T := strict_little)) 7 9 w);
    [|done].
  destruct server_wf_init. by split.
Defined.

(** [run] ends with the first answer of the transport other than
    [Connecting]; it marks the server as running whatever that answer is, and
    returns whether it is [Ready]. *)
Theorem server_run_spec {Tr : ITransport} k n s :
  status (k + n) <> Connecting ->
  exists j, (j <= k)%nat /\
    (forall i, (i < j)%nat -> status (i + n) = Connecting) /\
    run (S k) n s = Some (bool_decide (status (S (j + n)) = Transport.Ready), with_running true s).
Proof.
  intros Hk. replace (k + n)%nat with (k * 1 + n)%nat in Hk by lia.
  destruct (wait_terminates 1 k n Hk) as (j & Hj & E & _ & Hb).
  rewrite Nat.mul_1_r in E. exists j. split; [done|]. split.
  { intros i Hi. specialize (Hb i Hi). by rewrite Nat.mul_1_r in Hb. }
  unfold run. by rewrite E.
Qed.

Lemma server_run_spec_witness :
  exists j, (j <= 0)%nat /\
    (forall i, (i < j)%nat ->
       status (ITransport := FakeTransport) (i + 0) = Connecting (ITransport := FakeTransport)) /\
    run (Tr := FakeTransport) 1 0 init = Some (true, with_running true init).
Proof. apply (server_run_spec (Tr := FakeTransport) 0 0 init). discriminate. Defined.

End QuicRServer.
