(* ===== verification/ServerThreads.v ===== *)
(** * The server's handlers, access by access (src/quicr_server.cpp)

    [Server] models a handler as one step.  Here each is a program
    ([Threads.prog]) of its accesses to the members, with the places where it
    takes and gives back [mutex]; [find_if] and the loop that erases publications
    are one access each.  The application's methods ([DelegateCode]) are programs
    on the same memory: they run where the code calls them, under the mutex when
    the handler holds it, and call the public operations, which take no lock.
    The transport synchronises its own calls. *)

From S2P Require Export Threads Server.

Module ServerThreads.
Import QuicRServer.

(** The members, and what the application's methods share. *)
Inductive loc :=
  | Subscribe_state | Subscribe_id_state | Publish_state | Publish_namespaces
  | Subscriber_id | Application.
#[export] Instance loc_eq_dec : EqDecision loc.
Proof. solve_decision. Defined.

Abbreviation code A := (prog (world A) loc).

(** The application's methods. *)
Class DelegateCode (A : Type) := {
  run_onPublishIntent (ns : Namespace) (origin_url : chars) (use_reliable_transport : bool)
    (auth_token : chars) (e2e_token : bytes) : code A unit;
  run_onPublishIntentEnd (ns : Namespace) (auth_token : chars) (e2e_token : bytes) : code A unit;
  run_onPublisherObject (context_id stream_id : Z) (use_reliable_transport : bool)
    (datagram : PublishDatagram) : code A unit;
  run_onSubscribe (ns : Namespace) (subscriber_id context_id stream_id : Z)
    (intent : SubscribeIntent.t) (origin_url : chars) (use_reliable_transport : bool)
    (auth_token : chars) (data : bytes) : code A unit;
  run_onUnsubscribe (ns : Namespace) (subscriber_id : Z) (auth_token : chars) : code A unit;
}.

(** ** Public operations: no lock *)

Section api.
Context {T : Target} {A : Type}.

(** [context] is a reference to the element: its state is written, and its ids are
    read, after the message is. *)
Definition publishIntentResponse (ns : Namespace) (result : PublishIntentResult) : code A unit :=
  known ← rd Publish_namespaces (on_server (gets (fun s =>
    contains_key (publish_namespaces s) ns)));
  if negb known then mret tt
  else
    transaction_id ← wr Publish_namespaces (on_server (fun s =>
      let '(context, m) := subscript (publish_namespaces s) ns PublishIntentContext_init in
      (Ret (pic_transaction_id context), with_publish_namespaces m s)));
    msg ← Done (serialize (put_PublishIntentResponse
      (mkPublishIntentResponse MessageType.PublishIntentResponse ns (pir_status result)
         transaction_id)));
    context ← wr Publish_namespaces (on_server (fun s =>
      match element (publish_namespaces s) ns with
      | Ret context =>
          (Ret context, with_publish_namespaces (assign (publish_namespaces s) ns
             (mkPublishIntentContext Ready (pic_transport_context_id context)
                (pic_transport_stream_id context) (pic_transaction_id context))) s)
      | r => (r, s)
      end));
    io (on_server (enqueue (pic_transport_context_id context)
          (pic_transport_stream_id context) msg)).

Definition to_subscriber (subscriber_id : Z) (writer : Buf unit) : code A unit :=
  known ← rd Subscribe_id_state (on_server (gets (fun s =>
    contains_key (subscribe_id_state s) subscriber_id)));
  if negb known then mret tt
  else
    wr Subscribe_id_state (on_server (modify (fun s =>
      with_subscribe_id_state
        (subscript (subscribe_id_state s) subscriber_id SubscribeContext_init).2 s)));;
    msg ← Done (serialize writer);
    context ← rd Subscribe_id_state (on_server (fun s =>
      (element (subscribe_id_state s) subscriber_id, s)));
    io (on_server (enqueue (sc_transport_context_id context)
          (sc_transport_stream_id context) msg)).

Definition subscribeResponse (subscriber_id : Z) (ns : Namespace) (result : SubscribeResult)
    : code A unit :=
  to_subscriber subscriber_id
    (put_SubscribeResponse (mkSubscribeResponse ns (sr_status result) subscriber_id)).
Definition subscriptionEnded (subscriber_id : Z) (ns : Namespace) (reason : SubscribeStatus.t)
    : code A unit :=
  to_subscriber subscriber_id (put_SubscribeEnd (mkSubscribeEnd ns reason)).
Definition sendNamedObject (subscriber_id : Z) (use_reliable_transport : bool)
    (datagram : PublishDatagram) : code A unit :=
  to_subscriber subscriber_id (put_PublishDatagram datagram).
End api.

(** ** Handlers *)

Section handlers.
Context {T : Target} {Tr : ITransport} {A : Type} {C : DelegateCode A}.

(** [subscribe_state[ns].count(context_id) != 0] *)
Definition count_context (ns : Namespace) (context_id : Z) : M t bool := fun s =>
  let '(ctxs, st) := subscript (subscribe_state s) ns [] in
  (Ret (contains_key ctxs context_id), with_subscribe_state st s).

(** [subscribe_state[ns][context_id]], the id in it. *)
Definition context_of (ns : Namespace) (context_id : Z) : M t Z := fun s =>
  let '(ctxs, st) := subscript (subscribe_state s) ns [] in
  let '(context, ctxs') := subscript ctxs context_id SubscribeContext_init in
  (Ret (sc_subscriber_id context), with_subscribe_state (assign st ns ctxs') s).

(** The id in the context a reference stands for. *)
Definition context_id_at (ns : Namespace) (context_id : Z) : M t Z := fun s =>
  ((ctxs ← element (subscribe_state s) ns;
    context ← element ctxs context_id;
    mret (sc_subscriber_id context)), s).

(** A context of its own, under the id of the counter. *)
Definition new_subscription (ns : Namespace) (context_id streamId : Z) : code A unit :=
  id ← rd Subscriber_id (on_server (gets subscriber_id));
  let context := mkSubscribeContext Unknown context_id streamId 0 id in
  wr Subscriber_id (on_server (modify (fun s =>
    with_subscriber_id (wrap 64 (subscriber_id s + 1)) s)));;
  wr Subscribe_state (on_server (modify (fun s =>
    let '(ctxs, st) := subscript (subscribe_state s) ns [] in
    with_subscribe_state (assign st ns (assign ctxs context_id context)) s)));;
  wr Subscribe_id_state (on_server (modify (fun s =>
    with_subscribe_id_state (assign (subscribe_id_state s) id context) s))).
Definition subscribe_body (context_id streamId : Z) (subscribe : Subscribe) : code A unit :=
  let ns := sub_namespace subscribe in
  known ← wr Subscribe_state (on_server (count_context ns context_id));
  (if (known : bool) then mret tt else new_subscription ns context_id streamId);;
  id ← wr Subscribe_state (on_server (context_of ns context_id));
  run_onSubscribe ns id context_id streamId (sub_intent subscribe) [] false [] [].
Definition handle_subscribe (context_id streamId : Z) (msg : bytes) : code A unit :=
  subscribe ← Done (get_Subscribe uninit_Subscribe msg).1;
  with_lock (subscribe_body context_id streamId subscribe).

(** What follows the callback; [context] is still the reference. *)
Definition forget (context_id : Z) (ns : Namespace) : code A unit :=
  id ← rd Subscribe_state (on_server (context_id_at ns context_id));
  wr Subscribe_id_state (on_server (modify (fun s =>
    with_subscribe_id_state (erase (subscribe_id_state s) id) s)));;
  wr Subscribe_state (on_server (modify (fun s =>
    let '(ctxs, st) := subscript (subscribe_state s) ns [] in
    with_subscribe_state (assign st ns (erase ctxs context_id)) s)));;
  size ← wr Subscribe_state (on_server (fun s =>
    let '(ctxs, st) := subscript (subscribe_state s) ns [] in
    (Ret (Z.of_nat (length ctxs)), with_subscribe_state st s)));
  if 0 <? size
  then wr Subscribe_state (on_server (modify (fun s =>
         with_subscribe_state (erase (subscribe_state s) ns) s)))
  else mret tt.
Definition unsubscribe_body (context_id : Z) (ns : Namespace) : code A unit :=
  id ← wr Subscribe_state (on_server (context_of ns context_id));
  run_onUnsubscribe ns id [];;
  forget context_id ns.
(** The test comes before the lock. *)
Definition handle_unsubscribe (context_id streamId : Z) (msg : bytes) : code A unit :=
  unsub ← Done (get_Unsubscribe uninit_Unsubscribe msg).1;
  let ns := unsub_namespace unsub in
  known ← wr Subscribe_state (on_server (count_context ns context_id));
  if (known : bool) then with_lock (unsubscribe_body context_id ns) else mret tt.

(** The context of the first publication of a name. *)
Definition publish_context (context_id streamId : Z) (n : Name) : code A PublishContext :=
  known ← rd Publish_state (on_server (gets (fun s => contains_key (publish_state s) n)));
  if negb known then
    let context := mkPublishContext Unknown context_id streamId 0 0 0 in
    wr Publish_state (on_server (modify (fun s =>
      with_publish_state (assign (publish_state s) n context) s)));;
    mret context
  else wr Publish_state (on_server (fun s =>
    let '(context, m) := subscript (publish_state s) n PublishContext_init in
    (Ret context, with_publish_state m s))).
(** No lock. *)
Definition handle_publish (context_id streamId : Z) (msg : bytes) : code A unit :=
  datagram ← Done (get_PublishDatagram msg).1;
  let n := name (header datagram) in
  publish_namespace ← rd Publish_namespaces (on_server (fun s =>
    (find_publish_namespace (publish_namespaces s) n, s)));
  match publish_namespace with
  | None => mret tt
  | Some _ =>
      context ← publish_context context_id streamId n;
      run_onPublisherObject (pc_transport_context_id context) (pc_transport_stream_id context)
        false datagram
  end.

Definition handle_publish_intent (context_id streamId : Z) (msg : bytes) : code A unit :=
  intent ← Done (get_PublishIntent msg).1;
  let ns := pi_namespace intent in
  known ← rd Publish_namespaces (on_server (gets (fun s =>
    contains_key (publish_namespaces s) ns)));
  wr Publish_namespaces (on_server (modify (fun s =>
    with_publish_namespaces
      (if negb known
       then assign (publish_namespaces s) ns
              (mkPublishIntentContext Pending context_id streamId (pi_transaction_id intent))
       else (subscript (publish_namespaces s) ns PublishIntentContext_init).2) s)));;
  run_onPublishIntent ns [] false [] (pi_payload intent).

Definition handle_publish_intent_end (context_id streamId : Z) (msg : bytes) : code A unit :=
  intent_end ← Done (get_PublishIntentEnd msg).1;
  let ns := pie_namespace intent_end in
  known ← rd Publish_namespaces (on_server (gets (fun s =>
    contains_key (publish_namespaces s) ns)));
  if negb known then mret tt
  else
    wr Publish_namespaces (on_server (modify (fun s =>
      with_publish_namespaces (erase (publish_namespaces s) ns) s)));;
    wr Publish_state (on_server (fun s =>
      match erase_contained ns (publish_state s) with
      | Ret ps => (Ret tt, with_publish_state ps s)
      | Throw e => (Throw e, s)
      | Undefined => (Undefined, s)
      end));;
    run_onPublishIntentEnd ns [] (pie_payload intent_end).

(** ** Transport delegate *)

(** What is done for one entry, [it]; [namespaces_to_remove] after it. *)
Definition disconnect_entry (ns : Namespace) (context_id : Z)
    (namespaces_to_remove : list Namespace) : code A (list Namespace) :=
  id ← wr Subscribe_state (on_server (context_id_at ns context_id));
  run_onUnsubscribe ns id [];;
  id ← rd Subscribe_state (on_server (context_id_at ns context_id));
  wr Subscribe_id_state (on_server (modify (fun s =>
    with_subscribe_id_state (erase (subscribe_id_state s) id) s)));;
  size ← rd Subscribe_state (on_server (fun s =>
    ((ctxs ← element (subscribe_state s) ns; mret (Z.of_nat (length ctxs))), s)));
  mret (if size =? 0 then namespaces_to_remove ++ [ns] else namespaces_to_remove).

(** The loop over [subscribe_state]; [fuel] is the number of entries it may visit. *)
Fixpoint disconnect_visit (fuel : nat) (it : option (Namespace * contexts)) (context_id : Z)
    (namespaces_to_remove : list Namespace) : code A unit :=
  match it, fuel with
  | None, _ => mret tt
  | Some _, O => Busy
  | Some (ns, _), S fuel' =>
      has ← rd Subscribe_state (on_server (fun s =>
        ((ctxs ← element (subscribe_state s) ns; mret (contains_key ctxs context_id)), s)));
      to_remove ←
        (if (has : bool) then disconnect_entry ns context_id namespaces_to_remove
         else mret namespaces_to_remove);
      prog_for to_remove (fun ns' => wr Subscribe_state (on_server (modify (fun s =>
        with_subscribe_state (erase (subscribe_state s) ns') s))));;
      it' ← rd Subscribe_state (on_server (fun s => (next_entry (subscribe_state s) ns, s)));
      disconnect_visit fuel' it' context_id to_remove
  end.
(** [fuel] more entries than there are at the start. *)
Definition disconnect_body (fuel : nat) (context_id : Z) : code A unit :=
  st ← rd Subscribe_state (on_server (gets subscribe_state));
  disconnect_visit (fuel + length st) (head st) context_id [].
Definition on_connection_status (fuel : nat) (context_id : Z) (st : TransportStatus)
    : code A unit :=
  if decide (st = Disconnected) then with_lock (disconnect_body fuel context_id) else mret tt.

Definition dispatch (context_id streamId : Z) (data : bytes) : code A unit :=
  match data with
  | [] => Done Undefined
  | front :: _ =>
      match (enum_of_u8 front : MessageType.t) with
      | MessageType.Subscribe => handle_subscribe context_id streamId data
      | MessageType.Publish => handle_publish context_id streamId data
      | MessageType.Unsubscribe => handle_unsubscribe context_id streamId data
      | MessageType.PublishIntent => handle_publish_intent context_id streamId data
      | MessageType.PublishIntentEnd => handle_publish_intent_end context_id streamId data
      | _ => mret tt
      end
  end.

Fixpoint on_recv_notify_loop (n : nat) (context_id streamId : Z) : code A unit :=
  match n with
  | O => mret tt
  | S n' =>
      data ← io (on_server (dequeue context_id streamId));
      match data with
      | None => mret tt
      | Some data =>
          prog_catch (dispatch context_id streamId data) (fun _ => Some (mret tt));;
          on_recv_notify_loop n' context_id streamId
      end
  end.
Definition on_recv_notify (context_id streamId : Z) : code A unit :=
  on_recv_notify_loop 150 context_id streamId.
End handlers.

(** * Run alone, a handler does what the one of [Server] does *)

Section alone_api.
Context {T : Target} {A : Type}.

Lemma element_found {K V} `{Less K} (m : list (K * V)) k k0 v :
  find m k = Some (k0, v) -> element m k = Ret v.
Proof. intros E. unfold element. by rewrite E. Qed.

Lemma alone_to_subscriber h i writer :
  refines always h (to_subscriber (A := A) i writer)
    (on_server (QuicRServer.to_subscriber i writer)).
Proof.
  intros [s a] _. unfold to_subscriber, QuicRServer.to_subscriber, on_server.
  cbv [mbind prog_bind mret prog_ret M_bind M_ret]. cbn -[element].
  destruct (contains_key (subscribe_id_state s) i) eqn:E; cbn -[element]; [|done].
  destruct (subscript_contains _ _ SubscribeContext_init E) as (k0 & v & Ef & Es).
  rewrite Es. cbn -[element]. destruct (serialize writer); cbn -[element]; [|done..].
  by rewrite (element_found _ _ k0 v).
Qed.

Lemma alone_publishIntentResponse h ns r :
  refines always h (publishIntentResponse (A := A) ns r)
    (on_server (QuicRServer.publishIntentResponse ns r)).
Proof.
  intros [s a] _. unfold publishIntentResponse, QuicRServer.publishIntentResponse, on_server.
  cbv [mbind prog_bind mret prog_ret M_bind M_ret]. cbn -[element].
  destruct (contains_key (publish_namespaces s) ns) eqn:E; cbn -[element]; [|done].
  destruct (subscript_contains _ _ PublishIntentContext_init E) as (k0 & v & Ef & Es).
  rewrite Es. cbn -[element]. destruct (serialize _); cbn -[element]; [|done..].
  by rewrite (element_found _ _ k0 v).
Qed.
End alone_api.

(** One access to the members. *)
Lemma run_access {A X Y} h acc (m : M t X) (f : X -> code A Y) s a :
  Threads.run h (atomic acc (on_server m) ≫= f) (s, a) =
  (match m s with
   | (Ret x, s') => Threads.run h (f x) (s', a)
   | (Throw e, s') => Some (Throw e, (s', a), h)
   | (Undefined, s') => Some (Undefined, (s', a), h)
   end).
Proof. rewrite run_bind. cbn. unfold on_server. cbn. by destruct (m s) as [[x|e|] s']. Qed.

(** The application's methods use the public operations and their own state, and
    each does what the method of [D] does. *)
Class Runs {A} (D : ServerDelegate A) (C : DelegateCode A) : Prop := {
  straight_onPublishIntent ns url b tok e : straight (run_onPublishIntent ns url b tok e);
  straight_onPublishIntentEnd ns tok e : straight (run_onPublishIntentEnd ns tok e);
  straight_onPublisherObject cid sid b d : straight (run_onPublisherObject cid sid b d);
  straight_onSubscribe ns i cid sid int url b tok d :
    straight (run_onSubscribe ns i cid sid int url b tok d);
  straight_onUnsubscribe ns i tok : straight (run_onUnsubscribe ns i tok);
  runs_onPublishIntent ns url b tok e :
    refines always false (run_onPublishIntent ns url b tok e) (onPublishIntent ns url b tok e);
  runs_onPublishIntentEnd ns tok e :
    refines always false (run_onPublishIntentEnd ns tok e) (onPublishIntentEnd ns tok e);
  runs_onPublisherObject cid sid b d :
    refines always false (run_onPublisherObject cid sid b d) (onPublisherObject cid sid b d);
  runs_onSubscribe ns i cid sid int url b tok d :
    refines always true (run_onSubscribe ns i cid sid int url b tok d)
      (onSubscribe ns i cid sid int url b tok d);
  runs_onUnsubscribe ns i tok :
    refines always true (run_onUnsubscribe ns i tok) (onUnsubscribe ns i tok);
}.

(** ** The accesses to the subscriptions *)

Section subscriptions.
Implicit Types (s : t).

Lemma count_context_run ns cid s :
  count_context ns cid s
  = (Ret (bool_decide (is_Some (subscription (subscribe_state s) ns cid))),
     with_subscribe_state (subscript (subscribe_state s) ns []).2 s).
Proof.
  unfold count_context. pose proof (contexts_subscription (subscribe_state s) ns cid) as E.
  destruct (subscript (subscribe_state s) ns []) as [ctxs st]. cbn [fst snd] in *.
  by rewrite contains_at_key, E.
Qed.

(** A subscription is where the members say. *)
Lemma subscription_inv st ns cid ctx :
  subscription st ns cid = Some ctx ->
  exists k0 ctxs k1, find st ns = Some (k0, ctxs) /\ find ctxs cid = Some (k1, ctx).
Proof.
  unfold subscription, at_key. destruct (find st ns) as [[k0 ctxs]|]; [|done].
  destruct (find ctxs cid) as [[k1 v]|] eqn:E; [|done]. intros [= ->]. eauto 6.
Qed.

Lemma context_of_found ns cid s ctx :
  tidy s -> subscription (subscribe_state s) ns cid = Some ctx ->
  context_of ns cid s = (Ret (sc_subscriber_id ctx), s).
Proof.
  intros [] H. destruct (subscription_inv _ _ _ _ H) as (k0 & ctxs & k1 & Ef & Ec).
  unfold context_of. rewrite (subscript_found _ _ _ _ _ Ef), (subscript_found _ _ _ _ _ Ec).
  unfold assign. rewrite (insert_node_id _ _ _ k0) by done. by destruct s.
Qed.

Lemma context_id_at_found ns cid s ctx :
  subscription (subscribe_state s) ns cid = Some ctx ->
  context_id_at ns cid s = (Ret (sc_subscriber_id ctx), s).
Proof.
  intros H. destruct (subscription_inv _ _ _ _ H) as (k0 & ctxs & k1 & Ef & Ec).
  unfold context_id_at. rewrite (element_found _ _ _ _ Ef). cbn [mbind result_bind].
  by rewrite (element_found _ _ _ _ Ec).
Qed.

(** Without a subscription, [context_of] makes one, with id 0. *)
Definition phantom (ns : Namespace) (cid : Z) (s : t) : t :=
  let '(ctxs, st) := subscript (subscribe_state s) ns [] in
  with_subscribe_state (assign st ns (subscript ctxs cid SubscribeContext_init).2) s.

Lemma context_of_missing ns cid s :
  subscription (subscribe_state s) ns cid = None ->
  context_of ns cid s = (Ret 0, phantom ns cid s).
Proof.
  intros H. rewrite <- contexts_subscription in H. unfold context_of, phantom.
  destruct (subscript (subscribe_state s) ns []) as [ctxs st]. cbn [fst] in H.
  unfold subscript, at_key in *. by destruct (find ctxs cid) as [[? ?]|].
Qed.

Lemma phantom_subscription ns cid s : tidy s ->
  subscription (subscribe_state s) ns cid = None ->
  subscription (subscribe_state (phantom ns cid s)) ns cid = Some SubscribeContext_init.
Proof.
  intros [] Hn. unfold phantom. rewrite <- contexts_subscription in Hn.
  pose proof (sorted_subscript (subscribe_state s) ns [] tidy_subscribe_state0).
  pose proof (contexts_sorted (subscribe_state s) ns tidy_contexts0).
  destruct (subscript (subscribe_state s) ns []) as [ctxs st]. cbn in *.
  rewrite subscription_assign, equiv_key_refl by done. unfold at_key in *.
  rewrite find_subscript_same by done. by destruct (find ctxs cid) as [[? ?]|].
Qed.

Lemma tidy_assign ns ctxs s : tidy s -> sorted ctxs ->
  tidy (with_subscribe_state (assign (subscript (subscribe_state s) ns []).2 ns ctxs) s).
Proof.
  intros [] Hc. split; cbn; [|by apply inner_sorted_assign; [apply sorted_subscript
    |apply inner_sorted_subscript|]|done].
  by apply sorted_insert_node, sorted_subscript.
Qed.

Lemma tidy_phantom ns cid s : tidy s -> tidy (phantom ns cid s).
Proof.
  intros Hs. unfold phantom. pose proof (tidy_assign ns
    (subscript (subscript (subscribe_state s) ns []).1 cid SubscribeContext_init).2 s Hs) as H.
  destruct (subscript (subscribe_state s) ns []) as [ctxs st] eqn:E. apply H. cbn.
  apply sorted_subscript. pose proof (contexts_sorted _ ns (tidy_contexts _ Hs)) as Hc.
  by rewrite E in Hc.
Qed.
End subscriptions.

(** ** The handlers under the mutex *)

Section bodies.
Context {T : Target} {Tr : ITransport} {A : Type} {D : ServerDelegate A} {C : DelegateCode A}.
Context {R : Runs D C} {L : LawfulDelegate A}.
Implicit Types (s : t) (a : A).

Definition tidy_world (w : world A) : Prop := tidy w.1.

Lemma new_subscription_run h ns cid sid s a :
  tidy s ->
  Threads.run h (new_subscription ns cid sid)
    (with_subscribe_state (subscript (subscribe_state s) ns []).2 s, a)
  = Some (Ret tt, (subscribed s ns cid sid, a), h).
Proof.
  intros [Hs _ _]. unfold new_subscription. rewrite run_access. cbn [gets].
  rewrite run_access. cbn [modify]. rewrite run_access. cbn [modify subscribe_state
    with_subscribe_state with_subscriber_id].
  rewrite subscript_idem by done. by destruct s.
Qed.

(** The new context is found where it was put. *)
Lemma subscribed_context ns cid sid s : tidy s ->
  subscription (subscribe_state (subscribed s ns cid sid)) ns cid = Some (new_context s cid sid).
Proof.
  intros []. cbn. rewrite subscription_assign, equiv_key_refl by by apply sorted_subscript.
  unfold assign. rewrite at_key_insert by by apply contexts_sorted. by rewrite decide_True.
Qed.

Lemma tidy_subscribed ns cid sid s : tidy s -> tidy (subscribed s ns cid sid).
Proof.
  intros Hs. pose proof (tidy_assign ns (assign (subscript (subscribe_state s) ns []).1 cid
    (new_context s cid sid)) s Hs) as [H1 H2 _]; [|split; [done..|apply Hs]].
  apply sorted_insert_node, contexts_sorted, Hs.
Qed.

Lemma subscribe_body_run cid sid m s a :
  tidy s -> let ns := sub_namespace m in
  let w := match subscription (subscribe_state s) ns cid with
           | Some ctx => onSubscribe ns (sc_subscriber_id ctx) cid sid (sub_intent m)
                           [] false [] [] (s, a)
           | None => onSubscribe ns (subscriber_id s) cid sid (sub_intent m)
                       [] false [] [] (subscribed s ns cid sid, a)
           end in
  Threads.run true (subscribe_body cid sid m) (s, a) = Some (w.1, w.2, true).
Proof.
  intros Hs ns w. unfold subscribe_body. fold ns. rewrite run_access, count_context_run.
  cbn [fst snd]. destruct (subscription (subscribe_state s) ns cid) as [ctx|] eqn:E.
  - rewrite bool_decide_true, (subscribed_unchanged s ns cid ctx E) by eauto.
    change (mret () ≫= ?f) with (f ()). cbv beta.
    rewrite run_access, (context_of_found ns cid s ctx) by done. by apply runs_onSubscribe.
  - rewrite bool_decide_false, run_bind, new_subscription_run by (done || by intros []).
    rewrite run_access, (context_of_found ns cid _ (new_context s cid sid)) by
      (by apply tidy_subscribed || by apply subscribed_context). by apply runs_onSubscribe.
Qed.

(** What is done after the callback, for a context that is there. *)
Lemma forget_run h cid ns s a ctx :
  tidy s -> subscription (subscribe_state s) ns cid = Some ctx ->
  Threads.run h (forget cid ns) (s, a) = Some (Ret tt, (unsubscribed s ns cid, a), h).
Proof.
  intros [Hs Hi _] E. destruct (subscription_inv _ _ _ _ E) as (k0 & ctxs & k1 & Ef & Ec).
  unfold forget, unsubscribed. rewrite run_access, (context_id_at_found _ _ _ ctx) by done.
  rewrite (subscript_found _ _ _ _ _ Ef), (subscript_found _ _ _ _ _ Ec).
  rewrite run_access. cbn [modify]. rewrite run_access. cbn [modify subscribe_state with_subscribe_id_state].
  rewrite (subscript_found _ _ _ _ _ Ef), run_access.
  cbn [modify subscribe_state with_subscribe_id_state with_subscribe_state].
  rewrite (subscript_found (assign (subscribe_state s) ns (erase ctxs cid)) ns [] k0
    (erase ctxs cid)) by (unfold assign; by rewrite find_insert_node_same, Ef).
  destruct (0 <? Z.of_nat (length (erase ctxs cid))); done.
Qed.

Lemma unsubscribe_body_run cid ns s a :
  tidy s ->
  let found := subscription (subscribe_state s) ns cid in
  let s0 := match found with Some _ => s | None => phantom ns cid s end in
  let i := match found with Some ctx => sc_subscriber_id ctx | None => 0 end in
  let w := (onUnsubscribe ns i [];; on_server (modify (fun s => unsubscribed s ns cid))) (s0, a) in
  Threads.run true (unsubscribe_body cid ns) (s, a) = Some (w.1, w.2, true).
Proof.
  intros Hs found s0 i w.
  assert (exists ctx, context_of ns cid s = (Ret i, s0) /\ tidy s0 /\
    subscription (subscribe_state s0) ns cid = Some ctx) as (ctx & Eof & Hs0 & E0).
  { subst s0 i. destruct found as [ctx|] eqn:E; subst found.
    - exists ctx. by rewrite (context_of_found ns cid s ctx).
    - exists SubscribeContext_init. rewrite context_of_missing by done.
      split_and!; [done|by apply tidy_phantom|by apply phantom_subscription]. }
  unfold unsubscribe_body. rewrite run_access, Eof, run_bind, (runs_onUnsubscribe (Runs := R)) by done.
  subst w. unfold mbind, M_bind.
  pose proof (onUnsubscribe_frame ns i [] (s0, a) (tidy_publish_namespaces _ Hs0)) as Hf.
  destruct (onUnsubscribe ns i [] (s0, a)) as [[[]|e|] [s1 a1]]; [|done..]. cbn [fst snd] in *.
  rewrite (forget_run _ _ _ _ _ ctx); [done|by eapply tidy_frame|].
  by rewrite (frame_subscribe_state _ _ Hf).
Qed.

Lemma disconnect_entry_run h ns cid ctx ctxs s a :
  tidy s -> find (subscribe_state s) ns = Some (ns, ctxs) -> at_key ctxs cid = Some ctx ->
  Threads.run h (disconnect_entry ns cid []) (s, a) =
  (let w := drop_subscription (ns, ctx) (s, a) in
   Some (match w.1 with Ret _ => Ret [] | Throw e => Throw e | Undefined => Undefined end,
         w.2, h)).
Proof.
  intros Hs Ef Ec.
  assert (subscription (subscribe_state s) ns cid = Some ctx) as E
    by (unfold subscription; by rewrite Ef).
  unfold disconnect_entry. rewrite run_access, (context_id_at_found _ _ _ ctx) by done.
  rewrite run_bind, (straight_refines always true h _ _ (straight_onUnsubscribe (Runs := R) _ _ _)
    (runs_onUnsubscribe (Runs := R) _ _ _)) by done.
  rewrite drop_subscription_run. cbn [fst snd].
  pose proof (onUnsubscribe_frame ns (sc_subscriber_id ctx) [] (s, a)
    (tidy_publish_namespaces _ Hs)) as Hf.
  destruct (onUnsubscribe ns (sc_subscriber_id ctx) [] (s, a)) as [[[]|e|] [s1 a1]]; [|done..].
  cbn [fst snd] in *. pose proof (frame_subscribe_state _ _ Hf) as Es.
  rewrite run_access, (context_id_at_found _ _ _ ctx) by by rewrite Es.
  rewrite run_access. cbn [modify]. rewrite run_access. cbn [subscribe_state with_subscribe_id_state].
  rewrite Es, (element_found _ _ _ _ Ef). cbn [mbind result_bind mret result_ret].
  assert ((Z.of_nat (length ctxs) =? 0) = false) as -> by
    (apply Z.eqb_neq; destruct ctxs; [done|simpl; lia]). done.
Qed.

Lemma disconnect_visit_run pre post fuel cid s a :
  tidy s -> subscribe_state s = pre ++ post -> (length post <= fuel)%nat ->
  Threads.run true (disconnect_visit fuel (head post) cid []) (s, a) =
  (let w := mfor (targets post cid) drop_subscription (s, a) in Some (w.1, w.2, true)).
Proof.
  revert pre fuel s a. induction post as [|[ns ctxs] post IH]; intros pre fuel s a Hs Ess Hf.
  { by destruct fuel. }
  destruct fuel as [|fuel]; [cbn in Hf; lia|]. cbn [head disconnect_visit].
  assert (find (subscribe_state s) ns = Some (ns, ctxs)) as Ef.
  { apply find_in; [apply Hs|]. rewrite Ess. apply elem_of_app. right. by left. }
  assert (forall s' a', tidy s' -> subscribe_state s' = subscribe_state s ->
    Threads.run true (prog_for [] (fun ns' => wr Subscribe_state (on_server (modify (fun s =>
        with_subscribe_state (erase (subscribe_state s) ns') s))));;
      it' ← rd Subscribe_state (on_server (fun s => (next_entry (subscribe_state s) ns, s)));
      disconnect_visit fuel it' cid []) (s', a') =
    (let w := mfor (targets post cid) drop_subscription (s', a') in Some (w.1, w.2, true)))
    as Hnext.
  { intros s' a' Hs' E. cbn [prog_for]. change (mret () ≫= ?f) with (f ()). cbv beta.
    rewrite run_access, E, Ess, (next_entry_spec pre (ns, ctxs)) by
      (rewrite <- Ess; apply Hs).
    apply (IH (pre ++ [(ns, ctxs)])); [done|by rewrite E, <- app_assoc|cbn in Hf; lia]. }
  rewrite run_access, (element_found _ _ _ _ Ef). cbn [mbind result_bind mret result_ret].
  unfold targets. cbn [omap list_omap fst snd]. fold (targets post cid).
  rewrite contains_at_key. destruct (at_key ctxs cid) as [ctx|] eqn:Ec.
  - rewrite bool_decide_true by eauto. rewrite run_bind, (disconnect_entry_run _ _ _ ctx ctxs) by done.
    cbn [fmap option_fmap option_map mfor].
    pose proof (drop_subscription_tidy (ns, ctx) (s, a) Hs) as [Es Ht].
    destruct (drop_subscription (ns, ctx) (s, a)) as [[[]|e|] [s1 a1]] eqn:Ed.
    + rewrite (run_bind_ret _ _ _ _ _ Ed). by apply Hnext.
    + by rewrite (run_bind_throw _ _ _ _ _ Ed).
    + by rewrite (run_bind_undefined _ _ _ _ Ed).
  - rewrite bool_decide_false by by intros []. by apply Hnext.
Qed.

(** *** No lock inside *)

Ltac straight := repeat first
  [ done | apply straight_bind; [|intros ?] | apply straight_for; intros ?
  | apply straight_onSubscribe | apply straight_onUnsubscribe | apply straight_onPublishIntent
  | apply straight_onPublishIntentEnd | apply straight_onPublisherObject | case_match ].

Lemma straight_new_subscription ns cid sid : straight (new_subscription (A := A) ns cid sid).
Proof. unfold new_subscription. straight. Qed.
Lemma straight_subscribe_body cid sid m : straight (subscribe_body cid sid m).
Proof. unfold subscribe_body, new_subscription. straight. Qed.
Lemma straight_unsubscribe_body cid ns : straight (unsubscribe_body cid ns).
Proof. unfold unsubscribe_body, forget. straight. Qed.
Lemma straight_disconnect_body fuel cid : straight (disconnect_body fuel cid).
Proof.
  assert (forall k it l, straight (disconnect_visit k it cid l)) as H.
  { intros k. induction k as [|k IH]; intros [[ns ctxs]|] l; [done..| |done].
    cbn [disconnect_visit]. unfold disconnect_entry. straight. }
  unfold disconnect_body. straight.
Qed.

(** *** Each handler *)

Lemma alone_handle_subscribe cid sid msg :
  refines tidy_world false (handle_subscribe cid sid msg)
    (QuicRServer.handle_subscribe cid sid msg).
Proof.
  unfold handle_subscribe. destruct (get_Subscribe uninit_Subscribe msg).1 as [m|e|] eqn:Em.
  2-3: intros [s a] _; unfold QuicRServer.handle_subscribe, on_local, mbind, M_bind; by rewrite Em.
  change (Done (Ret m) ≫= ?f) with (f m). cbv beta.
  apply refines_locked; [apply straight_subscribe_body|]. intros [s a] Hs.
  by rewrite subscribe_body_run, (handle_subscribe_tidy _ _ _ _ _ m).
Qed.

Lemma tidy_subscript ns s : tidy s ->
  tidy (with_subscribe_state (subscript (subscribe_state s) ns []).2 s).
Proof.
  intros []. split; [by apply sorted_subscript|by apply inner_sorted_subscript|done].
Qed.

Lemma alone_handle_unsubscribe cid sid msg :
  refines tidy_world false (handle_unsubscribe cid sid msg)
    (QuicRServer.handle_unsubscribe cid sid msg).
Proof.
  unfold handle_unsubscribe. destruct (get_Unsubscribe uninit_Unsubscribe msg).1 as [m|e|] eqn:Em.
  2-3: intros [s a] _; unfold QuicRServer.handle_unsubscribe, on_local, mbind, M_bind; by rewrite Em.
  change (Done (Ret m) ≫= ?f) with (f m). cbv beta zeta. intros [s a] Hs.
  rewrite run_access, count_context_run, (handle_unsubscribe_tidy _ _ _ _ _ m) by done.
  destruct (subscription (subscribe_state s) (unsub_namespace m) cid) as [ctx|] eqn:E.
  - rewrite bool_decide_true, (subscribed_unchanged _ _ _ _ E) by eauto.
    apply (refines_locked (eq (s, a))); [apply straight_unsubscribe_body| |done].
    intros w <-. by rewrite unsubscribe_body_run, E.
  - by rewrite bool_decide_false by by intros [].
Qed.

Lemma publish_context_run h cid sid n s a :
  let w := on_server (A := A) (fun s =>
    if negb (contains_key (publish_state s) n) then
      let context := mkPublishContext Unknown cid sid 0 0 0 in
      (Ret context, with_publish_state (assign (publish_state s) n context) s)
    else
      let '(context, m) := subscript (publish_state s) n PublishContext_init in
      (Ret context, with_publish_state m s)) (s, a) in
  Threads.run h (publish_context cid sid n) (s, a) = Some (w.1, w.2, h) /\
  exists context st, w = (Ret context, (with_publish_state st s, a)).
Proof.
  intros w. subst w. unfold publish_context. rewrite run_access. cbn [gets].
  unfold on_server. cbn [fst snd].
  destruct (contains_key (publish_state s) n); cbn [negb]; cbn.
  - destruct (subscript _ _ _) as [context st]. eauto.
  - eauto.
Qed.

Lemma alone_handle_publish cid sid msg :
  refines always false (handle_publish cid sid msg) (QuicRServer.handle_publish cid sid msg).
Proof.
  intros [s a] _. unfold handle_publish, QuicRServer.handle_publish, on_local.
  destruct (get_PublishDatagram msg).1 as [d|e|]; [|done..].
  change (Done (Ret d) ≫= ?f) with (f d). cbv beta zeta. rewrite run_access.
  rewrite (run_bind_ret _ _ _ (s, a) d), (run_bind_ret _ _ _ (s, a) (s, a)) by done. cbn [fst].
  destruct (find_publish_namespace (publish_namespaces s) (name (header d))) as [[p|]|e|] eqn:Ef;
    [|by cbv [mbind M_bind lift]..].
  destruct (publish_context_run false cid sid (name (header d)) s a) as [Er (context & st & Ec)].
  rewrite run_bind_lift, run_bind, Er, Ec, (run_bind_ret _ _ _ _ _ Ec).
  by apply runs_onPublisherObject.
Qed.

Lemma alone_handle_publish_intent cid sid msg :
  refines always false (handle_publish_intent cid sid msg)
    (QuicRServer.handle_publish_intent cid sid msg).
Proof.
  intros [s a] _. unfold handle_publish_intent, QuicRServer.handle_publish_intent, on_local.
  destruct (get_PublishIntent msg).1 as [m|e|]; [|done..].
  change (Done (Ret m) ≫= ?f) with (f m). cbv beta zeta. rewrite run_access. cbn [gets].
  rewrite run_access. cbn [modify].
  rewrite (runs_onPublishIntent (Runs := R)) by done.
  unfold mbind, M_bind, on_server, modify. cbn [fst snd].
  destruct (contains_key (publish_namespaces s) (pi_namespace m)) eqn:E; cbn [negb]; [|done].
  destruct (subscript_contains _ _ PublishIntentContext_init E) as (k0 & v & _ & ->).
  by destruct s.
Qed.

Lemma alone_handle_publish_intent_end cid sid msg :
  refines always false (handle_publish_intent_end cid sid msg)
    (QuicRServer.handle_publish_intent_end cid sid msg).
Proof.
  intros [s a] _. unfold handle_publish_intent_end, QuicRServer.handle_publish_intent_end, on_local.
  destruct (get_PublishIntentEnd msg).1 as [m|e|]; [|done..].
  change (Done (Ret m) ≫= ?f) with (f m). cbv beta zeta. rewrite run_access. cbn [gets].
  rewrite (run_bind_ret _ _ _ (s, a) m), (run_bind_ret _ _ _ (s, a) (s, a)) by done. cbn [fst].
  destruct (contains_key (publish_namespaces s) (pie_namespace m)) eqn:E; cbn [negb]; [|done].
  rewrite run_access. cbn [modify]. rewrite run_access. cbn [publish_state with_publish_namespaces].
  unfold mbind, M_bind, on_server, modify, lift. cbn [fst snd].
  destruct (erase_contained (pie_namespace m) (publish_state s)) as [ps|e|]; [|done..].
  by apply runs_onPublishIntentEnd.
Qed.

Lemma alone_server_connection_status fuel cid st :
  refines tidy_world false (on_connection_status fuel cid st)
    (QuicRServer.on_connection_status cid st).
Proof.
  intros [s a] Hs. rewrite on_connection_status_run by done. unfold on_connection_status.
  case_decide; [|done]. apply (refines_locked (eq (s, a))); [apply straight_disconnect_body| |done].
  intros w <-. unfold disconnect_body. rewrite run_access. cbn [gets].
  rewrite (disconnect_visit_run []) by (done || lia). done.
Qed.

Lemma alone_dispatch cid sid msg :
  refines tidy_world false (dispatch cid sid msg) (QuicRServer.dispatch cid sid msg).
Proof.
  destruct msg as [|front rest]; [by intros w|]. unfold dispatch, QuicRServer.dispatch.
  destruct (enum_of_u8 front); try by intros w.
  - apply alone_handle_subscribe.
  - apply alone_handle_unsubscribe.
  - apply refines_always, alone_handle_publish.
  - apply refines_always, alone_handle_publish_intent.
  - apply refines_always, alone_handle_publish_intent_end.
Qed.

Lemma alone_on_recv_notify_loop n cid sid s a :
  wf s -> subscriber_id s + Z.of_nat n < 2 ^ 64 ->
  Threads.run false (on_recv_notify_loop n cid sid) (s, a) =
  (let w := QuicRServer.on_recv_notify_loop n cid sid (s, a) in Some (w.1, w.2, false)).
Proof.
  revert s a. induction n as [|n IH]; intros s a Hw Hc; [done|].
  rewrite on_recv_notify_loop_step. cbn [on_recv_notify_loop]. rewrite run_access.
  unfold dequeue.
  destruct (dequeue_from cid sid (rx s)) as [[data q]|]; [|done].
  assert (wf (with_rx q s)) as Hw1 by (destruct Hw; by split).
  pose proof (dispatch_progress cid sid data (with_rx q s, a) Hw1) as Hp.
  rewrite run_bind, run_catch, alone_dispatch by by apply wf_tidy.
  unfold mbind, M_bind, try_catch.
  destruct (QuicRServer.dispatch cid sid data (with_rx q s, a)) as [[[]|e|] [s2 a2]];
    cbn [fst snd mret M_ret] in *; (destruct Hp as [Hw2 _ Hc2 _]; [cbn; lia|]; cbn in Hc2);
    [apply IH; [done|lia]|apply IH; [done|lia]|done].
Qed.

(** *** The handlers that run under the mutex as a whole *)

Inductive locked_handler : forall X : Type, code A X -> M (world A) X -> Prop :=
  | locked_subscribe cid sid msg m :
      (get_Subscribe uninit_Subscribe msg).1 = Ret m ->
      locked_handler unit (subscribe_body cid sid m) (QuicRServer.handle_subscribe cid sid msg)
  | locked_disconnect fuel cid :
      locked_handler unit (disconnect_body fuel cid)
        (QuicRServer.on_connection_status cid Disconnected).

Lemma locked_handler_straight X p m : locked_handler X p m -> straight p.
Proof. destruct 1; [apply straight_subscribe_body|apply straight_disconnect_body]. Qed.

Lemma locked_handler_alone X p m : locked_handler X p m -> refines tidy_world true p m.
Proof.
  destruct 1 as [cid sid msg m Em|fuel cid]; intros [s a] Hs.
  - by rewrite subscribe_body_run, (handle_subscribe_tidy _ _ _ _ _ m).
  - rewrite on_connection_status_run, decide_True by done.
    unfold disconnect_body. rewrite run_access. cbn [gets].
    rewrite (disconnect_visit_run []) by (done || lia). done.
Qed.

Lemma drop_subscriptions_tidy l (w : world A) :
  tidy w.1 -> tidy (mfor l drop_subscription w).2.1.
Proof.
  revert w. induction l as [|p l IH]; intros w Hw; [done|]. cbn [mfor].
  destruct (drop_subscription_tidy p w Hw) as [_ Hw1]. unfold mbind, M_bind.
  destruct (drop_subscription p w) as [[[]|e|] w1]; [by apply IH|done..].
Qed.

Lemma locked_handler_keeps X p m w : locked_handler X p m -> tidy_world w -> tidy_world (m w).2.
Proof.
  destruct 1 as [cid sid msg m Em|fuel cid]; destruct w as [s a]; intros Hs; unfold tidy_world.
  - rewrite (handle_subscribe_tidy _ _ _ _ _ m) by done. case_match.
    + eapply tidy_frame; [|by apply onSubscribe_frame, Hs]. done.
    + eapply tidy_frame; [|apply onSubscribe_frame; cbn; apply Hs]. by apply tidy_subscribed.
  - rewrite on_connection_status_run, decide_True by done. by apply drop_subscriptions_tidy.
Qed.

(** Threads that handle such messages only. *)
Inductive subscription_thread : code A unit -> Prop :=
  | subscription_end r : subscription_thread (Done r)
  | subscription_message cid sid msg p :
      subscription_thread p -> subscription_thread (handle_subscribe cid sid msg;; p)
  | subscription_lost fuel cid st p :
      subscription_thread p -> subscription_thread (on_connection_status fuel cid st;; p).

Lemma subscription_thread_caller p : subscription_thread p -> caller locked_handler p.
Proof.
  induction 1 as [r|cid sid msg p _ IH|fuel cid st p _ IH]; [apply caller_end|..].
  - unfold handle_subscribe. destruct (get_Subscribe uninit_Subscribe msg).1 as [m|e|] eqn:Em;
      [|apply caller_end..].
    by eapply (caller_call locked_handler unit); [apply (locked_subscribe cid sid msg m)|].
  - unfold on_connection_status. case_decide; [|done].
    by eapply (caller_call locked_handler unit); [apply locked_disconnect|].
Qed.

(** *** Threads that run callbacks of the transport and public operations *)

Inductive callbacks : code A unit -> Prop :=
  | callbacks_end r : callbacks (Done r)
  | callbacks_data cid sid p : callbacks p -> callbacks (on_recv_notify cid sid;; p)
  | callbacks_status fuel cid st p :
      callbacks p -> callbacks (on_connection_status fuel cid st;; p)
  | callbacks_application (q : code A unit) p : straight q -> callbacks p -> callbacks (q;; p).

Abbreviation follows_all h := (follows always True (fun _ _ => True) h h).

Lemma straight_all {X} h (p : code A X) : straight p -> follows_all h p.
Proof. intros Hp. by eapply follows_weaken, straight_follows. Qed.

Lemma dispatch_all cid sid data : follows_all false (dispatch cid sid data).
Proof.
  destruct data as [|front rest]; [done|]. unfold dispatch. set (msg := front :: rest).
  destruct (enum_of_u8 front); try done.
  - apply follows_bind; [done|]. intros m.
    by apply follows_with_lock, straight_all, straight_subscribe_body.
  - apply follows_bind; [done|]. intros m. apply follows_bind; [done|]. intros [|]; [|done].
    by apply follows_with_lock, straight_all, straight_unsubscribe_body.
  - apply straight_all. unfold handle_publish, publish_context. straight.
  - apply straight_all. unfold handle_publish_intent. straight.
  - apply straight_all. unfold handle_publish_intent_end. straight.
Qed.

Lemma callbacks_all p : callbacks p -> follows_all false p.
Proof.
  induction 1; [done|..]; (apply follows_bind; [|done]).
  - unfold on_recv_notify. generalize 150%nat. intros n. induction n as [|n IH]; [done|].
    cbn [on_recv_notify_loop]. apply follows_bind; [done|]. intros [data|]; [|done].
    apply follows_bind; [|by intros]. apply follows_catch; [apply dispatch_all|].
    by intros e k [= <-].
  - unfold on_connection_status. case_match; [|done].
    by apply follows_with_lock, straight_all, straight_disconnect_body.
  - by apply straight_all.
Qed.

(** A handler of an unsubscribe message, past its test. *)
Lemma unsubscribe_past_test i cid sid msg m s a ctx ps :
  subscription (subscribe_state s) (unsub_namespace m) cid = Some ctx ->
  (get_Unsubscribe uninit_Unsubscribe msg).1 = Ret m ->
  ps !! i = Some (handle_unsubscribe cid sid msg) ->
  moves (mkConfig (S := world A) (s, a) None ps)
    (mkConfig (S := world A) (s, a) None (<[i := with_lock (unsubscribe_body cid (unsub_namespace m))]> ps)).
Proof.
  intros E Em Hp. exists i. unfold perform. cbn [threads memory owner]. rewrite Hp.
  unfold handle_unsubscribe. rewrite Em. cbn -[count_context unsubscribe_body].
  unfold on_server. cbn [fst snd].
  rewrite !count_context_run, (subscribed_unchanged _ _ _ _ E), E. cbn [fst snd].
  by rewrite bool_decide_true by eauto.
Qed.

Lemma unsubscribe_rest cid ns s a s1 a1 :
  tidy s ->
  (onUnsubscribe ns (match subscription (subscribe_state s) ns cid with
                     | Some ctx => sc_subscriber_id ctx | None => 0 end) []
     (match subscription (subscribe_state s) ns cid with
      | Some _ => s | None => phantom ns cid s end, a)) = (Ret tt, (s1, a1)) ->
  Threads.run false (with_lock (unsubscribe_body cid ns)) (s, a)
  = Some (Ret tt, (unsubscribed s1 ns cid, a1), false).
Proof.
  intros Hs Hcall.
  apply (refines_locked (eq (s, a)) _ (fun _ => (Ret tt, (unsubscribed s1 ns cid, a1))));
    [apply straight_unsubscribe_body| |done].
  intros w <-. rewrite unsubscribe_body_run by done.
  by rewrite (run_bind_ret _ _ _ _ _ Hcall).
Qed.

(** The rest of a handler whose connection is subscribed, which is what the handler
    does, and of one whose connection is not subscribed any more. *)
Lemma unsubscribe_rest_found cid m s a ctx :
  wf s -> let ns := unsub_namespace m in
  subscription (subscribe_state s) ns cid = Some ctx ->
  (onUnsubscribe ns (sc_subscriber_id ctx) [] (s, a)).1 = Ret tt ->
  exists s' a', Threads.run false (with_lock (unsubscribe_body cid ns)) (s, a)
                = Some (Ret tt, (s', a'), false) /\
    (forall sid msg, (get_Unsubscribe uninit_Unsubscribe msg).1 = Ret m ->
       QuicRServer.handle_unsubscribe cid sid msg (s, a) = (Ret tt, (s', a'))) /\
    wf s' /\ subscription (subscribe_state s') ns cid = None /\
    subscribe_id_state s' = erase (subscribe_id_state s) (sc_subscriber_id ctx).
Proof.
  intros Hw ns E Hr.
  pose proof (onUnsubscribe_frame ns (sc_subscriber_id ctx) [] (s, a)
    (wf_publish_namespaces _ Hw)) as Hf.
  destruct (onUnsubscribe ns (sc_subscriber_id ctx) [] (s, a)) as [r0 [s1 a1]] eqn:E1.
  cbn [fst snd] in *. subst r0. pose proof (wf_frame _ _ Hw Hf) as Hw1.
  exists (unsubscribed s1 ns cid), a1. split_and!.
  - apply unsubscribe_rest; [by apply wf_tidy|]. by rewrite E.
  - intros sid msg Em. rewrite (handle_unsubscribe_tidy _ _ _ _ _ m) by (done || by apply wf_tidy).
    fold ns. rewrite E, (subscribed_unchanged _ _ _ _ E). by rewrite (run_bind_ret _ _ _ _ _ E1).
  - by apply unsubscribed_wf.
  - by rewrite unsubscribed_subscription, equiv_key_refl.
  - rewrite (unsubscribed_ids _ _ _ ctx) by by rewrite (frame_subscribe_state _ _ Hf).
    by rewrite (frame_subscribe_id_state _ _ Hf).
Qed.

Lemma unsubscribe_rest_missing cid ns s a :
  tidy s -> subscription (subscribe_state s) ns cid = None ->
  (forall w, (onUnsubscribe ns 0 [] w).1 = Ret tt) ->
  exists s' a', Threads.run false (with_lock (unsubscribe_body cid ns)) (s, a)
                = Some (Ret tt, (s', a'), false) /\
    subscribe_id_state s' = erase (subscribe_id_state s) 0.
Proof.
  intros Hs E Hr. specialize (Hr (phantom ns cid s, a)).
  pose proof (onUnsubscribe_frame ns 0 [] (phantom ns cid s, a)
    (tidy_publish_namespaces _ (tidy_phantom ns cid s Hs))) as Hf.
  destruct (onUnsubscribe ns 0 [] (phantom ns cid s, a)) as [r0 [s1 a1]] eqn:E1.
  cbn [fst snd] in *. subst r0. exists (unsubscribed s1 ns cid), a1. split.
  - apply unsubscribe_rest; [done|]. by rewrite E.
  - rewrite (unsubscribed_ids _ _ _ SubscribeContext_init) by
      (rewrite (frame_subscribe_state _ _ Hf); by apply phantom_subscription).
    rewrite (frame_subscribe_id_state _ _ Hf). unfold phantom.
    by destruct (subscript (subscribe_state s) ns []).
Qed.
End bodies.

(** C18: Run alone, each callback of the transport and each public operation of the
    server does, access by access, what the corresponding step of [Server] does:
    it ends with the same outcome, the same state, and the mutex free. *)
Theorem handlers_run_alone {T : Target} {Tr : ITransport} {A} {D : ServerDelegate A}
    {C : DelegateCode A} {R : Runs D C} {L : LawfulDelegate A} w cid sid fuel st msg :
  wf w.1 -> subscriber_id w.1 + 150 < 2 ^ 64 ->
  let same (p : code A unit) m := Threads.run false p w = Some ((m w).1, (m w).2, false) in
  same (dispatch cid sid msg) (QuicRServer.dispatch cid sid msg) /\
  same (on_recv_notify cid sid) (QuicRServer.on_recv_notify cid sid) /\
  same (on_connection_status fuel cid st) (QuicRServer.on_connection_status cid st) /\
  forall i ns rp r reason b d,
    same (publishIntentResponse ns rp) (on_server (QuicRServer.publishIntentResponse ns rp)) /\
    same (subscribeResponse i ns r) (on_server (QuicRServer.subscribeResponse i ns r)) /\
    same (subscriptionEnded i ns reason)
      (on_server (QuicRServer.subscriptionEnded i ns reason)) /\
    same (sendNamedObject i b d) (on_server (QuicRServer.sendNamedObject i b d)).
Proof.
  intros Hw Hc same. subst same. cbv beta. destruct w as [s a]. cbn [fst] in *.
  pose proof (wf_tidy _ Hw) as Ht.
  split; [by apply alone_dispatch|]. split; [by apply alone_on_recv_notify_loop|].
  split; [by apply alone_server_connection_status|]. intros i ns rp r reason b d.
  split_and!; by (apply alone_publishIntentResponse || apply alone_to_subscriber).
Qed.

(** A delegate for the examples: it notes its calls and answers them. *)
#[export] Instance RecorderCode {T : Target} : DelegateCode (list Call) :=
  {| run_onPublishIntent ns _ _ _ payload :=
       wr Application (note (Call_onPublishIntent ns payload));;
       publishIntentResponse ns (mkPublishIntentResult Response.Ok RelayInfo_init (mkName 0 0));
     run_onPublishIntentEnd ns _ payload :=
       wr Application (note (Call_onPublishIntentEnd ns payload));; io (on_server (mret tt));
     run_onPublisherObject cid sid _ d :=
       wr Application (note (Call_onPublisherObject cid sid d));; io (on_server (mret tt));
     run_onSubscribe ns i cid sid _ _ _ _ _ :=
       wr Application (note (Call_onSubscribe ns i cid sid));;
       subscribeResponse i ns (mkSubscribeResult SubscribeStatus.Ok [] None RelayInfo_init);
     run_onUnsubscribe ns i _ :=
       wr Application (note (Call_onUnsubscribe ns i));;
       subscriptionEnded i ns SubscribeStatus.Ok |}.

Lemma straight_to_subscriber {T : Target} {A} i writer : straight (to_subscriber (A := A) i writer).
Proof. unfold to_subscriber. repeat (done || (apply straight_bind; [|intros ?]) || case_match). Qed.
Lemma straight_publishIntentResponse {T : Target} {A} ns r :
  straight (publishIntentResponse (A := A) ns r).
Proof.
  unfold publishIntentResponse. repeat (done || (apply straight_bind; [|intros ?]) || case_match).
Qed.

#[export] Instance RecorderRuns {T : Target} : Runs Recorder RecorderCode.
Proof.
  split; intros;
    try (apply straight_bind; [done|intros _];
         apply straight_publishIntentResponse || apply straight_to_subscriber || done);
    (eapply refines_bind with anything; [apply refines_atomic|apply preserves_always|intros _ _]);
    apply alone_publishIntentResponse || apply alone_to_subscriber || apply refines_atomic.
Qed.

Lemma handlers_run_alone_witness :
  let T := strict_little in let Tr := FakeTransport in
  Threads.run false (on_recv_notify 7 9) demo_arrived
  = Some ((QuicRServer.on_recv_notify 7 9 demo_arrived).1,
          (QuicRServer.on_recv_notify 7 9 demo_arrived).2, false).
Proof.
  intros T Tr. destruct (handlers_run_alone (T := strict_little) (Tr := FakeTransport)
    (R := RecorderRuns (T := strict_little)) (L := Recorder_lawful (T := strict_little))
    demo_arrived 7 9 0 FakeReady []) as (_ & H & _).
  - destruct server_wf_init. by split.
  - reflexivity.
  - exact H.
Defined.

(** C17: Subscribe messages and lost connections are handled atomically: for any
    number of threads that handle them, every moment of every interleaving at
    which the mutex is free is one that whole handlers of [Server] lead to, made
    one after the other in an order that keeps the order of each thread. *)
Theorem subscriptions_linearizable {T : Target} {Tr : ITransport} {A} {D : ServerDelegate A}
    {C : DelegateCode A} {R : Runs D C} {L : LawfulDelegate A} (w : world A) ps c :
  tidy w.1 -> Forall subscription_thread ps -> rtc moves (spawn w ps) c -> owner c = None ->
  rtc (call_step locked_handler) (w, ps) (memory c, threads c) /\ tidy (memory c).1.
Proof.
  intros Hw Hps Hr Ho.
  apply (calls_serializable locked_handler tidy_world) with (1 := locked_handler_straight)
    (2 := locked_handler_alone) (3 := locked_handler_keeps); try done.
  eapply Forall_impl; [apply subscription_thread_caller|exact Hps].
Qed.

(** Two connections subscribe while the first is lost. *)
Definition demo_threads {T : Target} : list (code (list Call) unit) :=
  [handle_subscribe 7 9 (encoded (put_Subscribe demo_subscribe));;
   on_connection_status (Tr := FakeTransport) 0 7 FakeDisconnected;; mret tt;
   handle_subscribe 8 9 (encoded (put_Subscribe demo_subscribe));; mret tt].

Lemma subscriptions_linearizable_witness :
  let T := strict_little in
  let c0 := spawn (QuicRServer.init, []) demo_threads in
  let c := default c0 (exec (repeat 0%nat 13 ++ repeat 1%nat 13 ++ repeat 0%nat 14) c0) in
  owner c = None /\
  rtc (call_step (locked_handler (T := strict_little) (Tr := FakeTransport)))
    ((QuicRServer.init, []), demo_threads) (memory c, threads c) /\ tidy (memory c).1.
Proof.
  intros T c0 c. split; [vm_compute; reflexivity|].
  apply (subscriptions_linearizable (T := strict_little) (Tr := FakeTransport)
    (R := RecorderRuns (T := strict_little)) (L := Recorder_lawful (T := strict_little))
    (QuicRServer.init, []) demo_threads c).
  - apply wf_tidy, server_wf_init.
  - repeat constructor.
  - apply exec_reaches. vm_compute. reflexivity.
  - vm_compute. reflexivity.
Defined.

(** C16: The test of [handle_unsubscribe] is made before it locks: two threads that
    handle an unsubscribe message of one connection for one namespace can both
    pass it.  Then the second finds no context, makes one with subscriber id 0,
    and takes id 0 from the table: the first subscription of the server, of
    whatever connection and namespace, gets no object any more.  Handled one after
    the other the messages leave id 0 alone. *)
Theorem unsubscribe_twice_takes_first_id {T : Target} `{!LittleEndian} {Tr : ITransport} {A}
    {D : ServerDelegate A} {C : DelegateCode A} {R : Runs D C} {L : LawfulDelegate A}
    u rest rest' cid sid sid' (w : world A) ctx :
  wf w.1 -> ok_Unsubscribe u ->
  subscription (subscribe_state w.1) (unsub_namespace u) cid = Some ctx ->
  sc_subscriber_id ctx <> 0 ->
  (forall i w', (onUnsubscribe (unsub_namespace u) i [] w').1 = Ret tt) ->
  let msg rest := encoded (put_Unsubscribe u) ++ rest in
  let ids (w : world A) := subscribe_id_state w.1 in
  (let w1 := (QuicRServer.handle_unsubscribe cid sid (msg rest) w).2 in
   at_key (ids (QuicRServer.handle_unsubscribe cid sid' (msg rest') w1).2) 0 = at_key (ids w) 0) /\
  exists c, rtc moves (spawn w [handle_unsubscribe cid sid (msg rest);
                                handle_unsubscribe cid sid' (msg rest')]) c /\
    Forall is_done (threads c) /\ owner c = None /\ at_key (ids (memory c)) 0 = None.
Proof.
  intros Hw Hu E Hne Hcall msg ids. destruct w as [s a]. cbn [fst] in *.
  set (ns := unsub_namespace u) in *.
  assert (forall rest, (get_Unsubscribe uninit_Unsubscribe (msg rest)).1 = Ret (mkUnsubscribe 0 ns))
    as Em.
  { intros r. unfold msg. destruct (encoded_wire _ _ (put_Unsubscribe_wire u)) as [_ ->].
    by rewrite (get_Unsubscribe_wire native_little uninit_Unsubscribe u Hu r). }
  clearbody msg.
  destruct (unsubscribe_rest_found cid (mkUnsubscribe 0 ns) s a ctx Hw E (Hcall _ _))
    as (s1 & a1 & Hrun & Hstep & Hw1 & E1 & Ei). cbn [unsub_namespace] in *.
  pose proof (wf_tidy _ Hw1) as Ht1.
  destruct (unsubscribe_rest_missing cid ns s1 a1 Ht1 E1 (Hcall 0)) as (s2 & a2 & Hrun2 & Ei2).
  split.
  - rewrite (Hstep sid _ (Em rest)). cbn [snd].
    rewrite (handle_unsubscribe_tidy _ _ _ _ _ _ Ht1 (Em rest')). cbn [unsub_namespace].
    rewrite E1. unfold ids. cbn [fst snd subscribe_id_state with_subscribe_state].
    rewrite Ei, at_key_erase by apply Hw. rewrite decide_False by congruence. done.
  - eexists. split.
    + eapply rtc_l; [apply (unsubscribe_past_test 0 cid sid _ (mkUnsubscribe 0 ns) s a ctx _ E (Em rest)); done|].
      eapply rtc_l; [apply (unsubscribe_past_test 1 cid sid' _ (mkUnsubscribe 0 ns) s a ctx _ E (Em rest')); done|].
      etrans; [by apply (run_moves 0 false _ _ _ _ false _ Hrun)|].
      by apply (run_moves 1 false _ _ _ _ false _ Hrun2).
    + cbn. split_and!; [by repeat constructor|done|]. unfold ids. cbn [fst].
      rewrite Ei2, at_key_erase by apply Hw1. by rewrite decide_True.
Qed.

(** Connection 8 unsubscribes on two streams; id 0 is connection 7's. *)
Lemma unsubscribe_twice_takes_first_id_witness :
  let T := strict_little in
  let msg rest := encoded (put_Unsubscribe (mkUnsubscribe 0 demo_ns)) ++ rest in
  exists c, rtc moves (spawn (demo_crowd, []) [handle_unsubscribe 8 9 (msg []);
                                               handle_unsubscribe 8 10 (msg [])]) c /\
    Forall is_done (threads c) /\ owner c = None /\
    at_key (subscribe_id_state demo_crowd) 0 = Some (mkSubscribeContext Unknown 7 9 0 0) /\
    at_key (subscribe_id_state (memory c).1) 0 = None.
Proof.
  intros T msg.
  destruct (unsubscribe_twice_takes_first_id (T := strict_little) (Tr := FakeTransport)
    (R := RecorderRuns (T := strict_little)) (L := Recorder_lawful (T := strict_little))
    (mkUnsubscribe 0 demo_ns) [] [] 8 9 10 (demo_crowd, [])
    (mkSubscribeContext Unknown 8 9 0 1)) as (_ & c & Hc & Hd & Ho & Hi).
  - apply demo_crowd_wf.
  - repeat split; vm_compute; congruence.
  - vm_compute. reflexivity.
  - discriminate.
  - intros i [s a]. unfold onUnsubscribe, Recorder. unfold mbind, M_bind, note, on_app, modify.
    unfold on_server, QuicRServer.subscriptionEnded. cbn [fst snd].
    by rewrite (to_subscriber_run _ _ _ _ (put_SubscribeEnd_wire _)).
  - exists c. split; [exact Hc|]. split; [exact Hd|]. split; [exact Ho|].
    split; [vm_compute; reflexivity|exact Hi].
Defined.

(** That test touches the map of subscriptions without the mutex: whatever the state, a thread
    that handles an unsubscribe message and one that handles a subscribe message
    can be about to access the map at once, the second to write it. *)
Theorem unsubscribe_races_with_subscribe {T : Target} `{!LittleEndian} {Tr : ITransport} {A}
    {D : ServerDelegate A} {C : DelegateCode A} u m rest rest' cid sid cid' sid' (w : world A) :
  ok_Unsubscribe u -> ok_Subscribe m ->
  exists c, rtc moves (spawn w
    [handle_unsubscribe cid sid (encoded (put_Unsubscribe u) ++ rest);
     handle_subscribe cid' sid' (encoded (put_Subscribe m) ++ rest')]) c /\ racy c.
Proof.
  intros Hu Hm. unfold handle_unsubscribe, handle_subscribe.
  destruct (encoded_wire _ _ (put_Unsubscribe_wire u)) as [_ ->].
  destruct (encoded_wire _ _ (put_Subscribe_wire m)) as [_ ->].
  rewrite (get_Unsubscribe_wire native_little uninit_Unsubscribe u Hu rest).
  rewrite (get_Subscribe_wire native_little uninit_Subscribe m Hm rest').
  eexists. split; [eapply rtc_l; [by exists 1%nat|apply rtc_refl]|].
  cbn. exists 0%nat, 1%nat. do 4 eexists. exists Subscribe_state. split_and!; try done; by left.
Qed.

Lemma unsubscribe_races_with_subscribe_witness :
  let T := strict_little in
  exists c, rtc moves (spawn (demo_server, [])
    [handle_unsubscribe 7 9 (encoded (put_Unsubscribe (mkUnsubscribe 0 demo_ns)) ++ []);
     handle_subscribe 8 9 (encoded (put_Subscribe demo_subscribe) ++ [])]) c /\ racy c.
Proof.
  intros T. apply (unsubscribe_races_with_subscribe (Tr := FakeTransport) (D := Recorder)).
  - repeat split; vm_compute; congruence.
  - apply ok_demo_subscribe.
Defined.

(** C19: The server's callbacks do not block each other for ever: for any number of
    threads that run callbacks of the transport, of any data, and public
    operations, with a delegate that calls public operations under the mutex and
    outside, no interleaving makes a thread lock the mutex it holds; every
    interleaving ends; and, unless a walk over the subscriptions was cut off, it
    ends with all threads done and the mutex free. *)
Theorem callbacks_never_deadlock {T : Target} {Tr : ITransport} {A} {D : ServerDelegate A}
    {C : DelegateCode A} {R : Runs D C} (w : world A) ps c :
  (forall i p, ps !! i = Some p -> callbacks p) -> rtc moves (spawn w ps) c ->
  ~ relocks c /\ Acc (flip moves) c /\
  ((forall p, p ∈ threads c -> p <> Busy) ->
   (exists c', moves c c') \/ (owner c = None /\ Forall is_done (threads c))).
Proof.
  intros Hps Hr.
  assert (disciplined always True (fun _ _ _ => True) c) as Hd.
  { eapply disciplined_reachable; [|exact Hr]. apply disciplined_start; [done|].
    intros i p Hp. by eapply callbacks_all, Hps. }
  split_and!; [by eapply no_relock|apply schedules_end|]. intros Hb.
  by apply (Threads.progress always True (fun _ _ _ => True)).
Qed.

Lemma callbacks_never_deadlock_witness :
  let T := strict_little in
  let c0 := spawn demo_arrived
    [on_recv_notify 7 9;; mret tt; on_connection_status (Tr := FakeTransport) 0 7 FakeDisconnected;; mret tt;
     sendNamedObject 0 false demo_object;; mret tt] in
  let c := default c0 (exec [0; 2; 0; 0; 0; 0; 0; 0; 0; 0; 0; 0; 0; 0; 0; 1; 0; 1]%nat c0) in
  owner c = Some 1%nat /\ ~ relocks c /\ Acc (flip moves) c /\
  ((forall p, p ∈ threads c -> p <> Busy) ->
   (exists c', moves c c') \/ (owner c = None /\ Forall is_done (threads c))).
Proof.
  intros T c0 c. split; [vm_compute; reflexivity|].
  apply (callbacks_never_deadlock (T := strict_little) (Tr := FakeTransport)
    (R := RecorderRuns (T := strict_little)) demo_arrived (threads c0) c).
  - intros [|[|[|i]]] p Hp; [apply (inj Some) in Hp as <-..|done].
    + apply callbacks_data, callbacks_end.
    + apply callbacks_status, callbacks_end.
    + apply callbacks_application; [apply straight_to_subscriber|apply callbacks_end].
  - apply exec_reaches. vm_compute. reflexivity.
Defined.
End ServerThreads.
