(* ===== verification/Subscriptions.v ===== *)
(** * Subscriptions of the relay (cmd/really/subscription.h, subscription.cpp)

    The relay keeps, for each prefix length from 0 to 128, a map from prefixes
    to the set of the remotes that asked for them. *)

From S2P Require Export StdMap.

Module Subscriptions.

Record Remote := mkRemote {
  subscribe_id : Z;
  context_id : Z;
  stream_id : Z;
}.

#[export] Instance Remote_eq_dec : EqDecision Remote.
Proof. solve_decision. Defined.

Definition remote_eqb (a b : Remote) : bool :=
  ((subscribe_id a =? subscribe_id b) && (context_id a =? context_id b)
   && (stream_id a =? stream_id b))%bool.

(** [std::tie(...) < std::tie(...)] *)
Definition remote_ltb (a b : Remote) : bool :=
  if subscribe_id a <? subscribe_id b then true
  else if subscribe_id b <? subscribe_id a then false
  else if context_id a <? context_id b then true
  else if context_id b <? context_id a then false
  else stream_id a <? stream_id b.

#[export] Instance Remote_less : Less Remote := remote_ltb.

Ltac remote_cases :=
  unfold less, Remote_less, remote_ltb; intros;
  repeat match goal with
  | H : context [?x <? ?y] |- _ => destruct (Z.ltb_spec x y)
  | |- context [?x <? ?y] => destruct (Z.ltb_spec x y)
  end; try done; try lia.

#[export] Instance Remote_swo : StrictWeakOrder Remote.
Proof. split; remote_cases; (left; done) || (right; done). Qed.
#[export] Instance Remote_total : LessTotal Remote.
Proof.
  intros [a b c] [a' b' c']. rewrite equiv_key_spec. intros [H1 H2]. revert H1 H2.
  unfold less, Remote_less, remote_ltb. simpl.
  destruct (Z.ltb_spec a a'), (Z.ltb_spec a' a), (Z.ltb_spec b b'), (Z.ltb_spec b' b); try done.
  intros ?%Z.ltb_ge ?%Z.ltb_ge. f_equal; lia.
Qed.

(** [std::set<Remote>] *)
Abbreviation remotes := (list (Remote * unit)).
Definition set_insert (s : remotes) (r : Remote) : remotes := emplace s r tt.
Definition members (s : remotes) : list Remote := map fst s.

Abbreviation t := (list (list (Name * remotes))).
(** The constructor: [subscriptions.resize(129)]. *)
Definition init : t := replicate 129 [].

(** [subscriptions[len]]; an index out of range is undefined. *)
Definition level (s : t) (len : Z) : result (list (Name * remotes)) :=
  if len <? 0 then Undefined
  else match s !! Z.to_nat len with Some m => Ret m | None => Undefined end.

Section operations.
Context {T : Target}.

Definition add (name : Name) (len : Z) (remote : Remote) : M t unit :=
  prefix ← lift (make_Namespace name (wrap 8 len));
  s ← gets id;
  m ← lift (level s len);
  match find m (_name prefix) with
  | None =>
      modify (fun _ => <[Z.to_nat len := emplace m (_name prefix) (set_insert [] remote)]> s)
  | Some (_, list) =>
      if negb (contains_key list remote) then
        modify (fun _ => <[Z.to_nat len := assign m (_name prefix) (set_insert list remote)]> s)
      else mret tt
  end.

(** The set is erased from when the remote is not in it. *)
Definition remove (name : Name) (len : Z) (remote : Remote) : M t unit :=
  prefix ← lift (make_Namespace name (wrap 8 len));
  s ← gets id;
  m ← lift (level s len);
  match find m (_name prefix) with
  | None => mret tt
  | Some (_, list) =>
      if negb (contains_key list remote) then
        modify (fun _ => <[Z.to_nat len := assign m (_name prefix) (erase list remote)]> s)
      else mret tt
  end.

(** [for (int len = 0; len <= 128; len++)]; [n] iterations are left. *)
Fixpoint find_loop (n : nat) (len : Z) (s : t) (name : Name) (ret : list Remote)
    : result (list Remote) :=
  match n with
  | O => Ret ret
  | S n' =>
      prefix ← make_Namespace name (wrap 8 len);
      m ← level s len;
      find_loop n' (len + 1) s name
        (ret ++ match find m (_name prefix) with
                | Some (_, list) => members list
                | None => []
                end)
  end.
Definition find_remotes (s : t) (name : Name) : result (list Remote) :=
  find_loop 129 0 s name [].
End operations.

(** * Specification *)

(** The remotes that asked for the first [len] bits of a name. *)
Definition asked (s : t) (len : Z) (name : Name) : remotes :=
  default [] (m ← s !! Z.to_nat len; at_key m (name_and name (mask_name len))).

(** A remote is routed a name by the entries below the full length. *)
Definition routed (s : t) (name : Name) (r : Remote) : Prop :=
  exists len, 0 <= len < 128 /\ r ∈ members (asked s len name).

Record wf (s : t) : Prop := {
  wf_length : length s = 129%nat;
  wf_levels m : m ∈ s -> sorted m;
  wf_remotes m p : m ∈ s -> p ∈ m -> sorted p.2;
}.

Lemma elem_of_insert_inv {X} (x y : X) (i : nat) (l : list X) : x ∈ <[i:=y]> l -> x = y \/ x ∈ l.
Proof.
  intros (j & Hj)%list_elem_of_lookup. destruct (decide (i = j)) as [->|Hne].
  - apply list_lookup_insert_Some in Hj as [[_ [-> _]]|[Hne Hj]]; [by left|done].
  - rewrite list_lookup_insert_ne in Hj by done. right. by apply list_elem_of_lookup_2 in Hj.
Qed.

Lemma table_wf_init : wf init.
Proof.
  split; [done|..].
  - intros m Hm. apply elem_of_replicate in Hm as [-> _]. constructor.
  - intros m p Hm Hp. apply elem_of_replicate in Hm as [-> _]. by apply not_elem_of_nil in Hp.
Qed.

Lemma level_ret s len :
  wf s -> 0 <= len <= 128 -> exists m, s !! Z.to_nat len = Some m /\ level s len = Ret m.
Proof.
  intros [Hl _ _] Hlen. unfold level. rewrite (proj2 (Z.ltb_ge _ _)) by lia.
  destruct (lookup_lt_is_Some_2 s (Z.to_nat len)) as [m ->]; [lia|]. by exists m.
Qed.

Lemma elem_of_members r (s : remotes) : r ∈ members s <-> contains_key s r = true.
Proof.
  unfold members. split.
  - intros Hr. induction s as [|[k []] s IH]; [by apply not_elem_of_nil in Hr|].
    unfold contains_key in *. simpl in *.
    destruct (equiv_key r k) eqn:E; [done|]. apply elem_of_cons in Hr as [->|Hr]; [|auto].
    by rewrite equiv_key_refl in E.
  - rewrite contains_at_key, bool_decide_eq_true. intros [[] Hx]. apply at_key_elem in Hx.
    apply list_elem_of_In, (in_map fst) in Hx. by apply list_elem_of_In.
Qed.

Lemma elem_of_set_insert r r' s :
  sorted s -> r' ∈ members (set_insert s r) <-> r' = r \/ r' ∈ members s.
Proof.
  intros Hs. rewrite !elem_of_members, !contains_at_key. unfold set_insert, emplace.
  rewrite at_key_insert by done. rewrite !bool_decide_eq_true.
  destruct (decide (r' = r)) as [->|Hne]; [split; [by left|by eexists]|].
  split; [by right|]. by intros [?|?].
Qed.

Lemma members_NoDup (s : remotes) : sorted s -> NoDup (members s).
Proof. apply sorted_NoDup. Qed.

Section laws.
Context {T : Target}.

(** What [add] makes of the level it changes. *)
Definition added (m : list (Name * remotes)) (k : Name) (r : Remote) : list (Name * remotes) :=
  assign m k (set_insert (default [] (at_key m k)) r).

Lemma set_insert_same s r : sorted s -> contains_key s r = true -> set_insert s r = s.
Proof.
  unfold contains_key, set_insert, emplace. intros Hs.
  destruct (find s r) as [[k []]|] eqn:E; [|done]. intros _. by apply (insert_node_id _ _ _ k).
Qed.

Lemma emplace_fresh (m : list (Name * remotes)) k v :
  find m k = None -> emplace m k v = assign m k v.
Proof.
  unfold emplace, assign. induction m as [|[k0 v0] m IH]; [done|]. simpl. unfold equiv_key.
  destruct (less k k0), (less k0 k); simpl; intros; try done; by rewrite IH.
Qed.

Lemma wrap8_len len : 0 <= len <= 128 -> wrap 8 len = len.
Proof. intros. apply wrap_small. unfold in_u. lia. Qed.

Lemma add_run n len r s :
  wf s -> 0 <= len < 128 ->
  exists m, s !! Z.to_nat len = Some m /\
  add n len r s
  = (Ret tt, <[Z.to_nat len := added m (name_and n (mask_name len)) r]> s).
Proof.
  intros Hw Hlen. destruct (level_ret s len Hw) as (m & Em & El); [lia|]. exists m.
  split; [done|]. pose proof Hw as [_ Hls Hrs].
  assert (m ∈ s) as Hm by (by apply list_elem_of_lookup_2 with (Z.to_nat len)).
  unfold add. rewrite wrap8_len, make_Namespace_ret by lia.
  cbv [mbind M_bind lift gets id]. rewrite El. cbn [_name]. unfold added, at_key.
  set (k := name_and n (mask_name len)).
  destruct (find m k) as [[k0 l]|] eqn:E; simpl.
  - pose proof (find_elem _ _ _ E) as Hin. specialize (Hrs _ _ Hm Hin). simpl in Hrs.
    destruct (contains_key l r) eqn:Ec; simpl; [|done].
    rewrite set_insert_same by done. unfold assign. rewrite (insert_node_id _ _ _ k0 l) by auto.
    by rewrite list_insert_id.
  - by rewrite emplace_fresh.
Qed.

Lemma added_wf s len m k r :
  wf s -> 0 <= len < 128 -> s !! Z.to_nat len = Some m ->
  wf (<[Z.to_nat len := added m k r]> s).
Proof.
  intros [Hl Hls Hrs] Hlen Em.
  assert (m ∈ s) as Hm by (by apply list_elem_of_lookup_2 with (Z.to_nat len)).
  assert (sorted (set_insert (default [] (at_key m k)) r)) as Hset.
  { apply sorted_insert_node. destruct (at_key m k) as [l|] eqn:E; [|constructor].
    apply at_key_elem in E. by apply (Hrs _ _ Hm E). }
  split.
  - by rewrite length_insert.
  - intros m' Hm'. apply elem_of_insert_inv in Hm' as [->|Hm']; [|by apply Hls].
    apply sorted_insert_node. by apply Hls.
  - intros m' p Hm' Hp. apply elem_of_insert_inv in Hm' as [->|Hm']; [|by apply (Hrs m')].
    apply elem_assign in Hp as [[-> _]|[Hp _]]; [done|by apply (Hrs m)|by apply Hls].
Qed.

Lemma asked_sorted s len n : wf s -> sorted (asked s len n).
Proof.
  intros [_ _ Hrs]. unfold asked. destruct (s !! Z.to_nat len) as [m|] eqn:E; [|constructor].
  simpl. destruct (at_key m _) as [l|] eqn:El; [|constructor].
  apply at_key_elem in El. apply list_elem_of_lookup_2 in E. by apply (Hrs m _ E El).
Qed.

Lemma asked_added s len m n r len' n' :
  wf s -> 0 <= len < 128 -> 0 <= len' < 128 -> s !! Z.to_nat len = Some m ->
  asked (<[Z.to_nat len := added m (name_and n (mask_name len)) r]> s) len' n'
  = if decide (len' = len /\ name_and n' (mask_name len) = name_and n (mask_name len))
    then set_insert (asked s len n) r else asked s len' n'.
Proof.
  intros Hw Hlen Hlen' Em. pose proof Hw as [Hl Hls _].
  assert (m ∈ s) as Hm by (by apply list_elem_of_lookup_2 with (Z.to_nat len)).
  unfold asked at 1. destruct (decide (len' = len)) as [->|Hne].
  - rewrite list_lookup_insert_eq by (apply lookup_lt_is_Some_1; by exists m). simpl.
    unfold added, assign. rewrite at_key_insert by (by apply Hls).
    destruct (decide (name_and n' _ = _)) as [E|E].
    + rewrite decide_True by done. unfold asked. by rewrite Em.
    + rewrite decide_False by (by intros [_ ?]). unfold asked. by rewrite Em.
  - rewrite list_lookup_insert_ne by lia. by rewrite decide_False by (by intros [? _]).
Qed.

Lemma masked_eq a b len :
  wf_name a -> wf_name b -> 0 <= len <= 128 ->
  name_and a (mask_name len) = name_and b (mask_name len) <->
  prefix_bits len (name_val a) = prefix_bits len (name_val b).
Proof.
  intros Ha Hb Hlen. pose proof (name_and_mask_val a len Ha Hlen) as Ea.
  pose proof (name_and_mask_val b len Hb Hlen) as Eb. split; intros E.
  - rewrite E, Eb in Ea. by apply shiftl_inj in Ea; [|lia].
  - apply name_val_inj; auto with words. by rewrite Ea, Eb, E.
Qed.

(** A remote that is added gets exactly the names with its prefix. *)
Lemma routed_added s len m n r n' r' :
  wf s -> 0 <= len < 128 -> s !! Z.to_nat len = Some m -> wf_name n -> wf_name n' ->
  routed (<[Z.to_nat len := added m (name_and n (mask_name len)) r]> s) n' r' <->
  routed s n' r' \/
    (r' = r /\ prefix_bits len (name_val n') = prefix_bits len (name_val n)).
Proof.
  intros Hw Hlen Em Hn Hn'. unfold routed. split.
  - intros (len' & Hlen' & Hr). rewrite asked_added in Hr by done.
    destruct (decide _) as [[-> E]|_]; [|left; by exists len'].
    apply elem_of_set_insert in Hr as [->|Hr]; [|left|by apply asked_sorted].
    + right. split; [done|]. by apply masked_eq; [..|lia|].
    + exists len. split; [done|]. unfold asked in *. by rewrite E.
  - intros [(len' & Hlen' & Hr)|[-> E]].
    + exists len'. split; [done|]. rewrite asked_added by done.
      destruct (decide _) as [[-> E]|_]; [|done].
      apply elem_of_set_insert; [by apply asked_sorted|]. right.
      unfold asked in *. by rewrite <- E.
    + exists len. split; [done|]. rewrite asked_added by done.
      rewrite decide_True by (split; [done|]; by apply masked_eq; [..|lia|]).
      apply elem_of_set_insert; [by apply asked_sorted|by left].
Qed.

(** [remove] erases from a set only what is not in it. *)
Lemma erase_absent (l : remotes) r : contains_key l r = false -> erase l r = l.
Proof.
  unfold contains_key. induction l as [|[k []] l IH]; [done|]. simpl.
  destruct (equiv_key r k); [done|]. intros E. by rewrite IH.
Qed.

Lemma remove_run n len r s :
  wf s -> 0 <= len < 128 -> remove n len r s = (Ret tt, s).
Proof.
  intros Hw Hlen. destruct (level_ret s len Hw) as (m & Em & El); [lia|].
  pose proof Hw as [_ Hls _].
  assert (m ∈ s) as Hm by (by apply list_elem_of_lookup_2 with (Z.to_nat len)).
  unfold remove. rewrite wrap8_len, make_Namespace_ret by lia.
  cbv [mbind M_bind lift gets id]. rewrite El. cbn [_name].
  destruct (find m _) as [[k0 l]|] eqn:E; [|done].
  destruct (contains_key l r) eqn:Ec; [done|]. cbn [negb]. unfold modify.
  rewrite erase_absent by done. unfold assign.
  rewrite (insert_node_id _ _ _ k0 l) by auto. by rewrite list_insert_id.
Qed.

(** ** The search *)

(** What the [n] iterations from length [len] on append, below 128. *)
Fixpoint gathered (n : nat) (len : Z) (s : t) (name : Name) : list Remote :=
  match n with
  | O => []
  | S n' => members (asked s len name) ++ gathered n' (len + 1) s name
  end.

Lemma asked_find s len m n :
  s !! Z.to_nat len = Some m ->
  members (asked s len n)
  = match find m (name_and n (mask_name len)) with
    | Some (_, list) => members list
    | None => []
    end.
Proof. intros Em. unfold asked, at_key. rewrite Em. simpl. by destruct (find m _) as [[? ?]|]. Qed.

Lemma find_loop_run k n len s name ret :
  wf s -> 0 <= len -> len + Z.of_nat n <= 128 ->
  find_loop (n + k) len s name ret
  = find_loop k (len + Z.of_nat n) s name (ret ++ gathered n len s name).
Proof.
  intros Hw. revert len ret. induction n as [|n IH]; intros len ret H0 Hn.
  { simpl. by rewrite app_nil_r, Z.add_0_r. }
  cbn [Nat.add find_loop gathered].
  destruct (level_ret s len Hw) as (m & Em & El); [lia|].
  rewrite wrap8_len, make_Namespace_ret by lia. cbv [mbind result_bind]. rewrite El.
  cbn [_name]. rewrite <- (asked_find s len m name Em). rewrite IH by lia.
  rewrite app_assoc. f_equal. lia.
Qed.

Lemma elem_of_gathered r n len s name :
  r ∈ gathered n len s name <->
  exists l, len <= l < len + Z.of_nat n /\ r ∈ members (asked s l name).
Proof.
  revert len. induction n as [|n IH]; intros len; cbn [gathered].
  { rewrite elem_of_nil. split; [done|]. intros (l & Hl & _). lia. }
  rewrite elem_of_app, IH. split.
  - intros [Hr|(l & Hl & Hr)]; [exists len|exists l]; (split; [lia|done]).
  - intros (l & Hl & Hr). destruct (decide (l = len)) as [->|Hne]; [by left|].
    right. exists l. split; [lia|done].
Qed.

Lemma gathered_bind k len s name :
  gathered k len s name
  = seqZ len (Z.of_nat k) ≫= fun j => members (asked s j name).
Proof.
  revert len. induction k as [|k IH]; intros len; [done|]. cbn [gathered].
  rewrite IH, (seqZ_cons len) by lia. cbn [mbind list_bind].
  by replace (Z.pred (Z.of_nat (S k))) with (Z.of_nat k) by lia.
Qed.

(** The last iteration needs the namespace of all 128 bits. *)
Lemma find_remotes_run s name :
  wf s ->
  find_remotes s name
  = (ns ← make_Namespace name 128;
     m ← level s 128;
     mret (gathered 128 0 s name ++ match find m (_name ns) with
                                    | Some (_, list) => members list
                                    | None => []
                                    end)).
Proof.
  intros Hw. unfold find_remotes. change 129%nat with (128 + 1)%nat.
  rewrite find_loop_run by (done || lia). done.
Qed.
End laws.
#[global] Arguments gathered : simpl never.

(** The entries of the full length, as x86-64 finds them. *)
Definition asked_full (s : t) (name : Name) : remotes :=
  default [] (m ← s !! 128%nat; at_key m (mkName (_hi name) 0)).

Lemma find_remotes_x86_64 s name :
  wf s -> wf_name name ->
  find_remotes (T := x86_64) s name
  = Ret (gathered 128 0 s name ++ members (asked_full s name)).
Proof.
  intros Hw [Hhi _]. rewrite find_remotes_run by done.
  assert (make_Namespace (T := x86_64) name 128 = Ret (mkNamespace (mkName (_hi name) 0) 128)) as ->.
  { destruct name as [h l]. unfold make_Namespace.
    change (prefix_mask (T := x86_64) 128) with (Ret (mkName (2 ^ 64 - 1) 0)).
    cbv [mbind result_bind mret result_ret]. unfold name_and, and_assign. cbn [_hi _low] in *. rewrite Z.land_0_r.
    rewrite (land_ones_mod h _ 64) by done. by rewrite Z.mod_small. }
  destruct (level_ret s 128 Hw) as (m & Em & El); [lia|]. cbv [mbind result_bind].
  rewrite El. unfold asked_full. change (Z.to_nat 128) with 128%nat in Em. rewrite Em.
  cbv [mret result_ret]. simpl. unfold at_key. by destruct (find m _) as [[? ?]|].
Qed.

(** * Properties *)

(** The search for the remotes of a name returns those that added a prefix
    of it: adding a remote under the first [len] bits of a name makes it found
    for exactly the names with those bits, besides what was found before.  The
    last round of the search is for the full length, where x86-64 looks at the
    high half only and the language leaves the outcome open. *)
Theorem subscriptions_find_spec s n len r :
  wf s -> wf_name n -> 0 <= len < 128 ->
  (forall n', find_remotes (T := strict_little) s n' = Undefined) /\
  exists s', add (T := x86_64) n len r s = (Ret tt, s') /\ wf s' /\
    forall n', wf_name n' ->
      exists found found', find_remotes (T := x86_64) s n' = Ret found /\
        find_remotes (T := x86_64) s' n' = Ret found' /\
        forall r', r' ∈ found' <-> r' ∈ found \/
          (r' = r /\ prefix_bits len (name_val n') = prefix_bits len (name_val n)).
Proof.
  intros Hw Hn Hlen. split.
  { intros n'. by rewrite find_remotes_run by done. }
  destruct (add_run (T := x86_64) n len r s Hw Hlen) as (m & Em & Ea).
  eexists. split; [exact Ea|]. pose proof (added_wf s len m (name_and n (mask_name len)) r) as Hw'.
  split; [by apply Hw'|]. intros n' Hn'. eexists _, _.
  split; [by apply find_remotes_x86_64|]. split; [apply find_remotes_x86_64; auto|].
  intros r'. rewrite !elem_of_app.
  assert (forall s, r' ∈ gathered 128 0 s n' <-> routed s n' r') as Hg
    by (intros; apply elem_of_gathered).
  rewrite !Hg, routed_added by done.
  assert (asked_full (<[Z.to_nat len := added m (name_and n (mask_name len)) r]> s) n'
    = asked_full s n') as ->.
  { unfold asked_full. by rewrite list_lookup_insert_ne by lia. }
  tauto.
Qed.

Lemma subscriptions_find_spec_witness :
  (forall n', find_remotes (T := strict_little) init n' = Undefined) /\
  exists s', add (T := x86_64) (mkName 0x1000 0x2000) 125 (mkRemote 3 0 0) init = (Ret tt, s') /\
    wf s' /\
    forall n', wf_name n' ->
      exists found found', find_remotes (T := x86_64) init n' = Ret found /\
        find_remotes (T := x86_64) s' n' = Ret found' /\
        forall r', r' ∈ found' <-> r' ∈ found \/
          (r' = mkRemote 3 0 0 /\
           prefix_bits 125 (name_val n') = prefix_bits 125 (name_val (mkName 0x1000 0x2000))).
Proof.
  apply (subscriptions_find_spec init (mkName 0x1000 0x2000) 125 (mkRemote 3 0 0)).
  - apply table_wf_init.
  - split; vm_compute; split; congruence.
  - lia.
Defined.

(** [remove] erases a remote only from a set that does not have it: it
    never takes anything out of the table. *)
Theorem subscriptions_remove_nothing {T : Target} n len r s :
  wf s -> 0 <= len < 128 -> remove n len r s = (Ret tt, s).
Proof. apply remove_run. Qed.

Lemma subscriptions_remove_nothing_witness :
  let s := (add (T := strict_little) (mkName 0x1000 0x2000) 125 (mkRemote 3 0 0) init).2 in
  remove (T := strict_little) (mkName 0x1000 0x2000) 125 (mkRemote 3 0 0) s = (Ret tt, s).
Proof.
  intros s.
  apply (subscriptions_remove_nothing (T := strict_little) (mkName 0x1000 0x2000) 125
    (mkRemote 3 0 0) s); [|lia].
  unfold s.
  destruct (add_run (T := strict_little) (mkName 0x1000 0x2000) 125 (mkRemote 3 0 0) init table_wf_init)
    as (m & Em & ->); [lia|].
  by apply added_wf; [apply table_wf_init|lia|].
Defined.

End Subscriptions.
