(* ===== verification/Really.v ===== *)
(** * The relay (cmd/really/really.cpp)

    [ReallyServer] is a delegate of the server: it keeps the [Subscriptions]
    and forwards objects.  What it prints is not modelled; the process around it
    is in [ReallyMain]. *)

From S2P Require Export Server Subscriptions.

Module ReallyServer.
Import QuicRServer.

(** The relay the constructor gives to the server. *)
Definition relayInfo : RelayInfo := mkRelayInfo (lit "127.0.0.1") 1234 Protocol.QUIC.

(** The member that is used; [subscribers] and [transport] are not. *)
Record t := mk { subscribeList : Subscriptions.t }.
Definition init : t := mk Subscriptions.init.

(** An operation on the member. *)
Definition on_list {B} (m : M Subscriptions.t B) : M (world t) B :=
  on_app (fun r => let '(x, l) := m (subscribeList r) in (x, mk l)).

(** [Subscriptions::Remote remote = { .subscribe_id = subscriber_id };] *)
Definition remote_of (subscriber_id : Z) : Subscriptions.Remote :=
  Subscriptions.mkRemote subscriber_id 0 0.

Section delegate.
Context {T : Target}.

Definition onPublishIntent (ns : Namespace) (origin_url : chars)
    (use_reliable_transport : bool) (auth_token : chars) (e2e_token : bytes)
    : M (world t) unit :=
  on_server (publishIntentResponse ns
    (mkPublishIntentResult Response.Ok RelayInfo_init (mkName 0 0))).

Definition onPublishIntentEnd (ns : Namespace) (auth_token : chars) (e2e_token : bytes)
    : M (world t) unit := mret tt.

Definition onPublisherObject (context_id stream_id : Z) (use_reliable_transport : bool)
    (datagram : PublishDatagram) : M (world t) unit :=
  list ← on_list (fun l => (Subscriptions.find_remotes l (name (header datagram)), l));
  mfor list (fun dest =>
    if ((Subscriptions.context_id dest =? context_id)
        && (Subscriptions.stream_id dest =? stream_id))%bool
    then mret tt
    else on_server (sendNamedObject (Subscriptions.subscribe_id dest) false datagram)).

Definition onUnsubscribe (ns : Namespace) (subscriber_id : Z) (auth_token : chars)
    : M (world t) unit :=
  on_server (subscriptionEnded subscriber_id ns SubscribeStatus.Ok);;
  on_list (Subscriptions.remove (_name ns) (_sig_bits ns) (remote_of subscriber_id)).

Definition onSubscribe (ns : Namespace) (subscriber_id context_id stream_id : Z)
    (intent : SubscribeIntent.t) (origin_url : chars) (use_reliable_transport : bool)
    (auth_token : chars) (data : bytes) : M (world t) unit :=
  on_list (Subscriptions.add (_name ns) (_sig_bits ns) (remote_of subscriber_id));;
  on_server (subscribeResponse subscriber_id ns
    (mkSubscribeResult SubscribeStatus.Ok [] None RelayInfo_init)).
End delegate.

#[export] Instance delegate {T : Target} : ServerDelegate t :=
  {| QuicRServer.onPublishIntent := onPublishIntent;
     QuicRServer.onPublishIntentEnd := onPublishIntentEnd;
     QuicRServer.onPublisherObject := onPublisherObject;
     QuicRServer.onUnsubscribe := onUnsubscribe;
     QuicRServer.onSubscribe := onSubscribe |}.

(** ** The relay keeps to the public operations *)

Lemma frame_on_server {A B} (m : M QuicRServer.t B) (w : world A) :
  frame w.1 (m w.1).2 -> frame w.1 (on_server m w).2.1.
Proof. unfold on_server. by destruct (m w.1). Qed.

Lemma frame_on_list {B} (m : M Subscriptions.t B) (w : world t) : (on_list m w).2.1 = w.1.
Proof. unfold on_list, on_app. by destruct (m (subscribeList w.2)). Qed.

Lemma frame_bind {A B C} (m : M (world A) B) (f : B -> M (world A) C) w :
  frame w.1 (m w).2.1 -> (forall b w1, frame w1.1 (f b w1).2.1) -> frame w.1 ((m ≫= f) w).2.1.
Proof.
  intros Hm Hf. unfold mbind, M_bind. destruct (m w) as [[b|e|] w1]; [|done..].
  simpl in Hm. by transitivity w1.1; [|apply Hf].
Qed.

Lemma frame_mfor {A X} (l : list X) (f : X -> M (world A) unit) w :
  (forall x w1, frame w1.1 (f x w1).2.1) -> frame w.1 (mfor l f w).2.1.
Proof.
  intros Hf. revert w. induction l as [|x l IH]; intros w; [done|]. cbn [mfor].
  by apply frame_bind.
Qed.

#[export] Instance delegate_lawful {T : Target} : LawfulDelegate t.
Proof.
  split; intros; simpl.
  - by apply frame_on_server, publishIntentResponse_frame.
  - done.
  - apply frame_bind; [by rewrite frame_on_list|]. intros list w1. apply frame_mfor.
    intros dest w2. destruct (_ && _)%bool; [done|].
    apply frame_on_server, sendNamedObject_frame.
  - apply frame_bind; [by rewrite frame_on_list|]. intros _ w1.
    apply frame_on_server, subscribeResponse_frame.
  - apply frame_bind; [apply frame_on_server, subscriptionEnded_frame|]. intros _ w1.
    by rewrite frame_on_list.
Qed.

(** ** What the relay sends *)

(** The packets an object becomes: one for each remote found whose id the server
    knows, the publisher's own connection and stream left out. *)
Definition copies (s : QuicRServer.t) (cid sid : Z) (data : bytes)
    (found : list Subscriptions.Remote) : list Packet :=
  omap (fun dest =>
    if ((Subscriptions.context_id dest =? cid) && (Subscriptions.stream_id dest =? sid))%bool
    then None
    else (fun ctx => mkPacket (sc_transport_context_id ctx) (sc_transport_stream_id ctx) data)
         <$> at_key (subscribe_id_state s) (Subscriptions.subscribe_id dest)) found.

(** The order of the remotes decides the order of the packets and nothing else. *)
#[export] Instance copies_Permutation s cid sid data :
  Proper ((≡ₚ) ==> (≡ₚ)) (copies s cid sid data).
Proof. intros l l' E. unfold copies. by rewrite E. Qed.

Lemma with_tx_twice a b s : with_tx a (with_tx b s) = with_tx a s.
Proof. done. Qed.
Lemma with_tx_nil s : with_tx (tx s ++ []) s = s.
Proof. rewrite app_nil_r. by destruct s. Qed.

Section sends.
Context {T : Target}.

Lemma forward_run d cid sid found s (r : t) :
  ok_PublishDatagram d ->
  mfor found (fun dest =>
    if ((Subscriptions.context_id dest =? cid) && (Subscriptions.stream_id dest =? sid))%bool
    then mret tt
    else on_server (A := t) (sendNamedObject (Subscriptions.subscribe_id dest) false d)) (s, r)
  = (Ret tt, (with_tx (tx s ++ copies s cid sid (PublishDatagram_wire d) found) s, r)).
Proof.
  intros Hd. revert s. induction found as [|dest found IH]; intros s.
  { cbn. by rewrite with_tx_nil. }
  cbn [mfor]. unfold copies. cbn [omap list_omap]. fold (copies s cid sid (PublishDatagram_wire d) found).
  destruct (_ && _)%bool.
  - rewrite (run_bind_ret _ _ (s, r) (s, r) tt) by done. apply IH.
  - unfold mbind, M_bind. unfold on_server at 1. cbn [fst snd].
    unfold sendNamedObject at 1. rewrite (to_subscriber_run _ _ _ _ (put_PublishDatagram_wire d Hd)).
    destruct (at_key (subscribe_id_state s) (Subscriptions.subscribe_id dest)) as [ctx|];
      cbn [fmap option_fmap option_map]; rewrite IH; [|done].
    rewrite with_tx_twice. cbn [tx with_tx]. by rewrite <- app_assoc.
Qed.
End sends.

(** * Properties, on x86-64 *)

#[local] Existing Instance x86_64.
#[local] Instance x86_64_little : LittleEndian := eq_refl.

(** The subscription of a connection that had none, at the relay. *)
Lemma subscribe_run m rest cid sid s r :
  QuicRServer.wf s -> Subscriptions.wf (subscribeList r) -> ok_Subscribe m ->
  subscription (subscribe_state s) (sub_namespace m) cid = None ->
  let ns := sub_namespace m in
  dispatch cid sid (encoded (put_Subscribe m) ++ rest) (s, r)
  = (Ret tt,
     (let s1 := subscribed s ns cid sid in
      with_tx (tx s ++ [mkPacket cid sid (SubscribeResponse_wire
        (mkSubscribeResponse ns SubscribeStatus.Ok (subscriber_id s)))]) s1,
      mk (Subscriptions.add (_name ns) (_sig_bits ns) (remote_of (subscriber_id s))
            (subscribeList r)).2)).
Proof.
  intros Hw Hl Hm Hnone ns. fold ns in Hnone. pose proof Hm as (_ & (Hn & Hlen & _) & _).
  destruct (encoded_wire _ _ (put_Subscribe_wire m)) as [_ ->].
  rewrite (dispatch_typed MessageType.Subscribe _ _ _
    (drop 1 (Subscribe_wire m) ++ rest)) by done.
  set (m' := mkSubscribe 0 (sub_transaction_id m) ns (sub_intent m)).
  rewrite (handle_subscribe_tidy cid sid _ s r m') by
    (done || (by apply wf_tidy) || by rewrite (get_Subscribe_wire native_little uninit_Subscribe m Hm rest)).
  change (sub_namespace m') with ns. rewrite Hnone. simpl QuicRServer.onSubscribe.
  unfold onSubscribe. destruct (Subscriptions.add_run (_name ns) (_sig_bits ns)
    (remote_of (subscriber_id s)) (subscribeList r) Hl Hlen) as (lv & _ & Ea).
  unfold mbind, M_bind. unfold on_list, on_app. cbn [fst snd]. rewrite Ea. cbn [fst snd].
  unfold on_server, subscribeResponse. cbn [fst snd].
  rewrite (to_subscriber_run _ _ _ _ (put_SubscribeResponse_wire _)).
  assert (at_key (subscribe_id_state (subscribed s ns cid sid)) (subscriber_id s)
    = Some (new_context s cid sid)) as ->.
  { simpl. unfold assign. rewrite at_key_insert by apply Hw. by rewrite decide_True. }
  done.
Qed.

(** The first publisher of a name, as the server remembers it. *)
Definition first_publisher (s : QuicRServer.t) (n : Name) (cid sid : Z) : PublishContext :=
  default (mkPublishContext Unknown cid sid 0 0 0) (at_key (publish_state s) n).

(** The state of the server after an object: its first publisher is known, and
    the copies are sent. *)
Definition after_publish (s : QuicRServer.t) (d : PublishDatagram) (cid sid : Z)
    (found : list Subscriptions.Remote) (ps : list (Name * PublishContext)) : QuicRServer.t :=
  let first := first_publisher s (name (header d)) cid sid in
  with_tx (tx s ++ copies s (pc_transport_context_id first) (pc_transport_stream_id first)
             (PublishDatagram_wire d) found) (with_publish_state ps s).

Lemma publish_step d rest cid sid s r :
  QuicRServer.wf s -> Subscriptions.wf (subscribeList r) -> ok_PublishDatagram d ->
  (forall p, p ∈ publish_namespaces s -> wf_namespace p.1) ->
  existsb (fun p => within p.1 (name (header d))) (publish_namespaces s) = true ->
  exists found ps, Subscriptions.find_remotes (subscribeList r) (name (header d)) = Ret found /\
    dispatch cid sid (PublishDatagram_wire d ++ rest) (s, r)
    = (Ret tt, (after_publish s d cid sid found ps, r)) /\
    QuicRServer.wf (after_publish s d cid sid found ps) /\
    forall n', at_key ps n' = if decide (n' = name (header d))
      then Some (first_publisher s (name (header d)) cid sid) else at_key (publish_state s) n'.
Proof.
  intros Hw Hl Hd Hns Hin.
  rewrite (dispatch_typed MessageType.Publish _ _ _
    (drop 1 (PublishDatagram_wire d) ++ rest)) by done.
  destruct (handle_publish_run d rest cid sid s r Hw Hd Hns) as [H1 _].
  destruct (H1 Hin) as (ps & -> & Hps & Hat). fold (first_publisher s (name (header d)) cid sid).
  eexists _, ps. split; [by apply Subscriptions.find_remotes_x86_64; [|apply Hd]|].
  split_and!; [|destruct Hw; by split|done].
  simpl QuicRServer.onPublisherObject. unfold onPublisherObject.
  unfold mbind, M_bind, on_list, on_app. cbn [fst snd].
  rewrite Subscriptions.find_remotes_x86_64 by (done || apply Hd). cbn [fst snd].
  destruct r as [l]. by rewrite forward_run.
Qed.

Lemma publish_run d rest cid sid s r :
  QuicRServer.wf s -> Subscriptions.wf (subscribeList r) -> ok_PublishDatagram d ->
  (forall p, p ∈ publish_namespaces s -> wf_namespace p.1) ->
  existsb (fun p => within p.1 (name (header d))) (publish_namespaces s) = true ->
  exists found s', Subscriptions.find_remotes (subscribeList r) (name (header d)) = Ret found /\
    dispatch cid sid (encoded (put_PublishDatagram d) ++ rest) (s, r) = (Ret tt, (s', r)) /\
    let first := first_publisher s (name (header d)) cid sid in
    tx s' = tx s ++ copies s (pc_transport_context_id first) (pc_transport_stream_id first)
                      (encoded (put_PublishDatagram d)) found.
Proof.
  intros Hw Hl Hd Hns Hin.
  destruct (encoded_wire _ _ (put_PublishDatagram_wire d Hd)) as [_ ->].
  destruct (publish_step d rest cid sid s r Hw Hl Hd Hns Hin) as (found & ps & Ef & -> & _).
  by exists found, (after_publish s d cid sid found ps).
Qed.

(** A remote that was added is among those found. *)
Lemma added_found l n len id0 n' :
  Subscriptions.wf l -> wf_name n -> wf_name n' -> 0 <= len < 128 ->
  prefix_bits len (name_val n') = prefix_bits len (name_val n) ->
  let l' := (Subscriptions.add n len (remote_of id0) l).2 in
  Subscriptions.wf l' /\
  forall found, Subscriptions.find_remotes l' n' = Ret found -> remote_of id0 ∈ found.
Proof.
  intros Hl Hn Hn' Hlen E l'.
  destruct (Subscriptions.add_run n len (remote_of id0) l Hl Hlen) as (m & Em & Ea).
  subst l'. rewrite Ea. cbn [snd].
  assert (Subscriptions.wf (<[Z.to_nat len := Subscriptions.added m
    (name_and n (mask_name len)) (remote_of id0)]> l)) as Hl' by (by apply Subscriptions.added_wf).
  split; [done|]. intros found. rewrite Subscriptions.find_remotes_x86_64 by done.
  intros Hf. injection Hf as <-. apply elem_of_app. left. apply Subscriptions.elem_of_gathered.
  apply (Subscriptions.routed_added l len m n (remote_of id0) n'); [done..|by right].
Qed.

Lemma elem_of_copies s cid sid data found dest ctx :
  dest ∈ found ->
  (Subscriptions.context_id dest =? cid) && (Subscriptions.stream_id dest =? sid) = false ->
  at_key (subscribe_id_state s) (Subscriptions.subscribe_id dest) = Some ctx ->
  mkPacket (sc_transport_context_id ctx) (sc_transport_stream_id ctx) data
  ∈ copies s cid sid data found.
Proof.
  intros Hd Hne Hat. unfold copies. apply list_elem_of_omap. exists dest. split; [done|].
  by rewrite Hne, Hat.
Qed.

Lemma copies_data s cid sid data found q :
  q ∈ copies s cid sid data found -> pkt_data q = data.
Proof.
  unfold copies. rewrite list_elem_of_omap. intros (dest & _ & E).
  destruct (_ && _)%bool; [done|]. destruct (at_key _ _); [|done].
  simpl in E. by injection E as <-.
Qed.

(** ** A subscriber that is served

    Objects named [n] from the connection [cid'], [sid'] reach [cid], [sid]. *)
Record serves (n : Name) (cid sid cid' sid' : Z) (w : world t) : Prop := {
  serves_wf : QuicRServer.wf w.1;
  serves_table : Subscriptions.wf (subscribeList w.2);
  serves_namespaces p : p ∈ publish_namespaces w.1 -> wf_namespace p.1;
  serves_announced : existsb (fun p => within p.1 n) (publish_namespaces w.1) = true;
  serves_found : exists i ctx, at_key (subscribe_id_state w.1) i = Some ctx /\
    sc_transport_context_id ctx = cid /\ sc_transport_stream_id ctx = sid /\
    forall found, Subscriptions.find_remotes (subscribeList w.2) n = Ret found ->
      remote_of i ∈ found;
  serves_publisher : let first := first_publisher w.1 n cid' sid' in
    (pc_transport_context_id first, pc_transport_stream_id first) <> (0, 0);
}.

(** A subscription makes it so. *)
Lemma subscribe_serves m rest cid sid cid' sid' n s r :
  QuicRServer.wf s -> Subscriptions.wf (subscribeList r) -> ok_Subscribe m -> wf_name n ->
  subscriber_id s + 1 < 2 ^ 64 ->
  (forall p, p ∈ publish_namespaces s -> wf_namespace p.1) ->
  existsb (fun p => within p.1 n) (publish_namespaces s) = true ->
  subscription (subscribe_state s) (sub_namespace m) cid = None ->
  within (sub_namespace m) n = true ->
  (let first := first_publisher s n cid' sid' in
   (pc_transport_context_id first, pc_transport_stream_id first) <> (0, 0)) ->
  exists s1 r1, dispatch cid sid (encoded (put_Subscribe m) ++ rest) (s, r) = (Ret tt, (s1, r1)) /\
    tx s1 = tx s ++ [mkPacket cid sid (encoded (put_SubscribeResponse
              (mkSubscribeResponse (sub_namespace m) SubscribeStatus.Ok (subscriber_id s))))] /\
    serves n cid sid cid' sid' (s1, r1).
Proof.
  intros Hw Hl Hm Hn Hc Hns Hin Hnone Hwithin Hfirst.
  rewrite (subscribe_run m rest cid sid s r Hw Hl Hm Hnone).
  destruct (encoded_wire _ _ (put_SubscribeResponse_wire (mkSubscribeResponse (sub_namespace m)
    SubscribeStatus.Ok (subscriber_id s)))) as [_ ->].
  set (ns := sub_namespace m) in *. pose proof Hm as (_ & (Hns' & Hlen & _) & _).
  fold ns in Hns', Hlen.
  eexists _, _. split; [done|]. split; [done|]. unfold within in Hwithin. apply Z.eqb_eq in Hwithin.
  destruct (added_found (subscribeList r) (_name ns) (_sig_bits ns) (subscriber_id s) n)
    as [Hl1 Hfound]; [done..|].
  split; cbn [fst snd]; [|done|done|done| |done].
  - apply (wf_frame (subscribed s ns cid sid)); [by apply subscribed_wf|].
    exact (frame_with_tx (subscribed s ns cid sid) _).
  - exists (subscriber_id s), (new_context s cid sid). split_and!; [|done|done|done].
    simpl. unfold assign. rewrite at_key_insert by apply Hw. by rewrite decide_True.
Qed.

(** An object goes to it, and it is served on. *)
Lemma serves_publish n cid sid cid' sid' s r d rest :
  serves n cid sid cid' sid' (s, r) -> ok_PublishDatagram d -> name (header d) = n ->
  exists s' out, dispatch cid' sid' (PublishDatagram_wire d ++ rest) (s, r) = (Ret tt, (s', r)) /\
    tx s' = tx s ++ out /\ mkPacket cid sid (PublishDatagram_wire d) ∈ out /\
    (forall q, q ∈ out -> pkt_data q = PublishDatagram_wire d) /\
    serves n cid sid cid' sid' (s', r).
Proof.
  intros [Hw Hl Hns Hin (i & ctx & Hat & Ec & Es & Hfound) Hfirst] Hd <-. cbn [fst snd] in *.
  destruct (publish_step d rest cid' sid' s r Hw Hl Hd Hns Hin)
    as (found & ps & Ef & Edisp & Hw' & Hps).
  eexists _, _. split; [exact Edisp|]. split; [reflexivity|]. split_and!.
  - rewrite <- Ec, <- Es. apply (elem_of_copies s _ _ _ found (remote_of i) ctx); [by apply Hfound| |done].
    apply not_true_is_false. intros [Hx%Z.eqb_eq Hy%Z.eqb_eq]%andb_true_iff.
    apply Hfirst. simpl in *. congruence.
  - intros q. apply copies_data.
  - split; cbn [fst snd]; [done..| |].
    + exists i, ctx. done.
    + assert (first_publisher (after_publish s d cid' sid' found ps) (name (header d)) cid' sid'
        = first_publisher s (name (header d)) cid' sid') as ->; [|done].
      unfold first_publisher at 1. cbn [publish_state after_publish with_tx with_publish_state].
      by rewrite Hps, decide_True.
Qed.

(** Likewise for several objects of the name. *)
Lemma serves_publish_all n cid sid cid' sid' s r ds :
  serves n cid sid cid' sid' (s, r) ->
  (forall d, d ∈ ds -> ok_PublishDatagram d /\ name (header d) = n) ->
  exists s' out,
    mfor (map PublishDatagram_wire ds) (dispatch cid' sid') (s, r) = (Ret tt, (s', r)) /\
    tx s' = tx s ++ out /\
    (forall d, d ∈ ds -> mkPacket cid sid (PublishDatagram_wire d) ∈ out) /\
    (forall q, q ∈ out -> exists d, d ∈ ds /\ pkt_data q = PublishDatagram_wire d).
Proof.
  revert s. induction ds as [|d ds IH]; intros s Hs Hds.
  { exists s, []. split; [done|]. split; [by rewrite app_nil_r|].
    split; intros x Hx; by apply not_elem_of_nil in Hx. }
  destruct (Hds d ltac:(by left)) as [Hd Hn].
  destruct (serves_publish n cid sid cid' sid' s r d [] Hs Hd Hn)
    as (s1 & out & E & Et & Hin & Hout & Hs1). rewrite app_nil_r in E.
  destruct (IH s1 Hs1) as (s2 & out' & E' & Et' & Hin' & Hout').
  { intros d' Hd'. apply Hds. by right. }
  exists s2, (out ++ out'). cbn [map mfor]. rewrite (run_bind_ret _ _ _ _ _ E).
  split; [done|]. split; [by rewrite Et', Et, app_assoc|]. split.
  - intros d' [->|Hd']%elem_of_cons; apply elem_of_app; [by left|right; by apply Hin'].
  - intros q [Hq|Hq]%elem_of_app; [exists d; split; [by left|by apply Hout]|].
    destruct (Hout' q Hq) as (d' & Hd' & Eq). exists d'. split; [by right|done].
Qed.

Definition demo_relay : world t := (demo_announced, init).

(** An object whose name is announced is sent, as the bytes the publisher's
    message had, to the connection and stream of every remote the search gives
    whose id the server knows, in the order of the search; remotes with the
    connection and stream of the first publisher are left out.  Nothing else
    is sent. *)
Theorem relay_forwards d rest cid sid s r :
  QuicRServer.wf s -> Subscriptions.wf (subscribeList r) -> ok_PublishDatagram d ->
  (forall p, p ∈ publish_namespaces s -> wf_namespace p.1) ->
  existsb (fun p => within p.1 (name (header d))) (publish_namespaces s) = true ->
  exists found s', Subscriptions.find_remotes (subscribeList r) (name (header d)) = Ret found /\
    dispatch cid sid (encoded (put_PublishDatagram d) ++ rest) (s, r) = (Ret tt, (s', r)) /\
    let first := first_publisher s (name (header d)) cid sid in
    tx s' = tx s ++ copies s (pc_transport_context_id first) (pc_transport_stream_id first)
                      (encoded (put_PublishDatagram d)) found.
Proof. apply publish_run. Qed.

Lemma relay_forwards_witness :
  exists found s', Subscriptions.find_remotes Subscriptions.init (mkName 0x1000 0x2001)
      = Ret found /\
    dispatch 3 4 (encoded (put_PublishDatagram demo_object) ++ []) demo_relay
    = (Ret tt, (s', init)) /\
    tx s' = [] ++ copies demo_announced 3 4 (encoded (put_PublishDatagram demo_object)) found.
Proof.
  apply (relay_forwards demo_object [] 3 4 demo_announced init).
  - apply demo_announced_wf.
  - apply Subscriptions.table_wf_init.
  - repeat split; vm_compute; congruence.
  - apply demo_announced_namespaces.
  - reflexivity.
Defined.

(** End to end: a connection that subscribes to a namespace is answered,
    and an object in the namespace that is published after that, by anyone and
    also by itself, reaches it byte for byte, provided its name was announced
    and the first publisher is not on connection 0 and stream 0. *)
Theorem relay_end_to_end m d rest rest' cid sid cid' sid' s r :
  QuicRServer.wf s -> Subscriptions.wf (subscribeList r) -> ok_Subscribe m ->
  ok_PublishDatagram d -> subscriber_id s + 1 < 2 ^ 64 ->
  (forall p, p ∈ publish_namespaces s -> wf_namespace p.1) ->
  existsb (fun p => within p.1 (name (header d))) (publish_namespaces s) = true ->
  subscription (subscribe_state s) (sub_namespace m) cid = None ->
  within (sub_namespace m) (name (header d)) = true ->
  (let first := first_publisher s (name (header d)) cid' sid' in
   (pc_transport_context_id first, pc_transport_stream_id first) <> (0, 0)) ->
  exists s1 r1 s2 sent,
    dispatch cid sid (encoded (put_Subscribe m) ++ rest) (s, r) = (Ret tt, (s1, r1)) /\
    tx s1 = tx s ++ [mkPacket cid sid (encoded (put_SubscribeResponse
              (mkSubscribeResponse (sub_namespace m) SubscribeStatus.Ok (subscriber_id s))))] /\
    dispatch cid' sid' (encoded (put_PublishDatagram d) ++ rest') (s1, r1)
    = (Ret tt, (s2, r1)) /\
    tx s2 = tx s1 ++ sent /\ mkPacket cid sid (encoded (put_PublishDatagram d)) ∈ sent.
Proof.
  intros Hw Hl Hm Hd Hc Hns Hin Hnone Hwithin Hfirst.
  destruct (subscribe_serves m rest cid sid cid' sid' (name (header d)) s r)
    as (s1 & r1 & E1 & Et1 & Hs1); try done; [apply Hd|].
  destruct (serves_publish _ cid sid cid' sid' s1 r1 d rest' Hs1 Hd eq_refl)
    as (s2 & out & E2 & Et2 & Hin2 & _).
  destruct (encoded_wire _ _ (put_PublishDatagram_wire d Hd)) as [_ ->].
  by exists s1, r1, s2, out.
Qed.

Lemma relay_end_to_end_witness :
  exists s1 r1 s2 sent,
    dispatch 7 9 (encoded (put_Subscribe demo_subscribe) ++ []) demo_relay
    = (Ret tt, (s1, r1)) /\
    tx s1 = [] ++ [mkPacket 7 9 (encoded (put_SubscribeResponse
              (mkSubscribeResponse demo_ns SubscribeStatus.Ok 0)))] /\
    dispatch 3 4 (encoded (put_PublishDatagram demo_object) ++ []) (s1, r1)
    = (Ret tt, (s2, r1)) /\
    tx s2 = tx s1 ++ sent /\ mkPacket 7 9 (encoded (put_PublishDatagram demo_object)) ∈ sent.
Proof.
  apply (relay_end_to_end demo_subscribe demo_object [] [] 7 9 3 4 demo_announced init).
  - apply demo_announced_wf.
  - apply Subscriptions.table_wf_init.
  - apply ok_demo_subscribe.
  - repeat split; vm_compute; congruence.
  - reflexivity.
  - apply demo_announced_namespaces.
  - reflexivity.
  - reflexivity.
  - reflexivity.
  - discriminate.
Defined.

(** A subscriber that unsubscribes is told so, and gets nothing more: its
    remote stays in the table of the relay, but the server does not know the id
    any longer, so that it makes no copies. *)
Theorem relay_unsubscribe_silences u rest cid sid s r ctx :
  QuicRServer.wf s -> Subscriptions.wf (subscribeList r) -> ok_Unsubscribe u ->
  subscription (subscribe_state s) (unsub_namespace u) cid = Some ctx ->
  at_key (subscribe_id_state s) (sc_subscriber_id ctx) = Some ctx ->
  exists s',
    dispatch cid sid (encoded (put_Unsubscribe u) ++ rest) (s, r) = (Ret tt, (s', r)) /\
    tx s' = tx s ++ [mkPacket cid (sc_transport_stream_id ctx)
              (encoded (put_SubscribeEnd (mkSubscribeEnd (unsub_namespace u) SubscribeStatus.Ok)))] /\
    forall cid' sid' data found,
      copies s' cid' sid' data found
      = copies s cid' sid' data
          (List.filter (fun dest =>
             negb (Subscriptions.subscribe_id dest =? sc_subscriber_id ctx)) found).
Proof.
  intros Hw Hl Hu Hsub Hat. set (ns := unsub_namespace u) in *.
  destruct (encoded_wire _ _ (put_Unsubscribe_wire u)) as [_ ->].
  destruct (encoded_wire _ _ (put_SubscribeEnd_wire (mkSubscribeEnd ns SubscribeStatus.Ok)))
    as [_ ->].
  rewrite (dispatch_typed MessageType.Unsubscribe _ _ _
    (drop 1 (Unsubscribe_wire u) ++ rest)) by done.
  rewrite (handle_unsubscribe_tidy cid sid _ s r (mkUnsubscribe 0 ns)) by
    (done || (by apply wf_tidy) || by rewrite (get_Unsubscribe_wire native_little uninit_Unsubscribe u Hu rest)).
  cbn [unsub_namespace]. rewrite Hsub, (subscribed_unchanged s ns cid ctx Hsub).
  destruct (wf_subscription _ Hw _ _ _ Hsub) as [Hcid _].
  set (sent := mkPacket cid (sc_transport_stream_id ctx)
    (SubscribeEnd_wire (mkSubscribeEnd ns SubscribeStatus.Ok))).
  assert (QuicRServer.onUnsubscribe ns (sc_subscriber_id ctx) [] (s, r)
    = (Ret tt, (with_tx (tx s ++ [sent]) s, r))) as Hcall.
  { simpl QuicRServer.onUnsubscribe. unfold onUnsubscribe, mbind, M_bind.
    unfold on_server, subscriptionEnded. cbn [fst snd].
    rewrite (to_subscriber_run _ _ _ _ (put_SubscribeEnd_wire _)), Hat. cbn [fst snd].
    unfold on_list, on_app. cbn [fst snd]. pose proof Hu as (_ & Hlen & _).
    rewrite Subscriptions.remove_run by done. subst sent. rewrite Hcid. by destruct r. }
  rewrite (run_bind_ret _ _ _ _ _ Hcall). unfold on_server, modify. cbn [fst snd].
  eexists. split; [reflexivity|]. split.
  { unfold unsubscribed. by destruct (subscript _ ns []). }
  intros cid' sid' data found.
  assert (forall i, at_key (subscribe_id_state (unsubscribed (with_tx (tx s ++ [sent]) s) ns cid)) i
    = if decide (i = sc_subscriber_id ctx) then None else at_key (subscribe_id_state s) i) as Hi.
  { intros i. rewrite (unsubscribed_ids _ ns cid ctx) by done.
    by rewrite at_key_erase by apply Hw. }
  unfold copies. induction found as [|dest found IH]; [done|]. cbn [omap list_omap List.filter].
  rewrite Hi. destruct (Z.eqb_spec (Subscriptions.subscribe_id dest) (sc_subscriber_id ctx)).
  - rewrite decide_True by done. cbn [negb]. by destruct (_ && _)%bool.
  - rewrite decide_False by done. cbn [negb omap list_omap]. by rewrite IH.
Qed.

Definition demo_served : QuicRServer.t := subscribed demo_announced demo_ns 7 9.

Lemma relay_unsubscribe_silences_witness :
  exists s',
    dispatch 7 9 (encoded (put_Unsubscribe (mkUnsubscribe 0 demo_ns)) ++ []) (demo_served, init)
    = (Ret tt, (s', init)) /\
    tx s' = [] ++ [mkPacket 7 9
              (encoded (put_SubscribeEnd (mkSubscribeEnd demo_ns SubscribeStatus.Ok)))] /\
    forall cid' sid' data found,
      copies s' cid' sid' data found
      = copies demo_served cid' sid' data
          (List.filter (fun dest => negb (Subscriptions.subscribe_id dest =? 0)) found).
Proof.
  apply (relay_unsubscribe_silences (mkUnsubscribe 0 demo_ns) [] 7 9 demo_served init
    (mkSubscribeContext Unknown 7 9 0 0)).
  - apply subscribed_wf; [apply demo_announced_wf|done|done].
  - apply Subscriptions.table_wf_init.
  - repeat split; vm_compute; congruence.
  - reflexivity.
  - reflexivity.
Defined.

End ReallyServer.
