(* ===== verification/Broker.v ===== *)
(** * The broker: what the relay promises

    An abstract specification of the relay of cmd/really: finite maps and sets
    instead of the two layers of ordered maps and the table by prefix length,
    no buffers, no exceptions, no order among the packets that answer one event.
    [RelayBroker] proves that server and delegate together implement it.

    The specification keeps what a peer can observe of the relay, the flaws
    included: topics are told apart by their name without its length, an
    unsubscribe closes the topic for everyone when others remain, the end of a
    connection does not, and what was first published from connection 0 and
    stream 0 is forwarded to nobody. *)

From stdpp Require Export gmap.
From S2P Require Export Transport.

#[export] Instance Name_countable : Countable Name.
Proof.
  refine (inj_countable' (fun n => (_hi n, _low n)) (fun p => mkName p.1 p.2) _). by intros [].
Defined.
#[export] Instance Namespace_countable : Countable Namespace.
Proof.
  refine (inj_countable' (fun ns => (_name ns, _sig_bits ns))
    (fun p => mkNamespace p.1 p.2) _). by intros [].
Defined.

Module Broker.

(** A name somebody subscribed to: the namespace it was first mentioned with, and
    the id of each connection that is subscribed. *)
Record Topic := mkTopic { about : Namespace; members : gmap Z Z }.

(** A namespace somebody publishes, and where the answers to that go. *)
Record Announcement := mkAnnouncement {
  announced : Namespace;
  announcer : Z * Z;
  transaction : Z;
}.

(** Addresses are connections with a stream. *)
Record t := mk {
  topics : gmap Name Topic;
  addresses : gmap Z (Z * Z);              (* of the subscriber ids in use *)
  interests : gset (Z * Namespace);        (* what a subscriber id asked for *)
  announcements : gmap Name Announcement;
  origins : gmap Name (Z * Z);             (* where a name was first published from *)
  next_id : Z;
}.

Definition empty : t := mk ∅ ∅ ∅ ∅ ∅ 0.

(** What happens to a relay. *)
Inductive event :=
  | Subscribes (conn stream : Z) (m : Subscribe)
  | Unsubscribes (conn stream : Z) (m : Unsubscribe)
  | Announces (conn stream : Z) (m : PublishIntent)
  | Withdraws (conn stream : Z) (m : PublishIntentEnd)
  | Publishes (conn stream : Z) (m : PublishDatagram)
  | Sends_noise (conn stream : Z) (data : bytes)
  | Disconnects (conn : Z).

(** ** What the packets are *)

(** Messages to a subscriber id that is not in use are lost. *)
Definition send (b : t) (data : bytes) (id : Z) : list Packet :=
  match addresses b !! id with
  | Some (conn, stream) => [mkPacket conn stream data]
  | None => []
  end.

Definition accepted (ns : Namespace) (id : Z) : bytes :=
  SubscribeResponse_wire (mkSubscribeResponse ns SubscribeStatus.Ok id).
Definition ended (ns : Namespace) : bytes :=
  SubscribeEnd_wire (mkSubscribeEnd ns SubscribeStatus.Ok).
Definition granted (ns : Namespace) (transaction : Z) : bytes :=
  PublishIntentResponse_wire
    (mkPublishIntentResponse MessageType.PublishIntentResponse ns Response.Ok transaction).

(** ** What the events do *)

Definition topic_of (b : t) (ns : Namespace) : Topic :=
  default (mkTopic ns ∅) (topics b !! _name ns).

(** The id of a subscription. *)
Definition subscriber (b : t) (n : Name) (conn : Z) : option Z :=
  tp ← topics b !! n; members tp !! conn.

Definition subscribe (conn stream : Z) (ns : Namespace) (b : t) : t * list Packet :=
  match subscriber b (_name ns) conn with
  | Some id =>
      (mk (topics b) (addresses b) ({[(id, ns)]} ∪ interests b) (announcements b)
         (origins b) (next_id b),
       send b (accepted ns id) id)
  | None =>
      let id := next_id b in
      let tp := topic_of b ns in
      (mk (<[_name ns := mkTopic (about tp) (<[conn := id]> (members tp))]> (topics b))
         (<[id := (conn, stream)]> (addresses b)) ({[(id, ns)]} ∪ interests b)
         (announcements b) (origins b) (id + 1),
       [mkPacket conn stream (accepted ns id)])
  end.

Definition unsubscribe (conn : Z) (ns : Namespace) (b : t) : t * list Packet :=
  let tp := topic_of b ns in
  match members tp !! conn with
  | Some id =>
      (mk (if decide (delete conn (members tp) = ∅)
           then <[_name ns := mkTopic (about tp) ∅]> (topics b)
           else delete (_name ns) (topics b))
         (delete id (addresses b)) (interests b) (announcements b) (origins b) (next_id b),
       send b (ended ns) id)
  | None =>
      (mk (<[_name ns := tp]> (topics b)) (addresses b) (interests b) (announcements b)
         (origins b) (next_id b), [])
  end.

Definition announce (conn stream : Z) (ns : Namespace) (transaction_id : Z) (b : t)
    : t * list Packet :=
  let a := default (mkAnnouncement ns (conn, stream) transaction_id)
             (announcements b !! _name ns) in
  (mk (topics b) (addresses b) (interests b) (<[_name ns := a]> (announcements b))
     (origins b) (next_id b),
   [mkPacket (announcer a).1 (announcer a).2 (granted ns (transaction a))]).

Definition withdraw (ns : Namespace) (b : t) : t :=
  match announcements b !! _name ns with
  | Some _ =>
      mk (topics b) (addresses b) (interests b) (delete (_name ns) (announcements b))
        (filter (fun p => within ns p.1 = false) (origins b)) (next_id b)
  | None => b
  end.

Definition is_announced (b : t) (n : Name) : Prop :=
  map_Exists (fun _ a => within (announced a) n = true) (announcements b).

(** The ids that asked for a name, as often as they did. *)
Definition interested (b : t) (n : Name) : list Z :=
  (elements (filter (fun p => within p.2 n = true) (interests b))).*1.

Definition origin (b : t) (n : Name) (conn stream : Z) : Z * Z :=
  default (conn, stream) (origins b !! n).

Definition publish (conn stream : Z) (d : PublishDatagram) (b : t) : t * list Packet :=
  let n := name (header d) in
  if decide (is_announced b n) then
    let first := origin b n conn stream in
    (mk (topics b) (addresses b) (interests b) (announcements b)
       (<[n := first]> (origins b)) (next_id b),
     if decide (first = (0, 0)) then []
     else interested b n ≫= send b (PublishDatagram_wire d))
  else (b, []).

(** The subscriptions of a connection. *)
Definition subscriptions_of (b : t) (conn : Z) : list (Namespace * Z) :=
  omap (fun p => (fun id => (about p.2, id)) <$> members p.2 !! conn) (map_to_list (topics b)).

Definition disconnect (conn : Z) (b : t) : t * list Packet :=
  let subs := subscriptions_of b conn in
  (mk (topics b) (filter (fun p => p.1 ∉ subs.*2) (addresses b)) (interests b)
     (announcements b) (origins b) (next_id b),
   subs ≫= fun p => send b (ended p.1) p.2).

Definition step (e : event) (b : t) : t * list Packet :=
  match e with
  | Subscribes conn stream m => subscribe conn stream (sub_namespace m) b
  | Unsubscribes conn _ m => unsubscribe conn (unsub_namespace m) b
  | Announces conn stream m => announce conn stream (pi_namespace m) (pi_transaction_id m) b
  | Withdraws _ _ m => (withdraw (pie_namespace m) b, [])
  | Publishes conn stream d => publish conn stream d b
  | Sends_noise _ _ _ => (b, [])
  | Disconnects conn => disconnect conn b
  end.

(** The states and the answers of a run. *)
Fixpoint run (es : list event) (b : t) : t * list (list Packet) :=
  match es with
  | [] => (b, [])
  | e :: es' =>
      let '(b1, out) := step e b in
      let '(b2, outs) := run es' b1 in
      (b2, out :: outs)
  end.
Definition after (es : list event) : t := (run es empty).1.

Lemma run_app es es' b :
  run (es ++ es') b
  = ((run es' (run es b).1).1, (run es b).2 ++ (run es' (run es b).1).2).
Proof.
  revert b. induction es as [|e es IH]; intros b; [cbn; by destruct (run es' b)|].
  cbn [app run]. destruct (step e b) as [b1 out]. rewrite IH.
  destruct (run es b1) as [b2 outs]. done.
Qed.

Lemma run_length es b : length (run es b).2 = length es.
Proof.
  revert b. induction es as [|e es IH]; intros b; [done|]. cbn [run].
  destruct (step e b) as [b1 out]. specialize (IH b1). destruct (run es b1). cbn. by f_equal.
Qed.

Lemma next_id_step e b : next_id (step e b).1 <= next_id b + 1.
Proof.
  destruct e; simpl; unfold subscribe, unsubscribe, withdraw, publish;
    repeat case_match; simpl; lia.
Qed.

Lemma next_id_run es b : next_id (run es b).1 <= next_id b + Z.of_nat (length es).
Proof.
  revert b. induction es as [|e es IH]; intros b; [cbn; lia|]. cbn [run length].
  pose proof (next_id_step e b). destruct (step e b) as [b1 out]. specialize (IH b1).
  destruct (run es b1). cbn [fst] in *. lia.
Qed.

Lemma disconnect_next conn b : next_id (disconnect conn b).1 = next_id b.
Proof. done. Qed.

Lemma publish_data conn stream d b q :
  q ∈ (publish conn stream d b).2 -> pkt_data q = PublishDatagram_wire d.
Proof.
  unfold publish. intros Hq. repeat case_decide; try by apply not_elem_of_nil in Hq.
  cbn [snd] in Hq. apply list_elem_of_bind in Hq as (i & Hq & _). unfold send in Hq.
  destruct (addresses b !! i) as [[c s]|]; [|by apply not_elem_of_nil in Hq].
  apply list_elem_of_singleton in Hq. by subst q.
Qed.

Lemma after_snoc es e : after (es ++ [e]) = (step e (after es)).1.
Proof.
  unfold after. rewrite run_app. cbn. by destruct (step e (run es empty).1).
Qed.

(** * Consequences *)

(** The connection a packet goes to. *)
Definition to (conn : Z) (q : Packet) : Prop := pkt_context_id q = conn.
#[export] Instance to_dec conn q : Decision (to conn q).
Proof. unfold to. apply _. Defined.

Definition address_of (b : t) (conn : Z) (id : Z) : Prop :=
  fst <$> addresses b !! id = Some conn.
#[export] Instance address_of_dec b conn id : Decision (address_of b conn id).
Proof. unfold address_of. apply _. Defined.

(** The copies a connection gets are those of its ids. *)
Lemma copies_to b conn data ids :
  length (filter (to conn) (ids ≫= send b data)) = length (filter (address_of b conn) ids).
Proof.
  induction ids as [|id ids IH]; [done|]. cbn [mbind list_bind].
  rewrite list.filter_app, length_app, IH, (filter_cons _ id). unfold send.
  destruct (decide (address_of b conn id)) as [Ha|Ha]; unfold address_of in Ha;
    destruct (addresses b !! id) as [[c s]|]; try done; cbn in Ha.
  - injection Ha as ->. by rewrite filter_cons_True.
  - rewrite filter_cons_False by (unfold to; cbn; congruence). done.
Qed.

(** ** Relays whose subscribers stay *)

(** Nobody unsubscribes and no connection ends. *)
Definition calm (e : event) : Prop :=
  match e with Unsubscribes _ _ _ | Disconnects _ => False | _ => True end.

Definition asks (e : event) : list (Z * Namespace) :=
  match e with Subscribes conn _ m => [(conn, sub_namespace m)] | _ => [] end.

(** The namespaces a connection asked for. *)
Definition asked_by (es : list event) (conn : Z) : gset Namespace :=
  list_to_set (filter (fun p => p.1 = conn) (es ≫= asks)).*2.

(** Namespaces of one name have one length. *)
Definition one_length (l : list (Z * Namespace)) : Prop :=
  forall p q, p ∈ l -> q ∈ l -> _name p.2 = _name q.2 -> p.2 = q.2.

Record keeps (l : list (Z * Namespace)) (b : t) : Prop := {
  keeps_subscriber n c i : subscriber b n c = Some i ->
    exists ns, _name ns = n /\ (c, ns) ∈ l /\ (i, ns) ∈ interests b /\ address_of b c i;
  keeps_interest i ns : (i, ns) ∈ interests b ->
    exists c, address_of b c i /\ subscriber b (_name ns) c = Some i /\ (c, ns) ∈ l;
  keeps_asked c ns : (c, ns) ∈ l -> is_Some (subscriber b (_name ns) c);
  keeps_ids i : is_Some (addresses b !! i) -> i < next_id b;
  keeps_address c i : address_of b c i -> exists n, subscriber b n c = Some i;
}.

Lemma keeps_same l b b' :
  keeps l b -> topics b' = topics b -> addresses b' = addresses b ->
  interests b' = interests b -> next_id b' = next_id b -> keeps l b'.
Proof.
  intros [] Et Ea Ei En. unfold address_of, subscriber in *.
  split; unfold address_of, subscriber; rewrite ?Et, ?Ea, ?Ei, ?En; auto.
Qed.

Lemma subscriber_subscribe conn stream ns b n c :
  subscriber b (_name ns) conn = None ->
  subscriber (subscribe conn stream ns b).1 n c
  = if decide (n = _name ns /\ c = conn) then Some (next_id b) else subscriber b n c.
Proof.
  intros E. unfold subscribe. rewrite E. unfold subscriber. cbn [topics fst].
  destruct (decide (n = _name ns)) as [->|Hne].
  - rewrite lookup_insert_eq. cbn [mbind option_bind members]. unfold topic_of.
    destruct (decide (c = conn)) as [->|Hne].
    + by rewrite lookup_insert_eq, decide_True.
    + rewrite lookup_insert_ne, decide_False by (done || by intros []).
      by destruct (topics b !! _name ns).
  - by rewrite lookup_insert_ne, decide_False by (done || by intros []).
Qed.

Lemma keeps_subscribe l conn stream ns b :
  one_length ((conn, ns) :: l) -> keeps l b ->
  keeps ((conn, ns) :: l) (subscribe conn stream ns b).1.
Proof.
  intros H1 [Hs Hi Ha Hn Hx]. pose proof (subscriber_subscribe conn stream ns b) as Hsub.
  unfold subscribe in *. destruct (subscriber b (_name ns) conn) as [i0|] eqn:E; cbn [fst] in *.
  - change (subscriber (mk _ _ _ _ _ _)) with (subscriber b).
    apply Hs in E as E'. destruct E' as (ns' & En & Hl & Hin & Haddr).
    assert (ns' = ns) as ->
      by (apply (H1 (conn, ns') (conn, ns)); [by right|by left|done]).
    split; [..|exact Hn|exact Hx].
    + intros n c i (ns1 & ? & ? & ? & ?)%Hs. exists ns1. split_and!; [done|by right| |done].
      simpl. set_solver.
    + intros i ns1 [[=-> ->]%elem_of_singleton|Hin1]%elem_of_union.
      * exists conn. split_and!; [done|done|by left].
      * apply Hi in Hin1 as (c & ? & ? & ?). exists c. split_and!; [done|done|by right].
    + intros c ns1 [[=-> ->]|Hin1]%elem_of_cons; [change (is_Some (subscriber b (_name ns) conn)); by rewrite E|by apply Ha].
  - specialize (fun n c => Hsub n c eq_refl).
    assert (forall c i, address_of b c i -> i <> next_id b) as Hne.
    { intros c i Hc ->. unfold address_of in Hc. destruct (addresses b !! next_id b) eqn:Ea; [|done].
      specialize (Hn (next_id b)). rewrite Ea in Hn. specialize (Hn ltac:(done)). lia. }
    assert (forall c i, address_of b c i -> address_of (subscribe conn stream ns b).1 c i) as Hold.
    { intros c i Hc. unfold subscribe. rewrite E. unfold address_of. simpl.
      rewrite lookup_insert_ne by (by apply not_eq_sym, (Hne c)). done. }
    unfold subscribe in Hold. rewrite E in Hold. cbn [fst] in Hold.
    split.
    + intros n c i. rewrite Hsub. case_decide as Ec.
      * intros [= <-]. destruct Ec as [-> ->]. exists ns. split_and!; [done|by left|simpl; set_solver|].
        unfold address_of. simpl. by rewrite lookup_insert_eq.
      * intros (ns1 & ? & ? & ? & ?)%Hs. exists ns1.
        split_and!; [done|by right|simpl; set_solver|by apply Hold].
    + intros i ns1 [[=-> ->]%elem_of_singleton|Hin1]%elem_of_union.
      * exists conn. rewrite Hsub, decide_True by done. split_and!; [|done|by left].
        unfold address_of. simpl. by rewrite lookup_insert_eq.
      * apply Hi in Hin1 as (c & ? & Ec & ?). exists c. split_and!; [by apply Hold| |by right].
        rewrite Hsub, decide_False; [done|]. intros [En ->]. congruence.
    + intros c ns1 [[=-> ->]|Hin1]%elem_of_cons; rewrite Hsub; [by rewrite decide_True|].
      case_decide; [done|by apply Ha].
    + intros i. simpl. destruct (decide (i = next_id b)) as [->|Hi']; [lia|].
      rewrite lookup_insert_ne by done. intros Hlt%Hn. lia.
    + intros c i. unfold address_of. cbn [addresses]. rewrite lookup_insert. case_decide as Ei.
      * intros [= <-]. exists (_name ns). by rewrite Hsub, decide_True, Ei.
      * intros Hc. destruct (Hx c i Hc) as [n En]. exists n. rewrite Hsub, decide_False; [done|].
        intros [-> ->]. congruence.
Qed.

Lemma keeps_ext l l' b : (forall p, p ∈ l <-> p ∈ l') -> keeps l b -> keeps l' b.
Proof.
  intros Hl [Hs Hi Ha Hn Hx]. split; [..|done|done].
  - intros n c i (ns & ? & Hin & ?)%Hs. exists ns. by rewrite <- Hl.
  - intros i ns (c & ? & ? & Hin)%Hi. exists c. by rewrite <- Hl.
  - intros c ns Hin. apply Ha. by rewrite Hl.
Qed.

Lemma keeps_step l e b :
  calm e -> one_length (asks e ++ l) -> keeps l b -> keeps (asks e ++ l) (step e b).1.
Proof.
  intros Hc H1 Hk. destruct e as [c s m| |c s m|c s m|c s d|c s data|]; try done; simpl.
  - by apply keeps_subscribe.
  - by apply (keeps_same _ b).
  - unfold withdraw. case_match; [by apply (keeps_same _ b)|done].
  - unfold publish. case_decide; [by apply (keeps_same _ b)|done].
Qed.

Lemma keeps_after es :
  Forall calm es -> one_length (es ≫= asks) -> keeps (es ≫= asks) (after es).
Proof.
  induction es as [|e es IH] using rev_ind.
  { intros _ _. split; try done; unfold address_of; simpl.
    - intros c ns Hin. by apply not_elem_of_nil in Hin.
    - intros i. rewrite lookup_empty. by intros []. }
  rewrite bind_app. cbn [mbind list_bind]. rewrite app_nil_r.
  intros [Hes He]%Forall_app H1. rewrite after_snoc.
  assert (forall p, p ∈ (es ≫= asks) ++ asks e <-> p ∈ asks e ++ (es ≫= asks)) as Hp
    by (intros p; rewrite !elem_of_app; tauto).
  apply (keeps_ext (asks e ++ (es ≫= asks))); [by intros p; rewrite Hp|].
  apply keeps_step; [by inversion He| |].
  - intros p q. rewrite <- !Hp. apply H1.
  - apply IH; [done|]. intros p q Hp' Hq'. apply H1; apply elem_of_app; by left.
Qed.

Lemma elem_of_asked_by es conn ns : ns ∈ asked_by es conn <-> (conn, ns) ∈ es ≫= asks.
Proof.
  unfold asked_by. rewrite elem_of_list_to_set, list_elem_of_fmap. split.
  - intros ([c ns'] & -> & [Ec Hin]%list_elem_of_filter). simpl in *. by subst.
  - intros Hin. exists (conn, ns). split; [done|]. by apply list_elem_of_filter.
Qed.

(** In a calm run a connection gets an object once for each namespace it asked
    for that contains the name. *)
Lemma calm_copies es cp sp d conn :
  Forall calm es -> one_length (es ≫= asks) ->
  is_announced (after es) (name (header d)) ->
  origin (after es) (name (header d)) cp sp <> (0, 0) ->
  length (filter (to conn) (publish cp sp d (after es)).2)
  = size (filter (fun ns => within ns (name (header d)) = true) (asked_by es conn)).
Proof.
  intros Hc H1 Han Ho. destruct (keeps_after es Hc H1) as [Hs Hi Ha _ _].
  set (b := after es) in *. unfold publish. rewrite decide_True, decide_False by done.
  cbn [snd]. rewrite copies_to. unfold interested, size, set_size. cbn [compose].
  set (n := name (header d)).
  set (F := filter (fun p : Z * Namespace => within p.2 n = true) (interests b)).
  assert (elements (filter (fun ns => within ns n = true) (asked_by es conn))
    ≡ₚ (filter (fun p => address_of b conn p.1) (elements F)).*2) as Hp.
  { apply NoDup_Permutation; [apply NoDup_elements| |].
    - apply NoDup_fmap_2_strong; [|apply list.NoDup_filter, NoDup_elements].
      intros [i ns] [j ns'] [Hai Hin]%list_elem_of_filter [Haj Hin']%list_elem_of_filter E.
      rewrite elem_of_elements in Hin, Hin'. apply elem_of_filter in Hin as [_ Hin].
      apply elem_of_filter in Hin' as [_ Hin']. cbn in E, Hai, Haj. subst ns'.
      apply Hi in Hin as (c & Hci & Ei & _). apply Hi in Hin' as (c' & Hcj & Ej & _).
      unfold address_of in *. congruence.
    - intros ns. rewrite elem_of_elements, elem_of_filter, elem_of_asked_by, list_elem_of_fmap.
      split.
      + intros (Hw & Hin). apply Ha in Hin as Hi'. destruct Hi' as [i Ei].
        apply Hs in Ei as (ns' & En & Hin' & Hint & Haddr).
        assert (ns' = ns) as -> by (by apply (H1 (conn, ns') (conn, ns))).
        exists (i, ns). split; [done|]. apply list_elem_of_filter. split; [done|].
        apply elem_of_elements, elem_of_filter. by split.
      + intros ([i ns'] & -> & [Haddr Hin]%list_elem_of_filter).
        apply elem_of_elements, elem_of_filter in Hin as [Hw Hint]. split; [done|]. cbn [fst snd] in *.
        apply Hi in Hint as (c & Hci & _ & Hin). unfold address_of in *.
        assert (c = conn) as -> by congruence. done. }
  rewrite Hp, length_fmap. clear. induction (elements F) as [|p l IH]; [done|].
  cbn [fmap list_fmap]. rewrite !filter_cons.
  destruct (decide (address_of b conn p.1)); cbn [length]; by rewrite IH.
Qed.

(** ** Subscribing again after another's unsubscribe *)

(** A connection that is subscribed, and gets the objects of the namespace. *)
Record served (b : t) (conn stream : Z) (ns : Namespace) (id : Z) : Prop := {
  served_subscriber : subscriber b (_name ns) conn = Some id;
  served_address : addresses b !! id = Some (conn, stream);
  served_interest : (id, ns) ∈ interests b;
}.

(** What [origin] and [is_announced] look at stays. *)
Lemma subscribe_publishers conn stream ns b :
  announcements (subscribe conn stream ns b).1 = announcements b /\
  origins (subscribe conn stream ns b).1 = origins b.
Proof. unfold subscribe. by case_match. Qed.

Lemma unsubscribe_publishers conn ns b :
  announcements (unsubscribe conn ns b).1 = announcements b /\
  origins (unsubscribe conn ns b).1 = origins b.
Proof. unfold unsubscribe. by case_match. Qed.

(** The unsubscribe of one of several closes the topic, but the ids of the others
    stay in use. *)
Lemma unsubscribe_closes b other conn stream ns ns' i j :
  served b conn stream ns i -> _name ns' = _name ns ->
  subscriber b (_name ns) other = Some j -> other <> conn -> i <> j ->
  let b' := (unsubscribe other ns' b).1 in
  (forall c, subscriber b' (_name ns) c = None) /\ addresses b' !! i = Some (conn, stream) /\
  interests b' = interests b /\ next_id b' = next_id b.
Proof.
  intros [Hs Ha Hi] En Hj Hne Hij. unfold unsubscribe.
  assert (forall c, members (topic_of b ns') !! c = subscriber b (_name ns) c) as Hm.
  { intros c. unfold topic_of, subscriber. rewrite En. by destruct (topics b !! _name ns). }
  rewrite Hm, Hj. cbn [fst addresses interests next_id].
  rewrite decide_False.
  - split; [intros c; unfold subscriber; cbn [topics]; by rewrite En, lookup_delete_eq|].
    by rewrite lookup_delete_ne by congruence.
  - intros E. apply (f_equal (lookup conn)) in E.
    rewrite lookup_delete_ne, Hm, Hs, lookup_empty in E by done. done.
Qed.

Lemma doubled b other conn stream stream' ns ns' i j cp sp d :
  served b conn stream ns i -> _name ns' = _name ns ->
  subscriber b (_name ns) other = Some j -> other <> conn -> i <> j -> i < next_id b ->
  is_announced b (name (header d)) -> within ns (name (header d)) = true ->
  origin b (name (header d)) cp sp <> (0, 0) ->
  let b' := (subscribe conn stream' ns (unsubscribe other ns' b).1).1 in
  [mkPacket conn stream (PublishDatagram_wire d); mkPacket conn stream' (PublishDatagram_wire d)]
  ⊆+ (publish cp sp d b').2.
Proof.
  intros Hs En Hj Hne Hij Hlt Han Hw Ho b'.
  destruct (unsubscribe_closes b other conn stream ns ns' i j Hs En Hj Hne Hij)
    as (Hnone & Ha & Hi & Hnext). destruct (unsubscribe_publishers other ns' b) as [Ean Eor].
  destruct (subscribe_publishers conn stream' ns (unsubscribe other ns' b).1) as [Ean' Eor'].
  fold b' in Ean', Eor'. rewrite Ean in Ean'. rewrite Eor in Eor'.
  unfold publish, is_announced, origin. rewrite Ean', Eor', decide_True, decide_False by done.
  cbn [snd].
  assert (addresses b' !! i = Some (conn, stream) /\
    addresses b' !! next_id b = Some (conn, stream') /\
    (i, ns) ∈ interests b' /\ (next_id b, ns) ∈ interests b') as (A1 & A2 & I1 & I2).
  { subst b'. unfold subscribe. rewrite Hnone, Hnext, Hi. cbn [fst addresses interests].
    rewrite lookup_insert_eq, lookup_insert_ne by lia. pose proof (served_interest _ _ _ _ _ Hs).
    split_and!; [done|done|by apply elem_of_union; right|].
    by apply elem_of_union; left; apply elem_of_singleton. }
  transitivity ([i; next_id b] ≫= send b' (PublishDatagram_wire d)).
  { cbn [mbind list_bind]. unfold send. by rewrite A1, A2. }
  apply bind_submseteq. unfold interested.
  change [i; next_id b] with ([(i, ns); (next_id b, ns)].*1).
  apply fmap_submseteq, NoDup_submseteq.
  - repeat constructor; rewrite ?elem_of_cons, ?elem_of_nil; [|tauto].
    intros [[= E]|[]]. lia.
  - intros p Hp. apply elem_of_elements, elem_of_filter.
    rewrite !elem_of_cons, elem_of_nil in Hp. by destruct Hp as [->|[->|[]]].
Qed.

(** ** A connection that was lost *)

(** Messages to a connection's ids are lost, and it counts as subscribed. *)
Record deaf (b : t) (conn : Z) (names : Name -> Prop) : Prop := {
  deaf_address i : ~ address_of b conn i;
  deaf_names n : names n -> is_Some (subscriber b n conn);
}.

Lemma deaf_send b conn names data i q :
  deaf b conn names -> q ∈ send b data i -> ~ to conn q.
Proof.
  intros [Ha _] Hq Ht. apply (Ha i). unfold send in Hq. unfold address_of.
  destruct (addresses b !! i) as [[c s]|]; [|by apply not_elem_of_nil in Hq].
  apply list_elem_of_singleton in Hq. subst q. unfold to in Ht. cbn in *. by subst.
Qed.

(** Events that leave it so: nobody closes the topics, and the connection does not
    ask for others. *)
Definition leaves_deaf (conn : Z) (names : Name -> Prop) (e : event) : Prop :=
  match e with
  | Subscribes c _ m => c = conn -> names (_name (sub_namespace m))
  | Unsubscribes _ _ m => ~ names (_name (unsub_namespace m))
  | _ => True
  end.

Definition is_announce (e : event) : Prop :=
  match e with Announces _ _ _ => True | _ => False end.

Lemma deaf_subscribe b conn names c s ns :
  (c = conn -> names (_name ns)) -> deaf b conn names ->
  deaf (subscribe c s ns b).1 conn names /\ forall q, q ∈ (subscribe c s ns b).2 -> ~ to conn q.
Proof.
  intros Hc Hd. pose proof Hd as [Ha Hn]. pose proof (subscriber_subscribe c s ns b) as Hsub.
  unfold subscribe in *. destruct (subscriber b (_name ns) c) as [i|] eqn:E; cbn [fst snd] in *.
  - split; [by split|]. intros q Hq. by eapply deaf_send.
  - assert (c <> conn) as Hne.
    { intros ->. specialize (Hn _ (Hc eq_refl)). rewrite E in Hn. by destruct Hn. }
    split; [split|].
    + intros i. unfold address_of. cbn [addresses]. rewrite lookup_insert.
      case_decide; [cbn; congruence|apply Ha].
    + intros n Hin. rewrite Hsub by done. case_decide; [done|by apply Hn].
    + intros q Hq Ht. apply list_elem_of_singleton in Hq. subst q. by unfold to in Ht.
Qed.

Lemma deaf_unsubscribe b conn names c ns :
  ~ names (_name ns) -> deaf b conn names ->
  deaf (unsubscribe c ns b).1 conn names /\ forall q, q ∈ (unsubscribe c ns b).2 -> ~ to conn q.
Proof.
  intros Hns Hd. pose proof Hd as [Ha Hn].
  assert (forall n, names n -> n <> _name ns) as Hne by (by intros n Hin ->).
  unfold unsubscribe. destruct (members (topic_of b ns) !! c) as [i|]; cbn [fst snd]; split.
  - split.
    + intros k. unfold address_of. cbn [addresses]. rewrite lookup_delete. case_decide; [done|apply Ha].
    + intros n Hin. specialize (Hne n Hin). unfold subscriber. cbn [topics].
      case_decide; [rewrite lookup_insert_ne by done|rewrite lookup_delete_ne by done];
        by apply Hn.
  - intros q Hq. by eapply deaf_send.
  - split; [done|]. intros n Hin. specialize (Hne n Hin).
    unfold subscriber. cbn [topics]. rewrite lookup_insert_ne by done. by apply Hn.
  - intros q Hq. by apply not_elem_of_nil in Hq.
Qed.

Lemma deaf_step b conn names e :
  leaves_deaf conn names e -> deaf b conn names ->
  deaf (step e b).1 conn names /\
  (~ is_announce e -> forall q, q ∈ (step e b).2 -> ~ to conn q).
Proof.
  intros He Hd. pose proof Hd as [Ha Hn].
  assert (forall X (l : list X) f, (forall x q, q ∈ f x -> ~ to conn q) ->
    forall q, q ∈ l ≫= f -> ~ to conn q) as Hbind.
  { intros X l f Hf q (x & Hq & _)%list_elem_of_bind. by apply (Hf x). }
  destruct e as [c s m|c s m|c s m|c s m|c s d|c s data|c]; cbn [step leaves_deaf] in *.
  - destruct (deaf_subscribe b conn names c s (sub_namespace m)); by auto.
  - destruct (deaf_unsubscribe b conn names c (unsub_namespace m)); by auto.
  - split; [by split|]. by intros [].
  - split; [|intros _ q Hq; by apply not_elem_of_nil in Hq]. unfold withdraw. cbn [fst].
    case_match; by split.
  - unfold publish. case_decide; cbn [fst snd]; [|split; [done|intros _ q Hq; by apply not_elem_of_nil in Hq]].
    split; [by split|]. intros _. case_decide; [intros q Hq; by apply not_elem_of_nil in Hq|].
    apply Hbind. intros i q. by eapply deaf_send.
  - split; [done|]. intros _ q Hq. by apply not_elem_of_nil in Hq.
  - split; cbn [disconnect fst snd]; [split; [|done]|].
    + intros i Hi. apply (Ha i). unfold address_of in *. cbn [addresses] in Hi.
      destruct (addresses b !! i) as [a|] eqn:E; rewrite map_lookup_filter, E in Hi; [|done].
      cbn in *. by case_guard.
    + intros _. apply Hbind. intros p q. by eapply deaf_send.
Qed.

(** The names a connection asked for. *)
Definition asked_name (es : list event) (conn : Z) (n : Name) : Prop :=
  exists ns, (conn, ns) ∈ es ≫= asks /\ _name ns = n.

Lemma disconnect_deaf es conn :
  Forall calm es -> one_length (es ≫= asks) ->
  deaf (disconnect conn (after es)).1 conn (asked_name es conn).
Proof.
  intros Hc H1. destruct (keeps_after es Hc H1) as [_ _ Ha _ Hx]. split.
  - intros i Hi. unfold address_of in Hi. cbn [disconnect fst addresses] in Hi.
    destruct (addresses (after es) !! i) as [a|] eqn:E; rewrite map_lookup_filter, E in Hi; [|done].
    cbn in Hi. case_guard as Hg; [|done]. apply Hg. cbn in Hi.
    destruct (Hx conn i) as [n Hn]; [unfold address_of; by rewrite E|].
    unfold subscriber in Hn. destruct (topics (after es) !! n) as [tp|] eqn:Et; [|done].
    cbn in Hn. apply list_elem_of_fmap. exists (about tp, i). split; [done|].
    apply list_elem_of_omap. exists (n, tp). split; [by apply elem_of_map_to_list|].
    cbn [snd]. by rewrite Hn.
  - intros n (ns & Hin & <-). by apply Ha in Hin.
Qed.

Lemma deaf_run b conn names es :
  Forall (leaves_deaf conn names) es -> deaf b conn names ->
  deaf (run es b).1 conn names /\
  forall k e out q, es !! k = Some e -> (run es b).2 !! k = Some out ->
    ~ is_announce e -> q ∈ out -> ~ to conn q.
Proof.
  revert b. induction es as [|e es IH]; intros b Hes Hd; [done|].
  inversion_clear Hes as [|? ? He Hes']. destruct (deaf_step b conn names e He Hd) as [Hd1 Hq1].
  cbn [run]. destruct (step e b) as [b1 out1]. cbn [fst snd] in *.
  destruct (IH b1 Hes' Hd1) as [Hd2 Hq2]. destruct (run es b1) as [b2 outs2]. cbn [fst snd] in *.
  split; [done|]. intros [|k] e' out q Hk Ho; cbn in Hk, Ho; [|by apply (Hq2 k)].
  simplify_eq. intros Hna. by apply Hq1.
Qed.

End Broker.
