(* ===== verification/RelayBroker.v ===== *)
(** * The relay implements the broker

    A simulation between the relay, that is [QuicRServer] with the delegate
    [ReallyServer] on the callbacks of the transport, and the specification
    [Broker]: related states stay related under every event, and the relay
    sends what the broker answers, in some order.  [relay] runs an event as the
    message its peer sends; [receive] runs the bytes that arrive, and [event_of]
    says which event they are. *)

From S2P Require Export Types Broker Really.

Module RelayBroker.
Import QuicRServer.
#[local] Existing Instances x86_64 ReallyServer.delegate ReallyServer.delegate_lawful
  ReallyServer.copies_Permutation Broker.to_dec.
#[local] Instance x86_64_little : LittleEndian := eq_refl.

(** ** The table of the relay as a set of interests *)

Record tabulates (interests : gset (Z * Namespace)) (l : Subscriptions.t) : Prop := {
  tab_wf : Subscriptions.wf l;
  tab_full : l !! 128%nat = Some [];
  tab_interest i ns : (i, ns) ∈ interests <-> wf_namespace ns /\
    ReallyServer.remote_of i ∈ Subscriptions.members (Subscriptions.asked l (_sig_bits ns) (_name ns));
  tab_remote len n r : 0 <= len < 128 -> r ∈ Subscriptions.members (Subscriptions.asked l len n) ->
    r = ReallyServer.remote_of (Subscriptions.subscribe_id r);
}.

Lemma within_masked ns n :
  wf_namespace ns -> wf_name n ->
  within ns n = true <-> name_and n (mask_name (_sig_bits ns)) = _name ns.
Proof.
  intros Hns Hn. pose proof (contains_within ns n Hns Hn) as E.
  rewrite contains_ret in E by apply Hns. injection E as <-.
  destruct (name_eqb_spec (name_and n (mask_name (_sig_bits ns))) (_name ns)); by split.
Qed.

(** The namespace of the first [len] bits. *)
Definition prefix_of (n : Name) (len : Z) : Namespace :=
  mkNamespace (name_and n (mask_name len)) len.

Lemma prefix_of_within n len :
  wf_name n -> 0 <= len < 128 -> wf_namespace (prefix_of n len) /\ within (prefix_of n len) n = true.
Proof.
  intros Hn Hl. pose proof (wf_make_Namespace n len Hn Hl) as Hw. split; [done|].
  by apply within_masked.
Qed.

Lemma asked_prefix l n len :
  wf_name n -> 0 <= len < 128 ->
  Subscriptions.asked l len (name_and n (mask_name len)) = Subscriptions.asked l len n.
Proof.
  intros Hn Hl. destruct (prefix_of_within n len Hn Hl) as [Hw _]. pose proof Hw as (Hk & _).
  unfold Subscriptions.asked.
  assert (name_and (name_and n (mask_name len)) (mask_name len) = name_and n (mask_name len)) as ->;
    [|done].
  apply (within_masked (prefix_of n len)); [done..|]. unfold within. apply Z.eqb_refl.
Qed.

(** The search finds the ids that are interested, each as often as it is. *)
Lemma find_remotes_interested interests l n :
  tabulates interests l -> wf_name n ->
  exists found, Subscriptions.find_remotes l n = Ret found /\
    found ≡ₚ ReallyServer.remote_of
             <$> (elements (filter (fun p => within p.2 n = true) interests)).*1.
Proof.
  intros [Hw Hfull Hspec Hrem] Hn. eexists. split; [by apply Subscriptions.find_remotes_x86_64|].
  assert (Subscriptions.asked_full l n = []) as ->.
  { unfold Subscriptions.asked_full. by rewrite Hfull. }
  rewrite app_nil_r, Subscriptions.gathered_bind. change (Z.of_nat 128) with 128.
  set (L := seqZ 0 128 ≫= fun len => (fun r => (Subscriptions.subscribe_id r, prefix_of n len))
    <$> Subscriptions.members (Subscriptions.asked l len n)).
  assert (L ≡ₚ elements (filter (fun p => within p.2 n = true) interests)) as <-.
  { apply NoDup_Permutation; [|apply NoDup_elements|].
    - apply NoDup_bind; [| |apply NoDup_seqZ].
      + intros j k [i ns] _ _ (r & E & _)%list_elem_of_fmap (r' & E' & _)%list_elem_of_fmap.
        simplify_eq/=. done.
      + intros len Hlen%elem_of_seqZ. apply NoDup_fmap_2_strong.
        * intros r r' Hr%Hrem Hr'%Hrem E; [|lia..]. simplify_eq/=. congruence.
        * apply Subscriptions.members_NoDup. by apply Subscriptions.asked_sorted.
    - intros [i ns]. rewrite elem_of_elements, elem_of_filter, Hspec. subst L.
      rewrite list_elem_of_bind. cbn [snd]. split.
      + intros (len & (r & E & Hr)%list_elem_of_fmap & Hlen%elem_of_seqZ). simplify_eq/=.
        destruct (prefix_of_within n len) as [H1 H2]; [done|lia|].
        split; [done|]. split; [done|]. rewrite asked_prefix by (done || lia).
        rewrite <- (Hrem len n r) by (done || lia). done.
      + intros (Hin & Hns & Hr). pose proof Hns as (Hk & Hlen & _).
        apply within_masked in Hin as E; [|done..].
        assert (ns = prefix_of n (_sig_bits ns)) as E'.
        { unfold prefix_of. rewrite E. by destruct ns. }
        exists (_sig_bits ns). split; [|apply elem_of_seqZ; lia].
        apply list_elem_of_fmap. exists (ReallyServer.remote_of i). split; [by rewrite <- E'|].
        rewrite <- E in Hr. by rewrite asked_prefix in Hr. }
  subst L. apply reflexive_eq.
  assert (forall j, j ∈ seqZ 0 128 -> 0 <= j < 128) as Hjs by (intros j Hj%elem_of_seqZ; lia).
  induction (seqZ 0 128) as [|j js IH]; [done|]. cbn [mbind list_bind].
  rewrite !fmap_app, <- IH by (intros; apply Hjs; by right). f_equal.
  rewrite <- !list_fmap_compose. rewrite <- list_fmap_id at 1. apply list_fmap_ext.
  intros k r Hr%list_elem_of_lookup_2. apply (Hrem j n); [|done]. apply Hjs. by left.
Qed.

Lemma name_of_masked ns :
  wf_namespace ns -> name_and (_name ns) (mask_name (_sig_bits ns)) = _name ns.
Proof. intros Hns. apply within_masked; [done|apply Hns|]. unfold within. apply Z.eqb_refl. Qed.

Lemma tabulates_init : tabulates ∅ Subscriptions.init.
Proof.
  assert (forall len n, Subscriptions.asked Subscriptions.init len n = []) as E.
  { intros len n. unfold Subscriptions.asked, Subscriptions.init.
    destruct (replicate 129 [] !! Z.to_nat len) as [m|] eqn:Em; [|done].
    by apply lookup_replicate in Em as [-> _]. }
  split; [apply Subscriptions.table_wf_init|done| |].
  - intros i ns. rewrite E. simpl. split; [set_solver|]. intros [_ H]. by apply not_elem_of_nil in H.
  - intros len n r _. rewrite E. intros H. by apply not_elem_of_nil in H.
Qed.

Lemma tabulates_add interests l i ns :
  tabulates interests l -> wf_namespace ns ->
  exists l', Subscriptions.add (_name ns) (_sig_bits ns) (ReallyServer.remote_of i) l
      = (Ret tt, l') /\
    tabulates ({[(i, ns)]} ∪ interests) l'.
Proof.
  intros [Hw Hfull Hspec Hrem] Hns. pose proof Hns as (Hn & Hlen & _).
  destruct (Subscriptions.add_run (_name ns) (_sig_bits ns) (ReallyServer.remote_of i) l Hw Hlen)
    as (m & Em & ->).
  pose proof (fun len' n' H => Subscriptions.asked_added l (_sig_bits ns) m (_name ns)
    (ReallyServer.remote_of i) len' n' Hw Hlen H Em) as Hasked.
  pose proof (Subscriptions.asked_sorted l (_sig_bits ns) (_name ns) Hw) as Hs.
  eexists. split; [done|]. split.
  - by apply Subscriptions.added_wf.
  - rewrite list_lookup_insert_ne by lia. done.
  - intros j ns'. rewrite elem_of_union, elem_of_singleton, Hspec. split.
    + intros [[=-> ->]|(Hns' & Hr)].
      * split; [done|]. rewrite Hasked, decide_True by done.
        apply Subscriptions.elem_of_set_insert; [done|by left].
      * split; [done|]. rewrite Hasked by apply Hns'. case_decide as E; [|done].
        destruct E as [El En]. apply Subscriptions.elem_of_set_insert; [done|right].
        rewrite El in Hr. rewrite <- El in En at 1. rewrite !name_of_masked in En by done.
        by rewrite <- En.
    + intros [Hns' Hr]. rewrite Hasked in Hr by apply Hns'. case_decide as E; [|by right].
      destruct E as [El En]. rewrite <- El in En at 1. rewrite !name_of_masked in En by done.
      assert (ns' = ns) as -> by (destruct ns, ns'; simpl in *; congruence).
      apply Subscriptions.elem_of_set_insert in Hr as [Hr|Hr]; [|by right|done].
      left. unfold ReallyServer.remote_of in Hr. congruence.
  - intros len' n' r Hlen' Hr. rewrite Hasked in Hr by done. case_decide as E; [|by eapply Hrem].
    apply Subscriptions.elem_of_set_insert in Hr as [->|Hr]; [done| |done].
    by apply (Hrem (_sig_bits ns) (_name ns)).
Qed.

Lemma tabulates_remove interests l i ns :
  tabulates interests l -> wf_namespace ns ->
  Subscriptions.remove (_name ns) (_sig_bits ns) (ReallyServer.remote_of i) l = (Ret tt, l).
Proof. intros [Hw _ _ _] (_ & Hlen & _). by apply Subscriptions.remove_run. Qed.

(** ** The simulation relation *)

Definition place (ctx : SubscribeContext) : Z * Z :=
  (sc_transport_context_id ctx, sc_transport_stream_id ctx).
Definition first_place (ctx : PublishContext) : Z * Z :=
  (pc_transport_context_id ctx, pc_transport_stream_id ctx).
Definition announcement (p : Namespace * PublishIntentContext) : Broker.Announcement :=
  Broker.mkAnnouncement p.1 (pic_transport_context_id p.2, pic_transport_stream_id p.2)
    (pic_transaction_id p.2).

(** Maps keyed by namespaces see the name only. *)
Definition by_name (n : Name) : Namespace := mkNamespace n 0.

(** The topics are the map of the subscriptions. *)
Record agrees (tps : gmap Name Broker.Topic) (st : list (Namespace * contexts)) : Prop := {
  agrees_topic n : Broker.about <$> tps !! n = fst <$> find st (by_name n);
  agrees_member n conn : (tps !! n ≫= fun tp => Broker.members tp !! conn)
    = sc_subscriber_id <$> subscription st (by_name n) conn;
  agrees_about n tp : tps !! n = Some tp -> wf_namespace (Broker.about tp);
}.

Record represents (b : Broker.t) (w : world ReallyServer.t) : Prop := {
  rep_wf : wf w.1;
  rep_rx : rx w.1 = [];
  rep_topics : agrees (Broker.topics b) (subscribe_state w.1);
  rep_address i : Broker.addresses b !! i = place <$> at_key (subscribe_id_state w.1) i;
  rep_interests : tabulates (Broker.interests b) (ReallyServer.subscribeList w.2);
  rep_announcement n : Broker.announcements b !! n
    = announcement <$> find (publish_namespaces w.1) (by_name n);
  rep_announced p : p ∈ publish_namespaces w.1 -> wf_namespace p.1;
  rep_origin n : Broker.origins b !! n = first_place <$> at_key (publish_state w.1) n;
  rep_names p : p ∈ publish_state w.1 -> wf_name p.1;
  rep_next : Broker.next_id b = subscriber_id w.1;
}.

Lemma represents_init : represents Broker.empty (QuicRServer.init, ReallyServer.init).
Proof.
  split; try done; simpl.
  - apply server_wf_init.
  - apply tabulates_init.
  - intros p Hp. by apply not_elem_of_nil in Hp.
  - intros p Hp. by apply not_elem_of_nil in Hp.
Qed.

(** Packets sent are not part of the relation. *)
Lemma represents_tx b s r sent : represents b (s, r) -> represents b (with_tx sent s, r).
Proof. intros []. split; try done. destruct rep_wf0. by split. Qed.

Lemma namespace_equiv a b : equiv_key (H := Namespace_less) a b = bool_decide (_name a = _name b).
Proof. exact (equiv_key_decide (_name a) (_name b)). Qed.

Lemma find_by_name {V} (m : list (Namespace * V)) ns : find m ns = find m (by_name (_name ns)).
Proof. apply find_proper. change (equiv_key (_name ns) (_name ns) = true). apply equiv_key_refl. Qed.

Lemma subscription_by_name st ns cid :
  subscription st ns cid = subscription st (by_name (_name ns)) cid.
Proof. unfold subscription. by rewrite find_by_name. Qed.

Section agreement.
Implicit Types (tps : gmap Name Broker.Topic) (st : list (Namespace * contexts)) (ns : Namespace).

Lemma agrees_insert tps st st' ns mem :
  agrees tps st -> wf_namespace ns ->
  (forall n, fst <$> find st' (by_name n)
     = if decide (n = _name ns) then Some (default ns (fst <$> find st (by_name n)))
       else fst <$> find st (by_name n)) ->
  (forall n c, sc_subscriber_id <$> subscription st' (by_name n) c
     = if decide (n = _name ns) then mem !! c
       else sc_subscriber_id <$> subscription st (by_name n) c) ->
  agrees (<[_name ns := Broker.mkTopic (default ns (Broker.about <$> tps !! _name ns)) mem]> tps) st'.
Proof.
  intros [Ht Hm Ha] Hns Hk Hs. split.
  - intros n. rewrite Hk, <- Ht. destruct (decide (n = _name ns)) as [->|Hne].
    + by rewrite lookup_insert_eq.
    + by rewrite lookup_insert_ne.
  - intros n c. rewrite Hs, <- Hm. destruct (decide (n = _name ns)) as [->|Hne].
    + by rewrite lookup_insert_eq.
    + by rewrite lookup_insert_ne.
  - intros n tp [[_ <-]|[_ E]]%lookup_insert_Some; [|by apply (Ha n)]. simpl.
    destruct (tps !! _name ns) as [tp'|] eqn:E; [by apply Ha in E|done].
Qed.

Lemma agrees_delete tps st st' n0 :
  agrees tps st ->
  (forall n, fst <$> find st' (by_name n)
     = if decide (n = n0) then None else fst <$> find st (by_name n)) ->
  (forall n c, subscription st' (by_name n) c
     = if decide (n = n0) then None else subscription st (by_name n) c) ->
  agrees (delete n0 tps) st'.
Proof.
  intros [Ht Hm Ha] Hk Hs. split.
  - intros n. rewrite Hk, <- Ht. destruct (decide (n = n0)) as [->|Hne].
    + by rewrite lookup_delete_eq.
    + by rewrite lookup_delete_ne.
  - intros n c. rewrite Hs. destruct (decide (n = n0)) as [->|Hne].
    + by rewrite lookup_delete_eq.
    + by rewrite lookup_delete_ne, <- Hm.
  - intros n tp [_ E]%lookup_delete_Some. by apply (Ha n).
Qed.

Lemma equiv_by_name n ns : equiv_key (by_name n) ns = bool_decide (n = _name ns).
Proof. apply namespace_equiv. Qed.

Lemma key_subscript st ns n :
  sorted st ->
  fst <$> find (subscript st ns []).2 (by_name n)
  = if decide (n = _name ns) then Some (default ns (fst <$> find st (by_name n)))
    else fst <$> find st (by_name n).
Proof.
  intros Hs. rewrite find_subscript, equiv_by_name by done. unfold contains_key.
  rewrite (find_by_name st ns). case_decide as E.
  - subst n. rewrite bool_decide_true by done. by destruct (find st (by_name (_name ns))).
  - by rewrite bool_decide_false.
Qed.

Lemma key_assign st ns ctxs n :
  sorted st ->
  fst <$> find (assign st ns ctxs) (by_name n)
  = if decide (n = _name ns) then Some (default ns (fst <$> find st (by_name n)))
    else fst <$> find st (by_name n).
Proof.
  intros Hs. unfold assign. rewrite find_insert_node, equiv_by_name by done.
  rewrite (find_by_name st ns). case_decide as E.
  - subst n. rewrite bool_decide_true by done. by destruct (find st (by_name (_name ns))) as [[? ?]|].
  - by rewrite bool_decide_false.
Qed.

Lemma key_erase st ns n :
  sorted st ->
  fst <$> find (erase st ns) (by_name n)
  = if decide (n = _name ns) then None else fst <$> find st (by_name n).
Proof.
  intros Hs. rewrite find_erase, equiv_by_name by done.
  case_decide; [by rewrite bool_decide_true|by rewrite bool_decide_false].
Qed.

Lemma erase_all_nil (ctxs : contexts) cid :
  sorted ctxs -> erase ctxs cid = [] <-> forall c, c <> cid -> at_key ctxs c = None.
Proof.
  intros Hs. split.
  - intros E c Hc. pose proof (at_key_erase ctxs cid c Hs) as Ha.
    rewrite decide_False in Ha by done. by rewrite <- Ha, E.
  - intros H. destruct (erase ctxs cid) as [|[k v] l] eqn:E; [done|].
    pose proof (at_key_erase ctxs cid k Hs) as Ha. rewrite E in Ha.
    unfold at_key at 1 in Ha. simpl in Ha. rewrite equiv_key_refl in Ha. simpl in Ha.
    case_decide; [done|]. by rewrite H in Ha.
Qed.
End agreement.

(** ** Steps of the relay *)

(** The relay does what the broker does, and sends what it answers. *)
Definition implements (m : M (world ReallyServer.t) unit) (w : world ReallyServer.t)
    (p : Broker.t * list Packet) : Prop :=
  exists w' sent, m w = (Ret tt, w') /\ represents p.1 w' /\
    tx w'.1 = tx w.1 ++ sent /\ sent ≡ₚ p.2.

Lemma implements_ret b w : represents b w -> implements (mret tt) w (b, []).
Proof. intros Hr. exists w, []. by rewrite app_nil_r. Qed.

Lemma send_represented b w data i :
  represents b w ->
  Broker.send b data i
  = match at_key (subscribe_id_state w.1) i with
    | Some ctx => [mkPacket (sc_transport_context_id ctx) (sc_transport_stream_id ctx) data]
    | None => []
    end.
Proof.
  intros Hr. unfold Broker.send. rewrite (rep_address _ _ Hr).
  by destruct (at_key (subscribe_id_state w.1) i).
Qed.

(** A message to a subscriber id. *)
Lemma to_subscriber_sends b s r i writer data :
  represents b (s, r) -> appends writer data ->
  to_subscriber i writer s = (Ret tt, with_tx (tx s ++ Broker.send b data i) s).
Proof.
  intros Hr Hw. rewrite (to_subscriber_run _ _ _ _ Hw), (send_represented b (s, r)) by done.
  cbn [fst]. destruct (at_key (subscribe_id_state s) i); [done|]. by rewrite ReallyServer.with_tx_nil.
Qed.

Definition with_interest (p : Z * Namespace) (b : Broker.t) : Broker.t :=
  Broker.mk (Broker.topics b) (Broker.addresses b) ({[p]} ∪ Broker.interests b)
    (Broker.announcements b) (Broker.origins b) (Broker.next_id b).

Lemma onSubscribe_implements b w ns i cid sid int url rel tok data :
  represents b w -> wf_namespace ns ->
  implements (ReallyServer.onSubscribe ns i cid sid int url rel tok data) w
    (with_interest (i, ns) b, Broker.send b (Broker.accepted ns i) i).
Proof.
  destruct w as [s [l]]. intros Hr Hns.
  destruct (tabulates_add _ _ i ns (rep_interests _ _ Hr) Hns) as (l' & El & Hl). simpl in El.
  eexists (with_tx (tx s ++ _) s, ReallyServer.mk l'), _. split; [|split_and!; [|done|done]].
  - unfold ReallyServer.onSubscribe.
    rewrite (run_bind_ret _ _ _ (s, ReallyServer.mk l') tt)
      by (unfold ReallyServer.on_list, on_app; cbn [fst snd ReallyServer.subscribeList]; by rewrite El).
    unfold on_server, subscribeResponse. cbn [fst snd sr_status].
    by rewrite (to_subscriber_sends b _ _ _ _ _ Hr (put_SubscribeResponse_wire _)).
  - cbn [fst]. apply represents_tx. destruct Hr. by split.
Qed.

(** The state of the broker with one more subscription, before the relay's table
    knows of it. *)
Definition with_subscription (b : Broker.t) (ns : Namespace) (cid sid : Z) : Broker.t :=
  let tp := Broker.topic_of b ns in
  Broker.mk
    (<[_name ns := Broker.mkTopic (Broker.about tp)
         (<[cid := Broker.next_id b]> (Broker.members tp))]> (Broker.topics b))
    (<[Broker.next_id b := (cid, sid)]> (Broker.addresses b)) (Broker.interests b)
    (Broker.announcements b) (Broker.origins b) (Broker.next_id b + 1).

Lemma about_topic_of b ns :
  Broker.about (Broker.topic_of b ns) = default ns (Broker.about <$> Broker.topics b !! _name ns).
Proof. unfold Broker.topic_of. by destruct (Broker.topics b !! _name ns). Qed.

Lemma members_topic_of b ns c :
  Broker.members (Broker.topic_of b ns) !! c = Broker.subscriber b (_name ns) c.
Proof.
  unfold Broker.topic_of, Broker.subscriber. by destruct (Broker.topics b !! _name ns).
Qed.

Lemma subscriber_represented b w n c :
  represents b w ->
  Broker.subscriber b n c = sc_subscriber_id <$> subscription (subscribe_state w.1) (by_name n) c.
Proof. intros Hr. apply (rep_topics _ _ Hr). Qed.

Lemma represents_subscribed b s r ns cid sid :
  represents b (s, r) -> wf_namespace ns -> Broker.next_id b + 1 < 2 ^ 64 ->
  Broker.subscriber b (_name ns) cid = None ->
  represents (with_subscription b ns cid sid) (subscribed s ns cid sid, r).
Proof.
  intros Hr Hns Hc Hnew. pose proof Hr as []. cbn [fst snd] in *. rewrite rep_next0 in Hc.
  assert (subscription (subscribe_state s) ns cid = None) as Hnone.
  { rewrite (subscriber_represented _ _ _ _ Hr) in Hnew. rewrite subscription_by_name.
    by destruct (subscription _ _ cid). }
  pose proof (subscribed_subscription s ns cid sid) as Hsub.
  split; cbn [fst snd]; try done.
  - by apply subscribed_wf.
  - unfold with_subscription. cbn [Broker.topics]. rewrite about_topic_of.
    apply (agrees_insert _ (subscribe_state s)); [done..| |].
    + intros n. cbn [subscribe_state subscribed with_subscribe_id_state with_subscribe_state].
      pose proof (wf_subscribe_state _ rep_wf0).
      rewrite key_assign by (by apply sorted_subscript). rewrite key_subscript by done.
      by destruct (decide (n = _name ns)).
    + intros n c. rewrite Hsub, equiv_by_name by done.
      destruct (decide (n = _name ns)) as [->|Hne].
      * rewrite bool_decide_true by done. cbn [andb]. rewrite lookup_insert, members_topic_of.
        rewrite (subscriber_represented _ _ _ _ Hr), rep_next0.
        destruct (decide (cid = c)) as [->|Hc']; [by rewrite bool_decide_true|].
        by rewrite bool_decide_false by congruence.
      * by rewrite bool_decide_false.
  - intros i. simpl. unfold assign. rewrite at_key_insert by apply rep_wf0.
    rewrite lookup_insert, rep_next0, rep_address0.
    destruct (decide (subscriber_id s = i)); [by rewrite decide_True|by rewrite decide_False by congruence].
  - simpl. rewrite wrap_small, rep_next0; [done|]. pose proof (wf_counter _ rep_wf0).
    unfold in_u. lia.
Qed.

Lemma subscribe_read b w cid sid m msg :
  represents b w -> wf_namespace (sub_namespace m) -> Broker.next_id b + 1 < 2 ^ 64 ->
  (get_Subscribe uninit_Subscribe msg).1 = Ret m ->
  implements (handle_subscribe cid sid msg) w (Broker.subscribe cid sid (sub_namespace m) b).
Proof.
  destruct w as [s r]. intros Hr Hns Hc Hm.
  unfold implements. rewrite (handle_subscribe_tidy cid sid msg s r m) by (done || apply wf_tidy, Hr).
  unfold Broker.subscribe.
  pose proof (subscriber_represented _ _ (_name (sub_namespace m)) cid Hr) as E.
  cbn [fst] in E. rewrite <- subscription_by_name in E.
  destruct (subscription (subscribe_state s) (sub_namespace m) cid) as [ctx|]; rewrite E; simpl in E.
  - cbn [fmap option_fmap option_map]. by apply onSubscribe_implements.
  - cbn [fmap option_fmap option_map].
    pose proof (represents_subscribed b s r (sub_namespace m) cid sid Hr Hns Hc E) as Hr1.
    destruct (onSubscribe_implements _ _ (sub_namespace m) (subscriber_id s) cid sid (sub_intent m)
      [] false [] [] Hr1 Hns) as (w' & sent & Ew & Hr' & Et & Hs).
    pose proof (rep_next _ _ Hr) as En. cbn [fst] in En. rewrite <- En in Hr', Hs.
    exists w', sent. split; [exact Ew|]. split; [exact Hr'|]. split; [exact Et|].
    rewrite Hs. cbn [snd]. unfold Broker.send, with_subscription. cbn [Broker.addresses].
    by rewrite lookup_insert_eq.
Qed.

Lemma subscribe_implements b w cid sid m rest :
  represents b w -> ok_Subscribe m -> Broker.next_id b + 1 < 2 ^ 64 ->
  implements (dispatch cid sid (encoded (put_Subscribe m) ++ rest)) w
    (Broker.subscribe cid sid (sub_namespace m) b).
Proof.
  intros Hr Hm Hc. destruct (encoded_wire _ _ (put_Subscribe_wire m)) as [_ ->].
  rewrite (dispatch_typed MessageType.Subscribe _ _ _ (drop 1 (Subscribe_wire m) ++ rest)) by done.
  apply (subscribe_read b w cid sid
    (mkSubscribe 0 (sub_transaction_id m) (sub_namespace m) (sub_intent m)));
    [done|apply Hm|done|].
  by rewrite (get_Subscribe_wire native_little uninit_Subscribe m Hm rest).
Qed.

(** ** Unsubscribing *)

Lemma onUnsubscribe_sends b s r ns i tok :
  represents b (s, r) -> wf_namespace ns ->
  ReallyServer.onUnsubscribe ns i tok (s, r)
  = (Ret tt, (with_tx (tx s ++ Broker.send b (Broker.ended ns) i) s, r)).
Proof.
  intros Hr Hns. unfold ReallyServer.onUnsubscribe, mbind, M_bind, on_server, subscriptionEnded.
  cbn [fst snd]. rewrite (to_subscriber_sends b _ _ _ _ _ Hr (put_SubscribeEnd_wire _)).
  unfold ReallyServer.on_list, on_app. cbn [fst snd]. pose proof (rep_interests _ _ Hr) as Ht.
  rewrite (tabulates_remove _ _ _ _ Ht Hns). by destruct r.
Qed.

(** Looking a namespace up makes an entry for it. *)
Lemma represents_touched b s r ns :
  represents b (s, r) -> wf_namespace ns ->
  represents
    (Broker.mk (<[_name ns := Broker.topic_of b ns]> (Broker.topics b)) (Broker.addresses b)
       (Broker.interests b) (Broker.announcements b) (Broker.origins b) (Broker.next_id b))
    (with_subscribe_state (subscript (subscribe_state s) ns []).2 s, r).
Proof.
  intros Hr Hns. pose proof Hr as []. cbn [fst snd] in *.
  pose proof (wf_subscribe_state _ rep_wf0) as Hs.
  split; cbn [fst snd]; try done; [by apply subscript_state_wf|].
  assert (Broker.topic_of b ns = Broker.mkTopic (default ns (Broker.about <$> Broker.topics b !! _name ns))
    (Broker.members (Broker.topic_of b ns))) as ->.
  { rewrite <- about_topic_of. by destruct (Broker.topic_of b ns). }
  apply (agrees_insert _ (subscribe_state s)); [done..| |].
  - intros n. by apply key_subscript.
  - intros n c. cbn. rewrite subscription_subscript by done. case_decide as E; [|done]. subst n.
    by rewrite members_topic_of, (subscriber_represented _ _ _ _ Hr).
Qed.

Lemma members_empty b s r ns cid :
  represents b (s, r) ->
  delete cid (Broker.members (Broker.topic_of b ns)) = ∅ <->
  erase (subscript (subscribe_state s) ns []).1 cid = [].
Proof.
  intros Hr. pose proof (wf_contexts _ (rep_wf _ _ Hr)) as Hi.
  rewrite erase_all_nil by (by apply contexts_sorted). rewrite map_empty.
  assert (forall c, Broker.members (Broker.topic_of b ns) !! c
    = sc_subscriber_id <$> at_key (subscript (subscribe_state s) ns []).1 c) as E.
  { intros c. rewrite members_topic_of, (subscriber_represented _ _ _ _ Hr).
    by rewrite <- subscription_by_name, <- contexts_subscription. }
  split.
  - intros H c Hc. specialize (H c). rewrite lookup_delete_ne, E in H by done.
    by destruct (at_key _ c).
  - intros H c. destruct (decide (c = cid)) as [->|Hc]; [by rewrite lookup_delete_eq|].
    by rewrite lookup_delete_ne, E, H.
Qed.

(** The entry is left for the last subscriber, and erased for any other. *)
Lemma key_unsubscribed s ns cid n :
  wf s ->
  fst <$> find (subscribe_state (unsubscribed s ns cid)) (by_name n)
  = if decide (n = _name ns) then
      if decide (erase (subscript (subscribe_state s) ns []).1 cid = [])
      then Some (default ns (fst <$> find (subscribe_state s) (by_name n))) else None
    else fst <$> find (subscribe_state s) (by_name n).
Proof.
  intros Hw. unfold unsubscribed. pose proof (wf_subscribe_state _ Hw) as Hs.
  pose proof (sorted_subscript (subscribe_state s) ns [] Hs) as Hs'.
  pose proof (key_subscript (subscribe_state s) ns n Hs) as Hk.
  destruct (subscript (subscribe_state s) ns []) as [ctxs st]. cbn [fst snd] in *.
  cbn [subscribe_state with_subscribe_id_state with_subscribe_state].
  destruct (Z.ltb_spec 0 (Z.of_nat (length (erase ctxs cid)))) as [Hl|Hl].
  - rewrite (decide_False (P := erase ctxs cid = [])) by (intros E; by rewrite E in Hl).
    rewrite key_erase by (by apply sorted_insert_node). rewrite key_assign, Hk by done.
    by destruct (decide (n = _name ns)).
  - rewrite (decide_True (P := erase ctxs cid = [])) by (apply nil_length_inv; lia).
    rewrite key_assign, Hk by done. by destruct (decide (n = _name ns)).
Qed.

Lemma represents_unsubscribed b s r ns cid ctx :
  represents b (s, r) -> wf_namespace ns ->
  subscription (subscribe_state s) ns cid = Some ctx ->
  represents (Broker.unsubscribe cid ns b).1 (unsubscribed s ns cid, r).
Proof.
  intros Hr Hns Hsub. pose proof Hr as []. cbn [fst snd] in *.
  unfold Broker.unsubscribe. rewrite members_topic_of, (subscriber_represented _ _ _ _ Hr).
  cbn [fst]. rewrite <- subscription_by_name, Hsub. cbn [fmap option_fmap option_map].
  pose proof (unsubscribed_subscription s ns cid) as Hu.
  assert (rx (unsubscribed s ns cid) = rx s /\ publish_namespaces (unsubscribed s ns cid)
    = publish_namespaces s /\ publish_state (unsubscribed s ns cid) = publish_state s /\
    subscriber_id (unsubscribed s ns cid) = subscriber_id s) as (E1 & E2 & E3 & E4).
  { unfold unsubscribed. by destruct (subscript (subscribe_state s) ns []). }
  split; cbn [fst snd]; rewrite ?E1, ?E2, ?E3, ?E4; try done; [by apply unsubscribed_wf| |].
  - cbn [Broker.topics]. rewrite about_topic_of. case_decide as E.
    + apply (members_empty b s r ns cid Hr) in E.
      apply (agrees_insert _ (subscribe_state s)); [done..| |].
      * intros n. rewrite key_unsubscribed by done. case_decide; [|done]. by rewrite decide_True.
      * intros n c. rewrite Hu, equiv_by_name by done.
        case_decide; [by rewrite bool_decide_true|by rewrite bool_decide_false].
    + apply (agrees_delete _ (subscribe_state s)); [done| |].
      * intros n. rewrite key_unsubscribed by done. case_decide; [|done]. rewrite decide_False; [done|].
        by rewrite <- members_empty.
      * intros n c. rewrite Hu, equiv_by_name by done.
        case_decide; [by rewrite bool_decide_true|by rewrite bool_decide_false].
  - intros i. cbn [Broker.addresses]. rewrite (unsubscribed_ids s ns cid ctx Hsub).
    rewrite at_key_erase by apply rep_wf0. case_decide as E.
    + subst i. by rewrite lookup_delete_eq.
    + rewrite lookup_delete_ne by done. apply rep_address0.
Qed.

Lemma unsubscribe_read b w cid sid m msg :
  represents b w -> wf_namespace (unsub_namespace m) ->
  (get_Unsubscribe uninit_Unsubscribe msg).1 = Ret m ->
  implements (handle_unsubscribe cid sid msg) w (Broker.unsubscribe cid (unsub_namespace m) b).
Proof.
  destruct w as [s r]. intros Hr Hns Hm.
  unfold implements. rewrite (handle_unsubscribe_tidy cid sid msg s r m) by (done || apply wf_tidy, Hr).
  set (ns := unsub_namespace m) in *.
  pose proof (subscriber_represented _ _ (_name ns) cid Hr) as E.
  cbn [fst] in E. rewrite <- subscription_by_name in E.
  destruct (subscription (subscribe_state s) ns cid) as [ctx|] eqn:Hsub; simpl in E.
  - rewrite (subscribed_unchanged s ns cid ctx Hsub).
    rewrite (run_bind_ret _ _ _ _ _ (onUnsubscribe_sends b s r ns (sc_subscriber_id ctx) [] Hr Hns)).
    unfold on_server, modify. cbn [fst snd].
    eexists _, _. split; [reflexivity|].
    split; [by apply (represents_unsubscribed _ _ _ _ _ ctx); [apply represents_tx|..]|].
    split; [unfold unsubscribed; by destruct (subscript _ ns [])|].
    unfold Broker.unsubscribe. by rewrite members_topic_of, E.
  - unfold Broker.unsubscribe. rewrite members_topic_of, E.
    eexists _, []. split; [reflexivity|]. rewrite app_nil_r.
    split; [by apply represents_touched|done].
Qed.

Lemma unsubscribe_implements b w cid sid m rest :
  represents b w -> ok_Unsubscribe m ->
  implements (dispatch cid sid (encoded (put_Unsubscribe m) ++ rest)) w
    (Broker.unsubscribe cid (unsub_namespace m) b).
Proof.
  intros Hr Hns. destruct (encoded_wire _ _ (put_Unsubscribe_wire m)) as [_ ->].
  rewrite (dispatch_typed MessageType.Unsubscribe _ _ _ (drop 1 (Unsubscribe_wire m) ++ rest)) by done.
  apply (unsubscribe_read b w cid sid (mkUnsubscribe 0 (unsub_namespace m))); [done..|].
  by rewrite (get_Unsubscribe_wire native_little uninit_Unsubscribe m Hns rest).
Qed.

(** ** Publishing *)

Lemma is_announced_represented b w n :
  represents b w ->
  Broker.is_announced b n <-> existsb (fun p => within p.1 n) (publish_namespaces w.1) = true.
Proof.
  intros Hr. pose proof (wf_publish_namespaces _ (rep_wf _ _ Hr)) as Hs.
  unfold Broker.is_announced, map_Exists. rewrite existsb_exists. split.
  - intros (k & a & Ha & Hin). rewrite (rep_announcement _ _ Hr) in Ha.
    destruct (find (publish_namespaces w.1) (by_name k)) as [p|] eqn:E; simplify_eq/=.
    exists p. split; [|done]. apply list_elem_of_In. by apply find_elem in E.
  - intros ([ns v] & Hp%list_elem_of_In & Hin). exists (_name ns), (announcement (ns, v)).
    split; [|done]. rewrite (rep_announcement _ _ Hr), <- find_by_name.
    by rewrite (find_in _ ns v).
Qed.

Lemma copies_sent b s r c0 s0 data ids :
  represents b (s, r) ->
  ReallyServer.copies s c0 s0 data (ReallyServer.remote_of <$> ids)
  = if decide ((c0, s0) = (0, 0)) then [] else ids ≫= Broker.send b data.
Proof.
  intros Hr. unfold ReallyServer.copies. induction ids as [|i ids IH]; [by case_decide|].
  cbn [fmap list_fmap omap list_omap mbind list_bind]. rewrite IH.
  cbn [Subscriptions.context_id Subscriptions.stream_id Subscriptions.subscribe_id
    ReallyServer.remote_of].
  destruct (decide ((c0, s0) = (0, 0))) as [[=-> ->]|Hne]; [done|].
  assert (((0 =? c0) && (0 =? s0))%bool = false) as ->.
  { apply not_true_is_false. rewrite andb_true_iff, !Z.eqb_eq. intros []. apply Hne. congruence. }
  rewrite (send_represented b (s, r)) by done. cbn [fst].
  by destruct (at_key (subscribe_id_state s) i).
Qed.

Lemma publish_implements b w cid sid d rest :
  represents b w -> ok_PublishDatagram d ->
  implements (dispatch cid sid (encoded (put_PublishDatagram d) ++ rest)) w
    (Broker.publish cid sid d b).
Proof.
  destruct w as [s r]. intros Hr Hd. pose proof Hr as []. cbn [fst snd] in *.
  destruct (encoded_wire _ _ (put_PublishDatagram_wire d Hd)) as [_ ->].
  pose proof (is_announced_represented b (s, r) (name (header d)) Hr) as Han. cbn [fst] in Han.
  unfold Broker.publish. case_decide as E.
  - apply Han in E.
    destruct (ReallyServer.publish_step d rest cid sid s r) as (found & ps & Ef & Edisp & Hw & Hps);
      [done|apply rep_interests0|done..|].
    destruct (find_remotes_interested _ _ (name (header d)) rep_interests0) as (found' & Ef' & Hperm);
      [apply Hd|]. assert (found' = found) as -> by congruence.
    unfold implements. rewrite Edisp. eexists _, _. split; [reflexivity|]. split_and!; [|done|].
    + split; cbn [fst snd]; try done.
      * intros n. cbn [Broker.origins ReallyServer.after_publish publish_state with_tx with_publish_state].
        rewrite Hps, lookup_insert, rep_origin0.
        destruct (decide (n = name (header d))) as [->|Hne];
          [rewrite decide_True by done|by rewrite decide_False by congruence].
        unfold Broker.origin, ReallyServer.first_publisher. rewrite rep_origin0.
        by destruct (at_key (publish_state s) (name (header d))).
      * intros [n pc] Hp. apply elem_at_key in Hp; [|apply Hw]. rewrite Hps in Hp.
        case_decide as En; [subst n; apply Hd|]. apply at_key_elem in Hp. by apply rep_names0 in Hp.
    + rewrite Hperm, (copies_sent b s r) by done. cbn [snd].
      assert (Broker.origin b (name (header d)) cid sid
        = first_place (ReallyServer.first_publisher s (name (header d)) cid sid)) as ->; [|done].
      unfold Broker.origin, ReallyServer.first_publisher. rewrite rep_origin0.
      by destruct (at_key (publish_state s) (name (header d))).
  - rewrite (dispatch_typed MessageType.Publish _ _ _
      (drop 1 (PublishDatagram_wire d) ++ rest)) by done.
    destruct (handle_publish_run d rest cid sid s r) as [_ H2]; [done..|].
    unfold implements. rewrite H2 by (by apply not_true_is_false; rewrite <- Han).
    by apply implements_ret.
Qed.

(** ** Announcing *)

Lemma announcement_assign pns ns v n :
  sorted pns ->
  announcement <$> find (assign pns ns v) (by_name n)
  = if decide (n = _name ns)
    then Some (announcement (default ns (fst <$> find pns ns), v))
    else announcement <$> find pns (by_name n).
Proof.
  intros Hs. unfold assign. rewrite find_insert_node, equiv_by_name by done.
  case_decide; [rewrite bool_decide_true by done|by rewrite bool_decide_false].
  by destruct (find pns ns) as [[? ?]|].
Qed.

Lemma announced_assign pns ns (v : PublishIntentContext) :
  (forall p, p ∈ pns -> wf_namespace p.1) -> wf_namespace ns ->
  forall p, p ∈ assign pns ns v -> wf_namespace p.1.
Proof.
  intros H Hns p [Hp|[->|[v' Hp]]]%elem_of_insert_node; [by apply H|done|by apply (H (p.1, v'))].
Qed.

(** The map with the first registration of a namespace. *)
Definition registered pns ns (ctx : PublishIntentContext) : list (Namespace * PublishIntentContext) :=
  if contains_key pns ns then pns else assign pns ns ctx.

Lemma find_registered pns ns ctx :
  sorted pns ->
  find (registered pns ns ctx) ns
    = Some (default ns (fst <$> find pns ns), default ctx (snd <$> find pns ns)) /\
  sorted (registered pns ns ctx) /\
  forall n, n <> _name ns -> find (registered pns ns ctx) (by_name n) = find pns (by_name n).
Proof.
  intros Hs. unfold registered, contains_key.
  destruct (find pns ns) as [[k w]|] eqn:E; [done|]. split_and!.
  - unfold assign. by rewrite find_insert_node_same, E.
  - by apply sorted_insert_node.
  - intros n Hn. unfold assign. rewrite find_insert_node, equiv_by_name by done.
    by rewrite bool_decide_false.
Qed.

Lemma handle_publish_intent_run {A} {D : ServerDelegate A} m rest cid sid s (a : A) :
  ok_PublishIntent m ->
  handle_publish_intent cid sid (PublishIntent_wire m ++ rest) (s, a)
  = onPublishIntent (pi_namespace m) [] false [] (pi_payload m)
      (with_publish_namespaces (registered (publish_namespaces s) (pi_namespace m)
         (mkPublishIntentContext Pending cid sid (pi_transaction_id m))) s, a).
Proof.
  intros Hm. unfold handle_publish_intent.
  rewrite (run_bind_ret _ _ _ (s, a) m) by
    (unfold on_local; by rewrite (get_PublishIntent_wire native_little m Hm rest)).
  unfold on_server, modify, mbind, M_bind, registered. cbn [fst snd].
  destruct (contains_key (publish_namespaces s) (pi_namespace m)); [|done]. by destruct s.
Qed.

Lemma announce_implements b w cid sid m rest :
  represents b w -> ok_PublishIntent m -> pi_message_type m = MessageType.PublishIntent ->
  implements (dispatch cid sid (encoded (put_PublishIntent m) ++ rest)) w
    (Broker.announce cid sid (pi_namespace m) (pi_transaction_id m) b).
Proof.
  destruct w as [s r]. intros Hr Hm Ht. pose proof Hr as []. cbn [fst snd] in *.
  assert (wf_namespace (pi_namespace m)) as Hns by apply Hm.
  destruct (encoded_wire _ _ (put_PublishIntent_wire m Hm)) as [_ ->].
  rewrite (dispatch_typed MessageType.PublishIntent _ _ _ (drop 1 (PublishIntent_wire m) ++ rest))
    by (done || by unfold PublishIntent_wire; rewrite Ht).
  unfold implements. rewrite handle_publish_intent_run by done. set (ns := pi_namespace m) in *.
  set (ctx := mkPublishIntentContext Pending cid sid (pi_transaction_id m)).
  destruct (find_registered (publish_namespaces s) ns ctx (wf_publish_namespaces _ rep_wf0))
    as (Ef & Hsp & Hother).
  simpl onPublishIntent. unfold ReallyServer.onPublishIntent, on_server. cbn [fst snd].
  rewrite publishIntentResponse_run. cbn [publish_namespaces with_publish_namespaces]. rewrite Ef.
  set (k0 := default ns _) in *. set (v := default ctx _) in *.
  assert (announcement (k0, v) = default (Broker.mkAnnouncement ns (cid, sid) (pi_transaction_id m))
    (Broker.announcements b !! _name ns)) as Ea.
  { rewrite rep_announcement0, <- find_by_name. subst v k0.
    by destruct (find (publish_namespaces s) ns) as [[? ?]|]. }
  eexists _, _. split; [reflexivity|]. split_and!; [|done|cbn [snd Broker.announce]; by rewrite <- Ea].
  split; cbn [fst snd]; try done.
  - destruct rep_wf0. split; try done. by apply sorted_insert_node.
  - intros n. cbn [Broker.announcements Broker.announce fst publish_namespaces with_tx
      with_publish_namespaces]. rewrite announcement_assign, Ef by done.
    cbn [fmap option_fmap option_map default from_option fst]. rewrite <- Ea, lookup_insert.
    destruct (decide (n = _name ns)) as [->|Hne];
      [by rewrite decide_True|rewrite decide_False by congruence].
    by rewrite Hother, <- rep_announcement0.
  - apply announced_assign; [|done]. unfold registered. destruct (contains_key _ _); [done|].
    by apply announced_assign.
Qed.

Lemma withdraw_implements b w cid sid m rest :
  represents b w -> ok_PublishIntentEnd m ->
  pie_message_type m = MessageType.PublishIntentEnd ->
  implements (dispatch cid sid (encoded (put_PublishIntentEnd m) ++ rest)) w
    (Broker.withdraw (pie_namespace m) b, []).
Proof.
  destruct w as [s r]. intros Hr Hm Ht. pose proof Hr as []. cbn [fst snd] in *.
  pose proof (wf_publish_namespaces _ rep_wf0) as Hps.
  assert (wf_namespace (pie_namespace m)) as Hns by apply Hm.
  destruct (encoded_wire _ _ (put_PublishIntentEnd_wire m Hm)) as [_ ->].
  rewrite (dispatch_typed MessageType.PublishIntentEnd _ _ _
    (drop 1 (PublishIntentEnd_wire m) ++ rest)) by
    (done || by unfold PublishIntentEnd_wire; rewrite Ht).
  unfold handle_publish_intent_end, implements.
  rewrite (run_bind_ret _ _ _ (s, r) m) by
    (unfold on_local; by rewrite (get_PublishIntentEnd_wire native_little m Hm rest)).
  set (ns := pie_namespace m) in *. cbv [mbind M_bind on_server modify gets lift]. cbn [fst snd id].
  unfold Broker.withdraw. rewrite rep_announcement0, <- find_by_name. unfold contains_key.
  destruct (find (publish_namespaces s) ns) as [p0|]; cbn [negb fmap option_fmap option_map];
    [|by apply implements_ret].
  pose proof (erase_contained_filter ns (publish_state s) Hns rep_names0) as Ee.
  rewrite Ee. cbn [fst snd]. simpl onPublishIntentEnd.
  eexists _, []. split; [reflexivity|]. rewrite app_nil_r. split_and!; [|done|done].
  split; cbn [fst snd]; try done.
  - destruct rep_wf0. split; try done; [by apply (sorted_erase_contained ns _ _ Ee)|by apply sorted_erase].
  - intros n. cbn [Broker.announcements publish_namespaces with_publish_state with_publish_namespaces].
    rewrite find_erase, equiv_by_name by done. destruct (decide (n = _name ns)) as [->|Hne].
    + rewrite bool_decide_true by done. by rewrite lookup_delete_eq.
    + rewrite bool_decide_false by done. by rewrite lookup_delete_ne.
  - intros p Hp. apply rep_announced0. by apply (erase_sub _ ns).
  - intros n. cbn [Broker.origins publish_state with_publish_state].
    rewrite (at_key_filter (fun n => negb (within ns n))) by apply rep_wf0.
    rewrite map_lookup_filter, rep_origin0.
    destruct (at_key (publish_state s) n) as [pc|], (within ns n) eqn:E; simpl;
      rewrite ?option_guard_True, ?option_guard_False by (simpl; congruence); done.
  - intros p Hp. apply rep_names0. by apply (erase_contained_sub ns _ _ p Ee).
Qed.

(** ** The end of a connection *)

Lemma targets_elem st cid ns ctx :
  (ns, ctx) ∈ targets st cid <-> exists ctxs, (ns, ctxs) ∈ st /\ at_key ctxs cid = Some ctx.
Proof.
  unfold targets. rewrite list_elem_of_omap. split.
  - intros ([k ctxs] & Hin & E). simpl in E. destruct (at_key ctxs cid) eqn:Ec; [|done].
    simplify_eq/=. by exists ctxs.
  - intros (ctxs & Hin & E). exists (ns, ctxs). split; [done|]. simpl. by rewrite E.
Qed.

Lemma NoDup_omap_key {X Y K} (g : X -> option Y) (h : Y -> K) (f : X -> K) l :
  NoDup (f <$> l) -> (forall x y, x ∈ l -> g x = Some y -> h y = f x) -> NoDup (h <$> omap g l).
Proof.
  induction l as [|x l IH]; intros Hl Hg; [constructor|]. cbn [fmap list_fmap] in Hl.
  inversion_clear Hl as [|? ? Hx Hl']. cbn [omap list_omap].
  assert (NoDup (h <$> omap g l)) as Hl by (apply IH; [done|]; intros; apply Hg; [by right|done]).
  destruct (g x) as [y|] eqn:E; [|done]. cbn [fmap list_fmap]. constructor; [|done].
  intros (y' & Ey & (x' & Hx' & Ex)%list_elem_of_omap)%list_elem_of_fmap.
  apply Hg in E; [|by left]. apply Hg in Ex; [|by right].
  apply Hx. apply list_elem_of_fmap. exists x'. split; [congruence|done].
Qed.

(** The ids of a connection's subscriptions differ. *)
Lemma targets_ids s cid :
  wf s -> NoDup ((fun p => sc_subscriber_id p.2) <$> targets (subscribe_state s) cid).
Proof.
  intros Hw. pose proof (wf_subscribe_state _ Hw) as Hs. apply NoDup_fmap_2_strong.
  - intros [a x] [b y] Hx%targets_elem Hy%targets_elem E.
    destruct Hx as (xs & Hx & Ex), Hy as (ys & Hy & Ey).
    pose proof (find_in _ _ _ Hs Hx) as Fx. pose proof (find_in _ _ _ Hs Hy) as Fy.
    destruct (wf_distinct _ Hw a b cid cid x y) as [Eab _];
      [by unfold subscription; rewrite Fx|by unfold subscription; rewrite Fy|done|].
    rewrite (find_proper _ a b Eab) in Fx. congruence.
  - apply (NoDup_fmap_1 fst). unfold targets. eapply NoDup_omap_key; [by apply sorted_NoDup|].
    intros [k ctxs] [k' ctx] _. simpl. destruct (at_key ctxs cid); [|done]. by intros [= <- _].
Qed.

Lemma subscriptions_represented b w cid :
  represents b w ->
  (fun p => (p.1, sc_subscriber_id p.2)) <$> targets (subscribe_state w.1) cid
  ≡ₚ Broker.subscriptions_of b cid.
Proof.
  intros Hr. pose proof (wf_subscribe_state _ (rep_wf _ _ Hr)) as Hs.
  pose proof (rep_topics _ _ Hr) as [Ht Hm _].
  assert (forall n tp, Broker.topics b !! n = Some tp -> exists ctxs,
    (Broker.about tp, ctxs) ∈ subscribe_state w.1 /\ n = _name (Broker.about tp) /\
    forall c, Broker.members tp !! c = sc_subscriber_id <$> at_key ctxs c) as Htp.
  { intros n tp E. specialize (Ht n). rewrite E in Ht. unfold subscription in Hm.
    destruct (find (subscribe_state w.1) (by_name n)) as [[k ctxs]|] eqn:Ef; [|done].
    injection Ht as Ek. simpl in Ek. subst k. exists ctxs. split; [by apply find_elem in Ef|].
    apply find_key_equiv in Ef as Ek. rewrite equiv_by_name, bool_decide_eq_true in Ek.
    split; [done|]. intros c. specialize (Hm n c). by rewrite E, Ef in Hm. }
  apply NoDup_Permutation.
  - apply (NoDup_fmap_1 snd). rewrite <- list_fmap_compose. by apply targets_ids, Hr.
  - apply (NoDup_fmap_1 (fun p => _name p.1)). unfold Broker.subscriptions_of.
    eapply (NoDup_omap_key _ _ fst); [apply NoDup_fst_map_to_list|].
    intros [n tp] [ns i] Hin%elem_of_map_to_list. simpl.
    destruct (Broker.members tp !! cid); [|done]. intros [= <- _].
    by destruct (Htp n tp Hin) as (_ & _ & -> & _).
  - intros [ns i]. unfold Broker.subscriptions_of.
    rewrite list_elem_of_fmap, list_elem_of_omap. split.
    + intros ([ns' ctx] & [=-> ->] & (ctxs & Hin & Ec)%targets_elem).
      pose proof (find_in _ _ _ Hs Hin) as Ef. specialize (Ht (_name ns')).
      rewrite <- find_by_name, Ef in Ht.
      destruct (Broker.topics b !! _name ns') as [tp|] eqn:E; [|done]. injection Ht as Ek.
      exists (_name ns', tp). split; [by apply elem_of_map_to_list|].
      destruct (Htp _ _ E) as (ctxs' & Hin' & _ & Hmem). rewrite Ek in Hin'.
      pose proof (find_in _ _ _ Hs Hin') as Ef'. simplify_eq.
      cbn [snd]. by rewrite Hmem, Ec.
    + intros ([n tp] & Hin%elem_of_map_to_list & E). cbn [snd] in E.
      destruct (Htp n tp Hin) as (ctxs & Hst & _ & Hmem). rewrite Hmem in E.
      destruct (at_key ctxs cid) as [ctx|] eqn:Ec; [|done]. injection E as <- <-.
      exists (Broker.about tp, ctx). split; [done|]. apply targets_elem. by exists ctxs.
Qed.

Lemma bind_ext_elem {X Y} (f g : X -> list Y) l :
  (forall x, x ∈ l -> f x = g x) -> l ≫= f = l ≫= g.
Proof.
  induction l as [|x l IH]; intros H; [done|]. cbn [mbind list_bind].
  rewrite H by (by left). by rewrite IH by (intros; apply H; by right).
Qed.

Definition with_addresses (a : gmap Z (Z * Z)) (b : Broker.t) : Broker.t :=
  Broker.mk (Broker.topics b) a (Broker.interests b) (Broker.announcements b)
    (Broker.origins b) (Broker.next_id b).

Lemma represents_erased b s r i :
  represents b (s, r) ->
  represents (with_addresses (delete i (Broker.addresses b)) b)
    (with_subscribe_id_state (erase (subscribe_id_state s) i) s, r).
Proof.
  intros Hr. pose proof Hr as []. cbn [fst snd] in *. split; try done; [by apply erase_id_wf|].
  intros j. simpl. rewrite at_key_erase by apply rep_wf0. case_decide as E.
  - subst j. by rewrite lookup_delete_eq.
  - by rewrite lookup_delete_ne.
Qed.

Lemma filter_addresses_cons i ids (m : gmap Z (Z * Z)) :
  filter (fun p => p.1 ∉ ids) (delete i m) = filter (fun p => p.1 ∉ i :: ids) m.
Proof.
  apply map_eq. intros j. rewrite !map_lookup_filter, lookup_delete.
  destruct (decide (i = j)) as [->|Hne].
  - destruct (m !! j); [|done]. simpl. rewrite option_guard_False; [done|].
    intros []. by left.
  - destruct (m !! j); [|done]. simpl. apply option_guard_iff. simpl.
    rewrite not_elem_of_cons. intuition congruence.
Qed.

(** The subscriptions of a connection are told, and their ids forgotten. *)
Lemma drop_subscriptions_implements b w (l : list (Namespace * SubscribeContext)) :
  represents b w -> (forall p, p ∈ l -> wf_namespace p.1) ->
  NoDup ((fun p => sc_subscriber_id p.2) <$> l) ->
  let subs := (fun p => (p.1, sc_subscriber_id p.2)) <$> l in
  implements (mfor l drop_subscription) w
    (with_addresses (filter (fun p => p.1 ∉ subs.*2) (Broker.addresses b)) b,
     subs ≫= fun p => Broker.send b (Broker.ended p.1) p.2).
Proof.
  revert b w. induction l as [|[ns ctx] l IH]; intros b [s r] Hr Hns Hids subs.
  { subst subs. assert (filter (fun p => p.1 ∉ []) (Broker.addresses b) = Broker.addresses b) as E.
    { apply map_filter_id. intros. apply not_elem_of_nil. }
    cbn [fmap list_fmap mbind list_bind]. rewrite E. destruct b. by apply implements_ret. }
  cbn [fmap list_fmap snd] in Hids. inversion_clear Hids as [|? ? Hi Hids'].
  unfold implements. cbn [mfor].
  set (s1 := with_tx (tx s ++ Broker.send b (Broker.ended ns) (sc_subscriber_id ctx)) s).
  assert (drop_subscription (ns, ctx) (s, r) = (Ret tt, (with_subscribe_id_state
    (erase (subscribe_id_state s1) (sc_subscriber_id ctx)) s1, r))) as E.
  { rewrite drop_subscription_run. cbn [fst snd]. simpl onUnsubscribe.
    rewrite (onUnsubscribe_sends b) by (done || apply (Hns (ns, ctx)); by left). done. }
  rewrite (run_bind_ret _ _ _ _ _ E).
  pose proof (represents_erased _ _ _ (sc_subscriber_id ctx) (represents_tx _ _ _
    (tx s ++ Broker.send b (Broker.ended ns) (sc_subscriber_id ctx)) Hr)) as Hr1.
  fold s1 in Hr1.
  destruct (IH _ _ Hr1) as (w' & sent & -> & Hr' & Et & Hs);
    [intros p Hp; apply Hns; by right|done|].
  eexists w', _. split; [done|]. cbn [fst snd with_addresses Broker.addresses] in *.
  rewrite filter_addresses_cons in Hr'. split; [exact Hr'|]. split.
  { rewrite Et. subst s1. cbn [tx with_subscribe_id_state with_tx]. by rewrite <- app_assoc. }
  rewrite Hs. subst subs. cbn [fmap list_fmap mbind list_bind fst snd]. apply Permutation_app_head.
  apply reflexive_eq, bind_ext_elem. intros p (q & -> & Hq)%list_elem_of_fmap. cbn [fst snd].
  unfold Broker.send, with_addresses. cbn [Broker.addresses snd]. rewrite lookup_delete_ne; [done|].
  intros Eq. apply Hi. apply list_elem_of_fmap. by exists q.
Qed.

Lemma disconnect_implements {Tr : ITransport} b w cid :
  represents b w ->
  implements (on_connection_status cid Disconnected) w (Broker.disconnect cid b).
Proof.
  intros Hr. pose proof (rep_wf _ _ Hr) as Hw. unfold implements.
  rewrite on_connection_status_run by (by apply wf_tidy). rewrite decide_True by done.
  pose proof (subscriptions_represented b w cid Hr) as Hsubs.
  destruct (drop_subscriptions_implements b w (targets (subscribe_state w.1) cid) Hr)
    as (w' & sent & E & Hr' & Et & Hs).
  - intros p Hp. destruct (rep_topics _ _ Hr) as [_ _ Ha].
    assert ((p.1, sc_subscriber_id p.2) ∈ Broker.subscriptions_of b cid) as Hin.
    { rewrite <- Hsubs. apply list_elem_of_fmap. by exists p. }
    unfold Broker.subscriptions_of in Hin. apply list_elem_of_omap in Hin as ([n tp] & Hin & Ep).
    apply elem_of_map_to_list in Hin. cbn [snd] in Ep.
    destruct (Broker.members tp !! cid); [|done]. injection Ep as <- _. by apply (Ha n).
  - by apply targets_ids.
  - exists w', sent. split; [done|]. cbn [fst snd] in Hr', Hs |- *. split; [|split; [done|by rewrite Hs, Hsubs]].
    unfold Broker.disconnect. cbn [fst].
    assert (filter (fun p => p.1 ∉ (Broker.subscriptions_of b cid).*2) (Broker.addresses b)
      = filter (fun p => p.1 ∉ ((fun p => (p.1, sc_subscriber_id p.2))
          <$> targets (subscribe_state w.1) cid).*2) (Broker.addresses b)) as ->; [|done].
    apply map_filter_ext. intros i a _. by rewrite Hsubs.
Qed.

(** The ids of two subscriptions to one name. *)
Lemma represents_ids b w n conn other i j :
  represents b w -> Broker.subscriber b n conn = Some i -> Broker.subscriber b n other = Some j ->
  conn <> other -> i <> j /\ i < Broker.next_id b.
Proof.
  intros Hr Hi Hj Hne. rewrite (subscriber_represented _ _ _ _ Hr) in Hi.
  rewrite (subscriber_represented _ _ _ _ Hr) in Hj.
  destruct (subscription _ (by_name n) conn) as [x|] eqn:Ex; [|done].
  destruct (subscription _ (by_name n) other) as [y|] eqn:Ey; [|done]. simplify_eq/=.
  pose proof (rep_wf _ _ Hr) as Hw. rewrite (rep_next _ _ Hr). split.
  - intros E. by destruct (wf_distinct _ Hw _ _ _ _ x y Ex Ey E).
  - destruct (wf_subscription _ Hw _ _ _ Ex). lia.
Qed.

(** ** The relay under events *)

(** The transport has a message and notifies the server. *)
Definition arrives (conn stream : Z) (data : bytes) : M (world ReallyServer.t) unit :=
  on_server (modify (fun s => with_rx (rx s ++ [(conn, stream, data)]) s));;
  on_recv_notify conn stream.

Definition relay {Tr : ITransport} (e : Broker.event) : M (world ReallyServer.t) unit :=
  match e with
  | Broker.Subscribes conn stream m => arrives conn stream (encoded (put_Subscribe m))
  | Broker.Unsubscribes conn stream m => arrives conn stream (encoded (put_Unsubscribe m))
  | Broker.Announces conn stream m => arrives conn stream (encoded (put_PublishIntent m))
  | Broker.Withdraws conn stream m => arrives conn stream (encoded (put_PublishIntentEnd m))
  | Broker.Publishes conn stream d => arrives conn stream (encoded (put_PublishDatagram d))
  | Broker.Sends_noise conn stream data => arrives conn stream data
  | Broker.Disconnects conn => on_connection_status conn Disconnected
  end.

(** The messages fit their types, and noise is what the server cannot read or has
    no handler for. *)
Definition ok (e : Broker.event) : Prop :=
  match e with
  | Broker.Subscribes _ _ m => ok_Subscribe m
  | Broker.Unsubscribes _ _ m => ok_Unsubscribe m
  | Broker.Announces _ _ m => ok_PublishIntent m /\ pi_message_type m = MessageType.PublishIntent
  | Broker.Withdraws _ _ m =>
      ok_PublishIntentEnd m /\ pie_message_type m = MessageType.PublishIntentEnd
  | Broker.Publishes _ _ d => ok_PublishDatagram d
  | Broker.Sends_noise _ _ data => ignored data = true
  | Broker.Disconnects _ => True
  end.

Lemma arrives_implements b w conn stream data p :
  represents b w ->
  implements (try_catch (dispatch conn stream data) (fun _ => Some (mret tt))) w p ->
  implements (arrives conn stream data) w p.
Proof.
  destruct w as [s r]. intros Hr (w' & sent & E & Hr' & Et & Hs). exists w', sent.
  split; [|done]. pose proof (rep_rx _ _ Hr) as Hrx. cbn [fst] in Hrx.
  unfold arrives. rewrite (run_bind_ret _ _ _ (with_rx [(conn, stream, data)] s, r) tt)
    by (unfold on_server, modify; cbn [fst snd]; by rewrite Hrx).
  unfold on_recv_notify. change 150%nat with (S (S 148)).
  rewrite on_recv_notify_loop_step. cbn [rx with_rx dequeue_from].
  rewrite !Z.eqb_refl. cbn [andb].
  assert (with_rx [] (with_rx [(conn, stream, data)] s) = s) as ->
    by (destruct s; simpl in *; by subst).
  rewrite (run_bind_ret _ _ _ _ _ E). destruct w' as [s' r'].
  rewrite on_recv_notify_loop_step. pose proof (rep_rx _ _ Hr') as Hrx'. cbn [fst] in Hrx'.
  by rewrite Hrx'.
Qed.

Lemma implements_caught m w p :
  implements m w p -> implements (try_catch m (fun _ => Some (mret tt))) w p.
Proof.
  intros (w' & sent & E & H). exists w', sent. split; [|done]. unfold try_catch. by rewrite E.
Qed.

(** A well-formed message has come: it is read, and its handler does not throw. *)
Ltac received :=
  eapply arrives_implements; [eassumption|]; apply implements_caught;
  rewrite <- (app_nil_r (encoded _)).

(** Every event is a step of the broker. *)
Lemma relay_implements {Tr : ITransport} b w e :
  represents b w -> ok e -> Broker.next_id b + 1 < 2 ^ 64 ->
  implements (relay e) w (Broker.step e b).
Proof.
  intros Hr He Hc. destruct e as [c s m|c s m|c s m|c s m|c s d|c s data|c]; cbn in He |- *.
  - received. by apply subscribe_implements.
  - received. by apply unsubscribe_implements.
  - received. apply announce_implements; [done|apply He..].
  - received. apply withdraw_implements; [done|apply He..].
  - received. by apply publish_implements.
  - apply (arrives_implements b); [done|].
    exists w, []. rewrite ignored_dispatch, app_nil_r by done. done.
  - by apply disconnect_implements.
Qed.

Lemma relay_runs {Tr : ITransport} es b w :
  represents b w -> Forall ok es -> Broker.next_id b + Z.of_nat (length es) < 2 ^ 64 ->
  exists w' outs, mfor es relay w = (Ret tt, w') /\ represents (Broker.run es b).1 w' /\
    tx w'.1 = tx w.1 ++ concat outs /\ Forall2 Permutation outs (Broker.run es b).2.
Proof.
  revert b w. induction es as [|e es IH]; intros b w Hr Hes Hc.
  { exists w, []. cbn. by rewrite app_nil_r. }
  inversion_clear Hes as [|? ? He Hes']. cbn [length] in Hc.
  destruct (relay_implements b w e Hr He ltac:(lia)) as (w1 & sent & E & Hr1 & Et & Hs).
  pose proof (Broker.next_id_step e b). cbn [Broker.run mfor].
  destruct (Broker.step e b) as [b1 out]. cbn [fst snd] in *.
  destruct (IH b1 w1 Hr1 Hes' ltac:(lia)) as (w2 & outs & E2 & Hr2 & Et2 & Hs2).
  destruct (Broker.run es b1) as [b2 outs2]. cbn [fst snd] in *.
  exists w2, (sent :: outs). rewrite (run_bind_ret _ _ _ _ _ E). split; [done|].
  split; [done|]. split; [by rewrite Et2, Et, <- app_assoc|]. by constructor.
Qed.

(** A relay that has just been made. *)
Definition fresh : world ReallyServer.t := (QuicRServer.init, ReallyServer.init).

(** Any run followed by one more event. *)
Lemma relay_answers {Tr : ITransport} es e :
  Forall ok es -> ok e -> Z.of_nat (length es) + 1 < 2 ^ 64 ->
  exists w w' sent, mfor es relay fresh = (Ret tt, w) /\ represents (Broker.after es) w /\
    relay e w = (Ret tt, w') /\ tx w'.1 = tx w.1 ++ sent /\
    sent ≡ₚ (Broker.step e (Broker.after es)).2.
Proof.
  intros Hes He Hc.
  destruct (relay_runs es Broker.empty fresh represents_init Hes) as (w & outs & E & Hr & _ & _);
    [cbn; lia|].
  pose proof (Broker.next_id_run es Broker.empty) as Hn. cbn [Broker.empty Broker.next_id] in Hn.
  destruct (relay_implements _ w e Hr He) as (w' & sent & E' & _ & Et & Hs); [lia|].
  by exists w, w', sent.
Qed.

(** ** The relay under bytes

    What the transport tells the relay: bytes from a stream of a connection, or that
    a connection ended. *)
Inductive input :=
  | Arrives (conn stream : Z) (data : bytes)
  | Ends (conn : Z).

Definition receive {Tr : ITransport} (i : input) : M (world ReallyServer.t) unit :=
  match i with
  | Arrives conn stream data => arrives conn stream data
  | Ends conn => on_connection_status conn Disconnected
  end.

(** What was read, or noise when the reader threw; nothing stands for undefined
    behaviour. *)
Definition read_as {X} (r : result X) (f : X -> Broker.event) (noise : Broker.event)
    : option Broker.event :=
  match r with Ret m => Some (f m) | Throw _ => Some noise | Undefined => None end.

(** The event that bytes are; the messages a server has no handler for are noise. *)
Definition event_of (i : input) : option Broker.event :=
  match i with
  | Ends conn => Some (Broker.Disconnects conn)
  | Arrives conn stream data =>
      let noise := Broker.Sends_noise conn stream data in
      match data with
      | [] => None
      | front :: _ =>
          match (enum_of_u8 front : MessageType.t) with
          | MessageType.Subscribe =>
              read_as (get_Subscribe uninit_Subscribe data).1 (Broker.Subscribes conn stream) noise
          | MessageType.Publish =>
              read_as (get_PublishDatagram data).1 (Broker.Publishes conn stream) noise
          | MessageType.Unsubscribe =>
              read_as (get_Unsubscribe uninit_Unsubscribe data).1 (Broker.Unsubscribes conn stream)
                noise
          | MessageType.PublishIntent =>
              read_as (get_PublishIntent data).1 (Broker.Announces conn stream) noise
          | MessageType.PublishIntentEnd =>
              read_as (get_PublishIntentEnd data).1 (Broker.Withdraws conn stream) noise
          | _ => Some noise
          end
      end
  end.

(** Bytes are bytes. *)
Definition wf_input (i : input) : Prop :=
  match i with Arrives _ _ data => wf_bytes data | Ends _ => True end.

(** The namespace in a message is shorter than a name. *)
Definition prefixes (e : Broker.event) : Prop :=
  match e with
  | Broker.Subscribes _ _ m => _sig_bits (sub_namespace m) < 128
  | Broker.Unsubscribes _ _ m => _sig_bits (unsub_namespace m) < 128
  | Broker.Announces _ _ m => _sig_bits (pi_namespace m) < 128
  | Broker.Withdraws _ _ m => _sig_bits (pie_namespace m) < 128
  | _ => True
  end.

Lemma read_as_inv {X} (r : result X) f noise e :
  read_as r f noise = Some e -> (exists m, r = Ret m /\ e = f m) \/ (throws r = true /\ e = noise).
Proof. destruct r; simpl; intros; simplify_eq; [left|right]; by eauto. Qed.

Lemma fst_ret {X} (p : result X * bytes) m : p.1 = Ret m -> p = (Ret m, p.2).
Proof. destruct p. simpl. by intros ->. Qed.

(** The type in an intent is the byte that says how to dispatch. *)
Lemma read_PublishIntent_type front data m :
  (get_PublishIntent (front :: data)).1 = Ret m -> pi_message_type m = enum_of_u8 front.
Proof.
  unfold get_PublishIntent. rewrite (run_bind_ret get_u8 _ (front :: data) data front) by done.
  cbv [mbind M_bind].
  repeat (case_match; try done). cbn. by intros [= <-].
Qed.
Lemma read_PublishIntentEnd_type front data m :
  (get_PublishIntentEnd (front :: data)).1 = Ret m -> pie_message_type m = enum_of_u8 front.
Proof.
  unfold get_PublishIntentEnd. rewrite (run_bind_ret get_u8 _ (front :: data) data front) by done.
  cbv [mbind M_bind].
  repeat (case_match; try done). cbn. by intros [= <-].
Qed.

(** Two buffers a reader reads the same from. *)
Lemma same_read {S X B} (g : Buf X) data data' (f : X -> M S B) s m :
  (g data).1 = Ret m -> (g data').1 = Ret m -> (on_local data g ≫= f) s = (on_local data' g ≫= f) s.
Proof. unfold on_local, mbind, M_bind. by intros -> ->. Qed.

Lemma implements_ext m m' w p : m w = m' w -> implements m' w p -> implements m w p.
Proof. unfold implements. by intros ->. Qed.

Lemma read_intent_implements b w cid sid front data m :
  represents b w -> wf_bytes (front :: data) ->
  (enum_of_u8 front : MessageType.t) = MessageType.PublishIntent ->
  (get_PublishIntent (front :: data)).1 = Ret m -> _sig_bits (pi_namespace m) < 128 ->
  implements (dispatch cid sid (front :: data)) w
    (Broker.announce cid sid (pi_namespace m) (pi_transaction_id m) b).
Proof.
  intros Hr Hb Ef Em Hlt. pose proof (read_PublishIntent_type _ _ _ Em) as Ht. rewrite Ef in Ht.
  destruct (yields_read _ _ _ _ _ yields_get_PublishIntent Hb (fst_ret _ _ Em))
    as [(H1 & H2 & [_ H3] & [_ H4] & H5 & H6) _].
  assert (ok_PublishIntent m) as Hm by (split_and!; try done; by apply H3).
  eapply implements_ext; [|by apply (announce_implements b w cid sid m [])].
  destruct (encoded_wire _ _ (put_PublishIntent_wire m Hm)) as [_ ->].
  rewrite (dispatch_typed MessageType.PublishIntent _ _ (PublishIntent_wire m ++ [])
    (drop 1 (PublishIntent_wire m) ++ []))
    by (done || by unfold PublishIntent_wire; rewrite Ht).
  unfold dispatch. rewrite Ef. eapply same_read; [exact Em|].
  by rewrite (get_PublishIntent_wire native_little m Hm []).
Qed.

Lemma read_intent_end_implements b w cid sid front data m :
  represents b w -> wf_bytes (front :: data) ->
  (enum_of_u8 front : MessageType.t) = MessageType.PublishIntentEnd ->
  (get_PublishIntentEnd (front :: data)).1 = Ret m -> _sig_bits (pie_namespace m) < 128 ->
  implements (dispatch cid sid (front :: data)) w (Broker.withdraw (pie_namespace m) b, []).
Proof.
  intros Hr Hb Ef Em Hlt. pose proof (read_PublishIntentEnd_type _ _ _ Em) as Ht. rewrite Ef in Ht.
  destruct (yields_read _ _ _ _ _ yields_get_PublishIntentEnd Hb (fst_ret _ _ Em))
    as [(H1 & [_ H2] & [_ H3]) _].
  assert (ok_PublishIntentEnd m) as Hm by (split_and!; try done; by apply H2).
  eapply implements_ext; [|by apply (withdraw_implements b w cid sid m [])].
  destruct (encoded_wire _ _ (put_PublishIntentEnd_wire m Hm)) as [_ ->].
  rewrite (dispatch_typed MessageType.PublishIntentEnd _ _ (PublishIntentEnd_wire m ++ [])
    (drop 1 (PublishIntentEnd_wire m) ++ []))
    by (done || by unfold PublishIntentEnd_wire; rewrite Ht).
  unfold dispatch. rewrite Ef. eapply same_read; [exact Em|].
  by rewrite (get_PublishIntentEnd_wire native_little m Hm []).
Qed.

Lemma read_object_implements b w cid sid front data m :
  represents b w -> wf_bytes (front :: data) ->
  (enum_of_u8 front : MessageType.t) = MessageType.Publish ->
  (get_PublishDatagram (front :: data)).1 = Ret m ->
  implements (dispatch cid sid (front :: data)) w (Broker.publish cid sid m b).
Proof.
  intros Hr Hb Ef Em.
  destruct (yields_read _ _ _ _ _ yields_get_PublishDatagram Hb (fst_ret _ _ Em)) as [[Hm _] _].
  eapply implements_ext; [|by apply (publish_implements b w cid sid m [])].
  destruct (encoded_wire _ _ (put_PublishDatagram_wire m Hm)) as [_ ->].
  rewrite (dispatch_typed MessageType.Publish _ _ (PublishDatagram_wire m ++ [])
    (drop 1 (PublishDatagram_wire m) ++ [])) by done.
  unfold dispatch. rewrite Ef. eapply same_read; [exact Em|].
  by rewrite (get_PublishDatagram_wire native_little m Hm []).
Qed.

(** Whatever is read from the bytes is a step of the broker. *)
Lemma receive_implements {Tr : ITransport} b w i e :
  represents b w -> wf_input i -> event_of i = Some e -> prefixes e -> Broker.next_id b + 1 < 2 ^ 64 ->
  implements (receive i) w (Broker.step e b).
Proof.
  intros Hr Hi He Hp Hc. destruct i as [c s data|c]; [|injection He as <-; by apply disconnect_implements].
  destruct data as [|front data]; [done|]. apply (arrives_implements b); [done|].
  unfold wf_input in Hi. unfold event_of in He. cbv zeta in He.
  assert (ignored (front :: data) = true -> e = Broker.Sends_noise c s (front :: data) ->
    implements (try_catch (dispatch c s (front :: data)) (fun _ => Some (mret tt))) w
      (Broker.step e b)) as Hnoise.
  { intros Hig ->. exists w, []. rewrite ignored_dispatch, app_nil_r by done. done. }
  destruct (enum_of_u8 front : MessageType.t) eqn:Ef;
    try (injection He as <-; apply Hnoise; [by unfold ignored; rewrite Ef|done]);
    (apply read_as_inv in He as [(m & Em & ->)|[Ht ->]];
       [apply implements_caught|by apply Hnoise; [unfold ignored; rewrite Ef|]]); cbn in Hp; cbn [Broker.step].
  - destruct (yields_read _ _ _ _ _ (yields_get_Subscribe _) Hi (fst_ret _ _ Em)) as [(_ & [_ Hn] & _) _].
    unfold dispatch. rewrite Ef. by apply subscribe_read; [|apply Hn|..].
  - destruct (yields_read _ _ _ _ _ (yields_get_Unsubscribe _) Hi (fst_ret _ _ Em)) as [[_ Hn] _].
    unfold dispatch. rewrite Ef. by apply unsubscribe_read; [|apply Hn|].
  - by apply read_object_implements.
  - by apply read_intent_implements.
  - by apply read_intent_end_implements.
Qed.

(** Bytes that no event stands for are the end of the relay. *)
Lemma receive_undefined {Tr : ITransport} b w i :
  represents b w -> event_of i = None -> (receive i w).1 = Undefined.
Proof.
  intros Hr He. destruct i as [c s data|c]; [|done]. destruct w as [s0 r0].
  pose proof (rep_rx _ _ Hr) as Hrx. cbn [fst] in Hrx.
  assert ((dispatch c s data (s0, r0)).1 = Undefined) as Hd.
  { destruct data as [|front data]; [done|]. unfold event_of in He. cbv zeta in He. unfold dispatch, handle_subscribe,
      handle_publish, handle_unsubscribe, handle_publish_intent, handle_publish_intent_end.
    cbv [mbind M_bind on_local].
    destruct (enum_of_u8 front : MessageType.t); try done; cbn [fst];
      match type of He with read_as ?g _ _ = _ => destruct g; done end. }
  unfold receive, arrives. rewrite (run_bind_ret _ _ _ (with_rx [(c, s, data)] s0, r0) tt)
    by (unfold on_server, modify; cbn [fst snd]; by rewrite Hrx).
  unfold on_recv_notify. change 150%nat with (S 149). rewrite on_recv_notify_loop_step.
  cbn [rx with_rx dequeue_from]. rewrite !Z.eqb_refl. cbn [andb].
  assert (with_rx [] (with_rx [(c, s, data)] s0) = s0) as ->
    by (destruct s0; simpl in *; by subst).
  unfold mbind, M_bind, try_catch. destruct (dispatch c s data (s0, r0)) as [o w']. cbn [fst] in Hd.
  by subst o.
Qed.

Lemma receive_runs {Tr : ITransport} ins es b w :
  represents b w -> Forall wf_input ins -> mapM event_of ins = Some es -> Forall prefixes es ->
  Broker.next_id b + Z.of_nat (length es) < 2 ^ 64 ->
  exists w' outs, mfor ins receive w = (Ret tt, w') /\ represents (Broker.run es b).1 w' /\
    tx w'.1 = tx w.1 ++ concat outs /\ Forall2 Permutation outs (Broker.run es b).2.
Proof.
  intros Hr Hi He. apply mapM_Some in He. revert b w Hr. induction He as [|i e ins es E _ IH];
    intros b w Hr Hp Hc.
  { exists w, []. cbn. by rewrite app_nil_r. }
  inversion_clear Hi as [|? ? Hwi Hi']. inversion_clear Hp as [|? ? Hpe Hp']. cbn [length] in Hc.
  destruct (receive_implements b w i e Hr Hwi E Hpe ltac:(lia)) as (w1 & sent & Ei & Hr1 & Et & Hs).
  pose proof (Broker.next_id_step e b). cbn [Broker.run mfor].
  destruct (Broker.step e b) as [b1 out]. cbn [fst snd] in *.
  destruct (IH Hi' b1 w1 Hr1 Hp' ltac:(lia)) as (w2 & outs & E2 & Hr2 & Et2 & Hs2).
  destruct (Broker.run es b1) as [b2 outs2]. cbn [fst snd] in *.
  exists w2, (sent :: outs). rewrite (run_bind_ret _ _ _ _ _ Ei). split; [done|].
  split; [done|]. split; [by rewrite Et2, Et, <- app_assoc|]. by constructor.
Qed.

(** * Properties *)

(** C4: The relay implements the broker: a relay that has just been made is run by
    what the transport tells it, any bytes from any connections in any order, and
    connections that end.  As long as reading the bytes is defined, and the
    namespaces read are shorter than 128 bits, it neither throws nor has undefined
    behaviour, its tables represent the state of the broker after the events the
    bytes are (what cannot be read, or has no handler, is noise), and for each
    event it sends what the broker answers, in some order.  Bytes whose reading is
    undefined, as an empty message, make the relay undefined. *)
Theorem relay_refines_broker {Tr : ITransport} ins es :
  Forall wf_input ins -> mapM event_of ins = Some es -> Forall prefixes es ->
  Z.of_nat (length es) < 2 ^ 64 ->
  (exists w outs, mfor ins receive fresh = (Ret tt, w) /\ represents (Broker.after es) w /\
     tx w.1 = concat outs /\ Forall2 Permutation outs (Broker.run es Broker.empty).2) /\
  forall i, event_of i = None -> (mfor (ins ++ [i]) receive fresh).1 = Undefined.
Proof.
  intros Hi He Hp Hc.
  destruct (receive_runs ins es Broker.empty fresh represents_init Hi He Hp Hc)
    as (w & outs & E & Hr & Ht & Hs).
  split; [by exists w, outs|]. intros i Hn. rewrite mfor_app, (run_bind_ret _ _ _ _ _ E).
  cbn [mfor]. pose proof (receive_undefined _ w i Hr Hn) as Hu.
  unfold mbind, M_bind. destruct (receive i w) as [o w']. cbn in Hu. by subst o.
Qed.

(** A run to try: connection 3 announces, 7 and 8 subscribe, something unreadable
    comes, and an object is published. *)
Definition demo_intent : PublishIntent :=
  mkPublishIntent MessageType.PublishIntent 43 demo_ns [] 0 0.
Definition demo_events : list Broker.event :=
  [Broker.Announces 3 4 demo_intent; Broker.Subscribes 7 9 demo_subscribe;
   Broker.Sends_noise 5 5 [1]; Broker.Subscribes 8 9 demo_subscribe].

Lemma demo_events_ok : Forall ok demo_events.
Proof.
  repeat apply Forall_cons_2; [|apply ok_demo_subscribe|reflexivity|apply ok_demo_subscribe|by constructor].
  repeat split; vm_compute; congruence.
Qed.

(** The same as bytes: the second subscribe message has something behind it, the
    object has lengths of eight bytes, and an empty message ends the relay. *)
Definition demo_inputs : list input :=
  [Arrives 3 4 (encoded (put_PublishIntent demo_intent));
   Arrives 7 9 (encoded (put_Subscribe demo_subscribe)); Arrives 5 5 [1];
   Arrives 8 9 (encoded (put_Subscribe demo_subscribe) ++ [77; 78]);
   Arrives 3 4 (enum_to_u8 MessageType.Publish :: be_bytes 8 0x1000 ++ be_bytes 8 0x2001
     ++ [1; 2; 3; 1; 9; 3] ++ [0xE0; 0; 0; 0; 0; 0; 0; 2] ++ [0xE0; 0; 0; 0; 0; 0; 0; 2] ++ [7; 8]);
   Ends 7].

Lemma relay_refines_broker_witness :
  exists es, mapM event_of demo_inputs = Some es /\ length es = 6%nat /\
  (exists w outs, mfor demo_inputs (receive (Tr := FakeTransport)) fresh = (Ret tt, w) /\
     represents (Broker.after es) w /\ tx w.1 = concat outs /\
     Forall2 Permutation outs (Broker.run es Broker.empty).2) /\
  forall i, event_of i = None ->
    (mfor (demo_inputs ++ [i]) (receive (Tr := FakeTransport)) fresh).1 = Undefined.
Proof.
  eexists. split; [vm_compute; reflexivity|]. split; [reflexivity|].
  apply (relay_refines_broker (Tr := FakeTransport) demo_inputs).
  - repeat apply Forall_cons_2; try apply Forall_nil_2; try exact I;
      apply (bool_decide_unpack _); vm_compute; exact I.
  - vm_compute. reflexivity.
  - repeat constructor.
  - reflexivity.
Defined.

(** C6: While nobody unsubscribes and no connection ends, delivery is exactly once for
    each namespace: an object whose name is announced, and was not first published
    from connection 0 and stream 0, is sent to each connection once for every
    namespace it asked for that contains the name, however often it asked, and
    byte for byte; connections that asked for none get nothing.  Namespaces of one
    name must have one length: the server takes them for one. *)
Theorem once_for_each_namespace {Tr : ITransport} es cp sp d :
  Forall ok es -> ok_PublishDatagram d -> Z.of_nat (length es) + 1 < 2 ^ 64 ->
  Forall Broker.calm es -> Broker.one_length (es ≫= Broker.asks) ->
  Broker.is_announced (Broker.after es) (name (header d)) ->
  Broker.origin (Broker.after es) (name (header d)) cp sp <> (0, 0) ->
  exists w w' sent, mfor es relay fresh = (Ret tt, w) /\
    relay (Broker.Publishes cp sp d) w = (Ret tt, w') /\ tx w'.1 = tx w.1 ++ sent /\
    (forall q, q ∈ sent -> pkt_data q = encoded (put_PublishDatagram d)) /\
    forall conn, length (filter (Broker.to conn) sent)
      = size (filter (fun ns => within ns (name (header d)) = true) (Broker.asked_by es conn)).
Proof.
  intros Hes Hd Hc Hcalm H1 Han Ho.
  destruct (relay_answers es (Broker.Publishes cp sp d) Hes Hd Hc)
    as (w & w' & sent & E & _ & E' & Et & Hs).
  exists w, w', sent. split_and!; [done|done|done| |].
  - intros q Hq. rewrite Hs in Hq. destruct (encoded_wire _ _ (put_PublishDatagram_wire d Hd)) as [_ ->].
    by eapply Broker.publish_data.
  - intros conn. rewrite Hs. by apply Broker.calm_copies.
Qed.

Lemma demo_one_length : Broker.one_length (demo_events ≫= Broker.asks).
Proof.
  intros p q Hp Hq _. repeat (apply elem_of_cons in Hp as [->|Hp]); [..|by apply not_elem_of_nil in Hp];
    repeat (apply elem_of_cons in Hq as [->|Hq]); done || by apply not_elem_of_nil in Hq.
Qed.

Lemma once_for_each_namespace_witness :
  exists w w' sent, mfor demo_events (relay (Tr := FakeTransport)) fresh = (Ret tt, w) /\
    relay (Tr := FakeTransport) (Broker.Publishes 3 4 demo_object) w = (Ret tt, w') /\
    tx w'.1 = tx w.1 ++ sent /\
    (forall q, q ∈ sent -> pkt_data q = encoded (put_PublishDatagram demo_object)) /\
    forall conn, length (filter (Broker.to conn) sent)
      = size (filter (fun ns => within ns (mkName 0x1000 0x2001) = true)
                (Broker.asked_by demo_events conn)).
Proof.
  apply (once_for_each_namespace (Tr := FakeTransport) demo_events 3 4 demo_object).
  - apply demo_events_ok.
  - repeat split; vm_compute; congruence.
  - vm_compute; congruence.
  - by repeat constructor.
  - apply demo_one_length.
  - apply (bool_decide_unpack _). vm_compute. exact I.
  - vm_compute. congruence.
Defined.

(** C7: One unsubscribe doubles what another connection gets.  When two connections are
    subscribed to a namespace and one unsubscribes from it, nobody is subscribed to
    the namespace any more, but the id of the other stays in use and still stands
    for its connection and stream.  If the other then subscribes again, every
    object of the namespace, as long as its name is announced and was not first
    published from connection 0 and stream 0, is sent to it at least twice: to the
    stream of its first subscription and to that of its second. *)
Theorem unsubscribe_of_another_doubles {Tr : ITransport} es other s_other m conn stream i j
    stream' m' cp sp d :
  let ns := sub_namespace m' in let b := Broker.after es in
  Forall ok es -> ok_Unsubscribe m -> ok_Subscribe m' -> ok_PublishDatagram d ->
  Z.of_nat (length es) + 3 < 2 ^ 64 ->
  Broker.served b conn stream ns i -> _name (unsub_namespace m) = _name ns ->
  Broker.subscriber b (_name ns) other = Some j -> other <> conn ->
  Broker.is_announced b (name (header d)) -> within ns (name (header d)) = true ->
  Broker.origin b (name (header d)) cp sp <> (0, 0) ->
  exists w1 ctx w w' sent,
    mfor (es ++ [Broker.Unsubscribes other s_other m]) relay fresh = (Ret tt, w1) /\
    (forall c, subscription (subscribe_state w1.1) ns c = None) /\
    at_key (subscribe_id_state w1.1) i = Some ctx /\ place ctx = (conn, stream) /\
    relay (Broker.Subscribes conn stream' m') w1 = (Ret tt, w) /\
    relay (Broker.Publishes cp sp d) w = (Ret tt, w') /\ tx w'.1 = tx w.1 ++ sent /\
    [mkPacket conn stream (encoded (put_PublishDatagram d));
     mkPacket conn stream' (encoded (put_PublishDatagram d))] ⊆+ sent.
Proof.
  intros ns b Hes Hm Hm' Hd Hc Hserved En Hj Hne Han Hw Ho.
  destruct (relay_runs es Broker.empty fresh represents_init Hes) as (w0 & _ & E0 & Hr & _ & _);
    [cbn; lia|]. fold (Broker.after es) in Hr. fold b in Hr.
  destruct (represents_ids b w0 (_name ns) conn other i j Hr) as [Hij Hi];
    [apply Hserved|done|congruence|].
  pose proof (Broker.next_id_run es Broker.empty) as Hn. cbn [Broker.empty Broker.next_id] in Hn.
  fold (Broker.after es) in Hn. fold b in Hn.
  destruct (Broker.unsubscribe_closes b other conn stream ns (unsub_namespace m) i j)
    as (Hclosed & Haddr & _ & Hnext); [done..|].
  destruct (relay_implements b w0 (Broker.Unsubscribes other s_other m) Hr Hm ltac:(lia))
    as (w1 & _ & E1 & Hr1 & _). cbn [Broker.step] in Hr1.
  destruct (relay_implements _ w1 (Broker.Subscribes conn stream' m') Hr1 Hm' ltac:(lia))
    as (w2 & _ & E2 & Hr2 & _). cbn [Broker.step] in Hr2. fold ns in Hr2.
  pose proof (Broker.next_id_step (Broker.Subscribes conn stream' m')
    (Broker.unsubscribe other (unsub_namespace m) b).1) as Hn2. cbn [Broker.step] in Hn2. fold ns in Hn2.
  destruct (relay_implements _ w2 (Broker.Publishes cp sp d) Hr2 Hd ltac:(lia))
    as (w3 & sent & E3 & _ & Et & Hs). cbn [Broker.step] in Hs.
  rewrite (rep_address _ _ Hr1) in Haddr.
  destruct (at_key (subscribe_id_state w1.1) i) as [ctx|] eqn:Ei; [|done]. injection Haddr as Hp1 Hp2.
  exists w1, ctx, w2, w3, sent. split_and!; [| |done|by unfold place; rewrite Hp1, Hp2|done|done|done|].
  - by rewrite mfor_app, (run_bind_ret _ _ _ _ _ E0); cbn [mfor]; rewrite (run_bind_ret _ _ _ _ _ E1).
  - intros c. specialize (Hclosed c). rewrite (subscriber_represented _ _ _ _ Hr1) in Hclosed.
    rewrite subscription_by_name. by destruct (subscription _ _ c).
  - rewrite Hs. destruct (encoded_wire _ _ (put_PublishDatagram_wire d Hd)) as [_ ->].
    by apply (Broker.doubled b other conn stream stream' ns (unsub_namespace m) i j).
Qed.

Lemma unsubscribe_of_another_doubles_witness :
  exists w1 ctx w w' sent,
    mfor (demo_events ++ [Broker.Unsubscribes 7 9 (mkUnsubscribe 0 demo_ns)])
      (relay (Tr := FakeTransport)) fresh = (Ret tt, w1) /\
    (forall c, subscription (subscribe_state w1.1) demo_ns c = None) /\
    at_key (subscribe_id_state w1.1) 1 = Some ctx /\ place ctx = (8, 9) /\
    relay (Tr := FakeTransport) (Broker.Subscribes 8 11 demo_subscribe) w1 = (Ret tt, w) /\
    relay (Tr := FakeTransport) (Broker.Publishes 3 4 demo_object) w = (Ret tt, w') /\
    tx w'.1 = tx w.1 ++ sent /\
    [mkPacket 8 9 (encoded (put_PublishDatagram demo_object));
     mkPacket 8 11 (encoded (put_PublishDatagram demo_object))] ⊆+ sent.
Proof.
  apply (unsubscribe_of_another_doubles (Tr := FakeTransport) demo_events 7 9
    (mkUnsubscribe 0 demo_ns) 8 9 1 0 11 demo_subscribe 3 4 demo_object).
  - apply demo_events_ok.
  - repeat split; vm_compute; congruence.
  - apply ok_demo_subscribe.
  - repeat split; vm_compute; congruence.
  - vm_compute; congruence.
  - split; [vm_compute; congruence..|]. apply (bool_decide_unpack _). vm_compute. exact I.
  - reflexivity.
  - vm_compute; congruence.
  - lia.
  - apply (bool_decide_unpack _). vm_compute. exact I.
  - reflexivity.
  - vm_compute. congruence.
Defined.

(** C8: A connection that was lost is not served again for what it had asked for.  Say
    nobody unsubscribed and no other connection ended before it did, and the names
    asked for had one length each.  Afterwards, as long as nobody unsubscribes from
    a name it had asked for and its own subscribe messages are for such names
    only, these are not answered and no object is sent to it, whatever else
    happens; all it can get is an answer to an announcement. *)
Theorem lost_connection_stays_deaf {Tr : ITransport} es es' conn :
  Forall ok es -> Forall ok es' -> Z.of_nat (length es) + Z.of_nat (length es') + 1 < 2 ^ 64 ->
  Forall Broker.calm es -> Broker.one_length (es ≫= Broker.asks) ->
  Forall (Broker.leaves_deaf conn (Broker.asked_name es conn)) es' ->
  exists w w' outs, mfor (es ++ [Broker.Disconnects conn]) relay fresh = (Ret tt, w) /\
    mfor es' relay w = (Ret tt, w') /\ tx w'.1 = tx w.1 ++ concat outs /\
    length outs = length es' /\
    forall k e out q, es' !! k = Some e -> outs !! k = Some out -> ~ Broker.is_announce e ->
      q ∈ out -> ~ Broker.to conn q.
Proof.
  intros Hes Hes' Hc Hcalm H1 Hl.
  destruct (relay_runs (es ++ [Broker.Disconnects conn]) Broker.empty fresh represents_init)
    as (w & _ & E & Hr & _ & _); [apply Forall_app; split; [done|by apply Forall_cons_2, Forall_nil_2]
      |rewrite length_app; cbn; lia|]. fold (Broker.after (es ++ [Broker.Disconnects conn])) in Hr.
  pose proof (Broker.next_id_run (es ++ [Broker.Disconnects conn]) Broker.empty) as Hn.
  rewrite length_app in Hn. cbn [Broker.empty Broker.next_id length] in Hn.
  rewrite Broker.after_snoc in Hr. cbn [Broker.step] in Hr.
  destruct (relay_runs es' _ w Hr Hes') as (w' & outs & E' & _ & Et & Hs);
    [rewrite Broker.disconnect_next; unfold Broker.after|].
  { pose proof (Broker.next_id_run es Broker.empty) as Hn'. cbn in Hn'. lia. }
  destruct (Broker.deaf_run _ conn _ es' Hl (Broker.disconnect_deaf es conn Hcalm H1)) as [_ Hq].
  exists w, w', outs. split_and!; [done|done|done| |].
  - apply Forall2_length in Hs as ->. apply Broker.run_length.
  - intros k e out q He Ho Hna Hin.
    destruct (Forall2_lookup_l _ _ _ _ _ Hs Ho) as (out' & Ho' & Hp). rewrite Hp in Hin.
    by apply (Hq k e out' q).
Qed.

Lemma lost_connection_stays_deaf_witness :
  exists w w' outs,
    mfor (demo_events ++ [Broker.Disconnects 7]) (relay (Tr := FakeTransport)) fresh = (Ret tt, w) /\
    mfor [Broker.Subscribes 7 12 demo_subscribe; Broker.Publishes 3 4 demo_object]
      (relay (Tr := FakeTransport)) w = (Ret tt, w') /\
    tx w'.1 = tx w.1 ++ concat outs /\ length outs = 2%nat /\
    forall k e out q,
      [Broker.Subscribes 7 12 demo_subscribe; Broker.Publishes 3 4 demo_object] !! k = Some e ->
      outs !! k = Some out -> ~ Broker.is_announce e -> q ∈ out -> ~ Broker.to 7 q.
Proof.
  apply (lost_connection_stays_deaf (Tr := FakeTransport) demo_events
    [Broker.Subscribes 7 12 demo_subscribe; Broker.Publishes 3 4 demo_object] 7).
  - apply demo_events_ok.
  - repeat constructor; vm_compute; congruence.
  - vm_compute; congruence.
  - by repeat constructor.
  - apply demo_one_length.
  - repeat apply Forall_cons_2; [|done|by constructor]. intros _. exists demo_ns.
    split; [by left|done].
Defined.

End RelayBroker.
