(* ===== verification/RelayThreads.v ===== *)
(** * The relay's delegate under the server's threads (cmd/really/really.cpp)

    [ReallyServer] as the programs its methods are in [ServerThreads]: its table
    of subscriptions is what its methods share, and it has no lock of its own.
    Each method run alone does what the one of [Really] does. *)

From S2P Require Export ServerThreads Really.

Module RelayThreads.
Import QuicRServer ServerThreads.

Section relay.
Context {T : Target}.

Definition onPublisherObject (context_id stream_id : Z) (datagram : PublishDatagram)
    : code ReallyServer.t unit :=
  list ← rd Application (ReallyServer.on_list (fun l =>
    (Subscriptions.find_remotes l (name (header datagram)), l)));
  prog_for list (fun dest =>
    if ((Subscriptions.context_id dest =? context_id)
        && (Subscriptions.stream_id dest =? stream_id))%bool
    then mret tt
    else sendNamedObject (Subscriptions.subscribe_id dest) false datagram).

Definition onUnsubscribe (ns : Namespace) (subscriber_id : Z) : code ReallyServer.t unit :=
  subscriptionEnded subscriber_id ns SubscribeStatus.Ok;;
  wr Application (ReallyServer.on_list (Subscriptions.remove (_name ns) (_sig_bits ns)
    (ReallyServer.remote_of subscriber_id))).

Definition onSubscribe (ns : Namespace) (subscriber_id : Z) : code ReallyServer.t unit :=
  wr Application (ReallyServer.on_list (Subscriptions.add (_name ns) (_sig_bits ns)
    (ReallyServer.remote_of subscriber_id)));;
  subscribeResponse subscriber_id ns
    (mkSubscribeResult SubscribeStatus.Ok [] None RelayInfo_init).

#[export] Instance relay_code : DelegateCode ReallyServer.t :=
  {| run_onPublishIntent ns _ _ _ _ :=
       publishIntentResponse ns (mkPublishIntentResult Response.Ok RelayInfo_init (mkName 0 0));
     run_onPublishIntentEnd _ _ _ := mret tt;
     run_onPublisherObject cid sid _ d := onPublisherObject cid sid d;
     run_onSubscribe ns i _ _ _ _ _ _ _ := onSubscribe ns i;
     run_onUnsubscribe ns i _ := onUnsubscribe ns i |}.

#[export] Instance relay_runs : Runs ReallyServer.delegate relay_code.
Proof.
  split; intros; cbn [run_onPublishIntent run_onPublishIntentEnd run_onPublisherObject run_onSubscribe
    run_onUnsubscribe relay_code QuicRServer.onPublishIntent QuicRServer.onPublishIntentEnd
    QuicRServer.onPublisherObject QuicRServer.onSubscribe QuicRServer.onUnsubscribe
    ReallyServer.delegate].
  - apply straight_publishIntentResponse.
  - done.
  - apply straight_bind; [done|]. intros l. apply straight_for. intros dest.
    case_match; [done|apply straight_to_subscriber].
  - apply straight_bind; [done|]. intros _. apply straight_to_subscriber.
  - apply straight_bind; [apply straight_to_subscriber|done].
  - apply alone_publishIntentResponse.
  - apply refines_ret.
  - eapply refines_bind with anything; [apply refines_atomic|apply preserves_always|intros l _].
    apply refines_for; [|intros; apply preserves_always]. intros dest _.
    case_match; [apply refines_ret|apply alone_to_subscriber].
  - eapply refines_bind with anything; [apply refines_atomic|apply preserves_always|intros _ _].
    apply alone_to_subscriber.
  - eapply refines_bind with anything; [apply alone_to_subscriber|apply preserves_always|].
    intros _ _. apply refines_atomic.
Qed.

(** ** On the way to the table *)

Abbreviation config_of s r o ps := (mkConfig (S := world ReallyServer.t) (s, r) o ps).

(** A thread that handles an object of an announced name, up to where it reads the
    table. *)
Lemma publish_reads_table i cid sid msg d e s r ps :
  (get_PublishDatagram msg).1 = Ret d ->
  find_publish_namespace (publish_namespaces s) (name (header d)) = Ret (Some e) ->
  ps !! i = Some (handle_publish cid sid msg) ->
  exists st cid0 sid0,
    rtc moves (config_of s r None ps)
      (config_of (with_publish_state st s) r None (<[i := onPublisherObject cid0 sid0 d]> ps)).
Proof.
  intros Em Ef Hp. unfold handle_publish in Hp. rewrite Em in Hp.
  change (Done (Ret d) ≫= ?f) with (f d) in Hp. cbv beta zeta in Hp.
  set (n := name (header d)) in *.
  destruct (publish_context_run false cid sid n s r) as [Er (pc & st & Ec)]. rewrite Ec in Er.
  exists st, (pc_transport_context_id pc), (pc_transport_stream_id pc).
  pose proof (lookup_lt_Some _ _ _ Hp) as Hlt.
  eapply (run_moves_bind (S := world ReallyServer.t) i false _ _ (s, r) (Some e) (s, r) false)
    in Hp as H1; [|cbn; unfold on_server; cbn; by rewrite Ef].
  etrans; [exact H1|]. clear H1. cbv iota.
  match goal with |- rtc moves (mkConfig _ _ (<[i := ?p]> ps)) _ =>
    assert (<[i := p]> ps !! i = Some p) as Hp2 by by apply list_lookup_insert_eq end.
  eapply (run_moves_bind (S := world ReallyServer.t) i false _ _ _ pc _ false) in Hp2 as H2;
    [|exact Er]. by rewrite list_insert_insert_eq in H2.
Qed.

(** A thread that handles the subscribe message of a new subscription, up to where
    it writes the table. *)
Lemma subscribe_writes_table i cid sid msg m s r ps :
  tidy s -> (get_Subscribe uninit_Subscribe msg).1 = Ret m ->
  let ns := sub_namespace m in
  subscription (subscribe_state s) ns cid = None ->
  ps !! i = Some (handle_subscribe cid sid msg) ->
  rtc moves (config_of s r None ps)
    (config_of (subscribed s ns cid sid) r (Some i)
       (<[i := unlock_after (onSubscribe ns (subscriber_id s))]> ps)).
Proof.
  intros Hs Em ns Hn Hp. pose proof (lookup_lt_Some _ _ _ Hp) as Hlt.
  assert (Threads.run true (wr Subscribe_state (on_server (A := ReallyServer.t)
      (count_context ns cid))) (s, r)
    = Some (Ret false, (with_subscribe_state (subscript (subscribe_state s) ns []).2 s, r), true))
    as H1.
  { cbn -[count_context]. unfold on_server. cbn [fst snd].
    rewrite count_context_run, Hn. by rewrite bool_decide_false by by intros []. }
  pose proof (new_subscription_run (A := ReallyServer.t) true ns cid sid s r Hs) as H2.
  assert (Threads.run true (wr Subscribe_state (on_server (A := ReallyServer.t)
      (context_of ns cid))) (subscribed s ns cid sid, r)
    = Some (Ret (subscriber_id s), (subscribed s ns cid sid, r), true)) as H3.
  { cbn -[context_of subscribed]. unfold on_server. cbn [fst snd].
    by rewrite (context_of_found ns cid _ (new_context s cid sid)) by
      (by apply tidy_subscribed || by apply subscribed_context). }
  eapply rtc_l.
  { exists i. unfold perform. cbn [threads memory owner]. rewrite Hp.
    unfold handle_subscribe. rewrite Em. reflexivity. }
  unfold subscribe_body. fold ns.
  eapply hop_locked; [exact H1|exact Hlt|]. cbv iota.
  eapply hop_locked; [exact H2|exact Hlt|].
  by eapply hop_locked; [exact H3|exact Hlt|].
Qed.
End relay.

(** C20: The relay's table has no lock: while one thread forwards an object of an
    announced namespace, and another handles the subscribe message of a new
    subscription, the first can be about to read the table, without the mutex,
    and the second to write it, with the mutex. *)
Theorem forwarding_races_with_subscribe {T : Target} `{!LittleEndian} {Tr : ITransport}
    d m rest rest' cid sid cid' sid' (w : world ReallyServer.t) e :
  tidy w.1 -> ok_PublishDatagram d -> ok_Subscribe m ->
  find_publish_namespace (publish_namespaces w.1) (name (header d)) = Ret (Some e) ->
  subscription (subscribe_state w.1) (sub_namespace m) cid' = None ->
  exists c p q,
    rtc moves (spawn w [handle_publish cid sid (encoded (put_PublishDatagram d) ++ rest);
                        handle_subscribe cid' sid' (encoded (put_Subscribe m) ++ rest')]) c /\
    threads c = [p; q] /\ owner c = Some 1%nat /\
    next_access p = Some (mkAccess [Application] []) /\
    next_access q = Some (mkAccess [] [Application]) /\ racy c.
Proof.
  intros Hw Hd Hm He Hn. destruct w as [s r]. cbn [fst] in *.
  destruct (encoded_wire _ _ (put_PublishDatagram_wire d Hd)) as [_ ->].
  destruct (encoded_wire _ _ (put_Subscribe_wire m)) as [_ ->].
  pose proof (get_PublishDatagram_wire native_little d Hd rest) as Ed.
  pose proof (get_Subscribe_wire native_little uninit_Subscribe m Hm rest') as Em.
  set (msg := PublishDatagram_wire d ++ rest) in *. set (msg' := Subscribe_wire m ++ rest') in *.
  destruct (publish_reads_table 0 cid sid msg d e s r
    [handle_publish cid sid msg; handle_subscribe cid' sid' msg']) as (st & c0 & s0 & H1);
    [by rewrite Ed|done..|].
  eexists _, _, _. split.
  - etrans; [exact H1|].
    eapply (subscribe_writes_table 1 cid' sid' msg' _ (with_publish_state st s) r);
      [by destruct Hw|by rewrite Em|exact Hn|done].
  - split; [reflexivity|]. split_and!; [done..|].
    exists 1%nat, 0%nat. do 4 eexists. exists Application. split_and!; try done; by left.
Qed.

Lemma forwarding_races_with_subscribe_witness :
  let T := strict_little in
  exists c p q,
    rtc moves (spawn ReallyServer.demo_relay
      [handle_publish 3 4 (encoded (put_PublishDatagram demo_object) ++ []);
       handle_subscribe 7 9 (encoded (put_Subscribe demo_subscribe) ++ [])]) c /\
    threads c = [p; q] /\ owner c = Some 1%nat /\
    next_access p = Some (mkAccess [Application] []) /\
    next_access q = Some (mkAccess [] [Application]) /\ racy c.
Proof.
  intros T. eapply (forwarding_races_with_subscribe (Tr := FakeTransport) demo_object demo_subscribe).
  - apply wf_tidy, demo_announced_wf.
  - repeat split; vm_compute; congruence.
  - apply ok_demo_subscribe.
  - vm_compute. reflexivity.
  - vm_compute. reflexivity.
Defined.
End RelayThreads.
