(* ===== verification/ConcurrentRelay.v ===== *)
(** * The relay's threads implement the broker

    [ServerThreads] and [RelayThreads] have the handlers of subscribe messages and
    of lost connections as programs of single accesses; [RelayBroker] has them as
    steps of the broker.  Here the two meet: any number of threads that run them
    at once do what the broker does when it takes their events in some order. *)

From S2P Require Export RelayThreads RelayBroker.

Module ConcurrentRelay.
Import QuicRServer ServerThreads RelayThreads RelayBroker.
#[local] Existing Instances x86_64 ReallyServer.delegate ReallyServer.delegate_lawful
  RelayThreads.relay_code RelayThreads.relay_runs Broker.to_dec.
#[local] Instance x86_64_little : LittleEndian := eq_refl.

(** The events whose handlers take the mutex first. *)
Definition locks (e : Broker.event) : Prop :=
  match e with Broker.Subscribes _ _ _ | Broker.Disconnects _ => True | _ => False end.

Section threads.
Context {Tr : ITransport}.

Definition handler (e : Broker.event) : code ReallyServer.t unit :=
  match e with
  | Broker.Subscribes conn stream m => handle_subscribe conn stream (encoded (put_Subscribe m))
  | Broker.Disconnects conn => on_connection_status 0 conn Disconnected
  | _ => mret tt
  end.

(** A thread to which these events come. *)
Definition serve (es : list Broker.event) : code ReallyServer.t unit := prog_for es handler.

(** [takes ls es rest]: the threads that have the events [ls] to serve take the
    events [es], one at a time, and have [rest] left. *)
Inductive takes : list (list Broker.event) -> list Broker.event ->
    list (list Broker.event) -> Prop :=
  | takes_none ls : takes ls [] ls
  | takes_one i e l ls es rest :
      ls !! i = Some (e :: l) -> takes (<[i := l]> ls) es rest -> takes ls (e :: es) rest.

(** Each handler is a critical section that implements its event. *)
Lemma handler_locked e :
  ok e -> locks e ->
  exists p m, handler e = with_lock p /\ straight p /\ refines tidy_world true p m /\
    forall b w, represents b w -> Broker.next_id b + 1 < 2 ^ 64 ->
      implements m w (Broker.step e b).
Proof.
  destruct e as [c s m| | | | | |c]; try done; intros He _.
  - exists (subscribe_body c s (mkSubscribe 0 (sub_transaction_id m) (sub_namespace m) (sub_intent m))),
      (QuicRServer.handle_subscribe c s (encoded (put_Subscribe m))).
    pose proof (get_Subscribe_wire native_little uninit_Subscribe m He []) as Eg.
    rewrite app_nil_r in Eg.
    destruct (encoded_wire _ _ (put_Subscribe_wire m)) as [_ Ew].
    assert ((get_Subscribe uninit_Subscribe (encoded (put_Subscribe m))).1
      = Ret (mkSubscribe 0 (sub_transaction_id m) (sub_namespace m) (sub_intent m))) as Em
      by by rewrite Ew, Eg.
    pose proof (locked_subscribe c s _ _ Em) as Hl. split_and!.
    + cbn [handler]. unfold handle_subscribe. by rewrite Em.
    + by apply locked_handler_straight in Hl.
    + by apply locked_handler_alone in Hl.
    + intros b w Hr Hc. pose proof (subscribe_implements b w c s m [] Hr He Hc) as H.
      rewrite app_nil_r in H. rewrite Ew in H |- *.
      by rewrite (dispatch_typed MessageType.Subscribe _ _ _ (drop 1 (Subscribe_wire m))) in H.
  - exists (disconnect_body 0 c), (QuicRServer.on_connection_status c Disconnected).
    pose proof (locked_disconnect 0 c) as Hl. split_and!.
    + cbn [handler]. unfold on_connection_status. by rewrite decide_True.
    + by apply locked_handler_straight in Hl.
    + by apply locked_handler_alone in Hl.
    + intros b w Hr _. by apply disconnect_implements.
Qed.

Lemma handler_follows e : ok e -> locks e -> follows always True inside false false (handler e).
Proof.
  intros He Hl. destruct (handler_locked e He Hl) as (p & m & -> & Hs & _).
  by apply follows_with_lock, (straight_follows true).
Qed.

Lemma concat_take_one {X} (ls : list (list X)) i e l :
  ls !! i = Some (e :: l) -> length (concat ls) = S (length (concat (<[i := l]> ls))).
Proof.
  revert i. induction ls as [|l0 ls IH]; intros [|i] Hi; [done|done| |].
  - injection Hi as ->. cbn. by rewrite !length_app.
  - change (<[S i := l]> (l0 :: ls)) with (l0 :: <[i := l]> ls). cbn [concat].
    rewrite !length_app, (IH i Hi). lia.
Qed.

(** One section of one thread is one event. *)
Lemma section_takes ls b w i c' :
  Forall (Forall (fun e => ok e /\ locks e)) ls -> represents b w ->
  Broker.next_id b + 1 < 2 ^ 64 ->
  section i (spawn w (map serve ls)) c' ->
  exists e l w' sent, ls !! i = Some (e :: l) /\ ok e /\ locks e /\
    c' = spawn w' (map serve (<[i := l]> ls)) /\
    represents (Broker.step e b).1 w' /\ tx w'.1 = tx w.1 ++ sent /\
    sent ≡ₚ (Broker.step e b).2.
Proof.
  intros Hls Hr Hc (k & k' & s' & Hk & _ & Hu & ->). cbn [memory threads spawn] in *.
  apply list_lookup_fmap_Some_1 in Hk as (l & Hk & Hi). destruct l as [|e l]; [done|].
  pose proof (Forall_lookup_1 _ _ _ _ Hls Hi) as Hl. inversion_clear Hl as [|? ? [He Hlk] _].
  destruct (handler_locked e He Hlk) as (p & m & Eh & Hs & Href & Himp).
  destruct (Himp b w Hr Hc) as (w' & sent & Em & Hr' & Et & Hp).
  unfold serve in Hk. cbn [prog_for] in Hk. rewrite Eh in Hk. injection Hk as ->.
  pose proof (Href w (wf_tidy _ (rep_wf _ _ Hr))) as Hrun. rewrite Em in Hrun.
  pose proof (until_unlock_run p (fun _ => serve l) _ _ _ Hs Hrun) as Hu'.
  change (until_unlock (unlock_after p ≫= (fun _ => serve l)) w = Some (k', s')) in Hu.
  rewrite Hu' in Hu. injection Hu as <- <-.
  exists e, l, w', sent. split_and!; try done. unfold spawn. f_equal.
  by rewrite <- list_fmap_insert.
Qed.

Lemma sections_take ls b w c :
  Forall (Forall (fun e => ok e /\ locks e)) ls -> represents b w ->
  Broker.next_id b + Z.of_nat (length (concat ls)) < 2 ^ 64 ->
  rtc sections (spawn w (map serve ls)) c ->
  exists es rest outs, takes ls es rest /\ c = spawn (memory c) (map serve rest) /\
    represents (Broker.run es b).1 (memory c) /\
    tx (memory c).1 = tx w.1 ++ concat outs /\ Forall2 Permutation outs (Broker.run es b).2.
Proof.
  intros Hls Hr Hc H. remember (spawn w (map serve ls)) as c0 eqn:E0.
  revert ls b w Hls Hr Hc E0. induction H as [c|c c1 c2 [i Hs] _ IH]; intros ls b w Hls Hr Hc ->.
  { exists [], ls, []. cbn. rewrite app_nil_r. by split_and!; [constructor|..]. }
  assert (exists e l, ls !! i = Some (e :: l)) as (e0 & l0 & Hi0).
  { destruct Hs as (k & _ & _ & Hk & _). cbn [threads spawn] in Hk.
    apply list_lookup_fmap_Some_1 in Hk as ([|e l] & Hk & Hi); [done|]. by exists e, l. }
  pose proof (concat_take_one ls i e0 l0 Hi0) as Hlen.
  destruct (section_takes ls b w i c1) as (e & l & w1 & sent & Hi & He & Hlk & -> & Hr1 & Et & Hp);
    [done|done|lia|done|]. rewrite Hi in Hi0. injection Hi0 as <- <-.
  pose proof (Broker.next_id_step e b) as Hn.
  destruct (IH (<[i := l]> ls) (Broker.step e b).1 w1) as (es & rest & outs & Ht & Ec & Hr2 & Et2 & Hp2);
    [|done|lia|done|].
  { apply Forall_insert; [done|]. pose proof (Forall_lookup_1 _ _ _ _ Hls Hi) as Hl.
    by inversion_clear Hl. }
  exists (e :: es), rest, (sent :: outs). split; [by eapply takes_one|]. split; [done|].
  cbn [Broker.run]. destruct (Broker.step e b) as [b1 out]. cbn [fst snd] in *.
  destruct (Broker.run es b1) as [b2 outs2]. cbn [fst snd] in *. split; [done|].
  split; [by rewrite Et2, Et, <- app_assoc|]. by constructor.
Qed.

Lemma takes_forall (P : Broker.event -> Prop) ls es rest :
  takes ls es rest -> Forall (Forall P) ls -> Forall (Forall P) rest.
Proof.
  induction 1 as [ls|i e l ls es rest Hi _ IH]; intros Hls; [done|]. apply IH.
  apply Forall_insert; [done|]. pose proof (Forall_lookup_1 _ _ _ _ Hls Hi) as Hl.
  by inversion_clear Hl.
Qed.

(** Threads that are done have served all their events. *)
Lemma all_served rest :
  Forall (Forall (fun e => ok e /\ locks e)) rest -> Forall is_done (map serve rest) ->
  concat rest = [].
Proof.
  induction rest as [|l rest IH]; intros Hls Hd; [done|].
  inversion_clear Hls as [|? ? Hl Hls']. inversion_clear Hd as [|? ? Hdl Hd'].
  cbn [concat]. rewrite IH, app_nil_r by done. destruct l as [|e l]; [done|].
  inversion_clear Hl as [|? ? [He Hlk] _]. unfold serve in Hdl. cbn [prog_for] in Hdl.
  by destruct (handler_locked e He Hlk) as (p & m & E & _); rewrite E in Hdl.
Qed.

Lemma takes_length ls es rest :
  takes ls es rest -> length (concat ls) = (length es + length (concat rest))%nat.
Proof.
  induction 1 as [ls|i e l ls es rest Hi _ IH]; [done|]. cbn [length].
  rewrite (concat_take_one ls i e l Hi), IH. lia.
Qed.
End threads.

(** * Properties *)

(** C5: The relay's threads implement the broker: any number of threads each serve a
    sequence of subscribe messages and lost connections, at once and access by
    access.  At every moment at which the mutex is free the relay's state is that
    of the broker after the events served so far, in an order that keeps each
    thread's, and what was sent is what the broker answers to them. *)
Theorem relay_threads_implement_broker {Tr : ITransport} ls b w c :
  Forall (Forall (fun e => ok e /\ locks e)) ls -> represents b w ->
  Broker.next_id b + Z.of_nat (length (concat ls)) < 2 ^ 64 ->
  rtc moves (spawn w (map serve ls)) c -> owner c = None ->
  exists es rest outs, takes ls es rest /\ threads c = map serve rest /\
    represents (Broker.run es b).1 (memory c) /\
    tx (memory c).1 = tx w.1 ++ concat outs /\ Forall2 Permutation outs (Broker.run es b).2 /\
    (Forall is_done (threads c) -> length es = length (concat ls)).
Proof.
  intros Hls Hr Hc Hm Ho.
  assert (disciplined always True (fun _ => inside) (spawn w (map serve ls))) as Hd.
  { apply disciplined_start; [done|]. intros i p Hp. apply list_lookup_fmap_Some_1 in Hp as (l & -> & Hi).
    apply follows_for_elem. pose proof (Forall_lookup_1 _ _ _ _ Hls Hi) as Hl.
    intros e He. apply (proj1 (list.Forall_forall _ _) Hl) in He as []. by apply handler_follows. }
  pose proof (serializable True (spawn w (map serve ls)) c eq_refl Hd Hm) as Hw. unfold on_the_way in Hw. rewrite Ho in Hw.
  destruct (sections_take ls b w c Hls Hr Hc Hw) as (es & rest & outs & Ht & Ec & H).
  exists es, rest, outs. assert (threads c = map serve rest) as Et by (by rewrite Ec).
  split; [done|]. split; [done|]. destruct H as (H1 & H2 & H3). split_and!; [done..|].
  intros Hdone. rewrite (takes_length _ _ _ Ht), (all_served rest); [cbn; lia| |].
  - by apply (takes_forall _ ls es).
  - by rewrite <- Et.
Qed.

(** Two threads: one serves connection 7, which subscribes and is lost, the other
    connection 8, which subscribes in between. *)
Definition demo_work : list (list Broker.event) :=
  [[Broker.Subscribes 7 9 demo_subscribe; Broker.Disconnects 7];
   [Broker.Subscribes 8 9 demo_subscribe]].

Lemma relay_threads_implement_broker_witness :
  let c0 := spawn fresh (map (serve (Tr := FakeTransport)) demo_work) in
  let c := default c0 (exec (repeat 0%nat 13 ++ repeat 1%nat 13 ++ repeat 0%nat 14) c0) in
  exists es rest outs, takes demo_work es rest /\ threads c = map (serve (Tr := FakeTransport)) rest /\
    represents (Broker.run es Broker.empty).1 (memory c) /\
    tx (memory c).1 = [] ++ concat outs /\
    Forall2 Permutation outs (Broker.run es Broker.empty).2 /\
    (Forall is_done (threads c) -> length es = 3%nat).
Proof.
  intros c0 c.
  apply (relay_threads_implement_broker (Tr := FakeTransport) demo_work Broker.empty fresh c).
  - repeat apply Forall_cons_2; try done; by apply ok_demo_subscribe.
  - apply represents_init.
  - vm_compute. congruence.
  - apply exec_reaches. vm_compute. reflexivity.
  - vm_compute. reflexivity.
Defined.

End ConcurrentRelay.
