(* ===== verification/System.v ===== *)
(** * Clients, relay and network together

    The state of a whole deployment: clients (each a process of its own, without
    the sharing of [Process]), the relay of cmd/really with its server, and the
    data on the way.  An [Action] is a call an application makes, a packet the
    network carries or a callback of a transport; [perform] runs it.  The network may lose, repeat and reorder
    packets, as datagrams do: it carries any packet ever sent, any number of
    times.  It invents none.

    [published] and [asked] record what the applications did; no code reads
    them. *)

From S2P Require Export Fragments Really.
#[local] Existing Instance ReallyServer.delegate.

(** A client process. *)
Record Endpoint := mkEndpoint {
  client : QuicRClient.t;
  (** the calls of [subscribe] its application made *)
  asked : list (weak_ptr * Namespace);
}.

Record System := mkSystem {
  endpoints : list Endpoint;
  relay : QuicRServer.world ReallyServer.t;
  (** the calls of [publishNamedObject] *)
  published : list (Name * bytes);
}.

(** ** Actions *)

Inductive Action `{ITransport} :=
  | Publish (i : nat) (n : Name) (data : bytes)
  | Subscribe (i : nat) (d : weak_ptr) (ns : Namespace) (intent : SubscribeIntent.t) (draw : Z)
  | Unsubscribe (i : nat) (ns : Namespace)
  | Announce (i : nat) (d : weak_ptr) (ns : Namespace) (payload : bytes) (draw : Z)
  | Withdraw (i : nat) (ns : Namespace)
  (** the network carries the k-th packet a client sent, or the relay sent *)
  | Up (i k : nat)
  | Down (i k : nat)
  (** callbacks of the transports *)
  | ClientReceives (i : nat)
  | ClientStatus (i : nat) (st : TransportStatus)
  | RelayReceives (context_id stream_id : Z)
  | RelayStatus (context_id : Z) (st : TransportStatus).

Section system.
Context {T : Target} {Tr : ITransport} {App : SubscriberApp}.
(** The context and stream under which the relay sees a client. *)
Context (link : nat -> Z * Z).

(** An operation of a client; [None] when its behaviour is undefined. *)
Definition at_client {A} (i : nat) (m : M QuicRClient.t A) (more : list (weak_ptr * Namespace))
    (y : System) : option System :=
  e ← endpoints y !! i;
  match m (client e) with
  | (Undefined, _) => None
  | (_, c) => Some (mkSystem (<[i := mkEndpoint c (asked e ++ more)]> (endpoints y))
                      (relay y) (published y))
  end.

Definition at_relay (m : M (QuicRServer.world ReallyServer.t) unit) (y : System)
    : option System :=
  match m (relay y) with
  | (Undefined, _) => None
  | (_, w) => Some (mkSystem (endpoints y) w (published y))
  end.

(** Data that arrived at a client, or at the relay. *)
Definition arrive_client (data : bytes) : M QuicRClient.t unit :=
  modify (fun c => QuicRClient.with_io (QuicRClient.rx c ++ [data]) (QuicRClient.tx c)
                     (QuicRClient.events c) c).
Definition arrive_relay (context_id stream_id : Z) (data : bytes)
    : M (QuicRServer.world ReallyServer.t) unit :=
  QuicRServer.on_server (modify (fun s =>
    QuicRServer.with_rx (QuicRServer.rx s ++ [(context_id, stream_id, data)]) s)).

Definition perform (a : Action) (y : System) : option System :=
  match a with
  | Publish i n data =>
      if decide (wf_name n /\ Z.of_nat (length data) < 2 ^ 30) then
        at_client i (QuicRClient.publishNamedObject n data) []
          (mkSystem (endpoints y) (relay y) (published y ++ [(n, data)]))
      else None
  | Subscribe i d ns intent draw =>
      at_client i (QuicRClient.subscribe d ns intent draw) [(d, ns)] y
  | Unsubscribe i ns => at_client i (QuicRClient.unsubscribe ns) [] y
  | Announce i d ns payload draw =>
      at_client i (QuicRClient.publishIntent d ns payload draw) [] y
  | Withdraw i ns => at_client i (QuicRClient.publishIntentEnd ns) [] y
  | Up i k =>
      e ← endpoints y !! i;
      p ← QuicRClient.tx (client e) !! k;
      at_relay (arrive_relay (link i).1 (link i).2 (pkt_data p)) y
  | Down i k =>
      p ← QuicRServer.tx (relay y).1 !! k;
      if pkt_context_id p =? (link i).1
      then at_client i (arrive_client (pkt_data p)) [] y else None
  | ClientReceives i => at_client i QuicRClient.on_recv_notify [] y
  | ClientStatus i st => at_client i (QuicRClient.on_connection_status st) [] y
  | RelayReceives cid sid => at_relay (QuicRServer.on_recv_notify cid sid) y
  | RelayStatus cid st => at_relay (QuicRServer.on_connection_status cid st) y
  end.

Fixpoint exec (acts : list Action) (y : System) : option System :=
  match acts with
  | [] => Some y
  | a :: acts' => y' ← perform a y; exec acts' y'
  end.

(** Clients that have just been made, and a relay that has just been started. *)
Definition fresh_client (c : QuicRClient.t) : Prop :=
  exists np cid sid, is_field sid /\ c = QuicRClient.init np cid sid [] 1.
Definition initial (cs : list QuicRClient.t) : System :=
  mkSystem (map (fun c => mkEndpoint c []) cs) (QuicRServer.init, ReallyServer.init) [].
End system.

(** * Properties *)

(** Two clients; the second announces, the first subscribes, the second
    publishes an object of two packets that overtake each other twice. *)
Definition demo_link (i : nat) : Z * Z := if decide (i = 0%nat) then (7, 9) else (3, 4).
Definition demo_system : System := initial [QuicRClient.demo_client; QuicRClient.demo_client].
Definition demo_schedule {Tr : ITransport} : list Action :=
  [ Announce 1 (Some 5) QuicRClient.demo_ns [] 4; Up 1 0; RelayReceives 3 4; Down 1 0; ClientReceives 1;
    Subscribe 0 (Some 7) QuicRClient.demo_ns SubscribeIntent.immediate 2; Up 0 0; RelayReceives 7 9;
    Down 0 1; ClientReceives 0;
    Publish 1 demo_name demo_data; Up 1 2; Up 1 1; RelayReceives 3 4;
    Down 0 3; Down 0 2; ClientReceives 0 ].
Definition demo_outcome : option System :=
  exec (T := x86_64) (Tr := FakeTransport) (App := QuicRClient.demo_app) demo_link demo_schedule demo_system.

(** C1: an object of more than 1200 bytes and less than 2^30 reaches a subscriber,
    complete and once.  On x86-64 (where the relay's search of its table, which
    shifts by more than 64, is defined), when no transport refuses a packet: a
    connection that was not subscribed to a namespace which contains the name
    subscribes to it at the relay, where the name is announced and was not first
    published from connection 0 and stream 0, and a client publishes the object.
    Whenever all its packets reach the relay, in any order and with repetitions,
    the relay sends packets to the subscriber.  From these, in any order and with
    repetitions, a client that holds no fragment of the name, and whose current
    buffer has room for the name without turning to the next one (fewer than
    4999 names pending), hands the object exactly once to each live delegate whose
    namespace contains the name, at the moment the last missing one arrives. *)
Theorem large_object_reaches_subscriber `{Tr : ITransport} {App : SubscriberApp}
    m n data (c q : QuicRClient.t) rest cid sid cid' sid' s r up :
  wf_name n -> 1200 < Z.of_nat (length data) < 2 ^ 30 ->
  QuicRClient.publish_state c = [] -> is_field (QuicRClient.transport_stream_id c) ->
  (forall x p, enqueue_none x p = true) ->
  QuicRServer.wf s -> Subscriptions.wf (ReallyServer.subscribeList r) -> ok_Subscribe m ->
  QuicRServer.subscriber_id s + 1 < 2 ^ 64 ->
  (forall p, p ∈ QuicRServer.publish_namespaces s -> wf_namespace p.1) ->
  existsb (fun p => within p.1 n) (QuicRServer.publish_namespaces s) = true ->
  QuicRServer.subscription (QuicRServer.subscribe_state s) (sub_namespace m) cid = None ->
  within (sub_namespace m) n = true ->
  (let first := ReallyServer.first_publisher s n cid' sid' in
   (QuicRServer.pc_transport_context_id first, QuicRServer.pc_transport_stream_id first)
   <> (0, 0)) ->
  receiver n q ->
  let sent := drop (length (QuicRClient.tx c))
                (QuicRClient.tx (QuicRClient.publishNamedObject n data c).2) in
  (forall p, p ∈ up -> p ∈ sent) -> (forall p, p ∈ sent -> p ∈ up) ->
  let T := x86_64 in
  exists s1 r1 s2 out,
    QuicRServer.dispatch cid sid (encoded (put_Subscribe m) ++ rest) (s, r)
    = (Ret tt, (s1, r1)) /\
    mfor (map pkt_data up) (QuicRServer.dispatch cid' sid') (s1, r1) = (Ret tt, (s2, r1)) /\
    QuicRServer.tx s2 = QuicRServer.tx s1 ++ out /\
    forall order last,
      (forall x, x ∈ order ++ [last] -> mkPacket cid sid x ∈ out) -> last ∉ order ->
      (forall x, mkPacket cid sid x ∈ out -> x ∈ order ++ [last]) ->
      (exists b, mfor order QuicRClient.handle q
        = (Ret tt, QuicRClient.with_fragments b (QuicRClient.cindex q) q)) /\
      mfor (order ++ [last]) QuicRClient.handle q
      = (Ret tt, QuicRClient.emit (QuicRClient.copied_calls
                   (QuicRClient.receivers (QuicRClient.sub_delegates q) n) n data)
                   (QuicRClient.with_fragments (touched q) (QuicRClient.cindex q) q)).
Proof.
  intros Hn Hdata Hp Hsid Hacc Hw Hl Hm Hc Hns Hin Hnone Hwithin Hfirst Hq. cbv zeta.
  rewrite (publishNamedObject_run n Hn _ Hsid data c Hp eq_refl) by lia.
  rewrite (send_all _ _ Hacc). cbn [fst snd QuicRClient.tx QuicRClient.with_io].
  rewrite drop_app_length. intros Hup Hall.
  set (stream := QuicRClient.transport_stream_id c) in *.
  set (ctx := QuicRClient.transport_context_id c) in *.
  destruct (ReallyServer.subscribe_serves m rest cid sid cid' sid' n s r)
    as (s1 & r1 & E1 & _ & Hs1); [done..|].
  destruct (messages_of n stream data (map pkt_data up)) as (l & El & Hlf).
  { intros x Hx. apply list_elem_of_fmap in Hx as (p & -> & Hpx).
    by eapply object_packets_messages, Hup. }
  destruct (ReallyServer.serves_publish_all n cid sid cid' sid' s1 r1
    (map (to_datagram n stream) l) Hs1) as (s2 & out & E2 & Et & Hsent & Hout).
  { intros d Hd. apply list_elem_of_fmap in Hd as (f & -> & Hf). split; [|done].
    by eapply object_fragment_ok; eauto. }
  rewrite map_map in E2. fold (message_of n stream) in E2.
  exists s1, r1, s2, out. split; [exact E1|]. split; [rewrite El; exact E2|]. split; [exact Et|].
  assert (forall x, mkPacket cid sid x ∈ out <-> x ∈ object_messages n stream data) as Hmsgs.
  { intros x. split.
    - intros Hx. destruct (Hout _ Hx) as (d & Hd & E). cbn [pkt_data] in E. subst x.
      apply list_elem_of_fmap in Hd as (f & -> & Hf).
      by apply (list_elem_of_fmap_2 (message_of n stream)), Hlf.
    - intros Hx. pose proof (object_messages_packets n stream data ctx x Hx) as Hpx.
      apply Hall, (list_elem_of_fmap_2 pkt_data) in Hpx.
      change (x ∈ map pkt_data up) in Hpx. rewrite El in Hpx.
      apply list_elem_of_fmap in Hpx as (f & -> & Hf).
      by apply Hsent, list_elem_of_fmap_2. }
  intros order last Hord Hnew Hcover.
  apply (messages_arrive (T := x86_64) n Hn stream Hsid data Hdata q); [done| | |done|].
  - intros x Hx. apply Hmsgs, Hord, elem_of_app. by left.
  - apply Hmsgs, Hord, elem_of_app. right. by left.
  - intros x Hx. by apply Hcover, Hmsgs.
Qed.

Lemma large_object_reaches_subscriber_witness :
  let Tr := FakeTransport in let App := QuicRClient.demo_app in let T := x86_64 in
  exists s1 r1 s2 out,
    QuicRServer.dispatch 7 9 (encoded (put_Subscribe QuicRServer.demo_subscribe) ++ [])
      (QuicRServer.demo_announced, ReallyServer.init) = (Ret tt, (s1, r1)) /\
    mfor (map pkt_data [demo_second; demo_first; demo_second]) (QuicRServer.dispatch 3 4) (s1, r1)
    = (Ret tt, (s2, r1)) /\
    QuicRServer.tx s2 = QuicRServer.tx s1 ++ out /\
    forall order last,
      (forall x, x ∈ order ++ [last] -> mkPacket 7 9 x ∈ out) -> last ∉ order ->
      (forall x, mkPacket 7 9 x ∈ out -> x ∈ order ++ [last]) ->
      (exists b, mfor order QuicRClient.handle demo_receiver
        = (Ret tt, QuicRClient.with_fragments b 1 demo_receiver)) /\
      mfor (order ++ [last]) QuicRClient.handle demo_receiver
      = (Ret tt, QuicRClient.emit
                   [QuicRClient.onSubscribedObject 7 demo_name 0 0 false demo_data]
                   (QuicRClient.with_fragments (touched demo_receiver) 1 demo_receiver)).
Proof.
  intros Tr App T.
  assert (drop (length (QuicRClient.tx QuicRClient.demo_client))
    (QuicRClient.tx (QuicRClient.publishNamedObject (Tr := FakeTransport) demo_name demo_data
      QuicRClient.demo_client).2) = [demo_first; demo_second]) as E.
  { vm_compute. reflexivity. }
  apply (large_object_reaches_subscriber (Tr := FakeTransport) (App := QuicRClient.demo_app)
    QuicRServer.demo_subscribe demo_name demo_data QuicRClient.demo_client demo_receiver []
    7 9 3 4 QuicRServer.demo_announced ReallyServer.init [demo_second; demo_first; demo_second]).
  - repeat split; vm_compute; congruence.
  - vm_compute. split; reflexivity.
  - reflexivity.
  - split; vm_compute; congruence.
  - reflexivity.
  - apply QuicRServer.demo_announced_wf.
  - apply Subscriptions.table_wf_init.
  - apply QuicRServer.ok_demo_subscribe.
  - reflexivity.
  - apply QuicRServer.demo_announced_namespaces.
  - reflexivity.
  - reflexivity.
  - reflexivity.
  - discriminate.
  - apply demo_receiver_ok.
  - intros p. rewrite E, !elem_of_cons, elem_of_nil. tauto.
  - intros p. rewrite E, !elem_of_cons, elem_of_nil. tauto.
Defined.
