(* ===== verification/Integrity.v ===== *)
(** * What the network delivers is what was published

    An invariant of [System]: every message that publishes something, whether
    a client or the relay sent it or is about to read it, carries a fragment of
    an object an application published under that name; so do the reassembly
    stores.  Each operation of the client and of the relay keeps it. *)

From S2P Require Export System.
#[local] Existing Instance ReallyServer.delegate.

(** * Where objects come from *)

(** Computations that only add to a buffer. *)
Definition extends (m : Buf unit) : Prop := forall b, exists r, (m b).2 = b ++ r.

Lemma extends_bind m (f : unit -> Buf unit) :
  extends m -> (forall u, extends (f u)) -> extends (m ≫= f).
Proof.
  intros Hm Hf b. unfold mbind, M_bind. destruct (Hm b) as [r E].
  destruct (m b) as [[u|e|] b']; simpl in *; subst b'; [|by exists r..].
  destruct (Hf u (b ++ r)) as [r' ->]. exists (r ++ r'). by rewrite app_assoc.
Qed.
Lemma extends_lift {A} (x : result A) (f : A -> Buf unit) :
  (forall a, extends (f a)) -> extends (lift x ≫= f).
Proof. intros Hf b. destruct x as [a|e|]; [apply (Hf a b)|exists []; by rewrite app_nil_r..]. Qed.
Lemma extends_ret : extends (mret tt).
Proof. intros b. exists []. by rewrite app_nil_r. Qed.
Lemma extends_append w : extends (modify (fun b => b ++ w)).
Proof. intros b. by exists w. Qed.

(** What a writer that starts with a type byte produces starts with it. *)
Lemma serialize_tagged t0 m w :
  (forall u, extends (m u)) -> serialize (put_u8 (enum_to_u8 (t0 : MessageType.t)) ≫= m) = Ret w ->
  exists r, w = enum_to_u8 t0 :: r.
Proof.
  intros Hm. unfold serialize. cbv [mbind M_bind]. destruct (Hm tt [enum_to_u8 t0]) as [r E].
  change (put_u8 (enum_to_u8 t0) []) with (Ret tt, [enum_to_u8 t0]). cbv iota beta.
  destruct (m tt [enum_to_u8 t0]) as [[[]|e|] b]; [|done..]. simpl in E. subst b.
  intros [= <-]. by exists r.
Qed.

Section extends.
Context {T : Target}.
Lemma extends_put_uint sz x : extends (put_uint sz x).
Proof. apply extends_append. Qed.
Lemma extends_put_u8 x : extends (put_u8 x).
Proof. apply extends_append. Qed.
End extends.

(** [extends_steps] follows a writer, one bind at a time. *)
Create HintDb extends.
#[export] Hint Resolve extends_ret : extends.
Ltac extends_step :=
  lazymatch goal with
  | |- extends (lift _ ≫= _) => apply extends_lift; intros ?
  | |- extends (_ ≫= _) => apply extends_bind; [|intros ?]
  | |- extends (if ?b then _ else _) => destruct b
  | |- extends (put_u8 _) => apply extends_put_u8
  | |- extends (put_uint _ _) => apply extends_put_uint
  | |- extends (push _) => apply extends_append
  | |- extends (push_vector _) => apply extends_append
  | |- extends _ => auto with extends nocore
  end.
Ltac extends_steps := repeat extends_step.

Section extends_more.
Context {T : Target}.
Lemma extends_put_uintVar x : extends (put_uintVar x).
Proof. unfold put_uintVar. extends_steps. Qed.
Lemma extends_put_vector d : extends (put_vector d).
Proof. pose proof extends_put_uintVar. unfold put_vector. extends_steps. Qed.
Lemma extends_put_Name n : extends (put_Name n).
Proof.
  unfold put_Name. generalize (Z.to_nat sizeof_Name). intros i.
  induction i; cbn [put_Name_loop]; extends_steps.
Qed.
Lemma extends_put_Namespace ns : extends (put_Namespace ns).
Proof. pose proof extends_put_Name. unfold put_Namespace. extends_steps. Qed.
End extends_more.
#[export] Hint Resolve extends_put_uintVar extends_put_vector extends_put_Namespace : extends.

(** ** Membership in the maps of the store *)

Section membership.
Context {K V : Type} `{StrictWeakOrder K} `{!LessTotal K}.
Implicit Types (m : list (K * V)) (k : K).

Lemma elem_insert_total o m k v p :
  p ∈ insert_node o m k v -> p ∈ m \/ p = (k, v).
Proof.
  induction m as [|[k0 v0] m IH]; simpl.
  { rewrite elem_of_cons, elem_of_nil. tauto. }
  destruct (less k k0) eqn:E1; [|destruct (less k0 k) eqn:E2].
  - rewrite !elem_of_cons. tauto.
  - rewrite !elem_of_cons. intros [->|Hp]; [tauto|]. destruct (IH Hp); tauto.
  - assert (k = k0) as -> by (apply equiv_key_eq, equiv_key_spec; done).
    destruct o; rewrite !elem_of_cons; tauto.
Qed.

Lemma elem_subscript_total m k d p :
  p ∈ (subscript m k d).2 -> p ∈ m \/ p = (k, d).
Proof.
  unfold subscript. destruct (find m k) as [[k0 v]|]; [by left|]. apply elem_insert_total.
Qed.

Lemma subscript_member m k d :
  (subscript m k d).1 = d \/ (k, (subscript m k d).1) ∈ m.
Proof.
  unfold subscript. destruct (find m k) as [[k0 v]|] eqn:E; [right|by left]. simpl.
  pose proof (find_key_equiv m k k0 v E) as Hk. apply equiv_key_eq in Hk as <-.
  by apply (find_elem m k).
Qed.

Lemma find_member m k k0 v : find m k = Some (k0, v) -> k0 = k /\ (k, v) ∈ m.
Proof.
  intros E. pose proof (find_key_equiv m k k0 v E) as Hk. apply equiv_key_eq in Hk as <-.
  split; [done|]. by apply (find_elem m k).
Qed.
End membership.

Lemma search_member fs n i n' m :
  QuicRClient.search_buffers fs n = Some (i, (n', m)) ->
  n' = n /\ exists b, (i, b) ∈ fs /\ (n, m) ∈ b.
Proof.
  induction fs as [|[j b] fs IH]; [done|]. cbn [QuicRClient.search_buffers].
  destruct (find b n) as [[n0 m0]|] eqn:E.
  - intros [= -> -> ->]. apply find_member in E as [-> Hm]. split; [done|].
    exists b. split; [by left|done].
  - intros Hs. destruct (IH Hs) as (-> & b' & Hb & Hm). split; [done|].
    exists b'. split; [by right|done].
Qed.

(** What every fragment in the store satisfies is kept by the updates. *)
Section store.
Context (P : Name -> Z * bytes -> Prop).

Definition ok_fragments (n : Name) (m : QuicRClient.frag_map) : Prop :=
  sorted m /\ forall p, p ∈ m -> P n p.
Definition ok_contents (b : QuicRClient.frag_buffer) : Prop :=
  forall n m, (n, m) ∈ b -> ok_fragments n m.
Definition ok_buffers (fs : list (Z * QuicRClient.frag_buffer)) : Prop :=
  forall i b, (i, b) ∈ fs -> ok_contents b.

Lemma ok_fragments_nil n : ok_fragments n [].
Proof. split; [constructor|]. intros p Hp. by apply not_elem_of_nil in Hp. Qed.
Lemma ok_contents_nil : ok_contents [].
Proof. intros n m Hp. by apply not_elem_of_nil in Hp. Qed.

Lemma ok_fragments_emplace n m k v :
  ok_fragments n m -> P n (k, v) -> ok_fragments n (emplace m k v).
Proof.
  intros [Hs Hm] Hp. split; [by apply sorted_insert_node|].
  intros p [H| ->]%elem_insert_total; [by apply Hm|done].
Qed.

Lemma ok_contents_assign b n m : ok_contents b -> ok_fragments n m -> ok_contents (assign b n m).
Proof. intros Hb Hm n' m' [H|[= -> ->]]%elem_insert_total; [by apply Hb|done]. Qed.
Lemma ok_contents_erase b n : ok_contents b -> ok_contents (erase b n).
Proof. intros Hb n' m' H%erase_sub. by apply Hb. Qed.
Lemma ok_buffers_assign fs i b : ok_buffers fs -> ok_contents b -> ok_buffers (assign fs i b).
Proof. intros Hf Hb j b' [H|[= -> ->]]%elem_insert_total; [by apply (Hf j)|done]. Qed.
Lemma ok_buffers_erase fs i : ok_buffers fs -> ok_buffers (erase fs i).
Proof. intros Hf j b' H%erase_sub. by apply (Hf j). Qed.

Lemma ok_buffers_subscript fs i :
  ok_buffers fs -> ok_contents (subscript fs i []).1 /\ ok_buffers (subscript fs i []).2.
Proof.
  intros Hf. split.
  - destruct (subscript_member fs i []) as [->|H]; [apply ok_contents_nil|by apply (Hf i)].
  - intros j b [H|[= -> ->]]%elem_subscript_total; [by apply (Hf j)|apply ok_contents_nil].
Qed.
Lemma ok_contents_subscript b n :
  ok_contents b -> ok_fragments n (subscript b n []).1 /\ ok_contents (subscript b n []).2.
Proof.
  intros Hb. split.
  - destruct (subscript_member b n []) as [->|H]; [apply ok_fragments_nil|by apply Hb].
  - intros n' m [H|[= -> ->]]%elem_subscript_total; [by apply Hb|apply ok_fragments_nil].
Qed.
End store.

Section log.
Context (log : list (Name * bytes)).

(** A fragment of an object that was published under the name. *)
Definition fragment_of (n : Name) (f : Z * bytes) : Prop :=
  exists obj, (n, obj) ∈ log /\ f ∈ object_fragments obj.

(** A message that publishes nothing but such fragments. *)
Definition genuine (msg : bytes) : Prop :=
  forall front rest, msg = front :: rest ->
  (enum_of_u8 front : MessageType.t) = MessageType.Publish ->
  exists n f sid, fragment_of n f /\ is_field sid /\
    msg = PublishDatagram_wire (to_datagram n sid f).

(** Data put together from such fragments. *)
Definition assembled (n : Name) (data : bytes) : Prop :=
  exists m, sorted m /\ odd_last m = true /\ (forall p, p ∈ m -> fragment_of n p) /\
    QuicRClient.reassemble m 0 [] = Ret (Some data).

(** What a delegate may be given under a name: the object, or nothing, when a
    delegate before it took the data. *)
Definition deliverable (n : Name) (data : bytes) : Prop :=
  (exists obj, (n, obj) ∈ log) /\ (data = [] \/ (n, data) ∈ log \/ assembled n data).

(** An object may be handed to a delegate whose application asked for its
    name. *)
Definition rightful {T : Target} (ask : list (weak_ptr * Namespace)) (e : QuicRClient.Event)
    : Prop :=
  match e with
  | QuicRClient.onSubscribedObject d n _ _ _ data =>
      deliverable n data /\
      exists ns, (Some d, ns) ∈ ask /\ contains ns n = Ret true
  | _ => True
  end.

Lemma genuine_tagged t0 r : t0 <> MessageType.Publish -> wf_enum t0 -> genuine (enum_to_u8 t0 :: r).
Proof. intros Hne Ht front rest [= <- <-] E. by rewrite (enum_roundtrip t0 Ht) in E. Qed.

Lemma genuine_written t0 m w :
  t0 <> MessageType.Publish -> wf_enum t0 -> (forall u, extends (m u)) ->
  serialize (put_u8 (enum_to_u8 t0) ≫= m) = Ret w -> genuine w.
Proof.
  intros Hne Ht Hm E. destruct (serialize_tagged t0 m w Hm E) as [r ->].
  by apply genuine_tagged.
Qed.

Lemma genuine_datagram n f sid :
  fragment_of n f -> is_field sid -> genuine (PublishDatagram_wire (to_datagram n sid f)).
Proof. intros Hf Hsid front rest _ _. by exists n, f, sid. Qed.
End log.

(** Publishing more makes nothing less genuine. *)
Lemma fragment_of_app l l' n f : fragment_of l n f -> fragment_of (l ++ l') n f.
Proof. intros (obj & H & Hf). exists obj. split; [apply elem_of_app; by left|done]. Qed.
Lemma genuine_app l l' msg : genuine l msg -> genuine (l ++ l') msg.
Proof.
  intros H front rest E Ep. destruct (H front rest E Ep) as (n & f & sid & Hf & ? & ?).
  exists n, f, sid. split; [by apply fragment_of_app|done].
Qed.
Lemma rightful_app {T : Target} l l' ask ask' e :
  rightful l ask e -> rightful (l ++ l') (ask ++ ask') e.
Proof.
  destruct e; try done. simpl. intros [[[obj Ho] Hd] (ns & Ha & Hc)]. split; [split|].
  - exists obj. apply elem_of_app. by left.
  - destruct Hd as [Hd|[Hd|(m & ? & ? & Hm & ?)]]; [by left|right; left; apply elem_of_app; by left|].
    right. right. exists m. split_and!; try done. intros p Hp. by apply fragment_of_app, Hm.
  - exists ns. split; [apply elem_of_app; by left|done].
Qed.

(** Objects that can be published: what [perform] asks of an application. *)
Definition publishable (log : list (Name * bytes)) : Prop :=
  forall n obj, (n, obj) ∈ log -> wf_name n /\ Z.of_nat (length obj) < 2 ^ 30.

(** ** The invariant of a client *)

Record faithful {T : Target} (log : list (Name * bytes)) (ask : list (weak_ptr * Namespace))
    (c : QuicRClient.t) : Prop := {
  faithful_sorted : sorted (QuicRClient.sub_delegates c);
  faithful_publish : QuicRClient.publish_state c = [];
  faithful_stream : is_field (QuicRClient.transport_stream_id c);
  faithful_delegates ns d : (ns, Some d) ∈ QuicRClient.sub_delegates c -> (Some d, ns) ∈ ask;
  faithful_store : ok_buffers (fragment_of log) (QuicRClient.fragments c);
  faithful_rx msg : msg ∈ QuicRClient.rx c -> genuine log msg;
  faithful_tx p : p ∈ QuicRClient.tx c -> genuine log (pkt_data p);
  faithful_events e : e ∈ QuicRClient.events c -> rightful log ask e;
}.

Lemma faithful_app {T : Target} l l' ask ask' c :
  faithful l ask c -> faithful (l ++ l') (ask ++ ask') c.
Proof.
  intros [Hs Hp Hsid Hd Hst Hrx Htx Hev]. split; try done.
  - intros ns d H. apply elem_of_app. left. by apply Hd.
  - intros i b Hb n m Hm. destruct (Hst i b Hb n m Hm) as [Hsort Hf].
    split; [done|]. intros p H. by apply fragment_of_app, Hf.
  - intros msg H. by apply genuine_app, Hrx.
  - intros p H. by apply genuine_app, Htx.
  - intros e H. by apply rightful_app, Hev.
Qed.

Lemma elem_insert_new {K V} `{Less K} o (m : list (K * V)) k v p :
  contains_key m k = false -> p ∈ insert_node o m k v -> p ∈ m \/ p = (k, v).
Proof.
  unfold contains_key. induction m as [|[k0 v0] m IH]; simpl; intros Hk.
  { rewrite elem_of_cons, elem_of_nil. tauto. }
  unfold equiv_key in Hk. destruct (less k k0); [|destruct (less k0 k)]; simpl in Hk; [..|done];
    rewrite !elem_of_cons; [tauto|]. intros [->|Hp]; [tauto|]. destruct (IH Hk Hp); tauto.
Qed.

Lemma send_members `{ITransport} ps x p : p ∈ (send ps x).1 -> p ∈ x \/ p ∈ ps.
Proof.
  revert x. induction ps as [|q ps IH]; intros x; simpl; [by left|].
  destruct (enqueue_none x q); simpl.
  - intros Hp%IH. rewrite elem_of_app, !elem_of_cons, elem_of_nil in *. tauto.
  - rewrite elem_of_app, !elem_of_cons, elem_of_nil. tauto.
Qed.

(** * The client hands on only what it got *)

Section client.
Import QuicRClient.
Context {T : Target} {HLE : LittleEndian (T := T)} {Tr : ITransport} {App : SubscriberApp}.
Context (log : list (Name * bytes)) (ask : list (weak_ptr * Namespace)).
Context (Hlog : publishable log).
Local Abbreviation J := (faithful log ask).
Implicit Types (c : QuicRClient.t).

Lemma J_emit ev c : J c -> (forall e, e ∈ ev -> rightful log ask e) -> J (emit ev c).
Proof.
  intros [] He. split; try done. simpl. intros e [H|H]%elem_of_app; auto.
Qed.
Lemma J_fragments fs i c : J c -> ok_buffers (fragment_of log) fs -> J (with_fragments fs i c).
Proof. intros [] Hf. by split. Qed.

Lemma J_enqueue cid sid data : genuine log data -> preserves J (enqueue cid sid data) anything.
Proof.
  intros Hd c [] _. split; [|done]. split; try done. simpl.
  intros p [Hp|Hp]%elem_of_app; [by auto|]. apply list_elem_of_singleton in Hp as ->. done.
Qed.
Lemma J_notify e : rightful log ask e -> preserves J (notify e) anything.
Proof.
  intros He c Hc _. split; [|done]. apply (J_emit [e]); [done|].
  intros e' H. by apply list_elem_of_singleton in H as ->.
Qed.
Lemma J_dequeue :
  preserves J dequeue (fun o => match o with Some msg => genuine log msg | None => True end).
Proof.
  intros c Hc _. pose proof Hc as []. unfold dequeue. destruct (rx c) as [|msg r] eqn:E.
  - split; [done|]. by intros ? [= <-].
  - split.
    + split; try done. simpl. intros x Hx. apply faithful_rx0. by right.
    + intros ? [= <-]. apply faithful_rx0. by left.
Qed.
Lemma J_lock_sub ns : preserves J (lock_sub ns) anything.
Proof.
  intros c [] _. unfold lock_sub.
  pose proof (sorted_subscript (sub_delegates c) ns None faithful_sorted0) as Hs.
  pose proof (fun p => elem_subscript (sub_delegates c) ns None p faithful_sorted0) as Hm.
  destruct (subscript (sub_delegates c) ns None) as [w m]. simpl in *. split; [|done].
  split; try done. simpl. intros ns' d Hin. destruct (Hm _ Hin) as [H|[H _]]; [auto|done].
Qed.
Lemma J_lock_pub ns : preserves J (lock_pub ns) anything.
Proof.
  intros c [] _. unfold lock_pub. destruct (subscript _ _ _) as [w m]. split; [|done]. by split.
Qed.
Lemma J_gets {A} (f : t -> A) : preserves J (gets f) (fun a => exists c, J c /\ a = f c).
Proof. apply preserves_gets. by eauto. Qed.
Lemma J_lift {A} (r : result A) : preserves J (lift r) anything.
Proof. by apply preserves_lift. Qed.
Lemma J_local {S A} (s : S) (m : M S A) : preserves J (on_local s m) anything.
Proof. by apply preserves_on_local. Qed.
Lemma J_serialize m :
  (forall w, serialize m = Ret w -> genuine log w) -> preserves J (lift (serialize m)) (genuine log).
Proof. intros H. by apply preserves_lift. Qed.
Lemma J_pub_delegates m : preserves J (modify (with_pub_delegates m)) anything.
Proof. apply preserves_modify; [|done]. intros c []. by split. Qed.
Lemma J_subscribe_state m : preserves J (modify (with_subscribe_state m)) anything.
Proof. apply preserves_modify; [|done]. intros c []. by split. Qed.
Lemma J_new_delegate c0 ns d :
  J c0 -> (d, ns) ∈ ask -> contains_key (sub_delegates c0) ns = false ->
  preserves J (modify (with_sub_delegates (assign (sub_delegates c0) ns d))) anything.
Proof.
  intros H0 Ha Hn. apply preserves_modify; [|done]. intros c []. split; try done.
  - simpl. apply sorted_insert_node, H0.
  - simpl. intros ns' d' [H|[= -> <-]]%elem_insert_new; [by apply H0|done..].
Qed.
Lemma J_erase_delegate ns :
  preserves J (modify (fun c => with_sub_delegates (erase (sub_delegates c) ns) c)) anything.
Proof.
  apply preserves_modify; [|done]. intros c []. split; try done.
  - by apply sorted_erase.
  - simpl. intros ns' d H%erase_sub. auto.
Qed.
Lemma J_ret {A} (a : A) : preserves J (mret a) anything.
Proof. by apply preserves_ret. Qed.

(** ** Delivery *)

Lemma J_deliver e n data c :
  J c -> e ∈ sub_delegates c -> deliverable log n data ->
  J (deliver e n data c).2 /\ sub_delegates (deliver e n data c).2 = sub_delegates c.
Proof.
  intros Hc He Hd. rewrite deliver_run by (done || apply Hc).
  destruct (contains e.1 n) as [[]|x|] eqn:Ec; [|done..].
  split; [|done]. apply J_emit; [done|]. intros ev. unfold object_events, lock.
  destruct e as [ns [d|]]; simpl in *; [|by intros ?%not_elem_of_nil].
  destruct (alive d); [|by intros ?%not_elem_of_nil].
  intros ->%list_elem_of_singleton. split; [done|]. exists ns. split; [|done].
  by apply (faithful_delegates _ _ _ Hc).
Qed.

Lemma J_deliver_moving l n data c :
  J c -> (forall e, e ∈ l -> e ∈ sub_delegates c) -> deliverable log n data ->
  J (deliver_moving l n data c).2.
Proof.
  revert data c. induction l as [|e l IH]; intros data c Hc Hl Hd; [done|].
  cbn [deliver_moving]. destruct (J_deliver e n data c Hc (Hl e ltac:(by left)) Hd) as [Hc' E].
  unfold mbind, M_bind. destruct (deliver e n data c) as [[moved|x|] c']; [|done..].
  cbn [snd] in *. apply IH; [done| |].
  - intros e' He'. rewrite E. apply Hl. by right.
  - destruct Hd as [Ho Hd]. split; [done|]. destruct moved; [by left|done].
Qed.

Lemma J_deliver_copies l n data c :
  J c -> (forall e, e ∈ l -> e ∈ sub_delegates c) -> deliverable log n data ->
  J (mfor l (fun e => deliver e n data;; mret tt) c).2.
Proof.
  revert c. induction l as [|e l IH]; intros c Hc Hl Hd; [done|].
  cbn [mfor]. destruct (J_deliver e n data c Hc (Hl e ltac:(by left)) Hd) as [Hc' E].
  unfold mbind, M_bind. destruct (deliver e n data c) as [[moved|x|] c']; [|done..].
  cbn [snd] in *. apply IH; [done| |done]. intros e' He'. rewrite E. apply Hl. by right.
Qed.

Lemma J_notify_pub_fragment d m :
  ok_fragments (fragment_of log) (name (header d)) m -> preserves J (notify_pub_fragment d m) anything.
Proof.
  intros [Hs Hm] c Hc _. split; [|done]. unfold notify_pub_fragment.
  assert (odd_last m = match rbegin m with Some (key, _) => Z.land key 1 =? 1 | None => false end)
    as Eo by done.
  destruct (rbegin m) as [[key x]|] eqn:El; [|done]. rewrite <- Eo. unfold rbegin in El.
  destruct (odd_last m) eqn:Ho; [|done]. cbn [negb]. unfold mbind, M_bind, lift.
  destruct (reassemble m 0 []) as [[data|]|e|] eqn:Er; [|done..]. cbn [gets].
  pose proof (J_deliver_copies (sub_delegates c) (name (header d)) data c Hc ltac:(done)) as Hj.
  cbv [mbind M_bind] in Hj. cbv beta iota.
  destruct (mfor _ _ c) as [[[]|e|] c'].
  1-3: apply Hj; (split; [|right; right; by exists m]); apply list.last_Some in El as [l ->];
    destruct (Hm (key, x)) as (obj & Hin & _); [apply elem_of_app; right; by left|by exists obj].
Qed.

(** ** Reassembly *)

Lemma J_set_fragments i n m :
  ok_fragments (fragment_of log) n m -> preserves J (set_fragments i n m) anything.
Proof.
  intros Hm. apply preserves_modify; [|done]. intros c Hc.
  pose proof (ok_buffers_subscript _ _ i (faithful_store _ _ _ Hc)) as [Hb Hf].
  destruct (subscript (fragments c) i []) as [buf fs]. apply J_fragments; [done|].
  by apply ok_buffers_assign, ok_contents_assign.
Qed.

Lemma J_erase_fragments i n : preserves J (erase_fragments i n) anything.
Proof.
  apply (preserves_bind J _ _ _ _ (J_gets id)). intros x (c & Hc & ->). unfold id.
  pose proof (ok_buffers_subscript _ _ (wrap_int (cindex c)) (faithful_store _ _ _ Hc)) as [Hb Hf].
  destruct (subscript (fragments c) (wrap_int (cindex c)) []) as [buf fs].
  destruct (i =? wrap_int (cindex c)); [|apply preserves_undefined].
  apply preserves_modify; [|done]. intros c' Hc'. apply J_fragments; [done|].
  by apply ok_buffers_assign, ok_contents_erase.
Qed.

Lemma J_rotate_buffers : preserves J rotate_buffers anything.
Proof.
  apply preserves_modify; [|done]. intros c Hc.
  pose proof (ok_buffers_subscript _ _ (wrap_int (cindex c)) (faithful_store _ _ _ Hc)) as [Hb Hf].
  destruct (subscript (fragments c) (wrap_int (cindex c)) []) as [buf fs].
  destruct (_ <=? _); apply J_fragments; try done. by apply ok_buffers_erase.
Qed.

Definition fragment_in (d : PublishDatagram) : Prop :=
  fragment_of log (name (header d)) (fragment_key d, media_data d).

Lemma J_update_fragments d i m :
  fragment_in d -> ok_fragments (fragment_of log) (name (header d)) m ->
  preserves J (update_fragments d i m) anything.
Proof.
  intros Hd Hm. pose proof (ok_fragments_emplace _ _ _ _ _ Hm Hd) as Hm'.
  unfold update_fragments. eapply preserves_bind; [by apply J_set_fragments|]. intros _ _.
  eapply preserves_bind; [by apply J_notify_pub_fragment|]. intros [] _.
  - apply J_erase_fragments.
  - apply J_ret.
Qed.

Lemma J_handle_pub_fragment d : fragment_in d -> preserves J (handle_pub_fragment d) anything.
Proof.
  intros Hd. unfold handle_pub_fragment. set (n := name (header d)).
  apply (preserves_bind J _ _ _ _ (J_gets id)). intros x (c & Hc & ->). unfold id.
  pose proof (ok_buffers_subscript _ _ (wrap_int (cindex c)) (faithful_store _ _ _ Hc)) as [Hb Hf].
  destruct (subscript (fragments c) (wrap_int (cindex c)) []) as [buf fs]. simpl in Hb, Hf.
  eapply preserves_bind.
  { apply (preserves_modify J _ anything); [|done]. intros c' Hc'. by apply J_fragments. }
  intros _ _. apply (preserves_bind J _ _ anything); [|intros _ _; apply J_rotate_buffers].
  destruct (find buf n) as [[n0 m]|] eqn:E.
  { apply find_member in E as [_ Hm]. apply J_update_fragments; [done|]. by apply Hb. }
  destruct (search_buffers fs n) as [[i [n0 m]]|] eqn:Es.
  { apply search_member in Es as (_ & b & Hi & Hm).
    apply J_update_fragments; [done|]. by apply (Hf i b). }
  pose proof (ok_contents_subscript _ buf n Hb) as [Hm Hb'].
  destruct (subscript buf n []) as [m buf']. simpl in Hm, Hb'.
  apply preserves_modify; [|done]. intros c' Hc'. apply J_fragments; [done|].
  apply ok_buffers_assign, ok_contents_assign; [done..|]. by apply ok_fragments_emplace.
Qed.

(** ** Messages *)

Lemma fragment_ok n f sid :
  fragment_of log n f -> is_field sid ->
  ok_PublishDatagram (to_datagram n sid f) /\ fragment_key (to_datagram n sid f) = f.1 /\
  (f.1 = 1 -> (n, f.2) ∈ log).
Proof.
  intros (obj & Hin & Hf) Hsid. destruct (Hlog n obj Hin) as [Hn Hl].
  destruct (Z.leb_spec (Z.of_nat (length obj)) 1200) as [Hle|Hgt].
  - unfold object_fragments in Hf. rewrite (proj2 (Z.leb_le _ _)) in Hf by done.
    apply list_elem_of_singleton in Hf as ->. split_and!; [|done|done].
    by apply ok_to_datagram.
  - destruct (object_fragment_ok n Hn sid Hsid obj ltac:(lia) f Hf) as [Hok Hne].
    split_and!; [done| |done].
    destruct (object_chunks obj ltac:(lia)) as (Hne' & Htwo & Hb & _ & E). rewrite E in Hf.
    by eapply fragment_key_full; [exact Hne'|exact Htwo|exact Hb|].
Qed.

Lemma genuine_put_Subscribe m w : serialize (put_Subscribe m) = Ret w -> genuine log w.
Proof. apply genuine_written; [done|done|]. intros _. extends_steps. Qed.
Lemma genuine_put_Unsubscribe m w : serialize (put_Unsubscribe m) = Ret w -> genuine log w.
Proof. apply genuine_written; [done|done|]. intros _. extends_steps. Qed.
Lemma genuine_put_PublishIntent x y z a b w :
  serialize (put_PublishIntent (mkPublishIntent MessageType.PublishIntent x y z a b)) = Ret w ->
  genuine log w.
Proof. apply genuine_written; [done|done|]. intros _. extends_steps. Qed.
Lemma genuine_put_PublishIntentEnd x y w :
  serialize (put_PublishIntentEnd (mkPublishIntentEnd MessageType.PublishIntentEnd x y)) = Ret w ->
  genuine log w.
Proof. apply genuine_written; [done|done|]. intros _. extends_steps. Qed.

Lemma J_removeSubscribeState_one ns reason :
  preserves J (removeSubscribeState_one ns reason) anything.
Proof.
  unfold removeSubscribeState_one.
  apply (preserves_bind J _ _ _ _ (J_gets _)). intros st _.
  apply (preserves_bind J _ _ anything); [destruct (contains_key st ns);
    [apply J_subscribe_state|apply J_ret]|intros _ _].
  apply (preserves_bind J _ _ _ _ (J_gets _)). intros sds _.
  destruct (contains_key sds ns); [|apply J_ret].
  apply (preserves_bind J _ _ _ _ (J_lock_sub ns)). intros w _.
  apply (preserves_bind J _ _ anything); [|intros _ _; apply J_erase_delegate].
  destruct w; [by apply J_notify|apply J_ret].
Qed.

Lemma J_removeSubscribeState all ns reason :
  preserves J (removeSubscribeState all ns reason) anything.
Proof.
  unfold removeSubscribeState. destruct all; [|apply J_removeSubscribeState_one].
  apply (preserves_bind J _ _ _ _ (J_gets _)). intros st _.
  apply preserves_mfor. intros x _. apply J_removeSubscribeState_one.
Qed.

(** A published object arrives whole, or as a fragment. *)
Lemma J_handle_publish msg :
  (exists n f sid, fragment_of log n f /\ is_field sid /\
     msg = PublishDatagram_wire (to_datagram n sid f)) ->
  preserves J (datagram ← on_local msg get_PublishDatagram;
    if uintVar_eqb (offset_and_fin (header datagram)) 1 then
      sds ← gets sub_delegates;
      deliver_moving sds (name (header datagram)) (media_data datagram)
    else handle_pub_fragment datagram) anything.
Proof.
  intros (n & f & sid & Hf & Hsid & ->). destruct (fragment_ok n f sid Hf Hsid) as (Hok & Hk & Hone).
  pose proof (get_PublishDatagram_wire HLE _ Hok []) as E. rewrite app_nil_r in E.
  apply (preserves_bind J _ _ (fun d => d = to_datagram n sid f)).
  { apply preserves_on_local. rewrite E. by intros ? [= <-]. }
  intros d ->. unfold uintVar_eqb. cbn [header offset_and_fin to_datagram].
  destruct (Z.eqb_spec f.1 1) as [E1|E1].
  - intros c Hc _. split; [|done]. unfold mbind, M_bind, gets.
    apply J_deliver_moving; [done|done|]. destruct Hf as (obj & Hin & _).
    split; [by exists obj|]. right. left. by apply Hone.
  - apply J_handle_pub_fragment. unfold fragment_in. rewrite Hk. by destruct f.
Qed.

Ltac j_answer :=
  apply (preserves_bind J _ _ anything); [apply J_local|intros ? _];
  apply (preserves_bind J _ _ _ _ (J_gets _)); intros ? _;
  match goal with |- preserves _ (if ?b then _ else _) _ => destruct b; try apply J_ret end;
  eapply preserves_bind; [(apply J_lock_sub || apply J_lock_pub)|intros [] _];
  [by apply J_notify|apply J_ret].

Lemma J_handle msg : genuine log msg -> preserves J (handle msg) anything.
Proof.
  intros Hg. destruct msg as [|front rest]; [apply J_ret|]. unfold handle.
  specialize (Hg front rest eq_refl).
  destruct (enum_of_u8 front : MessageType.t); try apply J_ret.
  - j_answer.
  - apply (preserves_bind J _ _ anything); [apply J_local|intros ? _].
    apply J_removeSubscribeState.
  - by apply J_handle_publish, Hg.
  - j_answer.
Qed.

Lemma J_on_connection_status st : preserves J (on_connection_status st) anything.
Proof.
  unfold on_connection_status. case_decide; [apply J_removeSubscribeState|apply J_ret].
Qed.

Lemma J_on_recv_notify : preserves J on_recv_notify anything.
Proof.
  unfold on_recv_notify. generalize 150%nat. intros k.
  induction k as [|k IH]; cbn [on_recv_notify_loop]; [apply J_ret|].
  apply (preserves_bind J _ _ _ _ J_dequeue). intros [msg|] Hmsg; [|apply J_ret].
  apply (preserves_bind J _ _ anything); [|intros [] _; [apply IH|apply J_ret]].
  apply preserves_try_catch; [|intros e h [= <-]; apply J_ret].
  eapply preserves_bind; [by apply J_handle|intros; apply J_ret].
Qed.

(** ** Calls of the application *)

Lemma J_send m cid sid :
  (forall w, serialize m = Ret w -> genuine log w) ->
  preserves J (msg ← lift (serialize m); enqueue cid sid msg;; mret tt) anything.
Proof.
  intros Hm. eapply preserves_bind; [by apply J_serialize|]. intros msg Hg.
  eapply preserves_bind; [by apply J_enqueue|]. intros; apply J_ret.
Qed.

Lemma J_subscribe d ns intent draw :
  (d, ns) ∈ ask -> preserves J (subscribe d ns intent draw) anything.
Proof.
  intros Ha. unfold subscribe. apply (preserves_bind J _ _ _ _ (J_gets _)).
  intros sds (c & Hc & ->). apply (preserves_bind J _ _ anything).
  { destruct (contains_key (sub_delegates c) ns) eqn:E; [apply J_ret|by apply J_new_delegate]. }
  intros _ _. eapply preserves_bind; [apply J_serialize, genuine_put_Subscribe|]. intros msg Hg.
  apply (preserves_bind J _ _ _ _ (J_gets _)). intros x _.
  assert (forall cid sid, preserves J (enqueue cid sid msg;; mret tt) anything) as Hs.
  { intros cid sid. eapply preserves_bind; [by apply J_enqueue|]. intros; apply J_ret. }
  destruct (negb _).
  - eapply preserves_bind; [apply J_subscribe_state|]. intros _ _. apply Hs.
  - destruct (subscript _ _ _) as [ctx m].
    eapply preserves_bind; [apply J_subscribe_state|]. intros _ _.
    case_decide; [apply J_ret|apply Hs].
Qed.

Lemma J_unsubscribe ns : preserves J (unsubscribe ns) anything.
Proof.
  unfold unsubscribe. eapply preserves_bind; [apply J_serialize, genuine_put_Unsubscribe|].
  intros msg Hg. apply (preserves_bind J _ _ _ _ (J_gets _)). intros st _.
  apply (preserves_bind J _ _ anything); [destruct (contains_key st ns);
    [apply J_subscribe_state|apply J_ret]|intros _ _].
  apply (preserves_bind J _ _ _ _ (J_gets _)). intros x _.
  eapply preserves_bind; [by apply J_enqueue|]. intros; apply J_ret.
Qed.

Lemma J_publishIntent d ns payload draw : preserves J (publishIntent d ns payload draw) anything.
Proof.
  unfold publishIntent. apply (preserves_bind J _ _ _ _ (J_gets _)). intros pds _.
  apply (preserves_bind J _ _ anything); [destruct (contains_key pds ns);
    [apply J_ret|apply J_pub_delegates]|intros _ _].
  apply (preserves_bind J _ _ _ _ (J_gets _)). intros x _.
  do 2 (eapply preserves_bind; [apply J_lift|intros ? _]).
  eapply preserves_bind; [apply J_serialize, genuine_put_PublishIntent|].
  intros msg Hg. by apply J_enqueue.
Qed.

Lemma J_publishIntentEnd ns : preserves J (publishIntentEnd ns) anything.
Proof.
  unfold publishIntentEnd. apply (preserves_bind J _ _ _ _ (J_gets _)). intros pds _.
  destruct (contains_key pds ns); [|apply J_ret].
  eapply preserves_bind; [apply J_pub_delegates|]. intros _ _.
  eapply preserves_bind; [apply J_serialize, genuine_put_PublishIntentEnd|]. intros msg Hg.
  apply (preserves_bind J _ _ _ _ (J_gets _)). intros x _.
  eapply preserves_bind; [by apply J_enqueue|]. intros; apply J_ret.
Qed.

Lemma J_publishNamedObject n data :
  (n, data) ∈ log -> preserves J (publishNamedObject n data) anything.
Proof.
  intros Hin c Hc _. destruct (Hlog n data Hin) as [Hn Hl]. pose proof Hc as [].
  rewrite (publishNamedObject_run n Hn (transport_stream_id c)) by done.
  split; [|done]. simpl. split; try done. simpl.
  intros p [Hp|Hp]%send_members; [by auto|]. unfold object_packets in Hp.
  apply list_elem_of_fmap in Hp as (f & -> & Hf). simpl.
  apply genuine_datagram; [by exists data|done].
Qed.

Lemma J_arrive data : genuine log data -> preserves J (arrive_client data) anything.
Proof.
  intros Hd. apply preserves_modify; [|done]. intros c []. split; try done. simpl.
  intros msg [Hm|Hm]%elem_of_app; [auto|]. by apply list_elem_of_singleton in Hm as ->.
Qed.
End client.

(** * The relay hands on only what it got *)

Section relay.
Import QuicRServer.
Context {T : Target} {HLE : LittleEndian (T := T)} {Tr : ITransport}.
Context (log : list (Name * bytes)) (Hlog : publishable log).
Local Abbreviation world := (world ReallyServer.t).

Record conveys (w : world) : Prop := {
  conveys_rx p : p ∈ rx w.1 -> genuine log p.2;
  conveys_tx p : p ∈ tx w.1 -> genuine log (pkt_data p);
}.

(** Changes of the server's tables. *)
Lemma conveys_tables (f : t -> t) :
  (forall s, rx (f s) = rx s /\ tx (f s) = tx s) ->
  preserves conveys (on_server (modify f)) anything.
Proof.
  intros Hf [s a] [Hr Ht] _. split; [|done]. simpl in *. destruct (Hf s) as [Er Et].
  split; simpl; [by rewrite Er|by rewrite Et].
Qed.
Lemma conveys_read {B} (m : M t B) :
  (forall s, rx (m s).2 = rx s /\ tx (m s).2 = tx s) ->
  preserves conveys (on_server m) anything.
Proof.
  intros Hf [s a] [Hr Ht] _. unfold on_server. simpl in *. destruct (Hf s) as [Er Et].
  destruct (m s) as [r s']. split; [|done]. simpl in *. split; simpl; [by rewrite Er|by rewrite Et].
Qed.
Lemma conveys_app {B} (m : M ReallyServer.t B) : preserves conveys (on_app m) anything.
Proof.
  intros [s a] [Hr Ht] _. unfold on_app. simpl. destruct (m a) as [r a'].
  split; [by split|done].
Qed.
Lemma conveys_gets {B} (f : world -> B) : preserves conveys (gets f) anything.
Proof. by apply preserves_gets. Qed.
Lemma conveys_lift {B} (r : result B) : preserves conveys (lift r) anything.
Proof. by apply preserves_lift. Qed.
Lemma conveys_local {S B} (s : S) (m : M S B) : preserves conveys (on_local s m) anything.
Proof. by apply preserves_on_local. Qed.
Lemma conveys_ret {B} (b : B) : preserves conveys (mret b) anything.
Proof. by apply preserves_ret. Qed.

Lemma conveys_sent s a p :
  conveys (s, a) -> genuine log (pkt_data p) -> conveys (with_tx (tx s ++ [p]) s, a).
Proof.
  intros [Hr Ht] Hp. split; simpl in *; [done|]. intros q [Hq|Hq]%elem_of_app; [by auto|].
  by apply list_elem_of_singleton in Hq as ->.
Qed.

Lemma conveys_to_subscriber i writer :
  (forall w, serialize writer = Ret w -> genuine log w) ->
  preserves conveys (on_server (to_subscriber i writer)) anything.
Proof.
  intros Hw [s a] [Hr Ht] _. split; [|done]. unfold on_server, to_subscriber. cbn [fst snd].
  cbv [mbind M_bind gets].
  destruct (contains_key (subscribe_id_state s) i); cbn [negb]; [|done].
  destruct (subscript _ _ _) as [ctx m]. unfold modify, lift.
  destruct (serialize writer) as [w|e|] eqn:E; [|done..].
  apply (conveys_sent (with_subscribe_id_state m s)); [done|by apply Hw].
Qed.

Lemma conveys_publishIntentResponse ns result :
  preserves conveys (on_server (publishIntentResponse ns result)) anything.
Proof.
  intros [s a] [Hr Ht] _. split; [|done]. unfold on_server. cbn [fst snd].
  rewrite publishIntentResponse_run. destruct (find _ ns) as [[k v]|]; [|done].
  apply (conveys_sent (with_publish_namespaces _ s)); [done|].
  by apply (genuine_tagged log MessageType.PublishIntentResponse).
Qed.

Lemma genuine_put_SubscribeResponse m w : serialize (put_SubscribeResponse m) = Ret w -> genuine log w.
Proof. apply genuine_written; [done|done|]. intros _. extends_steps. Qed.
Lemma genuine_put_SubscribeEnd m w : serialize (put_SubscribeEnd m) = Ret w -> genuine log w.
Proof. apply genuine_written; [done|done|]. intros _. extends_steps. Qed.
Lemma genuine_put_datagram n f sid w :
  fragment_of log n f -> is_field sid ->
  serialize (put_PublishDatagram (to_datagram n sid f)) = Ret w -> genuine log w.
Proof.
  intros Hf Hsid. destruct (fragment_ok log Hlog n f sid Hf Hsid) as (Hok & _).
  rewrite (serialize_wire _ _ (put_PublishDatagram_wire _ Hok)). intros [= <-].
  by apply genuine_datagram.
Qed.

(** ** The delegate *)

Lemma conveys_onSubscribe ns i cid sid intent url b tok d :
  preserves conveys (ReallyServer.onSubscribe ns i cid sid intent url b tok d) anything.
Proof.
  eapply preserves_bind; [apply conveys_app|]. intros _ _.
  apply conveys_to_subscriber, genuine_put_SubscribeResponse.
Qed.
Lemma conveys_onUnsubscribe ns i tok :
  preserves conveys (ReallyServer.onUnsubscribe ns i tok) anything.
Proof.
  eapply preserves_bind; [apply conveys_to_subscriber, genuine_put_SubscribeEnd|].
  intros _ _. apply conveys_app.
Qed.
Lemma conveys_onPublisherObject cid sid b n f sid' :
  fragment_of log n f -> is_field sid' ->
  preserves conveys (ReallyServer.onPublisherObject cid sid b (to_datagram n sid' f)) anything.
Proof.
  intros Hf Hsid. eapply preserves_bind; [apply conveys_app|]. intros found _.
  apply preserves_mfor. intros dest _. destruct (_ && _)%bool; [apply conveys_ret|].
  apply conveys_to_subscriber. intros w. by apply genuine_put_datagram.
Qed.

(** ** Handlers *)

Lemma conveys_handle_subscribe cid sid msg :
  preserves conveys (handle_subscribe cid sid msg) anything.
Proof.
  unfold handle_subscribe. eapply preserves_bind; [apply conveys_local|]. intros m _.
  eapply preserves_bind; [apply conveys_tables|intros _ _].
  { intros s. destruct (subscript _ _ _) as [ctxs st]. by case_match. }
  eapply preserves_bind; [apply conveys_read|intros ctx _].
  { intros s. destruct (subscript _ _ _) as [ctxs st]. by destruct (subscript _ _ _). }
  apply conveys_onSubscribe.
Qed.

Lemma conveys_handle_unsubscribe cid sid msg :
  preserves conveys (handle_unsubscribe cid sid msg) anything.
Proof.
  unfold handle_unsubscribe. eapply preserves_bind; [apply conveys_local|]. intros m _.
  eapply preserves_bind; [apply conveys_read|intros ctxs _].
  { intros s. by destruct (subscript _ _ _). }
  destruct (negb _); [apply conveys_ret|].
  eapply preserves_bind; [apply conveys_onUnsubscribe|intros _ _].
  apply conveys_tables. intros s. by destruct (subscript _ _ _).
Qed.

Lemma conveys_handle_publish cid sid msg :
  (exists n f sid, fragment_of log n f /\ is_field sid /\
     msg = PublishDatagram_wire (to_datagram n sid f)) ->
  preserves conveys (handle_publish cid sid msg) anything.
Proof.
  intros (n & f & sid' & Hf & Hsid & ->).
  destruct (fragment_ok log Hlog n f sid' Hf Hsid) as (Hok & _).
  pose proof (get_PublishDatagram_wire HLE _ Hok []) as E. rewrite app_nil_r in E.
  unfold handle_publish. apply (preserves_bind conveys _ _ (fun d => d = to_datagram n sid' f)).
  { apply preserves_on_local. rewrite E. by intros ? [= <-]. }
  intros d ->. eapply preserves_bind; [apply conveys_gets|]. intros w _.
  eapply preserves_bind; [apply conveys_lift|]. intros [p|] _; [|apply conveys_ret].
  eapply preserves_bind; [apply conveys_read|intros ctx _; by apply conveys_onPublisherObject].
  intros s. destruct (negb _); [done|]. by destruct (subscript _ _ _).
Qed.

Lemma conveys_handle_publish_intent cid sid msg :
  preserves conveys (handle_publish_intent cid sid msg) anything.
Proof.
  unfold handle_publish_intent. eapply preserves_bind; [apply conveys_local|]. intros m _.
  eapply preserves_bind; [apply conveys_tables|intros _ _; apply conveys_publishIntentResponse].
  intros s. by destruct (negb _).
Qed.

Lemma conveys_handle_publish_intent_end cid sid msg :
  preserves conveys (handle_publish_intent_end cid sid msg) anything.
Proof.
  unfold handle_publish_intent_end. eapply preserves_bind; [apply conveys_local|]. intros m _.
  eapply preserves_bind; [apply conveys_gets|]. intros w _.
  destruct (negb _); [apply conveys_ret|].
  eapply preserves_bind; [by apply conveys_tables|intros _ _].
  eapply preserves_bind; [apply conveys_lift|]. intros ps _.
  eapply preserves_bind; [by apply conveys_tables|intros _ _]. apply conveys_ret.
Qed.

Lemma conveys_dispatch cid sid msg :
  genuine log msg -> preserves conveys (dispatch cid sid msg) anything.
Proof.
  intros Hg. destruct msg as [|front rest]; [apply preserves_undefined|]. unfold dispatch.
  specialize (Hg front rest eq_refl). destruct (enum_of_u8 front : MessageType.t);
    auto using conveys_ret, conveys_handle_subscribe, conveys_handle_unsubscribe,
      conveys_handle_publish, conveys_handle_publish_intent, conveys_handle_publish_intent_end.
Qed.

(** ** The transport's calls *)

Lemma dequeue_from_members cid sid q d r :
  dequeue_from cid sid q = Some (d, r) ->
  (exists p, p ∈ q /\ p.2 = d) /\ forall p, p ∈ r -> p ∈ q.
Proof.
  revert r. induction q as [|[[c i] x] q IH]; intros r; [done|]. cbn [dequeue_from].
  destruct ((c =? cid) && (i =? sid))%bool.
  - intros [= <- <-]. split; [|intros p Hp; by right].
    exists (c, i, x). split; [by left|done].
  - destruct (dequeue_from cid sid q) as [[d' r']|]; [|done]. intros [= <- <-].
    destruct (IH r' eq_refl) as [(p & Hp & E) Hr]. split.
    + exists p. split; [by right|done].
    + intros p' [->|Hp']%elem_of_cons; [by left|right; auto].
Qed.

Lemma conveys_dequeue cid sid :
  preserves conveys (on_server (dequeue cid sid))
    (fun o => match o with Some msg => genuine log msg | None => True end).
Proof.
  intros [s a] [Hr Ht] _. unfold on_server, dequeue. cbn [fst snd] in *.
  destruct (dequeue_from cid sid (rx s)) as [[d q]|] eqn:E.
  - apply dequeue_from_members in E as [(p & Hp & <-) Hq]. split.
    + split; simpl; auto.
    + intros ? [= <-]. by apply Hr.
  - split; [done|]. by intros ? [= <-].
Qed.

Lemma conveys_on_recv_notify cid sid : preserves conveys (on_recv_notify cid sid) anything.
Proof.
  unfold on_recv_notify. generalize 150%nat. intros k.
  induction k as [|k IH]; cbn [on_recv_notify_loop]; [apply conveys_ret|].
  eapply preserves_bind; [apply conveys_dequeue|]. intros [msg|] Hmsg; [|apply conveys_ret].
  apply (preserves_bind conveys _ _ anything); [|intros _ _; apply IH].
  apply preserves_try_catch; [by apply conveys_dispatch|intros e h [= <-]; apply conveys_ret].
Qed.

Lemma conveys_on_connection_status cid st :
  preserves conveys (on_connection_status cid st) anything.
Proof.
  unfold on_connection_status. case_decide; [|apply conveys_ret].
  eapply preserves_bind; [apply conveys_gets|]. intros keys _. generalize (@nil Namespace).
  induction keys as [|ns keys IH]; intros gone; cbn [disconnect_loop]; [apply conveys_ret|].
  eapply preserves_bind; [apply conveys_gets|]. intros ctxs _.
  apply (preserves_bind conveys _ _ anything).
  { destruct (contains_key ctxs cid); [|apply conveys_ret].
    eapply preserves_bind; [apply conveys_onUnsubscribe|intros _ _].
    eapply preserves_bind; [by apply conveys_tables|intros _ _]. apply conveys_ret. }
  intros gone' _. apply (preserves_bind conveys _ _ anything).
  { apply preserves_mfor. intros ns' _. by apply conveys_tables. }
  intros _ _. eapply preserves_bind; [apply conveys_gets|]. intros [] _; [|apply preserves_undefined].
  apply IH.
Qed.

Lemma conveys_arrive cid sid data :
  genuine log data -> preserves conveys (arrive_relay cid sid data) anything.
Proof.
  intros Hd [s a] [Hr Ht] _. split; [|done]. split; simpl in *; [|done].
  intros p [Hp|Hp]%elem_of_app; [auto|]. by apply list_elem_of_singleton in Hp as ->.
Qed.
End relay.

(** * The whole system *)

Section system_invariant.
Context {T : Target} {HLE : LittleEndian (T := T)} {Tr : ITransport} {App : SubscriberApp}.
Context (link : nat -> Z * Z).

Record honest (y : System) : Prop := {
  honest_published : publishable (published y);
  honest_clients i e : endpoints y !! i = Some e -> faithful (published y) (asked e) (client e);
  honest_relay : conveys (published y) (relay y);
}.

Lemma honest_publish y n data :
  honest y -> wf_name n -> Z.of_nat (length data) < 2 ^ 30 ->
  honest (mkSystem (endpoints y) (relay y) (published y ++ [(n, data)])).
Proof.
  intros [Hp Hc [Hr Ht]] Hn Hl. split; simpl.
  - intros n' obj [H|H]%elem_of_app; [by apply Hp|].
    apply list_elem_of_singleton in H. by simplify_eq.
  - intros i e E. rewrite <- (app_nil_r (asked e)). by apply faithful_app, (Hc i).
  - split; intros; apply genuine_app; auto.
Qed.

Lemma honest_at_client {A} i (m : M QuicRClient.t A) more y y' :
  honest y -> (forall ask, (forall x, x ∈ more -> x ∈ ask) ->
    preserves (faithful (published y) ask) m anything) ->
  at_client i m more y = Some y' -> honest y'.
Proof.
  intros [Hp Hc Hr] Hm. unfold at_client. cbv [mbind option_bind].
  destruct (endpoints y !! i) as [e|] eqn:E; [|done].
  assert (faithful (published y) (asked e ++ more) (client e)) as Hf.
  { pose proof (faithful_app (published y) [] _ more _ (Hc i e E)) as Hf.
    by rewrite app_nil_r in Hf. }
  pose proof (Hm (asked e ++ more) ltac:(intros; apply elem_of_app; by right) _ Hf) as Hs.
  unfold safe in Hs. destruct (m (client e)) as [[a|x|] c]; intros Hy; simplify_eq; simpl in Hs.
  1-2: (destruct Hs as [Hs _]; [done|]; split; simpl; [done| |done]; intros j e' Ej;
    apply list_lookup_insert_Some in Ej as [(<- & <- & _)|[_ Ej]]; [exact Hs|by apply (Hc j)]).
Qed.

Lemma honest_at_relay m y y' :
  honest y -> preserves (conveys (published y)) m anything -> at_relay m y = Some y' -> honest y'.
Proof.
  intros [Hp Hc Hr] Hm. unfold at_relay. specialize (Hm _ Hr). unfold safe in Hm.
  destruct (m (relay y)) as [[a|x|] w]; intros Hy; simplify_eq; simpl in Hm;
    (destruct Hm as [Hw _]; [done|]; by split).
Qed.

Lemma perform_honest a y y' : honest y -> perform link a y = Some y' -> honest y'.
Proof.
  intros Hy. pose proof (honest_published _ Hy) as Hp. destruct a; cbn [perform].
  - case_decide as Hd; [|done]. destruct Hd as [Hn Hl].
    pose proof (honest_publish y n data Hy Hn Hl) as Hy'.
    apply honest_at_client; [done|]. intros ask _.
    apply J_publishNamedObject; [apply Hy'|]. simpl. apply elem_of_app. right. by left.
  - apply honest_at_client; [done|]. intros ask Ha. apply J_subscribe, Ha. by left.
  - apply honest_at_client; [done|]. intros ask _. apply J_unsubscribe.
  - apply honest_at_client; [done|]. intros ask _. apply J_publishIntent.
  - apply honest_at_client; [done|]. intros ask _. apply J_publishIntentEnd.
  - cbv [mbind option_bind]. destruct (endpoints y !! i) as [e|] eqn:Ee; [|done].
    destruct (QuicRClient.tx (client e) !! k) as [p|] eqn:Ep; [|done].
    apply honest_at_relay; [done|]. apply conveys_arrive.
    apply (faithful_tx _ _ _ (honest_clients _ Hy i e Ee)). by apply list_elem_of_lookup_2 in Ep.
  - cbv [mbind option_bind]. destruct (QuicRServer.tx (relay y).1 !! k) as [p|] eqn:Ep; [|done].
    destruct (_ =? _); [|done]. apply honest_at_client; [done|]. intros ask _. apply J_arrive.
    apply (conveys_tx _ _ (honest_relay _ Hy)). by apply list_elem_of_lookup_2 in Ep.
  - apply honest_at_client; [done|]. intros ask _. by apply J_on_recv_notify.
  - apply honest_at_client; [done|]. intros ask _. by apply J_on_connection_status.
  - apply honest_at_relay; [done|]. by apply conveys_on_recv_notify.
  - apply honest_at_relay; [done|]. by apply conveys_on_connection_status.
Qed.

Lemma exec_honest acts y y' : honest y -> exec link acts y = Some y' -> honest y'.
Proof.
  revert y. induction acts as [|a acts IH]; intros y Hy; cbn [exec]; [by intros [= <-]|].
  cbv [mbind option_bind]. destruct (perform link a y) as [y1|] eqn:E; [|done].
  apply IH. by apply (perform_honest a y).
Qed.

Lemma initial_honest cs : (forall c, c ∈ cs -> fresh_client c) -> honest (initial cs).
Proof.
  intros Hcs. split.
  - intros n obj H. by apply not_elem_of_nil in H.
  - intros i e E. simpl in E. apply list_lookup_fmap_Some in E as (c & -> & Ec).
    destruct (Hcs c) as (np & cid & sid & Hsid & ->); [by apply list_elem_of_lookup_2 in Ec|].
    split; try done; simpl; try (intros; by match goal with H : _ ∈ [] |- _ => apply not_elem_of_nil in H end).
    + constructor.
    + intros i' b Hb. by apply not_elem_of_nil in Hb.
  - split; intros p Hp; by apply not_elem_of_nil in Hp.
Qed.

(** What is put together from the fragments of one object is the object. *)
Lemma assembled_unique log n data obj :
  publishable log -> (n, obj) ∈ log -> (forall obj', (n, obj') ∈ log -> obj' = obj) ->
  assembled log n data -> data = obj.
Proof.
  intros Hlog Hobj Huniq (m & Hs & Ho & Hm & Er).
  assert (forall p, p ∈ m -> p ∈ object_fragments obj) as Hsub.
  { intros p Hp. destruct (Hm p Hp) as (obj' & Hin & Hf). by rewrite <- (Huniq obj'). }
  assert (m <> []) as Hne by (by intros ->). destruct (Hlog n obj Hobj) as [_ Hl].
  destruct (Z.leb_spec (Z.of_nat (length obj)) 1200) as [Hle|Hgt].
  - unfold object_fragments in Hsub. rewrite (proj2 (Z.leb_le _ _)) in Hsub by done.
    destruct m as [|[k x] m]; [done|]. pose proof (Hsub (k, x) ltac:(by left)) as Hk.
    apply list_elem_of_singleton in Hk as [= -> ->].
    destruct m as [|q m]; [by injection Er as <-|]. exfalso.
    apply sorted_cons_inv in Hs as [_ Hs]. specialize (Hs q ltac:(by left)).
    specialize (Hsub q ltac:(right; by left)). apply list_elem_of_singleton in Hsub. subst q. vm_compute in Hs. discriminate.
  - destruct (object_chunks obj ltac:(lia)) as (Hn' & _ & Hb & Hcat & E). rewrite E in Hsub.
    pose proof (assembled_spec _ 0 m [] Hn' ltac:(done) ltac:(lia) Hs Hsub Hne) as Ha.
    rewrite Ho, Er in Ha. case_decide; [|done]. injection Ha as ->. exact Hcat.
Qed.
End system_invariant.

(** * Property *)

(** C2: across the network nothing is invented, between little-endian hosts that
    publish objects of less than 2^30 bytes: for clients and a relay that have
    just been made, after any calls of the applications, any loss, repetition
    and reordering of packets and any order of callbacks, as long as no step has
    undefined behaviour, a delegate is handed
    objects only under names that were published, and that lie in a namespace
    its own application subscribed it to; and if no two different objects were
    published under the name, the data is that object, or nothing. *)
Theorem delivered_objects_are_genuine {T : Target} `{!LittleEndian} {Tr : ITransport}
    {App : SubscriberApp} link cs acts y i e d n priority expiry reliable data :
  (forall c, c ∈ cs -> fresh_client c) -> exec link acts (initial cs) = Some y ->
  endpoints y !! i = Some e ->
  QuicRClient.onSubscribedObject d n priority expiry reliable data ∈ QuicRClient.events (client e) ->
  (exists ns, (Some d, ns) ∈ asked e /\ contains ns n = Ret true) /\
  (exists obj, (n, obj) ∈ published y) /\
  ((forall a b, (n, a) ∈ published y -> (n, b) ∈ published y -> a = b) ->
   data = [] \/ (n, data) ∈ published y).
Proof.
  intros Hcs Hy Ei Hev. pose proof (exec_honest link acts _ y (initial_honest cs Hcs) Hy) as Hh.
  pose proof (faithful_events _ _ _ (honest_clients _ Hh i e Ei) _ Hev) as [[[obj Ho] Hd] Hask].
  split; [done|]. split; [by exists obj|]. intros Huniq.
  destruct Hd as [Hd|[Hd|Hd]]; [by left|by right|right].
  rewrite (assembled_unique _ n data obj (honest_published _ Hh)); try done.
  intros obj' Ho'. by apply Huniq.
Qed.

Definition demo_end : System := default demo_system demo_outcome.
Definition demo_subscriber : Endpoint := default (mkEndpoint QuicRClient.demo_client [])
  (endpoints demo_end !! 0%nat).

Lemma delivered_objects_are_genuine_witness :
  (exists ns, (Some 7, ns) ∈ asked demo_subscriber /\
     contains (T := x86_64) ns demo_name = Ret true) /\
  (exists obj, (demo_name, obj) ∈ published demo_end) /\
  ((forall a b, (demo_name, a) ∈ published demo_end -> (demo_name, b) ∈ published demo_end ->
      a = b) ->
   demo_data = [] \/ (demo_name, demo_data) ∈ published demo_end).
Proof.
  apply (delivered_objects_are_genuine (T := x86_64) (Tr := FakeTransport)
    (App := QuicRClient.demo_app) demo_link [QuicRClient.demo_client; QuicRClient.demo_client]
    demo_schedule demo_end 0 demo_subscriber 7 demo_name 0 0 false demo_data).
  - intros c Hc. exists true, 0x1000, 0x2000. split; [split; vm_compute; congruence|].
    rewrite !elem_of_cons, elem_of_nil in Hc. destruct Hc as [Hc|[Hc|[]]]; exact Hc.
  - vm_compute. reflexivity.
  - vm_compute. reflexivity.
  - apply list_elem_of_In. vm_compute. right. left. reflexivity.
Defined.
