(* ===== verification/ReallyMain.v ===== *)
(** * The relay's process (cmd/really/really.cpp: [main], [signalHandler])

    The main thread waits on a condition variable for a signal handler to set a
    flag, under a mutex both take.  A handler runs on the thread the signal
    interrupts, on top of whatever that thread does; other threads run next to
    it.  [perform] is one step of one thread; [None] means that the thread cannot
    move.  What the constructor of [ReallyServer] makes of the transport
    (a submodule) is the argument [construct]; [sigaction_ok] tells which
    handlers the system let the program install. *)

From S2P Require Export Really.
From stdpp Require Import relations.
#[local] Open Scope Z_scope.

Module ReallyMain.

Definition SIGHUP : Z := 1.
Definition SIGINT : Z := 2.
Definition SIGQUIT : Z := 3.
Definition EXIT_SUCCESS : Z := 0.
Definition EXIT_FAILURE : Z := 1.

(** The three [catch] clauses of [main]. *)
Inductive Caught := invalid_argument | exception | anything_else.
#[export] Instance Caught_eq_dec : EqDecision Caught.
Proof. solve_decision. Defined.

(** Where [main] stands. *)
Inductive Main :=
  | MInstall | MLock | MConstruct
  | MRun (polls : nat)
  (** [cv.wait]: testing the predicate, blocked, and taking the mutex again *)
  | MWait | MBlocked | MReacquire
  | MUnlock | MReset
  | MCatch (e : Caught)
  | MReturn (result_code : Z)
  | MDone (result_code : Z).
#[export] Instance Main_eq_dec : EqDecision Main.
Proof. solve_decision. Defined.

(** Where [signalHandler] stands: before [lock_guard], inside, at its end. *)
Inductive Handler := HLock | HBody | HUnlock.
#[export] Instance Handler_eq_dec : EqDecision Handler.
Proof. solve_decision. Defined.

(** A handler that runs on a thread; thread 0 is the one of [main]. *)
Record Frame := mkFrame { thread : nat; signal_number : Z; at_ : Handler }.

Record t := mk {
  main : Main;
  installed : list Z;
  (** [really::main_mutex]: the thread that holds it *)
  owner : option nat;
  terminate : bool;
  termination_reason : option chars;
  (** the handlers that run, later ones on top of earlier ones *)
  frames : list Frame;
}.

Definition init : t := mk MInstall [] None false None [].

Definition with_main (v : Main) (o : option nat) (s : t) : t :=
  mk v (installed s) o (terminate s) (termination_reason s) (frames s).
Definition with_frames (v : list Frame) (o : option nat) (s : t) : t :=
  mk (main s) (installed s) o (terminate s) (termination_reason s) v.

(** The [switch] of [signalHandler]. *)
Definition reason_of (signal_number : Z) : chars :=
  if signal_number =? SIGINT then lit "Interrupt signal received"
  else if signal_number =? SIGHUP then lit "Hangup signal received"
  else if signal_number =? SIGQUIT then lit "Quit signal received"
  else lit "Unknown signal received".

(** [cv.notify_one()]: only the main thread ever waits. *)
Definition notify_one (m : Main) : Main :=
  match m with MBlocked => MReacquire | _ => m end.

(** The body of [signalHandler], under the lock. *)
Definition signalHandler (signal_number : Z) (s : t) : t :=
  if terminate s then s
  else mk (notify_one (main s)) (installed s) (owner s) true (Some (reason_of signal_number))
         (frames s).

(** The topmost handler of a thread, with those above and below it. *)
Fixpoint topmost (i : nat) (l : list Frame) : option (list Frame * Frame * list Frame) :=
  match l with
  | [] => None
  | f :: l' =>
      if decide (thread f = i) then Some ([], f, l')
      else '(above, g, below) ← topmost i l'; Some (f :: above, g, below)
  end.

Section process.
Context {Tr : ITransport} (construct : option Caught) (sigaction_ok : Z -> bool).

Definition installSignalHandlers : list Z := List.filter sigaction_ok [SIGHUP; SIGINT; SIGQUIT].

(** One step of [main]. *)
Definition main_step (s : t) : option t :=
  match main s with
  | MInstall => Some (mk MLock installSignalHandlers (owner s) (terminate s)
                        (termination_reason s) (frames s))
  | MLock =>
      match owner s with None => Some (with_main MConstruct (Some 0%nat) s) | Some _ => None end
  | MConstruct =>
      Some (with_main (match construct with None => MRun 0 | Some e => MCatch e end) (owner s) s)
  | MRun n =>
      Some (with_main (if decide (status n = Connecting) then MRun (S n) else MWait) (owner s) s)
  | MWait =>
      if terminate s then Some (with_main MUnlock (owner s) s)
      else Some (with_main MBlocked None s)
  | MBlocked => None
  | MReacquire =>
      match owner s with None => Some (with_main MWait (Some 0%nat) s) | Some _ => None end
  | MUnlock => Some (with_main MReset None s)
  | MReset => Some (with_main (MReturn EXIT_SUCCESS) (owner s) s)
  | MCatch _ => Some (with_main (MReturn EXIT_FAILURE) (owner s) s)
  | MReturn c =>
      (* ~unique_lock *)
      Some (with_main (MDone c) (if decide (c = EXIT_FAILURE) then None else owner s) s)
  | MDone _ => None
  end.

(** One step of the handler on top of a thread.  Locking a [std::mutex] the
    thread already holds is undefined. *)
Definition handler_step (i : nat) (s : t) : option (result t) :=
  '(above, f, below) ← topmost i (frames s);
  match at_ f with
  | HLock =>
      match owner s with
      | None => Some (Ret (with_frames
          (above ++ mkFrame i (signal_number f) HBody :: below) (Some i) s))
      | Some o => if decide (o = i) then Some Undefined else None
      end
  | HBody =>
      Some (Ret (with_frames (above ++ mkFrame i (signal_number f) HUnlock :: below) (owner s)
        (signalHandler (signal_number f) s)))
  | HUnlock => Some (Ret (with_frames (above ++ below) None s))
  end.

Inductive Event :=
  | Signal (i : nat) (signal_number : Z)
  | MainRuns
  | HandlerRuns (i : nat)
  | SpuriousWakeup.

(** A signal is blocked on a thread while its handler runs there. *)
Definition masked (i : nat) (n : Z) (s : t) : bool :=
  existsb (fun f => bool_decide (thread f = i) && (signal_number f =? n)) (frames s).

Definition perform (e : Event) (s : t) : option (result t) :=
  match e with
  | Signal i n =>
      if bool_decide (n ∈ installed s) && negb (masked i n s)
      then Some (Ret (with_frames (mkFrame i n HLock :: frames s) (owner s) s)) else None
  | MainRuns =>
      if existsb (fun f => bool_decide (thread f = 0%nat)) (frames s) then None
      else Ret <$> main_step s
  | HandlerRuns i => handler_step i s
  | SpuriousWakeup =>
      match main s with MBlocked => Some (Ret (with_main MReacquire (owner s) s)) | _ => None end
  end.

Fixpoint exec (es : list Event) (s : t) : option (result t) :=
  match es with
  | [] => Some (Ret s)
  | e :: es' =>
      match perform e s with
      | Some (Ret s') => exec es' s'
      | r => r
      end
  end.

(** ** Runs *)

(** No signal interrupts a thread that holds the mutex. *)
Definition polite (e : Event) (s : t) : Prop :=
  match e with Signal i _ => owner s <> Some i | _ => True end.

Inductive reachable : t -> Prop :=
  | reachable_init : reachable init
  | reachable_step s e s' :
      reachable s -> polite e s -> perform e s = Some (Ret s') -> reachable s'.

(** The steps of the program itself. *)
Definition internal (s s' : t) : Prop :=
  perform MainRuns s = Some (Ret s') \/ exists i, perform (HandlerRuns i) s = Some (Ret s').
End process.


(** * The invariant *)

Definition main_holds (m : Main) : bool :=
  match m with
  | MConstruct | MRun _ | MWait | MUnlock | MCatch _ => true
  | MReturn c => bool_decide (c = EXIT_FAILURE)
  | _ => false
  end.
Definition frame_holds (f : Frame) : bool :=
  match at_ f with HLock => false | _ => true end.

(** The threads in a critical section. *)
Definition holders (s : t) : list nat :=
  (if main_holds (main s) then [0%nat] else [])
  ++ map thread (List.filter frame_holds (frames s)).

Definition leaving (m : Main) : bool :=
  match m with MUnlock | MReset => true | MReturn c | MDone c => c =? EXIT_SUCCESS | _ => false end.

Record wf (construct : option Caught) (s : t) : Prop := {
  (** mutual exclusion *)
  wf_owner : holders s = match owner s with Some i => [i] | None => [] end;
  wf_no_relock i above f below : topmost i (frames s) = Some (above, f, below) ->
    at_ f = HLock -> owner s <> Some i;
  (** the flag and the reason *)
  wf_reason : is_Some (termination_reason s) <-> terminate s = true;
  wf_known r : termination_reason s = Some r -> exists n,
    n ∈ [SIGHUP; SIGINT; SIGQUIT] /\ r = reason_of n;
  wf_installed n : n ∈ installed s -> n ∈ [SIGHUP; SIGINT; SIGQUIT];
  wf_signals f : f ∈ frames s -> signal_number f ∈ [SIGHUP; SIGINT; SIGQUIT];
  wf_handled f : f ∈ frames s -> at_ f = HUnlock -> terminate s = true;
  (** main sleeps only while there is nothing to wake up for *)
  wf_blocked : main s = MBlocked -> terminate s = false;
  wf_leaving : leaving (main s) = true -> terminate s = true;
  (** main fails only because the relay could not be made *)
  wf_failed : match main s with
    | MInstall | MLock | MConstruct => True
    | MCatch _ => construct <> None
    | MReturn c | MDone c => c = (if construct is Some _ then EXIT_FAILURE else EXIT_SUCCESS)
    | _ => construct = None end;
}.

Lemma topmost_spec i l above f below :
  topmost i l = Some (above, f, below) ->
  l = above ++ f :: below /\ thread f = i /\ forall g, g ∈ above -> thread g <> i.
Proof.
  revert above. induction l as [|g l IH]; intros above; [done|]. cbn [topmost].
  case_decide as Hg.
  - intros [= <- <- <-]. split_and!; [done|done|]. intros g' Hg'. by apply not_elem_of_nil in Hg'.
  - cbv [mbind option_bind]. destruct (topmost i l) as [[[a x] b]|]; [|done].
    intros [= <- <- <-]. destruct (IH a eq_refl) as (-> & Hx & Ha). split_and!; [done|done|].
    intros g' [->|Hg']%elem_of_cons; [done|by apply Ha].
Qed.

Lemma topmost_here i above f below :
  thread f = i -> (forall g, g ∈ above -> thread g <> i) ->
  topmost i (above ++ f :: below) = Some (above, f, below).
Proof.
  intros Hf. induction above as [|g above IH]; intros Ha; cbn [app topmost].
  - by rewrite decide_True.
  - rewrite decide_False by (apply Ha; by left).
    rewrite IH by (intros g' Hg'; apply Ha; by right). done.
Qed.

Lemma topmost_some i l :
  (exists f, f ∈ l /\ thread f = i) -> exists above f below, topmost i l = Some (above, f, below).
Proof.
  induction l as [|g l IH]; intros (f & Hf & Hi); [by apply not_elem_of_nil in Hf|].
  cbn [topmost]. case_decide as Hg; [by eexists _, _, _|].
  destruct IH as (above & f' & below & ->).
  - apply elem_of_cons in Hf as [->|Hf]; [done|by exists f].
  - by eexists _, _, _.
Qed.

Lemma holders_frame above f below :
  map thread (List.filter frame_holds (above ++ f :: below))
  = map thread (List.filter frame_holds above)
    ++ (if frame_holds f then [thread f] else [])
    ++ map thread (List.filter frame_holds below).
Proof. rewrite List.filter_app, map_app. simpl. by destruct (frame_holds f). Qed.


(** ** Every step keeps it *)

Section steps.
Context {Tr : ITransport} (construct : option Caught) (sigaction_ok : Z -> bool).
Implicit Types (s : t) (f : Frame).

Lemma wf_init : wf construct init.
Proof.
  split; try done; simpl; try (intros; by match goal with H : _ ∈ [] |- _ => apply not_elem_of_nil in H end).
  split; [by intros []|done].
Qed.

Lemma installed_known n : n ∈ installSignalHandlers sigaction_ok -> n ∈ [SIGHUP; SIGINT; SIGQUIT].
Proof.
  intros Hn%list_elem_of_In. apply filter_In in Hn as [Hn _]. by apply list_elem_of_In.
Qed.

Lemma signal_wf i n s s' :
  wf construct s -> owner s <> Some i -> perform construct sigaction_ok (Signal i n) s = Some (Ret s') ->
  wf construct s'.
Proof.
  intros [] Hp. cbn [perform]. destruct (bool_decide_reflect (n ∈ installed s)) as [Hn|]; [|done].
  destruct (negb _); [|done]. intros [= <-]. split; simpl; try done.
  - intros j above f below. case_decide as Hj; [intros; by subst|].
    cbv [mbind option_bind]. destruct (topmost j (frames s)) as [[[a g] b]|] eqn:Et; [|done].
    intros [= <- <- <-]. by apply (wf_no_relock0 j a g b).
  - intros f [->|Hf]%elem_of_cons; [by apply wf_installed0|auto].
  - intros f [->|Hf]%elem_of_cons; [done|eauto].
Qed.

Lemma main_frames s :
  existsb (fun f => bool_decide (thread f = 0%nat)) (frames s) = false ->
  forall f, f ∈ frames s -> thread f <> 0%nat.
Proof.
  intros E f Hf Ht. apply not_true_iff_false in E. apply E, existsb_exists.
  exists f. split; [by apply list_elem_of_In|by apply bool_decide_true].
Qed.

(** When main runs, it is the only possible holder named 0. *)
Lemma main_owner s :
  wf construct s -> (forall f, f ∈ frames s -> thread f <> 0%nat) ->
  if main_holds (main s) then owner s = Some 0%nat /\ List.filter frame_holds (frames s) = []
  else owner s <> Some 0%nat.
Proof.
  intros [Ho _ _ _ _ _ _ _ _ _] Hf. unfold holders in Ho.
  destruct (main_holds (main s)).
  - simpl in Ho. destruct (owner s); [|done]. injection Ho as <- Ho.
    split; [done|]. by destruct (List.filter frame_holds (frames s)).
  - simpl in Ho. intros E. rewrite E in Ho.
    destruct (List.filter frame_holds (frames s)) as [|f l] eqn:El; [done|].
    injection Ho as Ht _. apply (Hf f); [|done].
    apply list_elem_of_In, (proj1 (filter_In frame_holds f (frames s))).
    rewrite El. by left.
Qed.

(** A step of main changes its place, the owner and at first the handlers. *)
Lemma moved m inst o s :
  wf construct s -> (forall f, f ∈ frames s -> thread f <> 0%nat) ->
  (o = owner s \/ o = None \/ o = Some 0%nat) ->
  (forall n, n ∈ inst -> n ∈ [SIGHUP; SIGINT; SIGQUIT]) ->
  holders (with_main m o s) = match o with Some i => [i] | None => [] end ->
  (m = MBlocked -> terminate s = false) -> (leaving m = true -> terminate s = true) ->
  match m with
  | MInstall | MLock | MConstruct => True
  | MCatch _ => construct <> None
  | MReturn c | MDone c => c = (if construct is Some _ then EXIT_FAILURE else EXIT_SUCCESS)
  | _ => construct = None
  end ->
  wf construct (mk m inst o (terminate s) (termination_reason s) (frames s)).
Proof.
  intros [] Hf Ho Hi Hh Hb Hl Hm. split; try done. simpl.
  intros i above f below Ht Hat. destruct Ho as [->|[->| ->]]; [by apply (wf_no_relock0 i above f below)|done|].
  intros [= <-]. apply topmost_spec in Ht as (Ef & Ht & _). apply (Hf f); [|done].
  rewrite Ef. apply elem_of_app. right. by left.
Qed.

Lemma main_wf s s' :
  wf construct s -> perform construct sigaction_ok MainRuns s = Some (Ret s') -> wf construct s'.
Proof.
  intros Hw. cbn [perform].
  destruct (existsb _ (frames s)) eqn:Ef; [done|]. pose proof (main_frames s Ef) as Hf.
  pose proof (main_owner s Hw Hf) as Ho. pose proof Hw as [Hown _ _ _ Hinst _ _ Hb Hl Hfail].
  pose proof (fun m inst o => moved m inst o s Hw Hf) as Hmv.
  assert (owner s = None -> List.filter frame_holds (frames s) = []) as Hnone.
  { intros E. unfold holders in Hown. rewrite E in Hown. apply app_nil in Hown as [_ E'].
    by destruct (List.filter frame_holds (frames s)). }
  unfold main_step, holders, with_main in *. destruct s as [m inst o tm tr fr]. cbn in *.
  destruct m; cbn [main_holds] in *; try (destruct Ho as [-> Hno]; rewrite ?Hno in * );
    intros E.
  all: repeat match type of E with
       | context [if decide ?P then _ else _] => destruct (decide P)
       | context [match ?x with _ => _ end] => is_var x; destruct x
       end.
  all: cbn in E; try discriminate E; injection E as <-.
  all: apply Hmv; rewrite ?Hno, ?Hnone by done; auto using installed_known.
  all: try done; try (by destruct construct).
  - rewrite bool_decide_true in Ho by done. by destruct Ho as [_ ->].
  - rewrite bool_decide_false in Hown by done. done.
Qed.

(** ** Handlers *)

(** Mutual exclusion: whoever is in a critical section is alone there. *)
Lemma only_holder (x y z : list nat) i o :
  x ++ y ++ i :: z = match o with Some j => [j] | None => [] end ->
  o = Some i /\ x = [] /\ y = [] /\ z = [].
Proof.
  intros E. destruct x as [|a x], y as [|b y], o as [j|]; simpl in E; try done.
  - by injection E as -> ->.
  - injection E as _ E. by destruct y.
  - injection E as _ E. by destruct x.
  - injection E as _ E. by destruct x.
Qed.

(** The frames of a handler's step, wherever the frame is. *)
Lemma frames_replace above f f' below g :
  g ∈ above ++ f' :: below -> g = f' \/ g ∈ above ++ f :: below.
Proof. rewrite !elem_of_app, !elem_of_cons. tauto. Qed.

Lemma handler_wf i s s' :
  wf construct s -> perform construct sigaction_ok (HandlerRuns i) s = Some (Ret s') ->
  wf construct s'.
Proof.
  intros Hw. cbn [perform]. unfold handler_step. cbv [mbind option_bind].
  destruct (topmost i (frames s)) as [[[above f] below]|] eqn:Et; [|done].
  apply topmost_spec in Et as (Ef & Hi & Habove).
  destruct s as [m inst o tm tr fr]. destruct f as [j n h]. cbn in *. subst j fr.
  pose proof (frames_replace above (mkFrame i n h)) as Hrep.
  pose proof Hw as [Ho Hr ? ? ? Hs Hh ? ? ?]. unfold holders in Ho. cbn in *.
  rewrite holders_frame in Ho.
  assert (forall h' j a g b, topmost j (above ++ mkFrame i n h' :: below) = Some (a, g, b) ->
    at_ g = HLock -> j <> i \/ h' = HLock) as Htop.
  { intros h' j a g b Ht Hg. destruct (decide (j = i)) as [->|]; [right|by left].
    rewrite topmost_here in Ht by done. by injection Ht as _ <- _. }
  destruct h; cbn in *.
  - destruct o as [o|]; [by case_decide|]. intros [= <-].
    split; try done; unfold holders; cbn; rewrite ?holders_frame; cbn.
    + apply app_nil in Ho as [-> Ho]. apply app_nil in Ho as [-> ->]. done.
    + intros j a g b Ht Hg [= <-]. by destruct (Htop HBody i a g b Ht Hg).
    + intros g [->|Hg]%Hrep; [by apply (Hs (mkFrame i n HLock)), elem_of_app; right; left|auto].
    + intros g [->|Hg]%Hrep; [done|eauto].
  - intros [= <-].
    destruct (only_holder _ _ _ _ _ Ho) as (-> & _).
    unfold signalHandler. destruct tm; split; try done; unfold holders; cbn;
      rewrite ?holders_frame; cbn; try done.
    + intros j a g b Ht Hg [= <-]. by destruct (Htop HUnlock i a g b Ht Hg).
    + intros g [->|Hg]%Hrep; [by apply (Hs (mkFrame i n HBody)), elem_of_app; right; left|auto].
    + by destruct m.
    + intros j a g b Ht Hg [= <-]. by destruct (Htop HUnlock i a g b Ht Hg).
    + intros r [= <-]. exists n. split; [|done].
      by apply (Hs (mkFrame i n HBody)), elem_of_app; right; left.
    + intros g [->|Hg]%Hrep; [by apply (Hs (mkFrame i n HBody)), elem_of_app; right; left|auto].
    + by destruct m.
    + by destruct m.
  - intros [= <-]. destruct (only_holder _ _ _ _ _ Ho) as (_ & Ex & Ey & Ez).
    assert (forall g, g ∈ above ++ below -> g ∈ above ++ mkFrame i n HUnlock :: below) as Hsub.
    { intros g. rewrite !elem_of_app, elem_of_cons. tauto. }
    split; try done; unfold holders; cbn; auto.
    + by rewrite Ex, List.filter_app, map_app, Ey, Ez.
    + intros g Hg. by apply (Hh g), Hsub.
Qed.

Lemma spurious_wf s s' :
  wf construct s -> perform construct sigaction_ok SpuriousWakeup s = Some (Ret s') -> wf construct s'.
Proof.
  intros [] . cbn [perform]. destruct (main s) eqn:Em; try done. intros [= <-].
  unfold holders in *. rewrite Em in *. by split.
Qed.

Lemma process_wf s : reachable construct sigaction_ok s -> wf construct s.
Proof.
  induction 1 as [|s e s' _ Hw Hp E]; [apply wf_init|]. destruct e.
  - by eapply signal_wf.
  - by eapply main_wf.
  - by eapply handler_wf.
  - by eapply spurious_wf.
Qed.

(** ** The program moves until it is done *)

Lemma not_undefined e s : wf construct s -> perform construct sigaction_ok e s <> Some Undefined.
Proof.
  intros Hw. destruct e as [i n| |i|]; cbn [perform].
  - by destruct (_ && _)%bool.
  - destruct (existsb _ (frames s)); [done|]. by destruct (main_step construct sigaction_ok s).
  - unfold handler_step. cbv [mbind option_bind].
    destruct (topmost i (frames s)) as [[[a f] b]|] eqn:Et; [|done].
    destruct (at_ f) eqn:Ef; [|done..]. destruct (owner s) eqn:Eo; [|done].
    case_decide; [subst|done]. exfalso. by apply (wf_no_relock _ _ Hw _ _ _ _ Et Ef).
  - by destruct (main s).
Qed.

(** Nothing to do: main is done, or asleep with no signal pending. *)
Definition idle (s : t) : Prop :=
  (exists c, main s = MDone c) \/ (main s = MBlocked /\ frames s = [] /\ terminate s = false).

Lemma handler_moves i f s :
  wf construct s -> f ∈ frames s -> thread f = i -> (owner s = None \/ owner s = Some i) ->
  exists s', internal construct sigaction_ok s s'.
Proof.
  intros Hw Hf Hi Ho. destruct (topmost_some i (frames s)) as (a & g & b & Et); [by exists f|].
  pose proof (wf_no_relock _ _ Hw i a g b Et) as Hn.
  assert (exists s', handler_step i s = Some (Ret s')) as [s' E]; [|exists s'; right; by exists i].
  unfold handler_step. cbv [mbind option_bind]. rewrite Et.
  destruct (at_ g); [|by eexists..]. destruct Ho as [-> |Ho]; [by eexists|by destruct Hn].
Qed.

Lemma holder_moves j s :
  wf construct s -> owner s = Some j -> main_holds (main s) = false ->
  exists s', internal construct sigaction_ok s s'.
Proof.
  intros Hw Ho Hm. pose proof (wf_owner _ _ Hw) as Hown. unfold holders in Hown.
  rewrite Ho, Hm in Hown. simpl in Hown.
  destruct (List.filter frame_holds (frames s)) as [|g l] eqn:Eg; [done|].
  injection Hown as Hg _. apply (handler_moves j g s); auto.
  apply list_elem_of_In, (proj1 (filter_In frame_holds g (frames s))). rewrite Eg. by left.
Qed.

Lemma moves_or_idle s :
  wf construct s -> (exists s', internal construct sigaction_ok s s') \/ idle s.
Proof.
  intros Hw. pose proof Hw as [Hown _ _ _ _ _ _ Hb _ _].
  destruct (existsb (fun f => bool_decide (thread f = 0%nat)) (frames s)) eqn:E0.
  - (* a handler runs on the main thread *)
    apply existsb_exists in E0 as (f & Hf%list_elem_of_In & Ht%bool_decide_eq_true). left.
    destruct (owner s) as [j|] eqn:Eo; [|apply (handler_moves 0 f s); auto].
    destruct (decide (j = 0%nat)) as [->|Hj]; [apply (handler_moves 0 f s); auto|].
    apply (holder_moves j s); [done|done|]. apply not_true_iff_false. intros Hm.
    unfold holders in Hown. rewrite Hm in Hown. injection Hown as Hx _. by subst.
  - (* main itself may move *)
    destruct (main_step construct sigaction_ok s) as [s'|] eqn:Em.
    { left. exists s'. left. cbn [perform]. by rewrite E0, Em. }
    unfold main_step in Em. destruct (owner s) as [j|] eqn:Eo.
    + left. apply (holder_moves j s); [done|done|]. by destruct (main s); repeat case_match.
    + destruct (frames s) as [|f l] eqn:Ef.
      * right. destruct (main s) eqn:Emn; repeat case_match; try done; [right; auto|left; by eexists].
      * left. apply (handler_moves (thread f) f s); auto. rewrite Ef. by left.
Qed.

(** ** It is done after finitely many steps *)

Definition handler_rank (f : Frame) : nat := match at_ f with HLock => 3 | HBody => 2 | HUnlock => 1 end.
Definition main_rank (k : nat) (m : Main) : nat :=
  match m with
  | MInstall => k + 12 | MLock => k + 11 | MConstruct => k + 10
  | MRun n => 8 + (k - n)
  | MReacquire => 6 | MWait => 5 | MBlocked => 4 | MUnlock => 4 | MReset => 3 | MCatch _ => 3
  | MReturn _ => 1 | MDone _ => 0
  end.
Definition rank (k : nat) (s : t) : nat :=
  10 * sum_list_with handler_rank (frames s) + main_rank k (main s).

Lemma rank_notify k m : (main_rank k (notify_one m) <= main_rank k m + 2)%nat.
Proof. destruct m; simpl; lia. Qed.

Lemma rank_frames a f b :
  sum_list_with handler_rank (a ++ f :: b)
  = (sum_list_with handler_rank a + handler_rank f + sum_list_with handler_rank b)%nat.
Proof. rewrite sum_list_with_app. simpl. lia. Qed.

(** The answers of the transport so far. *)
Lemma reachable_polls s n :
  reachable construct sigaction_ok s -> main s = MRun n -> forall i, (i < n)%nat -> status i = Connecting.
Proof.
  intros Hs. revert n. induction Hs as [|s e s' _ IH _ E]; [done|]. intros n Em.
  destruct e; cbn [perform] in E.
  - destruct (_ && _)%bool; [|done]. injection E as <-. by apply IH.
  - destruct (existsb _ (frames s)); [done|]. unfold main_step in E.
    destruct (main s) eqn:Ems; repeat case_match; simplify_eq/=; try lia.
    intros i Hi. destruct (decide (i = polls)) as [->|]; [done|]. apply (IH polls); [done|lia].
  - unfold handler_step in E. cbv [mbind option_bind] in E.
    destruct (topmost i (frames s)) as [[[a f] b]|]; [|done].
    destruct (at_ f); repeat case_match; simplify_eq/=; try (by apply IH).
    unfold signalHandler in Em. destruct (terminate s); simpl in Em; [by apply IH|].
    apply IH. by destruct (main s).
  - destruct (main s); try done. by injection E as <-.
Qed.

Lemma internal_rank k s s' :
  reachable construct sigaction_ok s -> status k <> Connecting ->
  internal construct sigaction_ok s s' -> (rank k s' < rank k s)%nat.
Proof.
  intros Hr Hk [E|[i E]]; cbn [perform] in E.
  - destruct (existsb _ (frames s)); [done|]. pose proof (reachable_polls s) as Hp.
    unfold main_step in E.
    destruct (main s) eqn:Em; repeat case_match; simplify_eq/=; unfold rank;
      cbn [main frames with_main main_rank]; rewrite ?Em; cbn [main_rank]; try lia.
    specialize (Hp polls Hr eq_refl).
    assert (polls < k)%nat; [|lia]. destruct (decide (polls < k)%nat) as [|Hn]; [done|].
    exfalso. destruct (decide (polls = k)) as [->|]; [done|]. apply Hk, Hp. lia.
  - unfold handler_step in E. cbv [mbind option_bind] in E.
    destruct (topmost i (frames s)) as [[[a f] b]|] eqn:Et; [|done].
    apply topmost_spec in Et as (Ef & _). destruct s as [m inst o tm tr fr]. cbn in Ef. subst fr.
    assert (handler_rank f = match at_ f with HLock => 3 | HBody => 2 | HUnlock => 1 end)%nat
      as Hf by done.
    unfold rank. destruct (at_ f).
    + cbn in E. destruct o as [o|]; [by destruct (decide (o = i))|]. injection E as <-.
      cbn [main frames with_frames].
      rewrite !rank_frames, Hf. cbn [handler_rank at_]. lia.
    + injection E as <-. cbn [main frames with_frames]. rewrite !rank_frames, Hf.
      cbn [handler_rank at_]. unfold signalHandler. cbn [terminate].
      pose proof (rank_notify k m). destruct tm; cbn [main]; lia.
    + injection E as <-. cbn [main frames with_frames].
      rewrite rank_frames, sum_list_with_app, Hf. lia.
Qed.

Lemma internal_reachable s s' :
  reachable construct sigaction_ok s -> internal construct sigaction_ok s s' ->
  reachable construct sigaction_ok s'.
Proof.
  intros Hs [E|[i E]].
  - by apply (reachable_step _ _ s MainRuns).
  - by apply (reachable_step _ _ s (HandlerRuns i)).
Qed.

(** A signal came: its handler runs, or ran. *)
Definition signalled (s : t) : Prop := frames s <> [] \/ terminate s = true.

Lemma internal_signalled s s' :
  wf construct s -> internal construct sigaction_ok s s' -> signalled s -> signalled s'.
Proof.
  intros Hw [E|[i E]] Hs; cbn [perform] in E.
  - destruct (existsb _ (frames s)); [done|]. unfold main_step in E.
    destruct s as [m inst o tm tr fr]. destruct m; repeat case_match; simplify_eq/=; done.
  - unfold handler_step in E. cbv [mbind option_bind] in E.
    destruct (topmost i (frames s)) as [[[a f] b]|] eqn:Et; [|done].
    apply topmost_spec in Et as (Ef & _). destruct (at_ f) eqn:Eh.
    + destruct (owner s) as [o|]; [by destruct (decide (o = i))|]. injection E as <-.
      left. simpl. by destruct a.
    + injection E as <-. left. simpl. by destruct a.
    + injection E as <-. right. simpl. apply (wf_handled _ _ Hw f); [|done].
      rewrite Ef. apply elem_of_app. right. by left.
Qed.

Lemma runs_end k s :
  reachable construct sigaction_ok s -> status k <> Connecting ->
  sn (internal construct sigaction_ok) s.
Proof.
  intros Hs Hk. remember (rank k s) as r eqn:Er. revert s Hs Er.
  induction r as [r IH] using lt_wf_ind. intros s Hs ->. constructor. intros s' Hi.
  apply (IH (rank k s')); [by apply internal_rank|by eapply internal_reachable|done].
Qed.

Lemma idle_outcome s :
  wf construct s -> signalled s -> idle s ->
  main s = MDone (if construct is Some _ then EXIT_FAILURE else EXIT_SUCCESS).
Proof.
  intros Hw Hsig [[c Hc]|(_ & Hf & Ht)].
  - pose proof (wf_failed _ _ Hw) as Hfail. rewrite Hc in *. by subst.
  - destruct Hsig; congruence.
Qed.

Lemma internal_run s s' :
  reachable construct sigaction_ok s -> signalled s -> rtc (internal construct sigaction_ok) s s' ->
  reachable construct sigaction_ok s' /\ signalled s'.
Proof.
  intros Hs Hsig Hr. revert Hs Hsig. induction Hr as [s|s s1 s' Hi _ IH]; intros; [done|].
  apply IH; [by eapply internal_reachable|].
  by apply (internal_signalled s); [apply process_wf|..].
Qed.

Lemma main_reachable k s s' :
  reachable construct sigaction_ok s ->
  exec construct sigaction_ok (repeat MainRuns k) s = Some (Ret s') ->
  reachable construct sigaction_ok s'.
Proof.
  revert s. induction k as [|k IH]; intros s Hs; cbn [repeat exec]; [by intros [= <-]|].
  destruct (perform construct sigaction_ok MainRuns s) as [[s1| |]|] eqn:E; try done.
  apply IH. by apply (reachable_step _ _ s MainRuns).
Qed.

(** What [signalHandler] set is not set again. *)
Lemma perform_terminate e s s' :
  perform construct sigaction_ok e s = Some (Ret s') -> terminate s = true ->
  terminate s' = true /\ termination_reason s' = termination_reason s.
Proof.
  destruct e as [i n| |i|]; cbn [perform]; intros E Ht.
  - destruct (_ && _)%bool; [|done]. by injection E as <-.
  - destruct (existsb _ (frames s)); [done|]. unfold main_step in E.
    by destruct (main s); repeat case_match; simplify_eq/=.
  - unfold handler_step, signalHandler in E. cbv [mbind option_bind] in E. rewrite Ht in E.
    destruct (topmost i (frames s)) as [[[a f] b]|]; [|done].
    by destruct (at_ f); repeat case_match; simplify_eq/=.
  - destruct (main s); try done. by injection E as <-.
Qed.
End steps.

(** * Signals under the lock *)

(** A signal that interrupts the main thread while it holds the mutex, that
    is from the construction of the relay to the end of the wait except while it
    sleeps, locks a [std::mutex] its thread holds: undefined behaviour. *)
Theorem signal_under_lock_undefined {Tr : ITransport} (construct : option Caught)
    (sigaction_ok : Z -> bool) (s : t) (n : Z) :
  reachable construct sigaction_ok s -> main_holds (main s) = true ->
  n ∈ installed s -> masked 0 n s = false ->
  exec construct sigaction_ok [Signal 0 n; HandlerRuns 0] s = Some Undefined.
Proof.
  intros Hw%process_wf Hm Hn Hk. pose proof (wf_owner _ _ Hw) as Ho. unfold holders in Ho.
  rewrite Hm in Ho. destruct (owner s) as [j|] eqn:Eo; [|done]. injection Ho as <- _.
  cbn [exec perform]. rewrite bool_decide_true, Hk by done. cbn [andb negb].
  unfold handler_step. cbn. by rewrite Eo.
Qed.

(** * The process ends when it is told to *)

(** C27: Once a signal came, if no signal interrupted the thread that held the mutex
    and the transport leaves [Connecting] at some point, no schedule of the threads
    goes on for ever, and none is stuck before [main] has returned: every run of
    the program's own steps can be continued until [main] is done, with
    [EXIT_FAILURE] exactly if the relay could not be made.  Then there is no
    deadlock and no lost wakeup, spurious ones included.  But a signal that does
    interrupt the main thread while it holds the mutex, as it does from the
    construction of the relay to the end of the wait except while it sleeps,
    makes its handler lock a mutex its own thread holds, which is undefined. *)
Theorem really_terminates {Tr : ITransport} (construct : option Caught) (sigaction_ok : Z -> bool)
    (s : t) (k : nat) :
  reachable construct sigaction_ok s -> signalled s -> status k <> Connecting ->
  sn (internal construct sigaction_ok) s /\
  (forall s', rtc (internal construct sigaction_ok) s s' ->
     (exists s'', internal construct sigaction_ok s' s'') \/
     main s' = MDone (if construct is Some _ then EXIT_FAILURE else EXIT_SUCCESS)) /\
  (forall n, main_holds (main s) = true -> n ∈ installed s -> masked 0 n s = false ->
     exec construct sigaction_ok [Signal 0 n; HandlerRuns 0] s = Some Undefined).
Proof.
  intros Hs Hsig Hk. split; [by apply (runs_end construct sigaction_ok k)|].
  split; [|intros; by apply signal_under_lock_undefined]. intros s' Hr.
  destruct (internal_run construct sigaction_ok s s') as [Hs' Hsig']; [done..|].
  apply process_wf in Hs'.
  destruct (moves_or_idle construct sigaction_ok s') as [Hm|Hidle]; [done|by left|right].
  by apply idle_outcome.
Qed.

(** [main] waits, and another thread takes a signal. *)
Definition demo_waiting : list Event := repeat MainRuns 5 ++ [Signal 1 SIGINT].
Definition demo_signalled : t :=
  mk MBlocked [SIGHUP; SIGINT; SIGQUIT] None false None [mkFrame 1 SIGINT HLock].

Lemma demo_reachable :
  reachable (Tr := FakeTransport) None (fun _ => true) demo_signalled.
Proof.
  apply (reachable_step _ _ (mk MBlocked [SIGHUP; SIGINT; SIGQUIT] None false None [])
    (Signal 1 SIGINT)); [|done|by vm_compute].
  apply (main_reachable _ _ 5 init); [apply reachable_init|by vm_compute].
Qed.

Example demo_run_to_end :
  exec (Tr := FakeTransport) None (fun _ => true)
    (demo_waiting ++ repeat (HandlerRuns 1) 3 ++ repeat MainRuns 5) init
  = Some (Ret (mk (MDone EXIT_SUCCESS) [SIGHUP; SIGINT; SIGQUIT] None true
                 (Some (lit "Interrupt signal received")) [])).
Proof. vm_compute. reflexivity. Qed.

Lemma really_terminates_witness :
  sn (internal (Tr := FakeTransport) None (fun _ => true)) demo_signalled /\
  (forall s', rtc (internal (Tr := FakeTransport) None (fun _ => true)) demo_signalled s' ->
     (exists s'', internal (Tr := FakeTransport) None (fun _ => true) s' s'') \/
     main s' = MDone EXIT_SUCCESS) /\
  (forall n, main_holds (main demo_signalled) = true -> n ∈ installed demo_signalled ->
     masked 0 n demo_signalled = false ->
     exec (Tr := FakeTransport) None (fun _ => true) [Signal 0 n; HandlerRuns 0] demo_signalled
     = Some Undefined).
Proof.
  apply (really_terminates (Tr := FakeTransport) None (fun _ => true) demo_signalled 0).
  - apply demo_reachable.
  - left. discriminate.
  - discriminate.
Defined.

(** C28: Under any interleaving of [main] and the handlers at most one thread is
    in a critical section, and it is the one that holds [main_mutex]; the reason
    is set exactly when the flag is, to the text of one of the three signals, and
    neither changes afterwards; [main] returns [EXIT_SUCCESS] only after a signal;
    no step is undefined, if no signal interrupts the thread that holds the mutex. *)
Theorem really_safe {Tr : ITransport} (construct : option Caught) (sigaction_ok : Z -> bool) (s : t) :
  reachable construct sigaction_ok s ->
  holders s = match owner s with Some i => [i] | None => [] end /\
  (is_Some (termination_reason s) <-> terminate s = true) /\
  (forall r, termination_reason s = Some r -> r ∈ map reason_of [SIGHUP; SIGINT; SIGQUIT]) /\
  (main s = MDone EXIT_SUCCESS -> terminate s = true /\ construct = None) /\
  forall e, polite e s -> perform construct sigaction_ok e s <> Some Undefined /\
    forall s', perform construct sigaction_ok e s = Some (Ret s') -> terminate s = true ->
      terminate s' = true /\ termination_reason s' = termination_reason s.
Proof.
  intros Hw%process_wf. pose proof Hw as [Ho _ Hreason Hknown _ _ _ _ Hl Hf].
  split; [done|]. split; [done|]. split.
  { intros r Hr. destruct (Hknown r Hr) as (n & Hn & ->). by apply list_elem_of_fmap_2. }
  split.
  { intros Em. rewrite Em in *. split; [by apply Hl|]. by destruct construct. }
  intros e _. split; [by apply not_undefined|]. intros s'. apply perform_terminate.
Qed.

Lemma really_safe_witness :
  holders demo_signalled = [] /\
  forall e, polite e demo_signalled ->
    perform (Tr := FakeTransport) None (fun _ => true) e demo_signalled <> Some Undefined.
Proof.
  pose proof (really_safe (Tr := FakeTransport) None (fun _ => true) demo_signalled demo_reachable)
    as (H & _ & _ & _ & Hu).
  split; [exact H|]. intros e He. apply (Hu e He).
Defined.

(** Ctrl-C while the relay is being made. *)
Lemma signal_under_lock_undefined_witness :
  exec (Tr := FakeTransport) None (fun _ => true) [MainRuns; MainRuns] init
  = Some (Ret (mk MConstruct [SIGHUP; SIGINT; SIGQUIT] (Some 0%nat) false None [])) /\
  exec (Tr := FakeTransport) None (fun _ => true) [Signal 0 SIGINT; HandlerRuns 0]
    (mk MConstruct [SIGHUP; SIGINT; SIGQUIT] (Some 0%nat) false None []) = Some Undefined.
Proof.
  split; [reflexivity|].
  apply (signal_under_lock_undefined (Tr := FakeTransport)).
  - apply (main_reachable _ _ 2 init); [apply reachable_init|by vm_compute].
  - reflexivity.
  - apply (bool_decide_unpack _). vm_compute. exact I.
  - reflexivity.
Defined.

End ReallyMain.
