(* ===== verification/Text.v ===== *)
(** * Text of the programs under cmd/: decimal integers, streams, C strings

    What the programs use of the standard library on text: [operator<<] of an
    integer, [std::setw] and [std::setfill], [std::atoi], [std::stoi], and
    reading a character pointer up to its terminating zero. *)

From S2P Require Export Hex.

(** ** Output *)

Definition digit (d : Z) : ascii := char_of_code (48 + d).

(** The digits of a number, put in front of [x]. *)
Fixpoint dec_digits (fuel : nat) (y : Z) (x : chars) : chars :=
  match fuel with
  | O => x
  | S fuel' =>
      let x' := digit (y mod 10) :: x in
      if y / 10 =? 0 then x' else dec_digits fuel' (y / 10) x'
  end.

(** A number has no more decimal digits than binary ones. *)
Definition dec_fuel (y : Z) : nat := S (Z.to_nat (Z.log2 y)).

(** [os << y] *)
Definition print_int (y : Z) : chars :=
  if y <? 0 then "-"%char :: dec_digits (dec_fuel (- y)) (- y) []
  else dec_digits (dec_fuel y) y [].

(** [os << std::setfill(fill) << std::setw(n) << x], adjusted to the right *)
Definition setw (fill : ascii) (n : nat) (x : chars) : chars :=
  replicate (n - length x) fill ++ x.

(** [os << p] for a pointer to the first of these characters: the text ends at
    the first zero, and reading past the last element is undefined. *)
Fixpoint c_string (data : bytes) : result chars :=
  match data with
  | [] => Undefined
  | b :: data' =>
      if b =? 0 then Ret [] else
        text ← c_string data';
        Ret (char_of_code b :: text)
  end.

(** The bytes of a character string. *)
Definition chars_bytes (x : chars) : bytes := map char_code x.

(** ** Input *)

(** [isspace] in the "C" locale *)
Definition isspace (c : ascii) : bool :=
  ((9 <=? char_code c) && (char_code c <=? 13) || (char_code c =? 32))%bool.
Definition isdigit (c : ascii) : bool :=
  ((48 <=? char_code c) && (char_code c <=? 57))%bool.

Fixpoint skip_space (x : chars) : chars :=
  match x with
  | c :: x' => if isspace c then skip_space x' else x
  | [] => []
  end.

Fixpoint scan_digits (y : Z) (x : chars) : Z :=
  match x with
  | c :: x' => if isdigit c then scan_digits (y * 10 + (char_code c - 48)) x' else y
  | [] => y
  end.

(** The integer [strtol] finds at the start of a text, in base ten and before
    it is cut to a range; [None] when there is none. *)
Definition strtol (x : chars) : option Z :=
  let '(neg, digits) :=
    match skip_space x with
    | c :: x' =>
        if Ascii.eqb c "-" then (true, x')
        else if Ascii.eqb c "+" then (false, x') else (false, c :: x')
    | [] => (false, [])
    end in
  match digits with
  | c :: _ =>
      if isdigit c
      then Some (if neg : bool then - scan_digits 0 digits else scan_digits 0 digits)
      else None
  | [] => None
  end.

(** [std::atoi]: undefined when the value is not an [int]. *)
Definition atoi (x : chars) : result Z :=
  match strtol x with Some y => int_op y | None => Ret 0 end.

(** [std::stoi(x, nullptr)] *)
Definition stoi (x : chars) : result Z :=
  match strtol x with
  | Some y =>
      if ((- 2 ^ 31 <=? y) && (y <? 2 ^ 31))%bool then Ret y else Throw out_of_range
  | None => Throw invalid_argument
  end.

(** * What is printed is read back *)

Definition is_int (y : Z) : Prop := - 2 ^ 31 <= y < 2 ^ 31.

Lemma int_op_ok y : is_int y -> int_op y = Ret y.
Proof.
  intros [H1 H2]. unfold int_op.
  by rewrite (proj2 (Z.leb_le _ _) H1), (proj2 (Z.ltb_lt _ _) H2).
Qed.

Lemma code_of_char c : 0 <= c < 256 -> char_code (char_of_code c) = c.
Proof.
  intros Hc. unfold char_code, char_of_code. rewrite wrap_small by exact Hc.
  rewrite N_ascii_embedding by lia. lia.
Qed.

Lemma char_of_char_code a : char_of_code (char_code a) = a.
Proof.
  unfold char_of_code, char_code. pose proof (N_ascii_bounded a) as H.
  rewrite wrap_small by (unfold in_u; lia). by rewrite N2Z.id, ascii_N_embedding.
Qed.

Lemma char_code_u8 a : is_u8 (char_code a).
Proof. unfold char_code, in_u. pose proof (N_ascii_bounded a). lia. Qed.

Lemma chars_bytes_wf x : wf_bytes (chars_bytes x).
Proof. apply Forall_fmap, Forall_true. apply char_code_u8. Qed.

Lemma digit_spec d : 0 <= d < 10 ->
  char_code (digit d) = 48 + d /\ isdigit (digit d) = true /\ isspace (digit d) = false /\
  Ascii.eqb (digit d) "-" = false /\ Ascii.eqb (digit d) "+" = false.
Proof.
  intros Hd. assert (char_code (digit d) = 48 + d) as E by (apply code_of_char; lia).
  unfold isdigit, isspace. rewrite E. split_and!; [done|lia|lia|..].
  - apply Ascii.eqb_neq. intros Ed. rewrite Ed in E. change (char_code "-") with 45 in E. lia.
  - apply Ascii.eqb_neq. intros Ed. rewrite Ed in E. change (char_code "+") with 43 in E. lia.
Qed.

Lemma log2_tenth y fuel :
  0 <= y -> y / 10 <> 0 -> (Z.to_nat (Z.log2 y) < S fuel)%nat ->
  (Z.to_nat (Z.log2 (y / 10)) < fuel)%nat.
Proof.
  intros Hy E Hf. pose proof (Z.log2_nonneg (y / 10)). pose proof (Z.log2_nonneg y).
  assert (Z.log2 (y / 10) < Z.log2 y); [|lia].
  apply Z.log2_lt_pow2; [lia|]. pose proof (Z.log2_spec y).
  destruct (decide (Z.log2 y = 0)) as [E0|]; [rewrite E0 in *; lia|].
  rewrite Z.pow_succ_r in * by lia. lia.
Qed.

Lemma scan_printed fuel y x v :
  0 <= y -> (Z.to_nat (Z.log2 y) < fuel)%nat ->
  exists d x', dec_digits fuel y x = digit d :: x' /\ 0 <= d < 10 /\
    scan_digits v (dec_digits fuel y x)
    = scan_digits (v * 10 ^ Z.of_nat (length (dec_digits fuel y x) - length x) + y) x /\
    (length x < length (dec_digits fuel y x))%nat.
Proof.
  revert y x v. induction fuel as [|fuel IH]; intros y x v Hy Hf; [lia|].
  cbn [dec_digits]. assert (0 <= y mod 10 < 10) as Hm by (apply Z.mod_pos_bound; lia).
  destruct (digit_spec _ Hm) as (Hc & Hd & _).
  destruct (Z.eqb_spec (y / 10) 0) as [E|E].
  - exists (y mod 10), x. split_and!; [done|lia|lia| |cbn; lia].
    cbn [scan_digits length]. rewrite Hd, Hc. f_equal.
    replace (S (length x) - length x)%nat with 1%nat by lia.
    change (10 ^ Z.of_nat 1) with 10. lia.
  - destruct (IH (y / 10) (digit (y mod 10) :: x) v) as (d & x' & Ed & Hdr & Es & Hl).
    { lia. }
    { by apply log2_tenth. }
    exists d, x'. cbn [length] in Hl. split_and!; [done|lia|lia| |lia].
    rewrite Es. cbn [scan_digits]. rewrite Hd, Hc. f_equal. cbn [length].
    replace (length (dec_digits fuel (y / 10) (digit (y mod 10) :: x)) - length x)%nat
      with (S (length (dec_digits fuel (y / 10) (digit (y mod 10) :: x)) - S (length x))) by lia.
    rewrite Nat2Z.inj_succ, Z.pow_succ_r by lia. lia.
Qed.

Lemma strtol_print y : strtol (print_int y) = Some y.
Proof.
  unfold print_int, strtol.
  destruct (Z.ltb_spec y 0) as [Hy|Hy].
  - destruct (scan_printed (dec_fuel (- y)) (- y) [] 0) as (d & x' & Ed & Hd & Es & _); [lia|unfold dec_fuel; lia|].
    destruct (digit_spec d Hd) as (_ & Hdig & _). rewrite Ed in Es |- *.
    cbn [skip_space]. change (isspace "-") with false. cbv iota.
    change (Ascii.eqb "-" "-") with true. cbv iota beta. rewrite Hdig, Es. cbn [scan_digits]. f_equal; lia.
  - destruct (scan_printed (dec_fuel y) y [] 0) as (d & x' & Ed & Hd & Es & _); [lia|unfold dec_fuel; lia|].
    destruct (digit_spec d Hd) as (_ & Hdig & Hsp & Hm & Hp).
    rewrite Ed in Es |- *. cbn [skip_space]. rewrite Hsp, Hm, Hp, Hdig, Es. cbn [scan_digits].
    f_equal; lia.
Qed.

(** Printed integers are read back by both parsers. *)
Lemma stoi_print y : is_int y -> stoi (print_int y) = Ret y.
Proof.
  intros [H1 H2]. unfold stoi. rewrite strtol_print.
  by rewrite (proj2 (Z.leb_le _ _) H1), (proj2 (Z.ltb_lt _ _) H2).
Qed.
Lemma atoi_print y : is_int y -> atoi (print_int y) = Ret y.
Proof. intros Hy. unfold atoi. rewrite strtol_print. by apply int_op_ok. Qed.

Lemma length_setw fill n x : (n <= length (setw fill n x))%nat.
Proof. unfold setw. rewrite length_app, length_replicate. lia. Qed.

(** ** C strings *)

Lemma c_string_unterminated data : Forall (fun b => b <> 0) data -> c_string data = Undefined.
Proof.
  induction 1 as [|b data Hb _ IH]; [done|]. cbn [c_string].
  rewrite (proj2 (Z.eqb_neq _ _) Hb). cbv [mbind result_bind]. by rewrite IH.
Qed.

Lemma c_string_terminated x rest :
  Forall (fun c => c <> "000"%char) x -> c_string (chars_bytes x ++ 0 :: rest) = Ret x.
Proof.
  induction 1 as [|c x Hc _ IH]; [done|]. cbn [chars_bytes map app c_string].
  rewrite (proj2 (Z.eqb_neq _ _)).
  - cbv [mbind result_bind]. fold (chars_bytes x). by rewrite IH, char_of_char_code.
  - intros E. apply Hc. rewrite <- (char_of_char_code c), E. reflexivity.
Qed.

Lemma chars_bytes_nonzero x :
  Forall (fun c => c <> "000"%char) x -> Forall (fun b => b <> 0) (chars_bytes x).
Proof.
  induction 1 as [|c x Hc _ IH]; [constructor|]. cbn [chars_bytes map]. constructor; [|exact IH].
  intros E. apply Hc. rewrite <- (char_of_char_code c), E. reflexivity.
Qed.
