(* ===== verification/TestLogger.v ===== *)
(** * The log of the programs (cmd/really/testLogger.cpp)

    [testLogger::log] writes one line per call, under a mutex.  The levels are
    an enumeration of the transport (a submodule): [LogLevels] names the
    enumerators the sources use.  The time of day is an argument. *)

From S2P Require Export Text.

Class LogLevels := {
  LogLevel : Type;
  #[global] LogLevel_eq_dec :: EqDecision LogLevel;
  fatal : LogLevel;
  error : LogLevel;
  warn : LogLevel;
  info : LogLevel;
  debug : LogLevel;
  levels_distinct : NoDup [fatal; error; warn; info; debug];
}.

(** [std::tm] *)
Record tm := mkTm {
  tm_mon : Z; tm_mday : Z; tm_year : Z; tm_hour : Z; tm_min : Z; tm_sec : Z;
}.

Definition two_digits (x : Z) : chars := setw "0" 2 (print_int x).

(** [std::put_time(&now, "%m-%d-%Y %H:%M:%S")] *)
Definition put_time (now : tm) : chars :=
  two_digits (tm_mon now + 1) ++ lit "-" ++ two_digits (tm_mday now) ++ lit "-"
  ++ print_int (tm_year now + 1900) ++ lit " " ++ two_digits (tm_hour now) ++ lit ":"
  ++ two_digits (tm_min now) ++ lit ":" ++ two_digits (tm_sec now).

Section log.
Context {L : LogLevels}.

Definition lvl (level : LogLevel) : chars :=
  if decide (level = fatal) then lit "FATAL"
  else if decide (level = error) then lit "ERROR"
  else if decide (level = warn) then lit "WARN"
  else if decide (level = debug) then lit "DEBUG"
  else lit "INFO".

(** The line of a call at time [now], [us] microseconds past the second. *)
Definition log_line (now : tm) (us : Z) (level : LogLevel) (string : chars) : chars :=
  put_time now ++ lit "." ++ setw "0" 6 (print_int us) ++ lit " " ++ setw " " 6 (lvl level)
  ++ lit " | " ++ string.
End log.

(** * The columns of a line *)

Lemma length_dec_digits k fuel y x :
  (Z.to_nat (Z.log2 y) < fuel)%nat -> 0 <= y < 10 ^ Z.of_nat (S k) ->
  (length (dec_digits fuel y x) <= S k + length x)%nat /\
  (10 ^ Z.of_nat k <= y -> length (dec_digits fuel y x) = (S k + length x)%nat).
Proof.
  revert fuel y x. induction k as [|k IH]; intros fuel y x Hf Hy.
  - destruct fuel as [|fuel]; [lia|]. cbn [dec_digits]. change (10 ^ Z.of_nat 1) with 10 in Hy.
    rewrite (proj2 (Z.eqb_eq (y / 10) 0)) by lia. done.
  - destruct fuel as [|fuel]; [lia|]. cbn [dec_digits].
    rewrite (Nat2Z.inj_succ (S k)), Z.pow_succ_r in Hy by lia.
    destruct (Z.eqb_spec (y / 10) 0) as [E|E].
    + split; [cbn; lia|]. intros Hk. exfalso.
      assert (10 ^ Z.of_nat (S k) >= 10); [|lia].
      rewrite Nat2Z.inj_succ, Z.pow_succ_r by lia. lia.
    + assert (Z.to_nat (Z.log2 (y / 10)) < fuel)%nat as Hf' by (apply log2_tenth; lia).
      destruct (IH fuel (y / 10) (digit (y mod 10) :: x) Hf') as [H1 H2]; [lia|].
      cbn [length] in H1, H2. split; [lia|]. intros Hk.
      rewrite Nat2Z.inj_succ, Z.pow_succ_r in Hk by lia. rewrite H2; lia.
Qed.

Lemma length_print_int k y :
  0 <= y < 10 ^ Z.of_nat (S k) ->
  (length (print_int y) <= S k)%nat /\
  (10 ^ Z.of_nat k <= y -> length (print_int y) = S k).
Proof.
  intros Hy. unfold print_int. rewrite (proj2 (Z.ltb_ge y 0)) by lia.
  destruct (length_dec_digits k (dec_fuel y) y []) as [H1 H2]; [unfold dec_fuel; lia|done|].
  cbn [length] in *. split; [lia|]. intros Hk. rewrite H2; lia.
Qed.

Lemma length_setw_exact fill n x : (length x <= n)%nat -> length (setw fill n x) = n.
Proof. intros Hx. unfold setw. rewrite length_app, length_replicate. lia. Qed.

Definition wf_tm (now : tm) : Prop :=
  0 <= tm_mon now < 12 /\ 0 <= tm_mday now < 32 /\ 1000 <= tm_year now + 1900 < 10000 /\
  0 <= tm_hour now < 24 /\ 0 <= tm_min now < 60 /\ 0 <= tm_sec now < 62.

Lemma length_two_digits x : 0 <= x < 100 -> length (two_digits x) = 2%nat.
Proof. intros Hx. apply length_setw_exact, (length_print_int 1). exact Hx. Qed.

Lemma length_put_time now : wf_tm now -> length (put_time now) = 19%nat.
Proof.
  intros (H1 & H2 & H3 & H4 & H5 & H6). unfold put_time.
  rewrite !length_app, !length_two_digits by lia.
  destruct (length_print_int 3 (tm_year now + 1900)) as [_ ->]; [|done|].
  - change (10 ^ Z.of_nat 4) with 10000. lia.
  - change (10 ^ Z.of_nat 3) with 1000. lia.
Qed.

(** The message starts at column 36, for each level; and the level is readable. *)
Lemma log_line_columns {L : LogLevels} now us level string :
  wf_tm now -> 0 <= us < 1000000 ->
  drop 36 (log_line now us level string) = string /\
  take 6 (drop 27 (log_line now us level string)) = setw " " 6 (lvl level).
Proof.
  intros Hn Hu. unfold log_line.
  assert (length (setw "0" 6 (print_int us)) = 6%nat) as Hus.
  { apply length_setw_exact, (length_print_int 5). exact Hu. }
  assert (length (setw " " 6 (lvl level)) = 6%nat) as Hl.
  { apply length_setw_exact. unfold lvl. repeat case_decide; cbn; lia. }
  pose proof (length_put_time now Hn) as Hd.
  set (u := setw "0" 6 (print_int us)) in *. set (l := setw " " 6 (lvl level)) in *.
  assert (put_time now ++ lit "." ++ u ++ lit " " ++ l ++ lit " | " ++ string
    = (put_time now ++ lit "." ++ u ++ lit " ") ++ l ++ lit " | " ++ string) as ->
    by (by rewrite <- !app_assoc).
  split.
  - rewrite (app_assoc l), (app_assoc _ (l ++ _)). apply drop_app_length'.
    rewrite !length_app, Hd, Hus, Hl. done.
  - rewrite drop_app_length' by (rewrite !length_app, Hd, Hus; done).
    by apply take_app_length'.
Qed.
