(* ===== verification/ReallyTest.v ===== *)
(** * The test client (cmd/really/reallyTest.cpp)

    A program that publishes one object or subscribes for a while, over the
    library's client.  What the transport delivers while the program sleeps is
    the argument [during]: for each of the three sleeps, the notifications of
    the transport with the data waiting at each.  Only what the program itself
    logs is recorded. *)

From S2P Require Export Integrity TestLogger.

Module ReallyTest.

(** The delegate lives until the end of the block that makes it; it copies
    nothing out of the data. *)
Definition sd : Z := 1.
Definition app (in_block : bool) : SubscriberApp :=
  {| alive := fun _ => in_block; consumes := fun _ => false |}.

Record t := mk { client : QuicRClient.t; log : list chars }.

Definition on_client {A} (m : M QuicRClient.t A) : M t A := fun s =>
  let '(r, c) := m (client s) in (r, mk c (log s)).

(** [logger.log(qtransport::LogLevel::info, message)] *)
Definition say (message : chars) : M t unit :=
  modify (fun s => mk (client s) (log s ++ [message])).

(** What the methods of [subDelegate] log. *)
Definition subDelegate (e : QuicRClient.Event) : result (option chars) :=
  match e with
  | QuicRClient.onSubscribeResponse _ quicr_namespace status =>
      Ret (Some (lit "onSubscriptionResponse: name: " ++ ns_to_hex quicr_namespace ++ lit "/"
        ++ print_int (_sig_bits quicr_namespace) ++ lit " status: "
        ++ print_int (enum_to_u8 status)))
  | QuicRClient.onSubscriptionEnded _ quicr_namespace _ =>
      Ret (Some (lit "onSubscriptionEnded: name: " ++ ns_to_hex quicr_namespace ++ lit "/"
        ++ print_int (_sig_bits quicr_namespace)))
  | QuicRClient.onSubscribedObject _ quicr_name _ _ _ data =>
      (* log_msg << data.data(), a pointer to characters *)
      text ← (if decide (data = []) then Ret [] else
                text ← c_string data; Ret (lit " data: " ++ text));
      Ret (Some (lit "recv object: name: " ++ to_hex quicr_name ++ lit " data sz: "
        ++ print_int (Z.of_nat (length data)) ++ text))
  | QuicRClient.onPublishIntentResponse _ _ _ => Ret None
  end.

Definition callback (e : QuicRClient.Event) : M t unit :=
  message ← lift (subDelegate e);
  match message with Some m => say m | None => mret tt end.

(** Run a part of the client, and then the callbacks it made. *)
Definition with_callbacks (m : M QuicRClient.t unit) : M t unit := fun s =>
  let '(r, s') := on_client m s in
  let new := drop (length (QuicRClient.events (client s))) (QuicRClient.events (client s')) in
  match r with
  | Ret _ => mfor new callback s'
  | _ => (r, s')
  end.

Section program.
Context {T : Target} {Tr : ITransport}.

(** Data arrives, and the transport tells the client. *)
Definition arrival (in_block : bool) (waiting : list bytes) : M t unit :=
  on_client (modify (fun c =>
    QuicRClient.with_io (QuicRClient.rx c ++ waiting) (QuicRClient.tx c)
      (QuicRClient.events c) c));;
  with_callbacks (QuicRClient.on_recv_notify (App := app in_block)).

(** [std::this_thread::sleep_for] *)
Definition sleep_for (in_block : bool) (arrivals : list (list bytes)) : M t unit :=
  mfor arrivals (arrival in_block).

Definition publish_branch (name : Name) (data : bytes) : M t unit :=
  say (lit "Publish");;
  on_client (QuicRClient.publishNamedObject name data).

Definition subscribe_branch (name : Name) (draw : Z) (during : nat -> list (list bytes))
    : M t unit :=
  say (lit "Subscribe");;
  nspace ← lift (make_Namespace name 96);
  say (lit "Subscribe to " ++ to_hex name ++ lit "/" ++ print_int 96);;
  on_client (QuicRClient.subscribe (Some sd) nspace SubscribeIntent.immediate draw);;
  say (lit "Sleeping for 20 seconds before unsubscribing");;
  sleep_for true (during 0%nat);;
  say (lit "Now unsubscribing");;
  on_client (QuicRClient.unsubscribe nspace);;
  say (lit "Sleeping for 15 seconds before exiting");;
  sleep_for true (during 1%nat).

(** The program once it has a client; [~QuicRClient] runs at the end. *)
Definition with_client (name : Name) (data : bytes) (draw : Z)
    (during : nat -> list (list bytes)) : M t Z :=
  (if 0 <? Z.of_nat (length data) then publish_branch name data
   else subscribe_branch name draw during);;
  sleep_for false (during 2%nat);;
  with_callbacks (QuicRClient.destruct_client (App := app false));;
  mret 0.

(** How the process ends: the status it exits with, an exception nothing
    catches, or undefined behaviour; with its client, if it came to have one. *)
Definition Outcome : Type := result Z * list chars * option QuicRClient.t.

(** The relay the environment names. *)
Definition relay_of (getenv : chars -> option chars) : result (chars * Z) :=
  let relayName := default (lit "127.0.0.1") (getenv (lit "REALLY_RELAY")) in
  port ← match getenv (lit "REALLY_PORT") with
         | Some portVar => atoi portVar
         | None => Ret 1234
         end;
  Ret (relayName, port).

(** [None]: the transport was still connecting when the fuel ended. *)
Definition main (fuel : nat) (argv : list chars) (getenv : chars -> option chars)
    (cid draw : Z) (during : nat -> list (list bytes)) : option Outcome :=
  let argc := Z.of_nat (length argv) in
  if (negb (argc =? 2) && negb (argc =? 3))%bool then Some (Ret (-1), [], None)
  else
    let started := '(relayName, port) ← relay_of getenv;
                   name ← Name_of_hex (argv !!! 1%nat);
                   Ret (relayName, port, name) in
    match started with
    | Ret (relayName, port, name) =>
        let data := if argc =? 3 then chars_bytes (argv !!! 2%nat) else [] in
        let said := [lit "Name = " ++ to_hex name;
                     lit "Connecting to " ++ relayName ++ lit ":" ++ print_int port] in
        let relay := mkRelayInfo relayName (wrap 16 port) Protocol.QUIC in
        made ← QuicRClient.QuicRClient_relay fuel relay cid [] 1;
        match made with
        | Ret c =>
            let '(r, s) := with_client name data draw during (mk c said) in
            Some (r, log s, Some (client s))
        | Throw e => Some (Throw e, said, None)
        | Undefined => Some (Undefined, said, None)
        end
    | Throw e => Some (Throw e, [], None)
    | Undefined => Some (Undefined, [], None)
    end.
End program.

Definition no_env : chars -> option chars := fun _ => None.
Definition quiet : nat -> list (list bytes) := fun _ => [].

(** * What every run keeps *)

Definition same_ids (c c' : QuicRClient.t) : Prop :=
  QuicRClient.transport_context_id c' = QuicRClient.transport_context_id c /\
  QuicRClient.transport_stream_id c' = QuicRClient.transport_stream_id c.

(** A part of the program that, unless its behaviour is undefined, returns and
    sends the packets [ps]. *)
Definition sends (ps : list Packet) (m : M t unit) : Prop := forall s,
  QuicRClient.wf (client s) -> safe (m s).1 ->
  (m s).1 = Ret tt /\ QuicRClient.wf (client (m s).2) /\
  QuicRClient.tx (client (m s).2) = QuicRClient.tx (client s) ++ ps /\
  same_ids (client s) (client (m s).2).

Lemma sends_bind ps qs m (k : unit -> M t unit) :
  sends ps m -> sends qs (k tt) -> sends (ps ++ qs) (m ≫= k).
Proof.
  intros Hm Hk s Hw. specialize (Hm s Hw). unfold mbind, M_bind.
  destruct (m s) as [[[]|e|] s']; cbn [fst snd] in *.
  - destruct Hm as (_ & Hw' & Ht & Hi & Hj); [done|]. intros Hs.
    destruct (Hk s' Hw' Hs) as (E & Hw2 & Ht2 & Hi2 & Hj2). split; [done|]. split; [done|].
    split; [by rewrite Ht2, Ht, app_assoc|split; congruence].
  - by destruct Hm.
  - intros Hs. by destruct Hs.
Qed.

Lemma sends_then ps m (k : unit -> M t unit) : sends [] m -> sends ps (k tt) -> sends ps (m ≫= k).
Proof. apply (sends_bind []). Qed.

Lemma sends_say message : sends [] (say message).
Proof. intros s Hw _. cbn. by rewrite app_nil_r. Qed.

Lemma sends_mfor {A} (l : list A) f : (forall a, sends [] (f a)) -> sends [] (mfor l f).
Proof.
  intros Hf. induction l as [|a l IH]; cbn [mfor]; [|by apply sends_then].
  intros s Hw _. cbn. by rewrite app_nil_r.
Qed.

Lemma subDelegate_no_throw e : (exists o, subDelegate e = Ret o) \/ subDelegate e = Undefined.
Proof.
  destruct e; cbn [subDelegate]; [left; by eexists..| |left; by eexists].
  case_decide; [left; by eexists|]. cbv [mbind result_bind].
  assert ((exists x, c_string data = Ret x) \/ c_string data = Undefined) as [[x ->]| ->];
    [|left; by eexists|by right].
  clear. induction data as [|b data IH]; [by right|]. cbn [c_string].
  destruct (b =? 0); [left; by eexists|]. cbv [mbind result_bind].
  destruct IH as [[x ->]| ->]; [left; by eexists|by right].
Qed.

Lemma sends_callback e : sends [] (callback e).
Proof.
  unfold callback. intros s Hw Hs. unfold lift, mbind, M_bind in *.
  destruct (subDelegate_no_throw e) as [[[m|] E]|E]; rewrite E in *;
    [by apply (sends_say m)|cbn; by rewrite app_nil_r|by destruct Hs].
Qed.

(** A part of the client that returns and sends nothing, with its callbacks. *)
Lemma sends_with_callbacks (m : M QuicRClient.t unit) :
  (forall c, QuicRClient.wf c -> (m c).1 = Ret tt \/ (m c).1 = Undefined) ->
  preserves QuicRClient.wf m anything ->
  (forall x i j, preserves (fun c => QuicRClient.tx c = x /\
     QuicRClient.transport_context_id c = i /\ QuicRClient.transport_stream_id c = j) m anything) ->
  sends [] (with_callbacks m).
Proof.
  intros Hm Hwf Htx s Hw. unfold with_callbacks, on_client.
  specialize (Hm (client s) Hw). specialize (Hwf _ Hw). 
  specialize (Htx _ _ _ (client s) (conj eq_refl (conj eq_refl eq_refl))).
  destruct (m (client s)) as [r c']. cbn [fst snd] in *.
  destruct Hm as [-> | ->]; [|by intros []].
  destruct Hwf as [Hw' _]; [done|]. destruct Htx as [(Ht & Hi & Hj) _]; [done|]. intros Hs.
  destruct (sends_mfor (drop (length (QuicRClient.events (client s))) (QuicRClient.events c'))
    callback sends_callback (mk c' (log s)) Hw' Hs) as (E & Hw2 & Ht2 & Hi2 & Hj2).
  cbn [client] in *. split; [done|]. split; [done|]. split; [|split].
  - etransitivity; [exact Ht2|]. by rewrite Ht.
  - etransitivity; [exact Hi2|done].
  - etransitivity; [exact Hj2|done].
Qed.

Section runs.
Context {T : Target} {Tr : ITransport}.

Lemma sends_sleep_for b arrivals : sends [] (sleep_for b arrivals).
Proof.
  apply sends_mfor. intros waiting. apply sends_then.
  - intros s Hw _. cbn. rewrite app_nil_r. split; [done|]. split; [|done].
    by apply QuicRClient.wf_with_io.
  - apply sends_with_callbacks.
    + intros c _. apply QuicRClient.on_recv_notify_returns.
    + apply QuicRClient.on_recv_notify_wf.
    + intros x i j. apply QuicRClient.kept_on_recv_notify, QuicRClient.quiet_framed.
Qed.

Lemma sends_destruct_client b : sends [] (with_callbacks (QuicRClient.destruct_client (App := app b))).
Proof.
  apply sends_with_callbacks.
  - intros c [Hw _]. left. unfold QuicRClient.destruct_client, QuicRClient.removeSubscribeState.
    cbv [mbind M_bind gets].
    destruct (QuicRClient.remove_all_run (App := app b) (QuicRClient.subscribe_state c)
      SubscribeStatus.ConnectionClosed c) as (sds & -> & _); [apply Hw..|done|done].
  - apply QuicRClient.removeSubscribeState_wf.
  - intros x i j. apply QuicRClient.kept_removeSubscribeState, QuicRClient.quiet_framed.
Qed.

(** What follows the branches: the last sleep and the end of the client. *)
Lemma ending s during :
  QuicRClient.wf (client s) ->
  let run := (sleep_for false (during 2%nat);;
              with_callbacks (QuicRClient.destruct_client (App := app false));; mret 0) s in
  safe run.1 -> run.1 = Ret 0 /\ QuicRClient.tx (client run.2) = QuicRClient.tx (client s).
Proof.
  intros Hw run. subst run. unfold mbind, M_bind.
  pose proof (sends_sleep_for false (during 2%nat) s Hw) as H1.
  destruct (sleep_for false (during 2%nat) s) as [[[]|e|] s1]; cbn [fst snd] in *;
    [|by destruct H1|by intros []].
  destruct H1 as (_ & Hw1 & E1 & _); [done|]. rewrite app_nil_r in E1. rewrite <- E1.
  pose proof (sends_destruct_client false s1 Hw1) as H2.
  destruct (with_callbacks _ s1) as [[[]|e|] s2]; cbn [fst snd] in *;
    [|by destruct H2|by intros []].
  destruct H2 as (_ & _ & E2 & _); [done|]. rewrite app_nil_r in E2. by intros _.
Qed.

Lemma made_client fuel relay cid fs ci c :
  proto relay = Protocol.QUIC ->
  QuicRClient.QuicRClient_relay fuel relay cid fs ci = Some (Ret c) ->
  c = QuicRClient.init false start (createStream start false) fs ci.
Proof.
  intros Hp. unfold QuicRClient.QuicRClient_relay, QuicRClient.make_transport. rewrite Hp.
  destruct (wait_while_connecting 2 fuel 0); [|done]. cbn [mbind option_bind].
  by case_decide; intros [= <-].
Qed.

(** [main] past the arguments and the environment. *)
Lemma main_with_client fuel prog hex more getenv cid draw during host port n c :
  (length more <= 1)%nat ->
  relay_of getenv = Ret (host, port) -> Name_of_hex hex = Ret n ->
  QuicRClient.QuicRClient_relay fuel (mkRelayInfo host (wrap 16 port) Protocol.QUIC) cid [] 1
    = Some (Ret c) ->
  main fuel (prog :: hex :: more) getenv cid draw during
  = let '(r, s) := with_client n (match more with text :: _ => chars_bytes text | [] => [] end)
        draw during (mk c [lit "Name = " ++ to_hex n;
                           lit "Connecting to " ++ host ++ lit ":" ++ print_int port]) in
    Some (r, log s, Some (client s)).
Proof.
  intros Hl Hr Hn Hc. unfold main.
  destruct more as [|text [|more]]; [| |simpl in Hl; lia].
  all: cbn [length Z.of_nat Pos.of_succ_nat]; cbv [mbind result_bind option_bind].
  all: rewrite Hr; cbn; rewrite Hn; cbn; rewrite Hc; done.
Qed.
End runs.

(** The namespace a subscriber asks for. *)
Definition subscription (n : Name) : Namespace := mkNamespace (name_and n (mask_name 96)) 96.

Section subscribing.
Context {T : Target} {Tr : ITransport}.

(** The branch up to the first sleep, for a new client. *)
Lemma subscribed_client n draw c during said :
  c = QuicRClient.init false start (createStream start false) [] 1 ->
  exists c1 said1,
    subscribe_branch n draw during (mk c said)
    = (sleep_for true (during 0%nat);;
       say (lit "Now unsubscribing");;
       on_client (QuicRClient.unsubscribe (subscription n));;
       say (lit "Sleeping for 15 seconds before exiting");;
       sleep_for true (during 1%nat)) (mk c1 said1) /\
    QuicRClient.wf c1 /\ QuicRClient.rx c1 = [] /\ QuicRClient.events c1 = [] /\
    QuicRClient.sub_delegates c1 = [(subscription n, Some sd)] /\
    QuicRClient.transport_context_id c1 = start /\
    QuicRClient.transport_stream_id c1 = createStream start false /\
    QuicRClient.tx c1 = [mkPacket start (createStream start false) (Subscribe_wire
      (mkSubscribe 1 (create_transaction_id draw) (subscription n) SubscribeIntent.immediate))].
Proof.
  intros ->. unfold subscribe_branch.
  set (c0 := QuicRClient.init _ _ _ _ _).
  set (run := QuicRClient.subscribe (Some sd) (subscription n) SubscribeIntent.immediate draw c0).
  assert (run = (Ret tt, QuicRClient.with_io []
    [mkPacket start (createStream start false) (Subscribe_wire
      (mkSubscribe 1 (create_transaction_id draw) (subscription n) SubscribeIntent.immediate))] []
    (QuicRClient.with_subscribe_state [(subscription n, QuicRClient.mkSubscribeContext
        QuicRClient.Pending start (createStream start false) (create_transaction_id draw))]
      (QuicRClient.with_sub_delegates [(subscription n, Some sd)] c0)))) as Erun.
  { subst run. unfold QuicRClient.subscribe. rewrite (serialize_wire _ _ (put_Subscribe_wire _)).
    reflexivity. }
  exists run.2, (said ++ [lit "Subscribe"; lit "Subscribe to " ++ to_hex n ++ lit "/" ++ print_int 96;
    lit "Sleeping for 20 seconds before unsubscribing"]).
  split.
  { unfold say, modify, on_client, lift. cbv [mbind M_bind].
    rewrite make_Namespace_ret by lia. fold (subscription n). cbn [client log fst snd].
    fold run. rewrite Erun. cbn [client log fst snd]. by rewrite <- !app_assoc. }
  split.
  { apply (QuicRClient.subscribe_wf (Some sd) (subscription n) SubscribeIntent.immediate draw c0).
    - apply QuicRClient.client_wf_init.
    - fold run. by rewrite Erun. }
  rewrite Erun. by split_and!.
Qed.

Lemma unsubscribe_sends ns :
  forall s, QuicRClient.wf (client s) ->
    let s' := (on_client (QuicRClient.unsubscribe ns) s).2 in
    (on_client (QuicRClient.unsubscribe ns) s).1 = Ret tt /\ QuicRClient.wf (client s') /\
    QuicRClient.tx (client s') = QuicRClient.tx (client s) ++
      [mkPacket (QuicRClient.transport_context_id (client s))
         (QuicRClient.transport_stream_id (client s)) (Unsubscribe_wire (mkUnsubscribe 1 ns))].
Proof.
  intros s Hw. pose proof (QuicRClient.unsubscribe_wf ns (client s) Hw) as Hu.
  unfold on_client. unfold QuicRClient.unsubscribe in *.
  rewrite (serialize_wire _ _ (put_Unsubscribe_wire _)) in *. cbv [mbind M_bind lift gets] in *.
  destruct (contains_key (QuicRClient.subscribe_state (client s)) ns);
    (destruct Hu as [Hw' _]; [done|]); by split_and!.
Qed.

(** From the first sleep of a subscriber to the end of the branch. *)
Lemma waiting_sends ns during s :
  QuicRClient.wf (client s) ->
  let run := (sleep_for true (during 0%nat);;
       say (lit "Now unsubscribing");;
       on_client (QuicRClient.unsubscribe ns);;
       say (lit "Sleeping for 15 seconds before exiting");;
       sleep_for true (during 1%nat)) s in
  safe run.1 -> run.1 = Ret tt /\ QuicRClient.wf (client run.2) /\
    QuicRClient.tx (client run.2) = QuicRClient.tx (client s) ++
      [mkPacket (QuicRClient.transport_context_id (client s))
         (QuicRClient.transport_stream_id (client s)) (Unsubscribe_wire (mkUnsubscribe 1 ns))].
Proof.
  intros Hw run. subst run.
  pose proof (sends_sleep_for true (during 0%nat) s Hw) as H1.
  destruct (sleep_for true (during 0%nat) s) as [[[]|e|] s1] eqn:E; cbn [fst snd] in H1;
    [|by destruct H1|rewrite (run_bind_undefined _ _ _ _ E); by intros []].
  destruct H1 as (_ & Hw1 & E1 & Hi & Hj); [done|]. rewrite app_nil_r in E1.
  rewrite (run_bind_ret _ _ _ _ _ E).
  set (s1' := mk (client s1) (log s1 ++ [lit "Now unsubscribing"])).
  rewrite (run_bind_ret _ _ _ s1' tt) by done.
  destruct (unsubscribe_sends ns s1' Hw1) as (E2 & Hw2 & Et2).
  destruct (on_client (QuicRClient.unsubscribe ns) s1') as [r s2] eqn:Eu.
  cbn [fst snd] in *. subst r. rewrite (run_bind_ret _ _ _ _ _ Eu).
  intros Hs.
  destruct (sends_then [] _ _ (sends_say (lit "Sleeping for 15 seconds before exiting"))
    (sends_sleep_for true (during 1%nat)) s2 Hw2 Hs) as (E3 & Hw3 & Et3 & _).
  split; [exact E3|]. split; [exact Hw3|]. rewrite app_nil_r in Et3.
  etransitivity; [exact Et3|]. rewrite Et2. cbn [client s1']. by rewrite E1, Hi, Hj.
Qed.

(** One object arrives while a delegate subscribes to it. *)
Lemma arrival_of_object `{!LittleEndian} ns d s :
  QuicRClient.sub_delegates (client s) = [(ns, Some sd)] -> wf_namespace ns ->
  QuicRClient.rx (client s) = [] -> ok_PublishDatagram d -> offset_and_fin (header d) = 1 ->
  within ns (name (header d)) = true ->
  exists s1, arrival true [encoded (put_PublishDatagram d)] s
    = callback (QuicRClient.onSubscribedObject sd (name (header d)) 0 0 false (media_data d)) s1.
Proof.
  intros Hsd Hns Hrx Hd Ho Hin. unfold arrival.
  set (msg := encoded (put_PublishDatagram d)). set (c := client s).
  set (c1 := QuicRClient.with_io [msg] (QuicRClient.tx c) (QuicRClient.events c) c).
  set (c2 := QuicRClient.with_io [] (QuicRClient.tx c) (QuicRClient.events c) c).
  set (call := QuicRClient.onSubscribedObject sd (name (header d)) 0 0 false (media_data d)).
  rewrite (run_bind_ret _ _ _ (mk c1 (log s)) tt).
  2: { unfold on_client, modify. subst c c1. by rewrite Hrx. }
  assert (QuicRClient.on_recv_notify (App := app true) c1
    = (Ret tt, QuicRClient.emit [call] c2)) as Er.
  { apply (QuicRClient.on_recv_notify_one msg); [done| |done].
    pose proof (QuicRClient.handle_object (App := app true) d [] c2) as Eh.
    rewrite app_nil_r in Eh. change (QuicRClient.sub_delegates c2)
      with (QuicRClient.sub_delegates (client s)) in Eh.
    rewrite Hsd in Eh. cbn [QuicRClient.receivers omap list_omap fst snd] in Eh.
    rewrite Hin in Eh. apply Eh; [|done|done]. unfold QuicRClient.wf_delegates.
    change (QuicRClient.sub_delegates c2) with (QuicRClient.sub_delegates (client s)).
    rewrite Hsd. split.
    - apply sorted_cons; [constructor|]. intros q Hq. by apply not_elem_of_nil in Hq.
    - intros q Hq. by apply list_elem_of_singleton in Hq as ->. }
  unfold with_callbacks, on_client. cbn [client]. rewrite Er. cbn [client].
  exists (mk (QuicRClient.emit [call] c2) (log s)).
  change (QuicRClient.events (QuicRClient.emit [call] c2)) with (QuicRClient.events c ++ [call]).
  change (QuicRClient.events c1) with (QuicRClient.events c). rewrite drop_app_length.
  cbn [mfor]. unfold mbind, M_bind. by destruct (callback call _) as [[[]|e|] s'].
Qed.
End subscribing.

(** Every piece of a published object is a message a server can read. *)
Lemma fragments_ok n stream data f :
  wf_name n -> is_field stream -> Z.of_nat (length data) < 2 ^ 30 ->
  f ∈ object_fragments data -> ok_PublishDatagram (to_datagram n stream f).
Proof.
  intros Hn Hs Hl Hf. destruct (decide (1200 < Z.of_nat (length data))) as [Hb|Hb].
  - by apply (object_fragment_ok n Hn stream Hs data).
  - unfold object_fragments, MAX_TRANSPORT_DATA_SIZE in Hf.
    rewrite (proj2 (Z.leb_le _ _)) in Hf by lia. apply list_elem_of_singleton in Hf as ->.
    apply ok_to_datagram; [done|done|by split|simpl; lia].
Qed.

(** A server that knows no publisher for the name drops the message. *)
Lemma unannounced_dropped {T : Target} `{!LittleEndian} {A} {D : QuicRServer.ServerDelegate A}
    d cid sid s (a : A) :
  QuicRServer.wf s -> ok_PublishDatagram d ->
  (forall p, p ∈ QuicRServer.publish_namespaces s -> wf_namespace p.1) ->
  existsb (fun p => within p.1 (name (header d))) (QuicRServer.publish_namespaces s) = false ->
  QuicRServer.dispatch cid sid (PublishDatagram_wire d) (s, a) = (Ret tt, (s, a)).
Proof.
  intros Hw Hd Hns Hno.
  rewrite (QuicRServer.dispatch_typed MessageType.Publish _ _ _ (drop 1 (PublishDatagram_wire d)))
    by done.
  destruct (QuicRServer.handle_publish_run d [] cid sid s a Hw Hd Hns) as [_ H2].
  rewrite app_nil_r in H2. by apply H2.
Qed.

(** * Properties *)

(** With a name and a text the program sends the packets of the object and
    exits with 0, whatever arrives; it announces no namespace, so a server that
    has no other publisher for the name drops each of them. *)
Theorem reallyTest_publishes {T : Target} `{!LittleEndian} {Tr : ITransport}
    fuel prog hex text getenv cid draw during host port n c :
  relay_of getenv = Ret (host, port) -> Name_of_hex hex = Ret n -> wf_name n ->
  QuicRClient.QuicRClient_relay fuel (mkRelayInfo host (wrap 16 port) Protocol.QUIC) cid [] 1
    = Some (Ret c) ->
  is_field (QuicRClient.transport_stream_id c) ->
  text <> [] -> Z.of_nat (length text) < 2 ^ 30 ->
  exists r log c',
    main fuel [prog; hex; text] getenv cid draw during = Some (r, log, Some c') /\
    (safe r -> r = Ret 0 /\
       QuicRClient.tx c' = (send (object_packets n (QuicRClient.transport_stream_id c)
         (QuicRClient.transport_context_id c) (chars_bytes text)) []).1) /\
    forall A (D : QuicRServer.ServerDelegate A) p cid' sid' s (a : A), p ∈ QuicRClient.tx c' -> safe r ->
      QuicRServer.wf s ->
      (forall q, q ∈ QuicRServer.publish_namespaces s -> wf_namespace q.1) ->
      existsb (fun q => within q.1 n) (QuicRServer.publish_namespaces s) = false ->
      QuicRServer.dispatch cid' sid' (pkt_data p) (s, a) = (Ret tt, (s, a)).
Proof.
  intros Hr Hn Hwn Hc Hsid Ht Hl.
  rewrite (main_with_client _ _ _ [text] _ _ _ _ host port n c) by (done || simpl; lia).
  pose proof (made_client _ (mkRelayInfo _ _ Protocol.QUIC) _ _ _ _ eq_refl Hc) as Ec. unfold with_client.
  assert (Z.of_nat (length (chars_bytes text)) = Z.of_nat (length text)) as El
    by (unfold chars_bytes; by rewrite length_map).
  rewrite El, (proj2 (Z.ltb_lt _ _)) by (destruct text; [done|simpl; lia]).
  set (s0 := mk c _). set (c1 := QuicRClient.with_io [] (send (object_packets n
    (QuicRClient.transport_stream_id c) (QuicRClient.transport_context_id c)
    (chars_bytes text)) []).1 [] c).
  assert (publish_branch n (chars_bytes text) s0 = (Ret tt, mk c1 (log s0 ++ [lit "Publish"])))
    as Ep.
  { unfold publish_branch, say, on_client, modify, mbind, M_bind. cbn [client log].
    rewrite (publishNamedObject_run n Hwn (QuicRClient.transport_stream_id c) Hsid)
      by (subst c; done || by rewrite El). subst c1 c. done. }
  unfold mbind at 1, M_bind at 1. rewrite Ep.
  assert (QuicRClient.wf c1) as Hw1.
  { subst c1 c. apply QuicRClient.wf_with_io, QuicRClient.client_wf_init. }
  pose proof (ending (mk c1 (log s0 ++ [lit "Publish"])) during Hw1) as He. cbv zeta in He.
  match type of He with safe (fst ?run) -> _ => destruct run as [r s2] end.
  cbn [fst snd client] in He.
  exists r, (log s2), (client s2). split; [done|]. split; [exact He|].
  intros A D p cid' sid' s a Hp Hs Hws Hns Hno. destruct (He Hs) as [_ E]. rewrite E in Hp.
  apply send_members in Hp as [Hp|Hp]; [by apply not_elem_of_nil in Hp|].
  apply list_elem_of_fmap in Hp as (f & -> & Hf).
  apply (unannounced_dropped (to_datagram n _ f)); try done.
  apply (fragments_ok n _ (chars_bytes text)); [done|done|by rewrite El|done].
Qed.

Lemma reallyTest_publishes_witness :
  exists r log c',
    main (T := strict_little) (Tr := FakeTransport) 1 [lit "reallyTest"; lit "FF0001"; lit "hi"]
      (fun _ => None) 0 7 (fun _ => []) = Some (r, log, Some c') /\
    (safe r -> r = Ret 0 /\
       QuicRClient.tx c' = (send (H := FakeTransport)
         (object_packets (mkName 0 0xFF0001) 0x2000 0x1000 [104; 105]) []).1) /\
    forall A (D : QuicRServer.ServerDelegate A) p cid' sid' s (a : A), p ∈ QuicRClient.tx c' -> safe r ->
      QuicRServer.wf s ->
      (forall q, q ∈ QuicRServer.publish_namespaces s -> wf_namespace q.1) ->
      existsb (fun q => within q.1 (mkName 0 0xFF0001)) (QuicRServer.publish_namespaces s) = false ->
      QuicRServer.dispatch (T := strict_little) cid' sid' (pkt_data p) (s, a) = (Ret tt, (s, a)).
Proof.
  apply (reallyTest_publishes (T := strict_little) (Tr := FakeTransport) 1 (lit "reallyTest")
    (lit "FF0001") (lit "hi") (fun _ => None) 0 7 (fun _ => []) (lit "127.0.0.1") 1234
    (mkName 0 0xFF0001) (QuicRClient.init false 0x1000 0x2000 [] 1)).
  - reflexivity.
  - vm_compute. reflexivity.
  - split; vm_compute; split; congruence.
  - vm_compute. reflexivity.
  - split; vm_compute; congruence.
  - discriminate.
  - vm_compute. reflexivity.
Defined.

(** With a name alone the program sends one [Subscribe] for the first 96 bits
    of the name, and after its sleep one [Unsubscribe] for them, whatever arrives
    meanwhile; unless a callback has undefined behaviour, it exits with 0. *)
Theorem reallyTest_subscribes {T : Target} {Tr : ITransport}
    fuel prog hex getenv cid draw during host port n c :
  relay_of getenv = Ret (host, port) -> Name_of_hex hex = Ret n ->
  QuicRClient.QuicRClient_relay fuel (mkRelayInfo host (wrap 16 port) Protocol.QUIC) cid [] 1
    = Some (Ret c) ->
  exists r log c',
    main fuel [prog; hex] getenv cid draw during = Some (r, log, Some c') /\
    (safe r -> r = Ret 0 /\
       QuicRClient.tx c' =
         [mkPacket start (createStream start false) (Subscribe_wire
            (mkSubscribe 1 (create_transaction_id draw) (subscription n)
               SubscribeIntent.immediate));
          mkPacket start (createStream start false) (Unsubscribe_wire
            (mkUnsubscribe 1 (subscription n)))]).
Proof.
  intros Hr Hn Hc.
  rewrite (main_with_client _ _ _ [] _ _ _ _ host port n c) by (done || simpl; lia).
  pose proof (made_client _ (mkRelayInfo _ _ Protocol.QUIC) _ _ _ _ eq_refl Hc) as Ec.
  unfold with_client. change (0 <? Z.of_nat (length (@nil Z))) with false. cbv iota.
  set (said := [_; _]).
  destruct (subscribed_client n draw c during said Ec)
    as (c1 & said1 & Eb & Hw1 & _ & _ & _ & Hcid & Hsid & Htx1).
  pose proof (waiting_sends (subscription n) during (mk c1 said1) Hw1) as Hm. cbv zeta in Hm.
  cbn [client] in Hm. rewrite <- Eb, Htx1, Hcid, Hsid in Hm. unfold mbind at 1, M_bind at 1.
  destruct (subscribe_branch n draw during (mk c said)) as [[[]|e|] s1]; cbn [fst snd client] in Hm.
  - destruct Hm as (_ & Hw2 & Et); [done|].
    pose proof (ending s1 during Hw2) as He. cbv zeta in He. rewrite Et in He.
    match type of He with safe (fst ?run) -> _ => destruct run as [r s2] end.
    exists r, (log s2), (client s2). split; [done|exact He].
  - by destruct Hm.
  - eexists _, _, _. split; [done|]. by intros [].
Qed.

(** A received object is printed as a C string: unless one of its bytes is
    zero the program reads past its end, which is undefined.  No argument of a
    command line contains a zero, so that this is what happens to each text
    another run of the program publishes. *)
Theorem received_text_undefined {T : Target} `{!LittleEndian} {Tr : ITransport}
    fuel prog hex getenv cid draw during more host port n c d :
  relay_of getenv = Ret (host, port) -> Name_of_hex hex = Ret n -> wf_name n ->
  QuicRClient.QuicRClient_relay fuel (mkRelayInfo host (wrap 16 port) Protocol.QUIC) cid [] 1
    = Some (Ret c) ->
  ok_PublishDatagram d -> offset_and_fin (header d) = 1 ->
  within (subscription n) (name (header d)) = true ->
  media_data d <> [] -> Forall (fun b => b <> 0) (media_data d) ->
  during 0%nat = [encoded (put_PublishDatagram d)] :: more ->
  exists log c', main fuel [prog; hex] getenv cid draw during = Some (Undefined, log, c').
Proof.
  intros Hr Hn Hwn Hc Hd Ho Hin Hne Hnz Hdur.
  rewrite (main_with_client _ _ _ [] _ _ _ _ host port n c) by (done || simpl; lia).
  pose proof (made_client _ (mkRelayInfo _ _ Protocol.QUIC) _ _ _ _ eq_refl Hc) as Ec.
  unfold with_client. change (0 <? Z.of_nat (length (@nil Z))) with false. cbv iota.
  set (said := [_; _]).
  destruct (subscribed_client n draw c during said Ec)
    as (c1 & said1 & Eb & Hw1 & Hrx & Hev & Hsd & _).
  assert (exists s', sleep_for true (during 0%nat) (mk c1 said1) = (Undefined, s')) as [s' Es].
  { rewrite Hdur. unfold sleep_for. cbn [mfor].
    destruct (arrival_of_object (subscription n) d (mk c1 said1)) as [s1 Ea]; try done.
    { apply wf_make_Namespace; [done|lia]. }
    exists s1. apply run_bind_undefined. rewrite Ea. unfold callback. cbn [subDelegate].
    rewrite decide_False by done. by rewrite c_string_unterminated. }
  unfold mbind at 1, M_bind at 1. rewrite Eb. unfold mbind at 1, M_bind at 1. rewrite Es.
  by eexists _, _.
Qed.

Lemma reallyTest_subscribes_witness :
  exists r log c',
    main (T := strict_little) (Tr := FakeTransport) 1 [lit "reallyTest"; lit "FF0000"]
      (fun _ => None) 0 7 (fun _ => []) = Some (r, log, Some c') /\
    (safe r -> r = Ret 0 /\
       QuicRClient.tx c' =
         [mkPacket 0x1000 0x2000 (Subscribe_wire
            (mkSubscribe 1 (create_transaction_id 7) (subscription (mkName 0 0xFF0000))
               SubscribeIntent.immediate));
          mkPacket 0x1000 0x2000 (Unsubscribe_wire
            (mkUnsubscribe 1 (subscription (mkName 0 0xFF0000))))]).
Proof.
  apply (reallyTest_subscribes (T := strict_little) (Tr := FakeTransport) 1 (lit "reallyTest")
    (lit "FF0000") (fun _ => None) 0 7 (fun _ => []) (lit "127.0.0.1") 1234
    (mkName 0 0xFF0000) (QuicRClient.init false 0x1000 0x2000 [] 1)).
  - reflexivity.
  - vm_compute. reflexivity.
  - vm_compute. reflexivity.
Defined.

(** The object another run publishes with the arguments [FF0001 hi]. *)
Definition demo_received : PublishDatagram :=
  to_datagram (mkName 0 0xFF0001) 0x2000 (1, chars_bytes (lit "hi")).

Lemma received_text_undefined_witness :
  exists log c',
    main (T := strict_little) (Tr := FakeTransport) 1 [lit "reallyTest"; lit "FF0000"]
      (fun _ => None) 0 7
      (fun i => match i with O => [[encoded (put_PublishDatagram demo_received)]] | _ => [] end)
    = Some (Undefined, log, c').
Proof.
  apply (received_text_undefined (T := strict_little) (Tr := FakeTransport) 1 (lit "reallyTest")
    (lit "FF0000") (fun _ => None) 0 7 _ [] (lit "127.0.0.1") 1234
    (mkName 0 0xFF0000) (QuicRClient.init false 0x1000 0x2000 [] 1) demo_received).
  - reflexivity.
  - vm_compute. reflexivity.
  - split; vm_compute; split; congruence.
  - vm_compute. reflexivity.
  - repeat split; vm_compute; congruence.
  - reflexivity.
  - vm_compute. reflexivity.
  - discriminate.
  - apply chars_bytes_nonzero. repeat constructor; discriminate.
  - reflexivity.
Defined.

(** Any other number of arguments is refused with status -1 before anything
    is done; a name of
    more than 32 digits ends the program with an exception nobody catches. *)
Theorem reallyTest_refuses {T : Target} {Tr : ITransport} fuel argv getenv cid draw during :
  (length argv <> 2%nat /\ length argv <> 3%nat ->
     main fuel argv getenv cid draw during = Some (Ret (-1), [], None)) /\
  forall prog hex more host port, argv = prog :: hex :: more -> (length more <= 1)%nat ->
    no_x (remove_0x hex) -> relay_of getenv = Ret (host, port) ->
    32 < Z.of_nat (length (remove_0x hex)) ->
    main fuel argv getenv cid draw during = Some (Throw NameException, [], None).
Proof.
  split.
  - intros [H2 H3]. unfold main.
    rewrite (proj2 (Z.eqb_neq _ 2)), (proj2 (Z.eqb_neq _ 3)) by lia. done.
  - intros prog hex more host port -> Hl Hx Hr Hlong. unfold main.
    pose proof (Name_of_hex_value hex Hx) as Hn. cbv zeta in Hn.
    rewrite (proj2 (Z.ltb_lt _ _)) in Hn by lia. rewrite Hr.
    destruct more as [|text [|more]]; [| |simpl in Hl; lia]; cbn; by rewrite Hn.
Qed.

Lemma reallyTest_refuses_witness :
  main (T := strict_little) (Tr := FakeTransport) 1 [lit "reallyTest"] (fun _ => None) 0 7
    (fun _ => []) = Some (Ret (-1), [], None).
Proof.
  apply (proj1 (reallyTest_refuses (T := strict_little) (Tr := FakeTransport) 1
    [lit "reallyTest"] (fun _ => None) 0 7 (fun _ => []))).
  split; discriminate.
Defined.

End ReallyTest.
