(* ===== verification/Chatty.v ===== *)
(** * The chat program (cmd/chatty)

    Three classes, a Module each: [Message], the delegate [ChannelMsgDelegate]
    with its queue per channel, and [ChatClient]; and [main].  The program uses
    an interface of the client library older than the one in the repository
    (names registered and data published by text names): its calls are recorded
    in the order they are made, and what arrives is an event. *)

From S2P Require Export Text.
From stdpp Require Export gmap strings.
#[local] Open Scope Z_scope.

Module Message.
Record t := mk { sender : chars; data : chars }.

(** [operator()]: the characters as bytes; the sender is not sent. *)
Definition operator_call (m : t) : bytes := chars_bytes (data m).
End Message.

Module ChannelMsgDelegate.
(** [std::map<std::string, std::queue<bytes>>], whose order nothing observes *)
Abbreviation byte_queues := (gmap chars (list bytes)).

Record t := mk {
  received_byte_queues : byte_queues;
  clog : list chars;
}.
Definition init : t := mk ∅ [].

Definition with_queues (q : byte_queues) (d : t) : t := mk q (clog d).
Definition log (message : chars) (d : t) : t :=
  mk (received_byte_queues d) (clog d ++ [lit "[log] " ++ message]).

Definition Receive (channel : chars) : M t bytes := fun d =>
  let queues := received_byte_queues d in
  match queues !! channel with
  | None => (Ret [], d)
  | Some received_byte_queue =>
      match received_byte_queue with
      | [] => (Ret [], d)
      | data :: queue' =>
          (Ret data,
           with_queues (if decide (queue' = []) then delete channel queues
                        else <[channel := queue']> queues) d)
      end
  end.

Definition on_data_arrived (name : chars) (data : bytes) (group_id object_id : Z) : M t unit :=
  modify (fun d =>
    let queues := received_byte_queues d in
    with_queues (<[name := default [] (queues !! name) ++ [data]]> queues) d).

Definition on_connection_close (name : chars) : M t unit :=
  modify (log (lit "Connection to channel " ++ [ascii_of_nat 34] ++ name ++ [ascii_of_nat 34]
    ++ lit " closed")).

Definition on_object_published (name : chars) (group_id object_id : Z) : M t unit :=
  modify (fun d => mk (received_byte_queues d)
    (clog d ++ [name ++ lit " object_published: group:" ++ print_int group_id
      ++ lit " object_id " ++ print_int object_id])).
End ChannelMsgDelegate.

(** A call of the library's client. *)
Inductive Call :=
  | register_names (names : list chars) (flag : bool)
  | unregister_names (names : list chars)
  | subscribe_names (names : list chars) (flag1 flag2 : bool)
  | unsubscribe_names (names : list chars)
  | publish_named_data (name : chars) (data : bytes) (group_id object_id : Z).

Module ChatClient.
Record t := mk {
  done : bool;
  (** [delegate] and [client], unless the pointer is null; of the client, the
      calls made to it *)
  delegate : option ChannelMsgDelegate.t;
  client : option (list Call);
  username : chars;
  active_channel : chars;
  (** [OnReceive], if it was set; and its calls *)
  OnReceive : bool;
  delivered : list (chars * bytes);
}.

(** [ChatClient(ip, port)] *)
Definition init : t := mk false (Some ChannelMsgDelegate.init) (Some []) [] [] false [].

Definition with_done (b : bool) (c : t) : t :=
  mk b (delegate c) (client c) (username c) (active_channel c) (OnReceive c) (delivered c).
Definition with_username (n : chars) (c : t) : t :=
  mk (done c) (delegate c) (client c) n (active_channel c) (OnReceive c) (delivered c).
Definition with_active_channel (n : chars) (c : t) : t :=
  mk (done c) (delegate c) (client c) (username c) n (OnReceive c) (delivered c).
Definition with_OnReceive (c : t) : t :=
  mk (done c) (delegate c) (client c) (username c) (active_channel c) true (delivered c).

(** [client->f(...)] and [delegate->f(...)], through a pointer *)
Definition call (x : Call) : M t unit := fun c =>
  match client c with
  | Some calls =>
      (Ret tt, mk (done c) (delegate c) (Some (calls ++ [x])) (username c) (active_channel c)
                 (OnReceive c) (delivered c))
  | None => (Undefined, c)
  end.
Definition on_delegate {A} (m : M ChannelMsgDelegate.t A) : M t A := fun c =>
  match delegate c with
  | Some d =>
      let '(r, d') := m d in
      (r, mk (done c) (Some d') (client c) (username c) (active_channel c) (OnReceive c)
            (delivered c))
  | None => (Undefined, c)
  end.

Definition check_client : M t unit := fun c =>
  match client c with
  | None => (Throw ChatClientException, c)
  | Some _ =>
      match delegate c with
      | None => (Throw DelegateException, c)
      | Some _ => (Ret tt, c)
      end
  end.

Definition Start : M t unit := modify (with_done false).

Definition Login (name : chars) : M t unit :=
  check_client;;
  modify (with_username name);;
  call (register_names [name] true);;
  Start.

Definition Shutdown : M t unit :=
  modify (with_done true);;
  c ← gets id;
  call (unregister_names [username c]).

(** One pass of the loop of [ReceiveLoop], under [loop_mutex]. *)
Definition receive_once : M t unit :=
  c ← gets id;
  data ← on_delegate (ChannelMsgDelegate.Receive (active_channel c));
  if decide (data = []) then mret tt
  else if OnReceive c then
    modify (fun c' => mk (done c') (delegate c') (client c') (username c') (active_channel c')
      (OnReceive c') (delivered c' ++ [(active_channel c, data)]))
  else mret tt.

Definition Send (str : chars) : M t unit :=
  check_client;;
  c ← gets id;
  if decide (active_channel c = []) then mret tt
  else
    let data := Message.operator_call (Message.mk (username c) str) in
    call (publish_named_data (active_channel c) data 0 0).

Definition Join (channel : chars) : M t unit :=
  c ← gets id;
  (if decide (active_channel c = []) then mret tt
   else call (unregister_names [active_channel c]));;
  modify (with_active_channel channel);;
  call (register_names [channel] true).

Definition Subscribe (channels : list chars) : M t unit :=
  check_client;; call (subscribe_names channels false false).
Definition Subscribe_one (channel : chars) : M t unit :=
  check_client;; call (subscribe_names [channel] false false).
Definition Unsubscribe (channels : list chars) : M t unit :=
  check_client;; call (unsubscribe_names channels).
Definition Unsubscribe_one (channel : chars) : M t unit :=
  check_client;; call (unsubscribe_names [channel]).

Definition GetChannels : M t (list chars) := check_client;; mret [].
End ChatClient.

(** * The program (cmd/chatty/src/main.cpp) *)

Module ChatMain.
Import ChatClient.

Definition channels : list chars := [lit "Team1"; lit "Team2"; lit "Team3"; lit "Team4"].

(** What [client.OnReceive] prints. *)
Definition received_line (channel : chars) (data : bytes) : chars :=
  lit "[" ++ print_int (Z.of_nat (length data)) ++ lit "B:<<<<][" ++ channel ++ lit "] "
  ++ map char_of_code data.

(** The threads: the receiver is before the test of [while (!done)], inside the
    loop or gone; the sender has sent its message or not. *)
Inductive Receiver := AtTest | InLoop | Gone.
#[export] Instance Receiver_eq_dec : EqDecision Receiver.
Proof. solve_decision. Defined.

Record process := mkProcess { chat : ChatClient.t; receiver : Receiver; sent : bool }.

Inductive Event :=
  | Arrives (name : chars) (data : bytes) (group_id object_id : Z)
  | ReceiverRuns
  | SenderReads (msg : chars)
  | Interrupt.

Definition in_chat (m : M ChatClient.t unit) : M process unit := fun p =>
  let '(r, c) := m (chat p) in (r, mkProcess c (receiver p) (sent p)).

Definition perform (e : Event) : M process unit :=
  match e with
  | Arrives name data group_id object_id =>
      in_chat (on_delegate (ChannelMsgDelegate.on_data_arrived name data group_id object_id))
  | ReceiverRuns => fun p =>
      match receiver p with
      | AtTest => (Ret tt, mkProcess (chat p) (if done (chat p) then Gone else InLoop) (sent p))
      | InLoop => in_chat receive_once (mkProcess (chat p) AtTest (sent p))
      | Gone => (Ret tt, p)
      end
  | SenderReads msg => fun p =>
      if sent p then (Ret tt, p)
      else in_chat (Send msg) (mkProcess (chat p) (receiver p) true)
  | Interrupt => in_chat Shutdown
  end.

Definition exec (es : list Event) : M process unit := mfor es perform.

(** [main] up to the start of the threads. *)
Definition begin (me : chars) : M ChatClient.t unit :=
  modify with_OnReceive;;
  Login me;;
  Subscribe channels;;
  Join (lit "Team1");;
  check_client.

(** The status [main] returns with, once both threads have ended; [None] while
    it still waits for one. *)
Definition main (argv : list chars) (es : list Event) : option (result Z * process) :=
  let p0 := mkProcess ChatClient.init AtTest false in
  if negb (Z.of_nat (length argv) =? 4) then Some (Ret (-1), p0)
  else
    let '(r, p) := (lift (atoi (argv !!! 2%nat));;
                    in_chat (begin (argv !!! 3%nat));; exec es) p0 in
    match r with
    | Ret _ =>
        if decide (receiver p = Gone /\ sent p = true) then Some (Ret 0, p) else None
    | Throw e => Some (Throw e, p)
    | Undefined => Some (Undefined, p)
    end.
End ChatMain.

(** * The delegate is a queue per channel *)

Section fifo.
Import ChannelMsgDelegate.

(** The specification: a queue for each channel, most of them empty. *)
Definition queues := chars -> list bytes.
Definition set_queue (ch : chars) (l : list bytes) (f : queues) : queues :=
  fun ch' => if decide (ch' = ch) then l else f ch'.

Inductive Operation := Put (name : chars) (data : bytes) | Get (channel : chars).

Fixpoint spec (ops : list Operation) (f : queues) : list bytes * queues :=
  match ops with
  | [] => ([], f)
  | Put name data :: ops' => spec ops' (set_queue name (f name ++ [data]) f)
  | Get channel :: ops' =>
      let '(out, f') := spec ops' (set_queue channel (tail (f channel)) f) in
      (default [] (head (f channel)) :: out, f')
  end.

Fixpoint run (ops : list Operation) (d : t) : result (list bytes) * t :=
  match ops with
  | [] => (Ret [], d)
  | Put name data :: ops' => (on_data_arrived name data 0 0;; run ops') d
  | Get channel :: ops' => (data ← Receive channel; out ← run ops'; mret (data :: out)) d
  end.

Definition pending (d : t) (ch : chars) : list bytes := default [] (received_byte_queues d !! ch).

(** No queue is kept empty. *)
Definition compact (d : t) : Prop := forall ch, received_byte_queues d !! ch <> Some [].

Lemma pending_insert q l d ch ch' :
  pending (with_queues (<[ch := l]> q) d) ch' = if decide (ch' = ch) then l else default [] (q !! ch').
Proof.
  unfold pending. simpl. case_decide; [subst; by rewrite lookup_insert_eq|].
  by rewrite lookup_insert_ne.
Qed.

Lemma Receive_run ch d :
  exists d', Receive ch d = (Ret (default [] (head (pending d ch))), d') /\
    clog d' = clog d /\ (compact d -> compact d') /\
    forall ch', pending d' ch' = set_queue ch (tail (pending d ch)) (pending d) ch'.
Proof.
  unfold Receive. set (q := received_byte_queues d).
  assert (pending d ch = default [] (q !! ch)) as -> by done. unfold set_queue.
  destruct (q !! ch) as [[|x l]|] eqn:E; cbn [default head tail].
  - exists d. split_and!; [done..|]. intros ch'. case_decide; [subst|done].
    unfold pending. fold q. by rewrite E.
  - eexists. split; [done|]. split; [done|]. case_decide as Hl.
    + subst l. split.
      * intros Hc ch'. simpl. destruct (decide (ch' = ch)) as [->|].
        { by rewrite lookup_delete_eq. } rewrite lookup_delete_ne by done. apply Hc.
      * intros ch'. unfold pending. simpl. case_decide; [subst; by rewrite lookup_delete_eq|].
        by rewrite lookup_delete_ne.
    + split.
      * intros Hc ch'. simpl. destruct (decide (ch' = ch)) as [->|].
        { rewrite lookup_insert_eq. congruence. } rewrite lookup_insert_ne by done. apply Hc.
      * intros ch'. rewrite pending_insert. by case_decide.
  - exists d. split_and!; [done..|]. intros ch'. case_decide; [subst|done].
    unfold pending. fold q. by rewrite E.
Qed.

Lemma on_data_arrived_run name data g o d :
  exists d', on_data_arrived name data g o d = (Ret tt, d') /\ clog d' = clog d /\
    (compact d -> compact d') /\
    forall ch', pending d' ch' = set_queue name (pending d name ++ [data]) (pending d) ch'.
Proof.
  eexists. split; [reflexivity|]. split; [done|]. split.
  - intros Hc ch'. simpl. destruct (decide (ch' = name)) as [->|].
    + rewrite lookup_insert_eq. by destruct (default [] _).
    + rewrite lookup_insert_ne by done. apply Hc.
  - intros ch'. by rewrite pending_insert.
Qed.

Lemma spec_ext ops f g :
  (forall ch, f ch = g ch) ->
  (spec ops f).1 = (spec ops g).1 /\ forall ch, (spec ops f).2 ch = (spec ops g).2 ch.
Proof.
  revert f g. induction ops as [|[name data|channel] ops IH]; intros f g E; [done|..]; cbn [spec].
  - apply IH. intros ch. unfold set_queue. case_decide; by rewrite E.
  - rewrite (E channel).
    destruct (IH (set_queue channel (tail (g channel)) f) (set_queue channel (tail (g channel)) g))
      as [E1 E2]; [intros ch; unfold set_queue; by case_decide|].
    destruct (spec ops _) as [o1 f1], (spec ops _) as [o2 f2]. simpl in *. by subst.
Qed.

(** Whatever the order in which data arrives and is asked for, the delegate
    answers like one unbounded first-in first-out queue for each channel, empty
    data for an empty queue; and it keeps no entry for an empty queue. *)
Theorem delegate_is_fifo ops d :
  compact d ->
  exists d', run ops d = (Ret (spec ops (pending d)).1, d') /\ compact d' /\
    forall ch, pending d' ch = (spec ops (pending d)).2 ch.
Proof.
  revert d. induction ops as [|[name data|channel] ops IH]; intros d Hc; cbn [run spec].
  - by exists d.
  - destruct (on_data_arrived_run name data 0 0 d) as (d1 & E1 & _ & Hc1 & Hp1).
    rewrite (run_bind_ret _ _ _ _ _ E1).
    destruct (IH d1 (Hc1 Hc)) as (d' & E & Hc' & Hp). exists d'.
    destruct (spec_ext ops _ _ Hp1) as [<- Hq]. split; [done|]. split; [done|].
    intros ch. by rewrite Hp, Hq.
  - destruct (Receive_run channel d) as (d1 & E1 & _ & Hc1 & Hp1).
    rewrite (run_bind_ret _ _ _ _ _ E1).
    destruct (IH d1 (Hc1 Hc)) as (d' & E & Hc' & Hp). exists d'.
    destruct (spec_ext ops _ _ Hp1) as [E2 Hq].
    destruct (spec ops (set_queue _ _ _)) as [out f'] eqn:Es. simpl in *.
    rewrite (run_bind_ret _ _ _ _ _ E), E2. split; [done|]. split; [done|].
    intros ch. by rewrite Hp, Hq.
Qed.

Definition demo_operations : list Operation :=
  [Put (lit "a") [1]; Put (lit "b") [2]; Put (lit "a") [3]; Get (lit "a"); Get (lit "b");
   Get (lit "b"); Get (lit "a")].

Lemma delegate_is_fifo_witness :
  exists d', run demo_operations init = (Ret [[1]; [2]; []; [3]], d') /\ compact d' /\
    forall ch, pending d' ch = (spec demo_operations (pending init)).2 ch.
Proof.
  apply (delegate_is_fifo demo_operations init). intros ch. unfold init. simpl.
  by rewrite lookup_empty.
Defined.
End fifo.

(** * The channel is received in order *)

Section receiving.
Import ChatClient ChatMain.
Implicit Types (p : process) (c : ChatClient.t).

Definition queued (c : ChatClient.t) (ch : chars) : list bytes :=
  match delegate c with Some d => pending d ch | None => [] end.
Definition nonempty (l : list bytes) : list bytes :=
  List.filter (fun x => bool_decide (x <> [])) l.

(** What arrives for a channel. *)
Fixpoint arrivals (ch : chars) (es : list Event) : list bytes :=
  match es with
  | [] => []
  | Arrives name data _ _ :: es' =>
      if decide (name = ch) then data :: arrivals ch es' else arrivals ch es'
  | _ :: es' => arrivals ch es'
  end.

(** A client [main] has set up: both pointers, a callback and a channel. *)
Record ready (ch : chars) (c : ChatClient.t) : Prop := {
  ready_client : is_Some (client c);
  ready_delegate : is_Some (delegate c);
  ready_channel : active_channel c = ch;
  ready_callback : OnReceive c = true;
}.

(** From [c] to [c'], with the messages [got] taken from the channel [ch] and
    [new] arrived for every channel. *)
Record transfers (ch : chars) (got : list bytes) (new : chars -> list bytes)
    (c c' : ChatClient.t) : Prop := {
  transfers_ready : ready ch c';
  transfers_delivered : delivered c' = delivered c ++ map (pair ch) (nonempty got);
  transfers_queue : got ++ queued c' ch = queued c ch ++ new ch;
  transfers_others : forall ch', ch' <> ch -> queued c' ch' = queued c ch' ++ new ch';
}.

Lemma transfers_same ch c c' :
  ready ch c' -> delivered c' = delivered c -> delegate c' = delegate c ->
  transfers ch [] (fun _ => []) c c'.
Proof.
  intros Hr Hd Hg. split; [done|by rewrite Hd, app_nil_r|..]; unfold queued; rewrite Hg.
  - by rewrite app_nil_r.
  - intros. by rewrite app_nil_r.
Qed.

Lemma transfers_trans ch g1 g2 n1 n2 c1 c2 c3 :
  transfers ch g1 n1 c1 c2 -> transfers ch g2 n2 c2 c3 ->
  transfers ch (g1 ++ g2) (fun x => n1 x ++ n2 x) c1 c3.
Proof.
  intros [? D1 Q1 O1] [? D2 Q2 O2]. split; [done|..].
  - rewrite D2, D1. unfold nonempty. by rewrite List.filter_app, map_app, app_assoc.
  - rewrite <- app_assoc, Q2, app_assoc, Q1. by rewrite app_assoc.
  - intros ch' Hne. by rewrite O2, O1, app_assoc.
Qed.

Lemma receive_once_transfers ch c :
  ready ch c -> exists c', receive_once c = (Ret tt, c') /\ done c' = done c /\
    transfers ch (match queued c ch with [] => [] | x :: _ => [x] end) (fun _ => []) c c'.
Proof.
  intros [Hc [d Hd] Ha Ho]. unfold receive_once.
  rewrite (run_bind_ret _ _ _ c c) by done. rewrite Ha.
  assert (queued c ch = pending d ch) as Eq by (unfold queued; by rewrite Hd).
  destruct (Receive_run ch d) as (d' & Er & _ & _ & Hp).
  set (c1 := ChatClient.mk (done c) (Some d') (client c) (username c) (active_channel c)
    (OnReceive c) (delivered c)).
  rewrite (run_bind_ret _ _ _ c1 (default [] (head (pending d ch)))).
  2: { unfold on_delegate. by rewrite Hd, Er. }
  assert (ready ch c1) as Hr1 by (by split).
  assert (forall ch', queued c1 ch' = set_queue ch (tail (queued c ch)) (queued c) ch') as Hq.
  { intros ch'. rewrite Eq. change (queued c1 ch') with (pending d' ch'). rewrite Hp.
    unfold set_queue. unfold queued. by rewrite Hd. }
  rewrite <- Eq. unfold set_queue in Hq.
  assert (forall ch', ch' <> ch -> queued c1 ch' = queued c ch') as Hoth.
  { intros ch' Hne. rewrite Hq. by rewrite decide_False. }
  specialize (Hq ch). rewrite decide_True in Hq by done.
  destruct (queued c ch) as [|x l] eqn:El; cbn [default head tail] in *.
  - exists c1. split; [by rewrite decide_True|]. split; [done|]. split; [done|..].
    + by rewrite app_nil_r.
    + by rewrite Hq, El.
    + intros. by rewrite app_nil_r, Hoth.
  - unfold modify. rewrite Ho. case_decide as Hx.
    + exists c1. split; [done|]. split; [done|]. split; [done|..].
      * unfold nonempty. simpl. rewrite bool_decide_false by (by intros []). by rewrite app_nil_r.
      * by rewrite Hq, El, app_nil_r.
      * intros. by rewrite app_nil_r, Hoth.
    + eexists. split; [done|]. split; [done|]. split; [by destruct Hr1; split|..].
      * unfold nonempty. simpl. rewrite bool_decide_true by done. done.
      * change (queued _ ch) with (queued c1 ch) at 1. by rewrite Hq, El, app_nil_r.
      * intros. rewrite app_nil_r. by apply Hoth.
Qed.

Lemma perform_transfers ch e p :
  ready ch (chat p) -> exists p' got, perform e p = (Ret tt, p') /\
    transfers ch got (fun x => arrivals x [e]) (chat p) (chat p').
Proof.
  intros Hr. pose proof Hr as [[calls Hc] [d Hd] Ha Ho]. destruct e as [name data g o| |msg|]; cbn [perform].
  - destruct (on_data_arrived_run name data g o d) as (d' & E & _ & _ & Hp).
    unfold in_chat, on_delegate. rewrite Hd, E. eexists _, []. split; [done|]. cbn [chat].
    split; [by split|by rewrite app_nil_r|..].
    + unfold queued. cbn [delegate]. rewrite Hd, Hp. unfold set_queue. cbn [arrivals app].
      destruct (decide (ch = name)) as [->|]; [by rewrite decide_True|].
      by rewrite decide_False, app_nil_r.
    + intros ch' _. unfold queued. cbn [delegate]. rewrite Hd, Hp. unfold set_queue. cbn [arrivals].
      destruct (decide (ch' = name)) as [->|]; [by rewrite decide_True|].
      by rewrite decide_False, app_nil_r.
  - destruct (receiver p).
    + eexists _, []. split; [done|]. by apply transfers_same.
    + destruct (receive_once_transfers ch (chat p) Hr) as (c' & E & _ & Ht).
      unfold in_chat. cbn [chat]. rewrite E. eexists _, _. split; [done|]. exact Ht.
    + eexists _, []. split; [done|]. by apply transfers_same.
  - destruct (sent p); [eexists _, []; split; [done|]; by apply transfers_same|].
    unfold in_chat, Send, check_client, call. cbv [mbind M_bind gets id]. cbn [chat].
    rewrite Hc, Hd. case_decide.
    + eexists _, []. split; [done|]. by apply transfers_same.
    + rewrite Hc. eexists _, []. split; [done|]. apply transfers_same; [|done..]. by split.
  - unfold in_chat, Shutdown, call, modify. cbv [mbind M_bind gets id].
    cbn [chat client with_done]. rewrite Hc. eexists _, []. split; [done|].
    apply transfers_same; [|done..]. by split.
Qed.

Lemma exec_transfers ch es p :
  ready ch (chat p) -> exists p' got, exec es p = (Ret tt, p') /\
    transfers ch got (fun x => arrivals x es) (chat p) (chat p').
Proof.
  revert p. induction es as [|e es IH]; intros p Hr.
  { exists p, []. split; [done|]. by apply transfers_same. }
  destruct (perform_transfers ch e p Hr) as (p1 & g1 & E1 & T1).
  destruct (IH p1 (transfers_ready _ _ _ _ _ T1)) as (p' & g2 & E2 & T2).
  exists p', (g1 ++ g2). split.
  { unfold exec. cbn [mfor]. by rewrite (run_bind_ret _ _ _ _ _ E1). }
  pose proof (transfers_trans _ _ _ _ _ _ _ _ T1 T2) as [? ? Q O].
  assert (forall x, arrivals x [e] ++ arrivals x es = arrivals x (e :: es)) as Ea.
  { intros x. destruct e; cbn [arrivals]; [by case_decide|done..]. }
  split; [done..| |]; [by rewrite Q, Ea|]. intros ch' Hne. by rewrite O, Ea.
Qed.
End receiving.

Section programs.
Import ChatClient ChatMain.
Implicit Types (p : process).

(** ** The receiver *)

(** A full turn of the loop. *)
Lemma receiver_turn ch p :
  ready ch (chat p) -> receiver p = AtTest -> done (chat p) = false ->
  exists p', exec [ReceiverRuns; ReceiverRuns] p = (Ret tt, p') /\ receiver p' = AtTest /\
    done (chat p') = false /\ sent p' = sent p /\
    transfers ch (match queued (chat p) ch with [] => [] | x :: _ => [x] end) (fun _ => [])
      (chat p) (chat p').
Proof.
  intros Hr Hat Hd. destruct (receive_once_transfers ch (chat p) Hr) as (c' & E & Hd' & Ht).
  exists (mkProcess c' AtTest (sent p)). split; [|by rewrite <- Hd, <- Hd'].
  unfold exec. cbn [mfor perform]. cbv [mbind M_bind]. rewrite Hat, Hd. cbn [receiver chat sent].
  unfold in_chat. cbn [receiver chat sent]. by rewrite E.
Qed.

Lemma exec_app es1 es2 p p1 :
  exec es1 p = (Ret tt, p1) -> exec (es1 ++ es2) p = exec es2 p1.
Proof.
  intros E. unfold exec in *. rewrite mfor_app.
  by rewrite (run_bind_ret _ (fun _ => mfor es2 perform) _ _ _ E).
Qed.

Lemma receiver_drains ch k p :
  ready ch (chat p) -> receiver p = AtTest -> done (chat p) = false ->
  (length (queued (chat p) ch) <= k)%nat ->
  exists p', exec (mjoin (replicate k [ReceiverRuns; ReceiverRuns])) p = (Ret tt, p') /\
    receiver p' = AtTest /\ queued (chat p') ch = [] /\
    delivered (chat p') = delivered (chat p) ++ map (pair ch) (nonempty (queued (chat p) ch)).
Proof.
  revert p. induction k as [|k IH]; intros p Hr Hat Hd Hk.
  { exists p. destruct (queued (chat p) ch); [|simpl in Hk; lia]. by rewrite app_nil_r. }
  destruct (receiver_turn ch p Hr Hat Hd) as (p1 & E1 & Hat1 & Hd1 & _ & [Hr1 D1 Q1 _]).
  rewrite app_nil_r in Q1.
  destruct (IH p1 Hr1 Hat1 Hd1) as (p' & E & Hat' & Hq & D).
  { destruct (queued (chat p) ch); simpl in *; [by rewrite Q1; simpl; lia|].
    injection Q1 as ->. lia. }
  exists p'. split; [|split; [done|]]; [|split; [done|]].
  - cbn [replicate mjoin list_join]. by rewrite (exec_app _ _ _ _ E1).
  - rewrite D, D1, <- app_assoc, <- map_app. unfold nonempty. rewrite <- List.filter_app.
    by rewrite Q1.
Qed.

(** ** What the program asks of the library *)

Fixpoint later_calls (me : chars) (was_sent : bool) (es : list Event) : list Call :=
  match es with
  | [] => []
  | SenderReads msg :: es' =>
      if was_sent then later_calls me was_sent es'
      else publish_named_data (lit "Team1") (chars_bytes msg) 0 0 :: later_calls me true es'
  | Interrupt :: es' => unregister_names [me] :: later_calls me was_sent es'
  | _ :: es' => later_calls me was_sent es'
  end.

(** The names registered after some calls. *)
Definition registered (calls : list Call) : gset chars :=
  fold_left (fun s x =>
    match x with
    | register_names l _ => s ∪ list_to_set l
    | unregister_names l => s ∖ list_to_set l
    | _ => s
    end) calls ∅.

Record session (me : chars) (calls : list Call) (p : process) : Prop := {
  session_ready : ready (lit "Team1") (chat p);
  session_me : username (chat p) = me;
  session_calls : client (chat p) = Some calls;
}.

Lemma receive_once_session c c' :
  receive_once c = (Ret tt, c') -> is_Some (delegate c) ->
  username c' = username c /\ client c' = client c.
Proof.
  intros E [d Hd]. unfold receive_once in E. cbv [mbind M_bind gets id] in E.
  unfold on_delegate in E. rewrite Hd in E.
  destruct (ChannelMsgDelegate.Receive _ d) as [[x|e|] d']; [|done..].
  unfold modify in E. repeat case_match; by injection E as <-.
Qed.

Lemma perform_session me calls e p :
  session me calls p -> exists p', perform e p = (Ret tt, p') /\
    session me (calls ++ later_calls me (sent p) [e]) p' /\
    later_calls me (sent p') [] = [] /\
    sent p' = match e with SenderReads _ => true | _ => sent p end.
Proof.
  intros [Hr Hm Hc]. pose proof Hr as [_ [d Hd] Ha Ho].
  destruct (perform_transfers _ e p Hr) as (p' & got & E & [Hr' _ _ _]).
  exists p'. split; [done|]. cut (username (chat p') = me /\
    client (chat p') = Some (calls ++ later_calls me (sent p) [e]) /\
    sent p' = match e with SenderReads _ => true | _ => sent p end).
  { intros (H1 & H2 & H3). by split_and!. }
  destruct e as [name data g o| |msg|]; cbn [perform later_calls] in *; rewrite ?app_nil_r.
  - unfold in_chat, on_delegate in E. rewrite Hd in E. by injection E as <-.
  - destruct (receiver p); [by injection E as <-| |by injection E as <-].
    unfold in_chat in E. cbn [chat] in E.
    destruct (receive_once (chat p)) as [r c'] eqn:Er. injection E as -> <-.
    destruct (receive_once_session _ _ Er) as [E1 E2]; [by rewrite Hd|]. cbn [chat sent].
    by rewrite E1, E2.
  - destruct (sent p) eqn:Es; [injection E as <-; by rewrite app_nil_r|].
    unfold in_chat, Send, check_client, call in E. cbv [mbind M_bind gets id] in E.
    cbn [chat] in E. rewrite Hc, Hd, decide_False in E by (rewrite Ha; done).
    rewrite Hc, Ha in E. by injection E as <-.
  - unfold in_chat, Shutdown, call, modify in E. cbv [mbind M_bind gets id] in E.
    cbn [chat client with_done username] in E. rewrite Hc, Hm in E. by injection E as <-.
Qed.

Lemma later_calls_cons me b e es :
  later_calls me b (e :: es)
  = later_calls me b [e] ++ later_calls me (match e with SenderReads _ => true | _ => b end) es.
Proof. by destruct e, b. Qed.

Lemma exec_session me es calls p :
  session me calls p -> exists p', exec es p = (Ret tt, p') /\
    session me (calls ++ later_calls me (sent p) es) p'.
Proof.
  revert calls p. induction es as [|e es IH]; intros calls p Hs.
  { exists p. by rewrite app_nil_r. }
  destruct (perform_session me calls e p Hs) as (p1 & E1 & Hs1 & _ & Hsent).
  destruct (IH _ p1 Hs1) as (p' & E & Hs'). exists p'. split.
  - unfold exec in *. cbn [mfor]. by rewrite (run_bind_ret _ _ _ _ _ E1).
  - by rewrite later_calls_cons, app_assoc, <- Hsent.
Qed.

(** What [main] has asked for before its threads start. *)
Definition first_calls (me : chars) : list Call :=
  [register_names [me] true; subscribe_names channels false false;
   register_names [lit "Team1"] true].

Lemma begin_session me :
  exists c, begin me ChatClient.init = (Ret tt, c) /\ session me (first_calls me) (mkProcess c AtTest false).
Proof. eexists. split; [reflexivity|]. by repeat split; try eexists. Qed.

Lemma main_run argv es port :
  length argv = 4%nat -> atoi (argv !!! 2%nat) = Ret port ->
  let me := argv !!! 3%nat in
  exists p, session me (first_calls me ++ later_calls me false es) p /\
    main argv es = if decide (receiver p = Gone /\ sent p = true) then Some (Ret 0, p) else None.
Proof.
  intros Hl Hp me. destruct (begin_session me) as (c & Eb & Hs).
  destruct (exec_session me es _ _ Hs) as (p & E & Hs'). exists p. split; [done|].
  unfold main. rewrite Hl. cbn [Z.of_nat Pos.of_succ_nat Pos.succ Z.eqb Pos.eqb negb].
  rewrite Hp. unfold lift, in_chat. cbv [mbind M_bind]. cbn [chat receiver sent]. fold me.
  by rewrite Eb, E.
Qed.

Lemma registered_app l x :
  registered (l ++ [x]) = match x with
    | register_names l' _ => registered l ∪ list_to_set l'
    | unregister_names l' => registered l ∖ list_to_set l'
    | _ => registered l
    end.
Proof. unfold registered. by rewrite fold_left_app. Qed.

Lemma later_calls_registered me b es l :
  lit "Team1" <> me -> lit "Team1" ∈ registered l ->
  lit "Team1" ∈ registered (l ++ later_calls me b es).
Proof.
  intros Hne. revert b l. induction es as [|e es IH]; intros b l Hl; [by rewrite app_nil_r|].
  destruct e; cbn [later_calls]; [by apply IH|by apply IH|destruct b; [by apply IH|]|];
    rewrite cons_middle, app_assoc; apply IH; rewrite registered_app; [done|].
  apply elem_of_difference. split; [done|]. rewrite elem_of_list_to_set.
  by rewrite list_elem_of_singleton.
Qed.
End programs.

Section properties.
Import ChatClient ChatMain.

(** C35: In any interleaving of arrivals, passes of the receiving loop, a message
    sent and interrupts, the callback gets the messages of the active channel in
    the order of their arrival, without loss or repetition but without the empty
    ones, and the rest is still queued; what arrives for the other channels the
    program subscribed to is queued and never taken out. *)
Theorem chat_in_order ch es p :
  ready ch (chat p) ->
  exists p' got, exec es p = (Ret tt, p') /\
    delivered (chat p') = delivered (chat p) ++ map (pair ch) (nonempty got) /\
    got ++ queued (chat p') ch = queued (chat p) ch ++ arrivals ch es /\
    forall ch', ch' <> ch -> queued (chat p') ch' = queued (chat p) ch' ++ arrivals ch' es.
Proof.
  intros Hr. destruct (exec_transfers ch es p Hr) as (p' & got & E & [_ D Q O]).
  by exists p', got.
Qed.

Definition demo_chat : process :=
  mkProcess ((begin (lit "bob") ChatClient.init).2) AtTest false.
Definition demo_events : list Event :=
  [Arrives (lit "Team1") [104; 105] 0 0; Arrives (lit "Team2") [7] 0 0; ReceiverRuns;
   Arrives (lit "Team1") [] 0 1; ReceiverRuns; ReceiverRuns; ReceiverRuns;
   Arrives (lit "Team1") [33] 0 2].

Lemma demo_ready : ready (lit "Team1") (chat demo_chat).
Proof. split; vm_compute; try reflexivity; by eexists. Qed.

Lemma chat_in_order_witness :
  exists p' got, exec demo_events demo_chat = (Ret tt, p') /\
    delivered (chat p') = [] ++ map (pair (lit "Team1")) (nonempty got) /\
    got ++ queued (chat p') (lit "Team1") = [] ++ [[104; 105]; []; [33]] /\
    forall ch', ch' <> lit "Team1" -> queued (chat p') ch' = [] ++ arrivals ch' demo_events.
Proof. apply (chat_in_order (lit "Team1") demo_events demo_chat demo_ready). Defined.

(** As long as the program is not interrupted the receiver gets everything:
    from the test of its loop, one turn per waiting message empties the queue of
    the channel and hands over each message; and wherever it is, two of its own
    steps after an interrupt it is gone. *)
Theorem chat_receiver_progress ch p :
  ready ch (chat p) ->
  (receiver p = AtTest -> done (chat p) = false ->
     exists p', exec (mjoin (replicate (length (queued (chat p) ch)) [ReceiverRuns; ReceiverRuns])) p
       = (Ret tt, p') /\ queued (chat p') ch = [] /\
       delivered (chat p') = delivered (chat p) ++ map (pair ch) (nonempty (queued (chat p) ch))) /\
  exists p', exec [Interrupt; ReceiverRuns; ReceiverRuns] p = (Ret tt, p') /\ receiver p' = Gone.
Proof.
  intros Hr. split.
  - intros Hat Hd. destruct (receiver_drains ch _ p Hr Hat Hd (le_n _)) as (p' & E & _ & Hq & D).
    by exists p'.
  - destruct (perform_transfers ch Interrupt p Hr) as (p1 & got & E1 & [Hr1 _ _ _]).
    assert (receiver p1 = receiver p /\ done (chat p1) = true) as [Hrec Hd].
    { cbn [perform] in E1. unfold in_chat, Shutdown, call, modify in E1.
      cbv [mbind M_bind gets id] in E1. destruct (ready_client _ _ Hr) as [calls Hc].
      cbn [client with_done] in E1. rewrite Hc in E1. by injection E1 as <-. }
    change [Interrupt; ReceiverRuns; ReceiverRuns] with ([Interrupt] ++ [ReceiverRuns; ReceiverRuns]).
    rewrite (exec_app [Interrupt] _ p p1) by
      (unfold exec; cbn [mfor]; by rewrite (run_bind_ret _ _ _ _ _ E1)).
    unfold exec. cbn [mfor]. cbv [mbind M_bind perform]. destruct (receiver p1) eqn:Er1.
    + rewrite Hd. cbn. by eexists.
    + unfold in_chat. cbn [chat].
      destruct (receive_once_transfers ch (chat p1) Hr1) as (c' & -> & Hd' & _).
      cbn [receiver chat]. rewrite Hd', Hd. by eexists.
    + rewrite Er1. by eexists.
Qed.

Lemma chat_receiver_progress_witness :
  let p := mkProcess ((on_delegate (ChannelMsgDelegate.on_data_arrived (lit "Team1") [104; 105] 0 0))
                        (chat demo_chat)).2 AtTest false in
  (exists p', exec [ReceiverRuns; ReceiverRuns] p = (Ret tt, p') /\
     queued (chat p') (lit "Team1") = [] /\ delivered (chat p') = [(lit "Team1", [104; 105])]) /\
  exists p', exec [Interrupt; ReceiverRuns; ReceiverRuns] p = (Ret tt, p') /\ receiver p' = Gone.
Proof.
  intros p. assert (ready (lit "Team1") (chat p)) as Hr
    by (split; vm_compute; try reflexivity; by eexists).
  destruct (chat_receiver_progress (lit "Team1") p Hr) as [H1 H2]. split; [|exact H2].
  apply (H1 eq_refl eq_refl).
Defined.

(** [main] refuses any number of arguments but three; otherwise it registers
    the user, subscribes the four channels, registers the first of them, and asks
    the library for nothing more than to publish the one message it reads and to
    unregister the user at each interrupt; it returns 0 once it was interrupted
    and has sent.  The channel is still registered then, and the channels still
    subscribed. *)
Theorem chat_session argv es :
  (length argv <> 4%nat -> (fst <$> main argv es) = Some (Ret (-1))) /\
  forall port, length argv = 4%nat -> atoi (argv !!! 2%nat) = Ret port ->
    let me := argv !!! 3%nat in
    let calls := first_calls me ++ later_calls me false es in
    exists p, main argv es = (if decide (receiver p = Gone /\ sent p = true)
                              then Some (Ret 0, p) else None) /\
      client (chat p) = Some calls /\
      (lit "Team1" <> me -> lit "Team1" ∈ registered calls).
Proof.
  split.
  - intros Hl. unfold main. by rewrite (proj2 (Z.eqb_neq _ 4)) by lia.
  - intros port Hl Hp me calls. destruct (main_run argv es port Hl Hp) as (p & [_ _ Hc] & E).
    exists p. split; [done|]. split; [done|]. intros Hne. apply later_calls_registered; [done|].
    unfold registered. cbn [fold_left first_calls]. set_solver.
Qed.

Lemma chat_session_witness :
  exists p, main [lit "chat"; lit "relay"; lit "1234"; lit "bob"]
      [SenderReads (lit "hi"); Interrupt; ReceiverRuns] = Some (Ret 0, p) /\
    client (chat p) = Some (first_calls (lit "bob") ++
      [publish_named_data (lit "Team1") [104; 105] 0 0; unregister_names [lit "bob"]]) /\
    (lit "Team1" <> lit "bob" ->
     lit "Team1" ∈ registered (first_calls (lit "bob") ++
      [publish_named_data (lit "Team1") [104; 105] 0 0; unregister_names [lit "bob"]])).
Proof.
  destruct (proj2 (chat_session [lit "chat"; lit "relay"; lit "1234"; lit "bob"]
    [SenderReads (lit "hi"); Interrupt; ReceiverRuns]) 1234 eq_refl) as (p & E & Hc & Hr).
  - reflexivity.
  - exists p. split; [|split; [exact Hc|exact Hr]].
    assert (is_Some (main [lit "chat"; lit "relay"; lit "1234"; lit "bob"]
      [SenderReads (lit "hi"); Interrupt; ReceiverRuns])) as [x Hx] by (vm_compute; by eexists).
    rewrite E in Hx |- *. by case_decide.
Defined.

(** A line typed at one program, when it arrives at another that has caught
    up, is handed over as one message and printed with the same text. *)
Theorem chat_text_roundtrip me text ch p g o :
  ready ch (chat p) -> receiver p = AtTest -> done (chat p) = false ->
  queued (chat p) ch = [] -> text <> [] ->
  let data := Message.operator_call (Message.mk me text) in
  received_line ch data = lit "[" ++ print_int (Z.of_nat (length text)) ++ lit "B:<<<<]["
                            ++ ch ++ lit "] " ++ text /\
  exists p', exec [Arrives ch data g o; ReceiverRuns; ReceiverRuns] p = (Ret tt, p') /\
    delivered (chat p') = delivered (chat p) ++ [(ch, data)] /\ queued (chat p') ch = [].
Proof.
  intros Hr Hat Hd Hq Ht data. split.
  { unfold received_line, data, Message.operator_call. cbn [Message.data].
    unfold chars_bytes. rewrite length_map, map_map.
    by rewrite (map_ext _ (fun x => x) char_of_char_code), map_id. }
  destruct (perform_transfers ch (Arrives ch data g o) p Hr) as (p1 & got & E1 & T1).
  assert (receiver p1 = AtTest /\ done (chat p1) = false /\ delivered (chat p1) = delivered (chat p))
    as (Hat1 & Hd1 & Hdel).
  { cbn [perform] in E1. unfold in_chat, on_delegate in E1.
    destruct (ready_delegate _ _ Hr) as [d Hdl]. rewrite Hdl in E1. by injection E1 as <-. }
  destruct T1 as [Hr1 D1 Q1 _]. rewrite Hdel, Hq in *. cbn [arrivals app] in Q1.
  rewrite decide_True in Q1 by done.
  assert (queued (chat p1) ch = [data]) as Hq1.
  { destruct got as [|x got]; [done|]. injection Q1 as -> Hgot. exfalso.
    destruct got; [|done]. apply (f_equal length) in D1. revert D1.
    unfold nonempty. simpl. rewrite bool_decide_true.
    - rewrite length_app. simpl. lia.
    - unfold data, Message.operator_call. cbn [Message.data]. by destruct text. }
  destruct (receiver_drains ch 1 p1 Hr1 Hat1 Hd1) as (p' & E & _ & Hq' & D); [by rewrite Hq1|].
  exists p'. split; [|split; [|done]].
  - change (exec ([Arrives ch data g o] ++ [ReceiverRuns; ReceiverRuns]) p = (Ret tt, p')).
    rewrite (exec_app _ _ p p1) by
      (unfold exec; cbn [mfor]; by rewrite (run_bind_ret _ _ _ _ _ E1)). exact E.
  - rewrite D, Hdel, Hq1. unfold nonempty. simpl. rewrite bool_decide_true; [done|].
    unfold data, Message.operator_call. cbn [Message.data]. by destruct text.
Qed.

Lemma chat_text_roundtrip_witness :
  received_line (lit "Team1") [104; 105] = lit "[2B:<<<<][Team1] hi" /\
  exists p', exec [Arrives (lit "Team1") [104; 105] 0 0; ReceiverRuns; ReceiverRuns] demo_chat
      = (Ret tt, p') /\
    delivered (chat p') = [(lit "Team1", [104; 105])] /\ queued (chat p') (lit "Team1") = [].
Proof.
  apply (chat_text_roundtrip (lit "alice") (lit "hi") (lit "Team1") demo_chat 0 0 demo_ready);
    done.
Defined.
End properties.
