(* ===== verification/Forty.v ===== *)
(** * The forty-byte program (cmd/forty/forty-bytes.cpp)

    A sender publishes forty bytes again and again and numbers them in groups; a
    receiver prints what arrives.  Like the chat program it uses an older
    interface of the client library, whose calls are recorded, and it is not
    built; what arrives is an event.  The threads are interleaved by the events:
    a thread that runs tests [done] and makes one pass of its loop. *)

From S2P Require Export Text.
From stdpp Require Import strings.
#[local] Open Scope Z_scope.

Module Forty.

(** ** Text *)

Definition hex_digit (d : Z) : ascii :=
  if d <? 10 then char_of_code (48 + d) else char_of_code (97 + (d - 10)).
Fixpoint print_hex_loop (fuel : nat) (y : Z) (x : chars) : chars :=
  match fuel with
  | O => x
  | S fuel' =>
      let x' := hex_digit (y mod 16) :: x in
      if y / 16 =? 0 then x' else print_hex_loop fuel' (y / 16) x'
  end.
(** [os << std::hex << y], for a nonnegative [y] *)
Definition print_hex (y : Z) : chars := print_hex_loop (dec_fuel y) y [].

Fixpoint to_hex (data : bytes) : chars :=
  match data with
  | [] => []
  | byte :: data' => setw "0" 2 (print_hex byte) ++ to_hex data'
  end.

(** ** The delegate *)

Record Datum := mkDatum {
  datum_group_id : Z; datum_object_id : Z; datum_name : chars; datum_data : bytes;
}.
(** [Datum{}] *)
Definition Datum_init : Datum := mkDatum 0 0 [] [].

Definition on_data_arrived (name : chars) (data : bytes) (group_id object_id : Z)
    (recv_q : list Datum) : list Datum :=
  recv_q ++ [mkDatum group_id object_id name data].

Definition recv (recv_q : list Datum) : Datum * list Datum :=
  match recv_q with
  | [] => (Datum_init, [])
  | data :: recv_q' => (data, recv_q')
  end.

(** ** The threads *)

(** A [quicr::Name]: text and mask *)
Abbreviation QName := (chars * Z)%type.
Inductive Call :=
  | register_names (names : list QName) (flag : bool)
  | unregister_names (names : list QName)
  | subscribe (names : list QName) (flag1 flag2 : bool)
  | unsubscribe (names : list QName)
  | publish_named_data (name : chars) (data : bytes) (group_id object_id : Z)
      (priority best_before : Z).

Section loops.
(** the global variable, which nothing sets *)
Context (chat_mode : bool).

(** What a pass of [read_loop] prints, and [chat_message] after it. *)
Definition read_pass (datum : Datum) (chat_message : chars) : list chars * chars :=
  if decide (datum_data datum = []) then ([], chat_message)
  else if chat_mode then
    let msg := map char_of_code (datum_data datum) in
    if decide (msg = lit "end") then ([chat_message; lit "[<<<<] " ++ chat_message], [])
    else ([chat_message], chat_message ++ msg)
  else
    ([lit "[40B:<<<<]:" ++ datum_name datum ++ lit ", Group:" ++ print_int (datum_group_id datum)
      ++ lit ", Object:" ++ print_int (datum_object_id datum) ++ lit ", Data: "
      ++ to_hex (datum_data datum)], chat_message).

Definition forty_bytes : bytes :=
  [0; 1; 2; 3; 4; 5; 6; 7; 8; 9; 0; 1; 2; 3; 4; 5; 6; 7; 8; 9;
   0; 1; 2; 3; 4; 5; 6; 7; 8; 9; 0; 1; 2; 3; 4; 5; 6; 7; 8; 9].

(** A thread in [send_loop]: its arguments and local variables. *)
Record Sender := mkSender {
  s_name : chars; s_group_size : Z; s_group_id : Z; s_object_id : Z; s_finished : bool;
}.

(** A pass of [send_loop]; [msg] is the word a chat would read. *)
Definition send_pass (msg : chars) (s : Sender) : result (Call * Sender) :=
  let '(published, object_id) :=
    if chat_mode
    then (publish_named_data (s_name s) (chars_bytes (msg ++ lit "end"))
            (wrap 64 (s_group_id s)) (wrap 64 (s_object_id s)) 0 0, Ret (s_object_id s))
    else (publish_named_data (s_name s) forty_bytes
            (wrap 64 (s_group_id s)) (wrap 64 (s_object_id s)) 0x81 0,
          int_op (s_object_id s + 1)) in
  object_id ← object_id;
  if s_group_size s <=? wrap 64 object_id then
    group_id ← int_op (s_group_id s + 1);
    Ret (published, mkSender (s_name s) (s_group_size s) group_id 0 (s_finished s))
  else Ret (published, mkSender (s_name s) (s_group_size s) (s_group_id s) object_id (s_finished s)).

(** ** The process *)

(** The reader: no such thread, in its loop, or gone. *)
Inductive Reader := NoReader | Reading (chat_message : chars) | ReaderGone.

Record process := mkProcess {
  done : bool;
  recv_q : list Datum;
  reader : Reader;
  senders : list Sender;
  calls : list Call;
  cout : list chars;
}.

Inductive Event :=
  | Arrives (name : chars) (data : bytes) (group_id object_id : Z)
  | ReaderRuns
  | SenderRuns (i : nat) (msg : chars)
  | Interrupt.

Definition perform (e : Event) : M process unit := fun p =>
  match e with
  | Arrives name data group_id object_id =>
      (Ret tt, mkProcess (done p) (on_data_arrived name data group_id object_id (recv_q p))
                 (reader p) (senders p) (calls p) (cout p))
  | ReaderRuns =>
      match reader p with
      | Reading chat_message =>
          if done p then
            (Ret tt, mkProcess (done p) (recv_q p) ReaderGone (senders p) (calls p)
                       (cout p ++ [lit "read_loop done"]))
          else
            let '(datum, recv_q') := recv (recv_q p) in
            let '(lines, chat_message') := read_pass datum chat_message in
            (Ret tt, mkProcess (done p) recv_q' (Reading chat_message') (senders p) (calls p)
                       (cout p ++ lines))
      | _ => (Ret tt, p)
      end
  | SenderRuns i msg =>
      match senders p !! i with
      | Some s =>
          if s_finished s then (Ret tt, p)
          else if done p then
            (Ret tt, mkProcess (done p) (recv_q p) (reader p)
                       (<[i := mkSender (s_name s) (s_group_size s) (s_group_id s)
                                 (s_object_id s) true]> (senders p))
                       (calls p ++ [unregister_names [(s_name s, 0)]]) (cout p))
          else
            match send_pass msg s with
            | Ret (published, s') =>
                (Ret tt, mkProcess (done p) (recv_q p) (reader p) (<[i := s']> (senders p))
                           (calls p ++ [published]) (cout p))
            | Throw e => (Throw e, p)
            | Undefined => (Undefined, p)
            end
      | None => (Ret tt, p)
      end
  | Interrupt =>
      (Ret tt, mkProcess true (recv_q p) (reader p) (senders p) (calls p) (cout p))
  end.

Definition exec (es : list Event) : M process unit := mfor es perform.
End loops.

(** ** main *)

(** [s.assign(argv[k])]: [argv[argc]] is null, and there is nothing after it. *)
Definition argument (argv : list chars) (k : nat) : result chars :=
  match argv !! k with Some s => Ret s | None => Undefined end.

Record Config := mkConfig {
  server_ip : chars; server_port : Z; mode : chars; me : chars; you : chars; mask : Z;
}.

(** The arguments; [inl] is the status the program exits with. *)
Definition arguments (argv : list chars) : result (Z + Config) :=
  if Z.of_nat (length argv) <? 5 then Ret (inl (-1))
  else
    server_ip ← argument argv 1;
    port_str ← argument argv 2;
    if decide (port_str = []) then Ret (inl (-1))
    else
      port ← stoi port_str;
      mode ← argument argv 3;
      if decide (mode <> lit "send" /\ mode <> lit "recv" /\ mode <> lit "sendrecv")
      then Ret (inl (-1))
      else
        me ← argument argv 4;
        you ← argument argv 5;
        mask_str ← argument argv 6;
        mask ← (if decide (mask_str = []) then Ret 0 else stoi mask_str);
        Ret (inr (mkConfig server_ip (wrap 16 port) mode me you (wrap 64 mask))).

(** The calls before the wait for the transport, and the threads after it. *)
Definition start (c : Config) : Z + process :=
  if decide (mode c = lit "recv") then
    if decide (you c = []) then inl (-1)
    else inr (mkProcess false [] (Reading []) []
      [subscribe [(you c ++ lit "_audio", mask c)] false true;
       subscribe [(you c ++ lit "_video", mask c)] false true] [])
  else if decide (mode c = lit "send") then
    if decide (me c = []) then inl (-1)
    else inr (mkProcess false [] NoReader
      [mkSender (me c ++ lit "_audio") 1 0 0 false; mkSender (me c ++ lit "_video") 50 0 0 false]
      [register_names [(me c ++ lit "_audio", 0); (me c ++ lit "_video", 0)] false] [])
  else
    if decide (me c = [] \/ you c = []) then inl (-1)
    else inr (mkProcess false [] (Reading []) [mkSender (me c) 1 0 0 false]
      [register_names [(me c, 0)] true; subscribe [(you c, mask c)] false false] []).

(** The calls after the threads. *)
Definition finish (c : Config) : list Call :=
  if decide (mode c = lit "recv")
  then [unsubscribe [(you c ++ lit "_audio", mask c); (you c ++ lit "_video", mask c)]] else [].

Definition ended (p : process) : bool :=
  match reader p with Reading _ => false | _ => true end && forallb s_finished (senders p).

(** [while (!qclient->is_transport_ready())], where [ready n] is the answer to
    the n-th question; the number of questions asked *)
Fixpoint wait_ready (ready : nat -> bool) (fuel n : nat) : option nat :=
  match fuel with
  | O => None
  | S fuel' => if ready n then Some (S n) else wait_ready ready fuel' (S n)
  end.

(** The status of the process with its calls; [None] while it still waits. *)
Definition main (fuel : nat) (ready : nat -> bool) (argv : list chars) (es : list Event)
    : option (result Z * list Call) :=
  match arguments argv with
  | Throw e => Some (Throw e, [])
  | Undefined => Some (Undefined, [])
  | Ret (inl status) => Some (Ret status, [])
  | Ret (inr c) =>
      match start c with
      | inl status => Some (Ret status, [])
      | inr p0 =>
          _ ← wait_ready ready fuel 0;
          match exec false es p0 with
          | (Ret _, p) => if ended p then Some (Ret 0, calls p ++ finish c) else None
          | (Throw e, p) => Some (Throw e, calls p)
          | (Undefined, p) => Some (Undefined, calls p)
          end
      end
  end.

Example demo_hex : to_hex [0; 10; 255; 31] = lit "000aff1f".
Proof. vm_compute. reflexivity. Qed.

Example demo_send :
  main 1 (fun _ => true) (map lit ["forty"; "relay"; "7777"; "send"; "bob"; "al"; "4"]%string)
    [SenderRuns 0 []; SenderRuns 1 []; SenderRuns 0 []; SenderRuns 1 []; Interrupt;
     SenderRuns 0 []; SenderRuns 1 []]
  = Some (Ret 0,
      [register_names [(lit "bob_audio", 0); (lit "bob_video", 0)] false;
       publish_named_data (lit "bob_audio") forty_bytes 0 0 0x81 0;
       publish_named_data (lit "bob_video") forty_bytes 0 0 0x81 0;
       publish_named_data (lit "bob_audio") forty_bytes 1 0 0x81 0;
       publish_named_data (lit "bob_video") forty_bytes 0 1 0x81 0;
       unregister_names [(lit "bob_audio", 0)]; unregister_names [(lit "bob_video", 0)]]).
Proof. vm_compute. reflexivity. Qed.

(** * Hexadecimal text *)

(** A letter in lower case. *)
Definition lower (c : ascii) : ascii :=
  if ((65 <=? char_code c) && (char_code c <=? 90))%bool
  then char_of_code (char_code c + 32) else c.

Definition byte_text (b : Z) : chars := setw "0" 2 (print_hex b).

(** Checked for each of the 256 bytes. *)
Lemma byte_text_ok b :
  is_u8 b -> byte_text b = map lower (uint_to_hex 1 b) /\ hex_to_uint 1 (byte_text b) = b.
Proof.
  intros Hb. assert (Forall (fun b => byte_text b = map lower (uint_to_hex 1 b) /\
    hex_to_uint 1 (byte_text b) = b) (seqZ 0 256)) as H.
  { apply (bool_decide_unpack _). vm_compute. exact I. }
  rewrite list.Forall_forall in H. apply H, elem_of_seqZ. unfold in_u in Hb. lia.
Qed.

Lemma length_byte_text b : is_u8 b -> length (byte_text b) = 2%nat.
Proof.
  intros Hb. rewrite (proj1 (byte_text_ok b Hb)), length_map. apply (length_uint_to_hex 1).
Qed.

Lemma to_hex_concat data : to_hex data = concat (map byte_text data).
Proof. induction data as [|b data IH]; [done|]. cbn [to_hex map concat]. by rewrite IH. Qed.

(** The text of some bytes is, up to the case of the letters, the one the
    library's [uint_to_hex] makes of each byte: two digits a byte, from which
    [hex_to_uint] reads every byte back. *)
Theorem to_hex_agrees data :
  wf_bytes data ->
  to_hex data = map lower (concat (map (uint_to_hex 1) data)) /\
  length (to_hex data) = (2 * length data)%nat /\
  forall i b, data !! i = Some b -> hex_to_uint 1 (take 2 (drop (2 * i) (to_hex data))) = b.
Proof.
  intros Hd. rewrite to_hex_concat.
  induction Hd as [|b data Hb _ (IH1 & IH2 & IH3)]; [done|]. cbn [map concat].
  pose proof (length_byte_text b Hb) as Hl. destruct (byte_text_ok b Hb) as [Et Ev].
  split_and!.
  - by rewrite map_app, <- IH1, <- Et.
  - rewrite length_app, Hl, IH2. simpl. lia.
  - intros [|i] b' Hi; cbn [lookup list_lookup] in Hi.
    + injection Hi as <-. rewrite Nat.mul_0_r, drop_0. by rewrite take_app_length'.
    + replace (2 * S i)%nat with (length (byte_text b) + 2 * i)%nat by lia.
      rewrite drop_app_add. by apply IH3.
Qed.

Lemma to_hex_agrees_witness :
  to_hex [0; 10; 255] = lit "000aff" /\ length (to_hex [0; 10; 255]) = 6%nat /\
  forall i b, [0; 10; 255] !! i = Some b ->
    hex_to_uint 1 (take 2 (drop (2 * i) (to_hex [0; 10; 255]))) = b.
Proof.
  apply (to_hex_agrees [0; 10; 255]). apply (bool_decide_unpack _). vm_compute. exact I.
Defined.

(** * The arguments *)

(** Less than four arguments are refused; with four or five, which the test
    of [argc] lets pass, the program reads a null pointer or past the end of
    [argv]; with six the configuration is the arguments, the port cut to 16 bits
    and a negative mask made a huge one. *)
Theorem forty_arguments argv :
  ((length argv < 5)%nat -> arguments argv = Ret (inl (-1))) /\
  forall prog ip port m self rest y,
    argv = prog :: ip :: port :: m :: self :: rest ->
    stoi port = Ret y -> m ∈ [lit "send"; lit "recv"; lit "sendrecv"] ->
    ((length rest < 2)%nat -> arguments argv = Undefined) /\
    forall other k more, rest = other :: print_int k :: more -> is_int k ->
      arguments argv = Ret (inr (mkConfig ip (wrap 16 y) m self other (wrap 64 k))).
Proof.
  split.
  - intros Hl. unfold arguments. by rewrite (proj2 (Z.ltb_lt _ _)) by lia.
  - intros prog ip port m self rest y -> Hy Hm. unfold arguments, argument.
    rewrite (proj2 (Z.ltb_ge _ _)) by (simpl; lia). cbv [mbind result_bind lookup list_lookup].
    assert (port <> []) as Hp by (intros ->; vm_compute in Hy; discriminate).
    rewrite decide_False, Hy by done. rewrite decide_False.
    2: { rewrite !elem_of_cons, elem_of_nil in Hm. tauto. }
    split.
    + intros Hl. destruct rest as [|? [|]]; [done|done|simpl in Hl; lia].
    + intros other k more -> Hk. cbv [mret result_ret]. case_decide as Hn.
      * exfalso. pose proof (strtol_print k) as E. rewrite Hn in E. done.
      * by rewrite stoi_print.
Qed.

Lemma forty_arguments_witness :
  arguments (map lit ["forty"; "relay"; "7777"; "send"; "bob"; "al"]%string) = Undefined.
Proof.
  apply (proj1 (proj2 (forty_arguments (map lit
    ["forty"; "relay"; "7777"; "send"; "bob"; "al"]%string))
    (lit "forty") (lit "relay") (lit "7777") (lit "send") (lit "bob") [lit "al"] 7777
    eq_refl eq_refl ltac:(by left))).
  simpl. lia.
Defined.

(** * The numbers of the published objects *)

(** The [k]-th object of a sender, and its variables before it. *)
Definition numbered (name : chars) (gs : Z) (k : nat) : Call :=
  publish_named_data name forty_bytes (Z.of_nat k / gs) (Z.of_nat k mod gs) 0x81 0.
Definition after (k : nat) (s : Sender) : Sender :=
  mkSender (s_name s) (s_group_size s) (Z.of_nat k / s_group_size s)
    (Z.of_nat k mod s_group_size s) false.

Definition fresh (s : Sender) : Prop :=
  1 <= s_group_size s < 2 ^ 31 /\ s_group_id s = 0 /\ s_object_id s = 0 /\ s_finished s = false.

Lemma send_pass_numbered s k msg :
  1 <= s_group_size s < 2 ^ 31 -> Z.of_nat (S k) < 2 ^ 31 ->
  send_pass false msg (after k s) = Ret (numbered (s_name s) (s_group_size s) k, after (S k) s).
Proof.
  intros Hg Hk. unfold send_pass, numbered, after. cbn [s_name s_group_size s_group_id s_object_id s_finished].
  set (gs := s_group_size s) in *. set (x := Z.of_nat k) in *.
  replace (Z.of_nat (S k)) with (x + 1) in * by lia.
  assert (0 <= x mod gs < gs) by (apply Z.mod_pos_bound; lia).
  assert (0 <= x / gs <= x) by (split; [apply Z.div_pos|apply Z.div_le_upper_bound]; nia).
  pose proof (Z.div_mod x gs ltac:(lia)).
  rewrite !wrap_small by (unfold in_u; lia).
  rewrite (int_op_ok (x mod gs + 1)) by (unfold is_int; lia). cbv [mbind result_bind].
  rewrite wrap_small by (unfold in_u; lia).
  destruct (Z.leb_spec gs (x mod gs + 1)).
  - rewrite int_op_ok by (unfold is_int; lia). do 3 f_equal.
    + apply (Z.div_unique _ _ _ 0); lia.
    + apply (Z.mod_unique _ _ (x / gs + 1)); lia.
  - do 3 f_equal.
    + apply (Z.div_unique _ _ _ (x mod gs + 1)); lia.
    + apply (Z.mod_unique _ _ (x / gs)); lia.
Qed.

(** How often a sender runs, and what is published under a name. *)
Fixpoint turns (i : nat) (es : list Event) : nat :=
  match es with
  | [] => 0
  | SenderRuns j _ :: es' => (if decide (j = i) then 1 else 0) + turns i es'
  | _ :: es' => turns i es'
  end%nat.
Definition published (name : chars) (calls : list Call) : list Call :=
  List.filter (fun x => match x with
    | publish_named_data n _ _ _ _ _ => bool_decide (n = name) | _ => false end) calls.

Definition uninterrupted (es : list Event) : Prop := Interrupt ∉ es.

Definition named_apart (l : list Sender) : Prop :=
  forall i j s s', l !! i = Some s -> l !! j = Some s' -> s_name s = s_name s' -> i = j.

(** The senders of [p0] have run [k i] times in [p]. *)
Record advanced (p0 p : process) (k : nat -> nat) : Prop := {
  advanced_done : done p = false;
  advanced_length : length (senders p) = length (senders p0);
  advanced_sender : forall i s, senders p0 !! i = Some s -> senders p !! i = Some (after (k i) s);
  advanced_calls : forall i s, senders p0 !! i = Some s ->
    published (s_name s) (calls p) = published (s_name s) (calls p0)
      ++ map (numbered (s_name s) (s_group_size s)) (seq 0 (k i));
}.

Lemma perform_advanced p0 p k e :
  Forall fresh (senders p0) -> named_apart (senders p0) -> advanced p0 p k ->
  (forall i, Z.of_nat (S (k i)) < 2 ^ 31) -> e <> Interrupt ->
  exists p', perform false e p = (Ret tt, p') /\ advanced p0 p' (fun i => turns i [e] + k i)%nat.
Proof.
  intros Hf Hn [Hd Hl Hs Hc] Hk He.
  destruct e as [name data g o| |j msg|]; [..|done]; cbn [perform turns].
  - eexists. by split.
  - destruct (reader p); [eexists; by split| |eexists; by split]. rewrite Hd.
    destruct (recv (recv_q p)) as [datum q]. destruct (read_pass false datum chat_message).
    eexists. by split.
  - destruct (senders p !! j) as [s'|] eqn:Ej.
    2: { eexists. split; [done|]. split; [done|done|..].
         - intros i s Hi. destruct (decide (j = i)) as [->|]; [|by apply Hs].
           rewrite (Hs i s Hi) in Ej. done.
         - intros i s Hi. destruct (decide (j = i)) as [->|]; [|by apply Hc].
           rewrite (Hs i s Hi) in Ej. done. }
    assert (exists s, senders p0 !! j = Some s) as [s Es].
    { apply lookup_lt_is_Some. rewrite <- Hl. by apply lookup_lt_Some in Ej. }
    rewrite (Hs j s Es) in Ej. injection Ej as <-. cbn [s_finished after]. rewrite Hd.
    assert (fresh s) as (Hg & _) by (by apply (Forall_lookup_1 _ _ _ _ Hf Es)).
    rewrite send_pass_numbered by done. eexists. split; [done|]. split; cbn [done senders calls].
    + done.
    + by rewrite length_insert.
    + intros i si Hi. case_decide as Hij.
      * subst i. rewrite Es in Hi. injection Hi as <-.
        rewrite list_lookup_insert_eq; [done|]. rewrite Hl. by apply lookup_lt_Some in Es.
      * rewrite list_lookup_insert_ne by done. by apply Hs.
    + intros i si Hi. unfold published. rewrite List.filter_app. fold (published (s_name si) (calls p)).
      rewrite (Hc i si Hi). cbn [List.filter numbered]. case_decide as Hij.
      * subst i. rewrite Es in Hi. injection Hi as <-. rewrite bool_decide_true by done.
        replace (1 + 0 + k j)%nat with (k j + 1)%nat by lia. rewrite seq_app, map_app, app_assoc. done.
      * rewrite bool_decide_false, app_nil_r; [done|]. intros E. apply Hij.
        by apply (Hn j i s si).
Qed.

Lemma exec_advanced es p0 p k :
  Forall fresh (senders p0) -> named_apart (senders p0) -> advanced p0 p k ->
  (forall i, Z.of_nat (length es + k i) < 2 ^ 31) -> uninterrupted es ->
  exists p', exec false es p = (Ret tt, p') /\ advanced p0 p' (fun i => turns i es + k i)%nat.
Proof.
  intros Hf Hn. revert p k. induction es as [|e es IH]; intros p k Ha Hk Hi.
  { exists p. by split. }
  destruct (perform_advanced p0 p k e Hf Hn Ha) as (p1 & E1 & A1).
  { intros i. specialize (Hk i). simpl in Hk. lia. }
  { intros ->. apply Hi. by left. }
  destruct (IH p1 _ A1) as (p' & E & [A B C D]).
  { intros i. specialize (Hk i). destruct e; cbn [turns length] in *; try lia. case_decide; lia. }
  { intros H. apply Hi. by right. }
  assert (forall i, turns i es + (turns i [e] + k i) = turns i (e :: es) + k i)%nat as Et.
  { intros i. destruct e; cbn [turns]; lia. }
  exists p'. split.
  { unfold exec in *. cbn [mfor]. by rewrite (run_bind_ret _ _ _ _ _ E1). }
  split; [done|done|..]; intros i s Hs; rewrite <- Et; auto.
Qed.

(** However the threads are interleaved, for less than 2^31 steps and until
    the interrupt, the [k]-th object each thread publishes is object [k mod gs]
    of group [k / gs], for its group size [gs]: no counter overflows, nothing is
    skipped, and no two objects have the same numbers. *)
Theorem forty_numbers es p0 :
  done p0 = false -> Forall fresh (senders p0) -> named_apart (senders p0) ->
  Z.of_nat (length es) < 2 ^ 31 -> uninterrupted es ->
  exists p, exec false es p0 = (Ret tt, p) /\
    forall i s, senders p0 !! i = Some s ->
      published (s_name s) (calls p) = published (s_name s) (calls p0)
        ++ map (numbered (s_name s) (s_group_size s)) (seq 0 (turns i es)) /\
      forall j k, numbered (s_name s) (s_group_size s) j = numbered (s_name s) (s_group_size s) k ->
        j = k.
Proof.
  intros Hd Hf Hn Hl Hi.
  destruct (exec_advanced es p0 p0 (fun _ => 0%nat) Hf Hn) as (p & E & [_ _ _ Hc]).
  - split; [done|done|..].
    + intros i s Hs. rewrite Hs. f_equal.
      destruct (Forall_lookup_1 _ _ _ _ Hf Hs) as (Hg & H1 & H2 & H3). destruct s. cbn in *.
      subst. unfold after. cbn. by rewrite Zdiv_0_l, Zmod_0_l.
    + intros i s Hs. by rewrite app_nil_r.
  - intros _. lia.
  - done.
  - exists p. split; [done|]. intros i s Hs. split.
    + rewrite (Hc i s Hs). by rewrite Nat.add_0_r.
    + destruct (Forall_lookup_1 _ _ _ _ Hf Hs) as (Hg & _). intros j k [= H1 H2].
      pose proof (Z.div_mod (Z.of_nat j) (s_group_size s)).
      pose proof (Z.div_mod (Z.of_nat k) (s_group_size s)). nia.
Qed.

Definition demo_config : Config :=
  mkConfig (lit "relay") 7777 (lit "send") (lit "bob") (lit "al") 4.
Definition demo_process : process :=
  match start demo_config with inr p => p | inl _ => mkProcess true [] NoReader [] [] [] end.

Lemma forty_numbers_witness :
  exists p, exec false [SenderRuns 0 []; SenderRuns 1 []; SenderRuns 0 []; SenderRuns 1 []] demo_process
      = (Ret tt, p) /\
    forall i s, senders demo_process !! i = Some s ->
      published (s_name s) (calls p) = published (s_name s) (calls demo_process)
        ++ map (numbered (s_name s) (s_group_size s))
             (seq 0 (turns i [SenderRuns 0 []; SenderRuns 1 []; SenderRuns 0 []; SenderRuns 1 []])) /\
      forall j k, numbered (s_name s) (s_group_size s) j = numbered (s_name s) (s_group_size s) k ->
        j = k.
Proof.
  apply (forty_numbers [SenderRuns 0 []; SenderRuns 1 []; SenderRuns 0 []; SenderRuns 1 []]
    demo_process).
  - reflexivity.
  - repeat constructor; vm_compute; congruence.
  - intros [|[|i]] [|[|j]] s s'; try done; vm_compute; try discriminate;
      intros [= <-] [= <-]; discriminate.
  - reflexivity.
  - unfold uninterrupted. rewrite !elem_of_cons, elem_of_nil. intros [H|[H|[H|[H|H]]]]; done.
Defined.

End Forty.
