(* ===== verification/UnitTests.v ===== *)
(** * The unit tests, run on the model (src/test)

    Each [TEST_CASE] is a definition that computes its checks, in order; the
    lemmas evaluate them.  They compare the model with what the authors of the
    code observed.  Left out are the checks of type traits, the tests the source
    disables, end_to_end_test.cpp, which has none, and the one of
    quicr_server.cpp, which makes a transport of qtransport and checks that
    nothing is thrown. *)

From S2P Require Export Client Server HexEndec.
From stdpp Require Import strings.
#[local] Open Scope Z_scope.

Module UnitTests.

(** A literal [..._name]. *)
Definition name_lit (s : string) : result Name := Name_of_hex (lit s).

Definition equal {A} `{EqDecision A} (a b : A) : bool := bool_decide (a = b).
Definition throws {A} (r : result A) : bool := match r with Throw _ => true | _ => false end.
Definition returns {A} (r : result A) : bool := match r with Ret _ => true | _ => false end.

(** A test passes when no statement fails and all its checks hold. *)
Definition passes (t : result (list bool)) : bool :=
  match t with Ret l => forallb (fun b => b) l | _ => false end.

Section tests.
Context {T : Target}.

(** ** name.cpp *)

Definition name_constructor_test : result (list bool) :=
  val42 ← name_lit "0x42"; hex42 ← name_lit "0x42";
  x122 ← name_lit "0x122"; x123 ← name_lit "0x123"; x124 ← name_lit "0x124";
  a ← name_lit "0x20000000000000001"; b ← name_lit "0x10000000000000002";
  mret [name_eqb val42 hex42; name_ltb x123 x124; name_gtb x123 x122; name_neqb x123 x122;
        name_gtb a b; name_ltb b a;
        returns (name_lit "0xFFFFFFFFFFFFFFFFFFFFFFFFFFFFFFFF");
        throws (name_lit "0xFFFFFFFFFFFFFFFFFFFFFFFFFFFFFFFF0")].

Definition name_to_hex_test : result (list bool) :=
  let full := lit "0xFFFFFFFFFFFFFFFFFFFFFFFFFFFFFFFF" in
  let high := lit "0xFFFFFFFFFFFFFFFF0000000000000000" in
  let long_hex := lit "0x0000000000000000FFFFFFFFFFFFFFFF" in
  let short_hex := lit "0xFFFFFFFFFFFFFFFF" in
  f ← Name_of_hex full; h ← Name_of_hex high;
  long_name ← Name_of_hex long_hex; not_short_name ← Name_of_hex short_hex;
  mret [equal (to_hex f) full; equal (to_hex h) high; equal (to_hex long_name) long_hex;
        negb (equal (to_hex not_short_name) short_hex);
        equal (to_hex long_name) (to_hex not_short_name); name_eqb long_name not_short_name].

(** [for (int i = 0; i < n; ++i) bits op 1;] *)
Fixpoint times (n : nat) (op : Name -> result Name) (bits : Name) : result Name :=
  match n with
  | O => mret bits
  | S n' => bits' ← op bits; times n' op bits'
  end.

Definition name_shift_test : result (list bool) :=
  x1234 ← name_lit "0x1234"; r1 ← shr x1234 4; l1 ← shl x1234 4;
  x123 ← name_lit "0x123"; x12340 ← name_lit "0x12340";
  u32 ← name_lit "0x123456789abcdeff00000000"; s32 ← name_lit "0x123456789abcdeff";
  r32 ← shr u32 32; l32 ← shl s32 32;
  u64 ← name_lit "0x123456789abcdeff123456789abcdeff"; s64 ← name_lit "0x123456789abcdeff";
  s72 ← name_lit "0x123456789abcde"; r64 ← shr u64 64; r72 ← shr u64 72; r8 ← shr s64 8;
  v64 ← name_lit "0x123456789abcdeff0000000000000000";
  v72 ← name_lit "0x3456789abcdeff000000000000000000";
  l64 ← shl s64 64; l72 ← shl s64 72; l8 ← shl v64 8;
  one ← name_lit "0x00000000000000000000000000000001";
  two64 ← name_lit "0x00000000000000010000000000000000";
  up ← times 64 (fun b => shl_assign b 1) one; down ← times 64 (fun b => shr_assign b 1) up;
  mret [name_eqb r1 x123; name_eqb l1 x12340; name_eqb r32 s32; name_eqb l32 u32;
        name_eqb r64 s64; name_eqb r72 s72; name_eqb r8 s72;
        name_eqb l64 v64; name_eqb l72 v72; name_eqb l8 v72;
        name_eqb up two64; name_eqb down one].

Definition name_arithmetic_test : result (list bool) :=
  val42 ← name_lit "0x42"; val41 ← name_lit "0x41"; val43 ← name_lit "0x43";
  a ← name_lit "0x00000000000000010000000000000000";
  a1 ← name_lit "0x00000000000000010000000000000001";
  b ← name_lit "0x0FFFFFFFFFFFFFFFFFFFFFFFFFFFFFFF";
  b1 ← name_lit "0x10000000000000000000000000000000";
  bm ← name_lit "0x0FFFFFFFFFFFFFFFFFFFFFFFFFFFFFFE";
  c ← name_lit "0x0000000000000000FFFFFFFFFFFFFFFF";
  c1 ← name_lit "0x000000000000000100000000FFFFFFFE";
  zero ← name_lit "0x00000000000000000000000000000000";
  d ← name_lit "0x0000000000000000FFFFFFFFFFFFFFFE";
  let '(old1, copy1) := post_incr val42 in
  let '(old2, copy2) := post_decr copy1 in
  let '(new3, copy3) := pre_incr copy2 in
  let '(new4, copy4) := pre_decr copy3 in
  mret [name_eqb (add val42 1) val43; name_eqb (sub val42 1) val41;
        name_eqb (add a 1) a1; name_eqb (add b 1) b1; name_eqb (add c 0xFFFFFFFF) c1;
        name_eqb (sub a 1) c; name_eqb (sub b 1) bm; name_eqb (sub c 0xFFFFFFFFFFFFFFFF) zero;
        name_eqb (sub a 2) d;
        name_neqb old1 val43; name_eqb copy1 val43; name_neqb old2 val42; name_eqb copy2 val42;
        name_eqb new3 val43; name_eqb new4 val42].

Definition name_bitwise_not_test : result (list bool) :=
  zeros ← name_lit "0x0"; expected_ones ← name_lit "0xFFFFFFFFFFFFFFFFFFFFFFFFFFFFFFFF";
  let ones := name_not zeros in
  mret [name_neqb ones zeros; name_eqb ones expected_ones].

Definition name_byte_array_test : result (list bool) :=
  let byte_arr := repeat 0 8 ++ map (fun i => wrap 8 (Z.shiftr 0x1000000000000000 (8 * i)))
                                 (seqZ 0 8) in
  name_to_bytes ← name_lit "0x10000000000000000000000000000000";
  name_from_bytes ← Name_of_vector byte_arr;
  name_from_byte_ptr ← Name_of_data byte_arr (Z.of_nat (length byte_arr));
  mret [Z.of_nat (length byte_arr) =? 16; name_eqb name_from_bytes name_to_bytes;
        name_eqb name_from_byte_ptr name_to_bytes].

Definition name_logical_test : result (list bool) :=
  a ← name_lit "0x01010101010101010101010101010101";
  b ← name_lit "0x10101010101010101010101010101010";
  c ← name_lit "0x11111111111111111111111111111111"; zero ← name_lit "0x0";
  e ← name_lit "0x0101010101010101"; f ← name_lit "0x1111111111111111";
  mret [name_eqb (name_and a b) zero; name_eqb (and64 e 0x1010101010101010) zero;
        name_eqb (name_or a b) c; name_eqb (or64 e 0x1010101010101010) f].

(** ** hex_endec.cpp *)

Definition hexendec_test (Size : Z) (distribution values : list Z) (hex_value : string)
    : result (list bool) :=
  mask ← Encode Size distribution values;
  parts ← Decode Size distribution (lit hex_value);
  mret [equal mask (lit hex_value); equal parts values].

Definition hexendec_256_test : result (list bool) :=
  hexendec_test 256 [64; 64; 64; 56; 8]
    [0x1111111111111111; 0x2222222222222222; 0x3333333333333333; 0x44444444444444; 0x00]
    "0x1111111111111111222222222222222233333333333333334444444444444400".
Definition hexendec_128_test : result (list bool) :=
  hexendec_test 128 [64; 56; 8] [0x1111111111111111; 0x22222222222222; 0x00]
    "0x11111111111111112222222222222200".
Definition hexendec_64_test : result (list bool) :=
  hexendec_test 64 [32; 24; 8] [0x11111111; 0x222222; 0x00] "0x1111111122222200".

Definition hexendec_throw_test : result (list bool) :=
  mret [returns (Decode 128 [64; 56; 8] (lit "0x11111111111111112222222222222200"));
        throws (Decode 128 [64; 56; 8] (lit "0x111111111111111122222222222222"));
        throws (Decode 128 [64; 56; 8] (lit "0x1111111111111111222222222222220000"))].

Definition hexendec_name_test : result (list bool) :=
  name ← name_lit "0x11111111111111112222222222222233";
  results ← Decode_Name 128 [64; 56; 8] name;
  mret [equal results [0x1111111111111111; 0x22222222222222; 0x33]].

(** ** namespace.cpp *)

Definition namespace_names_test : result (list bool) :=
  base ← name_lit "0x11111111111111112222222222222200"; base_namespace ← make_Namespace base 120;
  valid ← name_lit "0x111111111111111122222222222222FF";
  another ← name_lit "0x11111111111111112222222222222211";
  invalid ← name_lit "0x11111111111111112222222222222300";
  v ← contains base_namespace valid; a ← contains base_namespace another;
  i ← contains base_namespace invalid;
  mret [v; a; negb i].

Definition namespace_namespaces_test : result (list bool) :=
  base ← name_lit "0x11111111111111112222222222220000"; base_namespace ← make_Namespace base 112;
  valid ← name_lit "0x11111111111111112222222222222200"; valid_namespace ← make_Namespace valid 120;
  invalid ← name_lit "0x11111111111111112222222222000000";
  invalid_namespace ← make_Namespace invalid 104;
  v ← contains_ns base_namespace valid_namespace;
  i ← contains_ns base_namespace invalid_namespace;
  mret [v; negb i].

(** ** encode.cpp *)

Definition decode_exception_test : result (list bool) :=
  buffer ← serialize (put_u8 255);
  mret [throws (get_uint 8 buffer).1].

Definition test_namespace : result Namespace :=
  name ← name_lit "0x10000000000000002000"; make_Namespace name 125.

(** [buffer << s; buffer >> s_out;] and the comparison of the members. *)
Definition encode_decode {A B} `{EqDecision B} (put : Buf unit) (get : Buf A)
    (members : A -> B) (s : A) : result (list bool) :=
  buffer ← serialize put;
  s_out ← (get buffer).1;
  mret [equal (members s_out) (members s)].

Definition old_Subscribe : Subscribe := mkSubscribe 0 0 (mkNamespace (mkName 0 0) 0)
  SubscribeIntent.immediate.
Definition subscribe_test : result (list bool) :=
  qnamespace ← test_namespace;
  let s := mkSubscribe 1 0x1000 qnamespace SubscribeIntent.immediate in
  encode_decode (put_Subscribe s) (get_Subscribe old_Subscribe)
    (fun s => (sub_transaction_id s, sub_namespace s, sub_intent s)) s.

Definition subscribe_response_test : result (list bool) :=
  qnamespace ← test_namespace;
  let s := mkSubscribeResponse qnamespace SubscribeStatus.Ok 0x1000 in
  encode_decode (put_SubscribeResponse s) get_SubscribeResponse
    (fun s => (subr_namespace s, subr_response s, subr_transaction_id s)) s.

Definition subscribe_end_test : result (list bool) :=
  qnamespace ← test_namespace;
  let s := mkSubscribeEnd qnamespace SubscribeStatus.Ok in
  encode_decode (put_SubscribeEnd s) get_SubscribeEnd
    (fun s => (sube_namespace s, sube_reason s)) s.

Definition unsubscribe_test : result (list bool) :=
  qnamespace ← test_namespace;
  let us := mkUnsubscribe 0 qnamespace in
  encode_decode (put_Unsubscribe us) (get_Unsubscribe us) unsub_namespace us.

Definition publish_intent_test : result (list bool) :=
  qnamespace ← test_namespace;
  media_id ← uintVar 0x0100; datagram_capable ← uintVar 0x0000;
  let pi := mkPublishIntent MessageType.Publish 0x1000 qnamespace [0; 1; 2; 3; 4]
              media_id datagram_capable in
  encode_decode (put_PublishIntent pi) get_PublishIntent
    (fun p => (pi_message_type p, pi_transaction_id p, pi_namespace p, pi_payload p,
               pi_media_id p, pi_datagram_capable p)) pi.

Definition publish_intent_response_test : result (list bool) :=
  let pir := mkPublishIntentResponse MessageType.Publish (mkNamespace (mkName 0 0) 0)
               Response.Ok 0x1000 in
  encode_decode (put_PublishIntentResponse pir) get_PublishIntentResponse
    (fun p => (pir_message_type p, pir_response p, pir_transaction_id p)) pir.

Definition publish_test : result (list bool) :=
  qn ← name_lit "0x10000000000000002000";
  media ← uintVar 0x1000; group ← uintVar 0x0100; object ← uintVar 0x0010;
  offset ← uintVar 0x0001; len ← uintVar 256;
  let data := seqZ 0 256 in
  let p := mkPublishDatagram (mkHeader media qn group object offset 0x0000)
             MediaType.Text len data in
  encode_decode (put_PublishDatagram p) get_PublishDatagram
    (fun p => let h := header p in
      (media_id h, group_id h, object_id h, offset_and_fin h, flags h,
       media_type p, media_data_length p, media_data p)) p.

Definition publish_stream_test : result (list bool) :=
  len ← uintVar 5;
  let ps := mkPublishStream len [0; 1; 2; 3; 4] in
  encode_decode (put_PublishStream ps) get_PublishStream
    (fun p => (ps_media_data_length p, ps_media_data p)) ps.

Definition publish_intent_end_test : result (list bool) :=
  name ← name_lit "12345"; ns ← make_Namespace name 0;
  let pie := mkPublishIntentEnd MessageType.Publish ns [0; 1; 2; 3; 4] in
  encode_decode (put_PublishIntentEnd pie) get_PublishIntentEnd
    (fun p => (pie_message_type p, pie_namespace p, pie_payload p)) pie.

(** Each value in turn, through one buffer. *)
Fixpoint varint_loop (values : list Z) (buffer : bytes) : result (list bool) :=
  match values with
  | [] => mret []
  | x :: values' =>
      value ← uintVar x;
      let '(r, buffer') := (put_uintVar value;; get_uintVar) buffer in
      out ← r;
      checks ← varint_loop values' buffer';
      mret (uintVar_neqb out 0 :: checks)
  end.
Definition varint_test : result (list bool) := varint_loop [128; 16384; 536870912] [].

(** ** quicr_client.cpp, over the transport of fake_transport.h *)

(** [FakeTransport::stored_data] *)
Definition stored_data (x : list Packet) : bytes :=
  match list.last x with Some p => pkt_data p | None => [] end.

(** [QuicRClient(transport)]: its context id is never initialised ([cid]). *)
Definition client_subscribe_test (cid draw : Z) : result (list bool) :=
  ns ← test_namespace;
  let qclient := QuicRClient.QuicRClient_transport cid [] 1 in
  let '(r, qclient') := QuicRClient.subscribe (Tr := FakeTransport) None ns
                          SubscribeIntent.wait_up draw qclient in
  r;;
  s ← (get_Subscribe old_Subscribe (stored_data (QuicRClient.tx qclient'))).1;
  mret [equal (sub_transaction_id s) (sub_transaction_id s); equal (sub_namespace s) ns;
        equal (sub_intent s) SubscribeIntent.wait_up].

Definition client_publish_test (cid : Z) : result (list bool) :=
  name ← name_lit "0x10000000000000002000";
  let say_hello := map char_code (lit "HELL0") in
  let qclient := QuicRClient.QuicRClient_transport cid [] 1 in
  let '(r, qclient') := QuicRClient.publishNamedObject (Tr := FakeTransport) name say_hello qclient in
  r;;
  d ← (get_PublishDatagram (stored_data (QuicRClient.tx qclient'))).1;
  mret [equal (media_data d) say_hello].

End tests.

Lemma name_tests_pass :
  forallb passes [name_constructor_test; name_to_hex_test;
    name_shift_test (T := strict_little); name_arithmetic_test; name_bitwise_not_test;
    name_byte_array_test (T := strict_little); name_logical_test] = true.
Proof. vm_compute. reflexivity. Qed.

Lemma hexendec_tests_pass :
  forallb passes [hexendec_256_test (T := strict_little); hexendec_128_test (T := strict_little);
    hexendec_64_test (T := strict_little); hexendec_throw_test (T := strict_little);
    hexendec_name_test (T := strict_little)] = true.
Proof. vm_compute. reflexivity. Qed.

Lemma namespace_tests_pass :
  forallb passes [namespace_names_test (T := strict_little);
    namespace_namespaces_test (T := strict_little)] = true.
Proof. vm_compute. reflexivity. Qed.

Lemma encode_tests_pass :
  forallb passes [decode_exception_test (T := strict_little); subscribe_test (T := strict_little);
    subscribe_response_test (T := strict_little); subscribe_end_test (T := strict_little);
    unsubscribe_test (T := strict_little); publish_intent_test (T := strict_little);
    publish_intent_response_test (T := strict_little); publish_test (T := strict_little);
    publish_stream_test; publish_intent_end_test (T := strict_little); varint_test] = true.
Proof. vm_compute. reflexivity. Qed.

Lemma client_tests_pass :
  forallb passes [client_subscribe_test (T := strict_little) 0xABCD 0x1234;
    client_publish_test (T := strict_little) 0xABCD] = true.
Proof. vm_compute. reflexivity. Qed.
End UnitTests.
